(* ===== verification/_CoqProject ===== *)
-Q . S2P
Prelude.v
Externals.v
Primitives.v
Storage.v
StateStore.v
Crypto.v
Vm.v
VmTheorems.v
VmProperties.v
ValidatorSet.v
Tokenomics.v
Protocol.v
Web.v
TextForms.v
Rpc.v
Grpc.v
Explorer.v
Webhooks.v
Sdk.v
Faucet.v
NodeServices.v
Mempool.v
Rewards.v
Bft.v
BftTheorems.v
BftProperties.v
Engines.v
Sandbox.v
Network.v
Tcp.v
TcpNetwork.v
TcpWire.v
NodeConfig.v
Http.v
Servers.v
ServerObjects.v
Binaries.v
NodeLoops.v
Cluster.v
ClusterLiveness.v
TcpCluster.v
NodeStartup.v
Testnet.v
ServicesStart.v
NodeProcess.v
Topology.v
Cli.v
Demo.v
RpcProperties.v
Settlement.v
DemoSettles.v
ServiceScenario.v
SystemScenario.v
NetworkScenario.v
CoreTests.v
ServiceTests.v
TcpRun.v
