(* ===== verification/Prelude.v ===== *)
(** * PEMRIX: a verification development

    ** The program

    PEMRIX is a proof-of-stake blockchain node written in Rust, a workspace of
    crates under [src/crates] and a node under [src/node/pemrix-node].  A
    transaction is signed by a wallet ([pemrix-sdk]), accepted by an RPC server
    ([pemrix-rpc]) or made by the faucet ([pemrix-faucet]), put in a block by a
    consensus engine ([pemrix-consensus]), which runs it through the executors
    ([pemrix-vm]) on a state store ([pemrix-storage]).  Validators exchange blocks
    and votes over TCP ([pemrix-network]) and finalize a block when a quorum has
    voted.  Finalized blocks are replayed into the state of the RPC server, the
    explorer ([pemrix-explorer]) and the webhook service ([pemrix-webhooks]).  The
    sandbox ([pemrix-sandbox]) is the same pipeline in one object, and the command
    line ([pemrix-cli]) starts nodes, testnets and services and submits staking
    operations over HTTP.

    ** How the code is rendered

    - A [Result] is an [outcome]: [Ok], [Err], or [Panic] (an unwinding panic:
      checked arithmetic, [expect], indexing).  A method on [&mut self] is a
      function of the monad [M S E], that is [S → outcome E A * S], so that what
      an operation changed before it failed is visible; [zoom] runs a method on a
      field, [forM] is the loop [for x in xs { body(x)?; }].
    - Machine integers are [N] with the bounds [U16], [U32], [U64], [U128]:
      [uadd], [usub], [umul] overflow as the build [Profile] says (panic in
      [dev], wrap in release), [saturating_add] and [saturating_sub] saturate,
      [as_uint] truncates.
    - [BTreeMap] and [HashMap] are [gmap]; [btree_iter] lists a [BTreeMap] in the
      order of its keys ([KeyOrd]); an iteration over a [HashMap] whose order
      matters takes the order as a parameter.
    - State behind one mutex is a record; a method that locks it once is an atomic
      function of it.  Where two tasks interleave ([node.rs]) the sections under
      one lock are the steps of a relation.
    - The clock, random bytes and environment variables are arguments.
    - Code outside the repository (BLAKE3, hexadecimal, [serde_json],
      [ed25519-dalek], HMAC, socket addresses, axum's routing, reqwest) is a
      parameter, a type class; what is relied on (an encoding decodes to what was
      encoded, a signature verifies, a path matches the route it is written for)
      is a separate class of laws.  Modules [Reference], [ReferenceDb],
      [ReferenceJson], [ReferenceHttp] and the scenario files give an instance of
      each, on which every theorem with hypotheses is instantiated.
    - A network of validators is a map from addresses to the states of their
      loops ([cluster_step]): a message broadcast by one may reach any validator
      it is linked to at any later time, any number of times, or never.

    ** The files

    - [Prelude]: outcomes, the state monad, machine integers, maps in key order;
      [sim] (two stores answer a method alike) and [keeps] (a method keeps an
      invariant) with their rules and hint databases.
    - [Externals]: the classes for code outside the repository.
    - [Primitives] ([pemrix-primitives]): hashes, addresses, accounts,
      transactions, blocks, staking records.  [Tokenomics]: the issuance schedule.
    - [Storage] ([backend.rs]): the trait [StateBackend], both backends, and the
      contract [BackendLaws].  [StateStore] ([state.rs]): the store over any
      backend, the interface [Store], and its abstract specification [Ledger], a
      record of accounts, validator records and delegations.
    - [Crypto] ([pemrix-crypto]): Ed25519 and the hybrid scheme.
    - [Vm] ([pemrix-vm]): the executors.  [VmTheorems]: their effect on a ledger;
      [VmProperties]: the theorems for a store over any lawful backend.
    - [ValidatorSet], [Mempool], [Rewards], [Bft] ([pemrix-consensus]): the
      committee, the mempool, rewards and slashing, the two engines.
      [BftTheorems], [BftProperties]: the engine's calls as a step relation,
      the invariants and the theorems.  [Engines]: the traits [Vm], [Mempool] and
      [ConsensusEngine] with what their users rely on, and the constructors.
    - [Protocol] ([pemrix-protocol], [pemrix-ports]): constants and parameters.
    - [Web]: integer parsing, JSON values, status codes.  [TextForms]: hashes,
      addresses and amounts as JSON strings.  [Rpc], [Grpc]
      ([pemrix-rpc]), [Explorer], [Webhooks], [Faucet], [Sdk]: the services and
      the wallet.  [NodeServices]: the replay of blocks into the services.
      [RpcProperties]: what acceptance by an endpoint promises.
    - [Sandbox] ([pemrix-sandbox]).
    - [Network], [Tcp] ([pemrix-network]): messages, transports, framing and the
      slot table.  [TcpNetwork]: all tasks of several TCP transports connected to
      each other, and the books each keeps; [TcpWire]: what they carry.
    - [NodeConfig], [NodeLoops], [NodeStartup] ([pemrix-node]): files and
      configurations, the loops of a validator, start-up and bootstrap.
      [Cluster], [ClusterLiveness]: validators running these loops together;
      [TcpCluster]: the same on their TCP transports.
    - [Testnet] ([pemrix-testnet], [testnet.rs], [services.rs]): the local
      preset, the solo block loop, polling.  [ServicesStart]: the set-up of the
      testnets and of the services, the collector, a validator's RPC state.
      [Topology]: the networks [testnet.rs] and [bootstrap.rs] set up.
      [NodeProcess]: a whole validator process, its loops and its RPC server at
      work together.
    - [Http]: requests, routes, extractors and answers over axum.  [Servers]: the
      four routers and the SDK's HTTP clients over reqwest.  [ServerObjects]: the
      server structs and their start-up.  [Binaries]: the three service binaries.
    - [Cli] ([main.rs]), [Demo] ([demo.rs]) ([pemrix-cli]).  [Settlement]: a
      payment from the SDK's client through the solo testnet and back.
      [DemoSettles]: the demo and the testnet's process as one system, with the
      clock both sleep on.
    - [ServiceScenario], [SystemScenario], [NetworkScenario]: concrete runs.
    - [CoreTests], [ServiceTests]: the repository's unit tests as programs, run on
      the reference instances.  [TcpRun]: the steps of [TcpNetwork] as a function,
      and with it the tests of [tcp.rs] and [bft_over_tcp.rs] under schedules.

    Definitions keep the names of the code; a method whose name is taken twice
    lives in a module named after its type ([RpcState.height]) or carries a prefix
    ([mempool_add], [solo_propose], [keys_load]).

    ** What is shown

    Execution ([VmProperties], [StateStore]).  Every operation of the block
    executor refines the same operation on the abstract ledger, whatever the
    backend; it conserves the supply up to the fee, changes only what the
    sender's signature authorizes, cannot be replayed, is atomic up to the fee
    when it fails, and does what a transfer should.  Delegating and undelegating
    are inverse; the native executor agrees with the block executor on transfers.

    Consensus ([BftProperties], [ValidatorSet]).  Under any sequence of calls the
    finalized blocks form a chain of consecutive heights, finality is permanent,
    a finalized block has a quorum of recorded votes, the blocks two engines finalize at
    a height with at most a third of the power faulty are the same, a validator votes once per
    height, and enough votes finalize.  The active set is the stake-ordered prefix
    of eligible validators, and each validator proposes once per rotation.

    A committee ([Cluster], [ClusterLiveness], [Topology]).  Validators that run
    the code agree on every height both have finalized, however messages are
    delayed, repeated, reordered or lost; for a fully linked committee of two or more
    there is a schedule of whole turns, with no message delivered twice, that
    reaches any height, and so there is for the local testnet of two (a vote that
    arrives before its block is dropped, so not every schedule does); the line of validators that the
    local testnet and bootstrap set up stops after one block when it has three or
    more, so that the test of [testnet_cluster.rs] cannot pass.

    The node ([NodeLoops], [NodeStartup]).  Whatever the interleaving of
    the two loops, the blocks reported on the channels are finalized ones, none
    twice.  A node starts from the ledger its genesis describes; bootstrap writes
    a genesis with exactly the accounts asked for, and those it funds for the
    other validators, and configurations that read back.  Whatever a client reads from a validator over
    HTTP is final, however the process's tasks and the requests of other clients
    interleave ([NodeProcess]).

    Transport ([Tcp], [TcpNetwork], [TcpWire]).  Framing loses nothing; peers that
    dial each other keep the same socket.  However the tasks of connected
    transports interleave and wherever connections break, slots and dials are
    accounted for exactly, and only messages that were sent arrive, whole, along
    links that configurations ask for.  Validators on such transports are a
    network in the sense of [Cluster] ([TcpCluster]), with
    [Topology.tcp_links_connected] relating the links to the configurations.

    Services ([RpcProperties], [NodeServices], [Explorer], [Webhooks], [Faucet],
    [Sdk], [Sandbox]).  A transfer the REST endpoint accepts executes on the state
    the mirror shows; ingestion keeps the mirror equal to the ledger while every
    transfer is charged in full or not at all; explorer and RPC agree; an event
    reaches each active subscriber once; the faucet pays what was asked, within
    its limits; a wallet's transactions verify; the sandbox's blocks form a chain.
    The services process ingests exactly the blocks its validator reports, once
    and in order, as long as they can be fetched ([Testnet]).  The HTTP
    client over the RPC server's router refines the state's own operations
    ([Servers]); each staking command reaches the ledger as the operation it was
    asked for, from its arguments on ([Cli]); a payment submitted over HTTP to the solo testnet is
    executed once, in the next block, and shows in the balances the client then
    reads, in that turn and every later one ([Settlement]); the demo ends ([Demo]),
    without a panic as long as the balances it reads leave room for the payment,
    and, against a solo testnet that is running, succeeds ([DemoSettles]).

    Economics ([Tokenomics], [Rewards]).  Total issuance is the sum of the block
    rewards, for a schedule that starts above its floor or does not grow; rewards are distributed without creating tokens; slashing, jailing
    and release do what they say.

    Where the code does not do what it means to, the theorem says what it does:
    votes for one block count for another of the same height; validators that
    only follow never execute a block; blocks of a committee are always empty; a
    restart forgets what genesis accounts spent; the testnet repeats pending
    transactions and is stopped by one gRPC submission; mirrors and the faucet
    lose track of nonces.

    ** Fuel and bounds

    Three loops are by fuel.  [read_messages] gets one unit more than the bytes of
    the stream, of which each turn takes at least four ([read_stream] is proved
    to answer).  [issued_loop], the loop of [total_issued_by_height], gets one
    unit more than the decay steps of the schedule up to the height, and is
    proved equal to the sum it stands for.  [decay_loop] recurses on the number
    of decay steps itself.  [settle], the polling loop of the demo, takes at most
    sixteen rounds of at least two seconds before its timeout of thirty, and is
    proved to answer with that much; against a running testnet two rounds are
    enough.  [wd_sleep] looks at the block loop once more than its pauses fit in
    the sleep, which is proved to leave no turn due.  [production_loop] and [poll_turns] recurse
    on the turns the schedule grants them.

    Theorems about machine integers carry the bounds under which no overflow
    happens: nonces and heights below [U64], a supply below [U128], voting powers
    whose double fits [U64]; where the build profile decides, the theorem covers
    both profiles.

    ** What is not modelled

    Sockets, timers between turns, task spawning, logging, the shutdown signal;
    the insides of axum, tonic, reqwest and clap; the SDKs in other languages;
    scripts and service units.  The layout of RocksDB files is below the interface
    [StateBackend].  Signatures are not assumed unforgeable: theorems speak of
    transactions whose signature verifies.

    ** Plan

    Next: progress of a committee over TCP (a run of [TcpCluster] for each run of
    [Cluster] that delivers in order); the explorer's and webhook service's
    routers end to end. *)

From Stdlib Require Import Strings.Byte.
From stdpp Require Export prelude gmap strings sorting.

#[global] Set Default Goal Selector "!".

(** ** Outcomes of Rust code

    [Ok]/[Err] are the constructors of [Result]; [Panic] is an unwinding panic
    (arithmetic overflow with overflow checks, a failed [assert!], an
    out-of-bounds index). *)

Inductive outcome (E A : Type) : Type :=
| Ok (a : A)
| Err (e : E)
| Panic.
Arguments Ok {E A} a.
Arguments Err {E A} e.
Arguments Panic {E A}.

#[export] Instance outcome_ret E : MRet (outcome E) := λ A a, Ok a.
#[export] Instance outcome_bind E : MBind (outcome E) := λ A B f m,
  match m with Ok a => f a | Err e => Err e | Panic => Panic end.
#[export] Instance outcome_fmap E : FMap (outcome E) := λ A B f m,
  match m with Ok a => Ok (f a) | Err e => Err e | Panic => Panic end.

Lemma outcome_bind_Ok {E A B} (m : outcome E A) (f : A → outcome E B) b :
  m ≫= f = Ok b ↔ ∃ a, m = Ok a ∧ f a = Ok b.
Proof. destruct m; cbn; naive_solver. Qed.

(** [Option::ok_or] *)
Definition ok_or {E A} (o : option A) (e : E) : outcome E A :=
  match o with Some a => Ok a | None => Err e end.

(** [Result::map_err] *)
Definition map_err {E F A} (f : E → F) (m : outcome E A) : outcome F A :=
  match m with Ok a => Ok a | Err e => Err (f e) | Panic => Panic end.

Definition is_ok {E A} (m : outcome E A) : bool :=
  match m with Ok _ => true | _ => false end.

(** ** Methods taking [&mut self]

    A method runs on the current state and returns its outcome together with
    the state it leaves behind.  As in Rust, an early [Err] return keeps every
    mutation made before it. *)

Definition M (S E A : Type) : Type := S → outcome E A * S.

#[export] Instance M_ret S E : MRet (M S E) := λ A a s, (Ok a, s).
#[export] Instance M_bind S E : MBind (M S E) := λ A B f m s,
  match m s with
  | (Ok a, s') => f a s'
  | (Err e, s') => (Err e, s')
  | (Panic, s') => (Panic, s')
  end.

(** A pure outcome inside a method. *)
Definition lift {S E A} (o : outcome E A) : M S E A := λ s, (o, s).
(** A method taking [&self]. *)
Definition reads {S E A} (f : S → outcome E A) : M S E A := λ s, (f s, s).
Definition gets {S E A} (f : S → A) : M S E A := λ s, (Ok (f s), s).
Definition modify {S E} (f : S → S) : M S E unit := λ s, (Ok tt, f s).
Definition fail {S E A} (e : E) : M S E A := λ s, (Err e, s).
Definition map_errM {S E F A} (f : E → F) (m : M S E A) : M S F A :=
  λ s, let '(r, s') := m s in (map_err f r, s').

(** Run a method on a field of a larger object. *)
Definition zoom {S T E A} (get : T → S) (set : S → T → T) (m : M S E A) : M T E A :=
  λ t, let '(r, s') := m (get t) in (r, set s' t).

(** The Rust loop [for x in xs { body(x)?; }]. *)
Fixpoint forM {S E A} (body : A → M S E unit) (xs : list A) : M S E unit :=
  match xs with
  | [] => mret tt
  | x :: xs => body x ≫= λ _, forM body xs
  end.

Section monad_laws.
Context {S E A B C : Type}.
Lemma bind_Ok (a : A) (f : A → M S E B) (s s' : S) (m : M S E A) :
  m s = (Ok a, s') → (m ≫= f) s = f a s'.
Proof. intros Hm. unfold mbind, M_bind. by rewrite Hm. Qed.
Lemma bind_Err e (f : A → M S E B) (s s' : S) (m : M S E A) :
  m s = (Err e, s') → (m ≫= f) s = (Err e, s').
Proof. intros Hm. unfold mbind, M_bind. by rewrite Hm. Qed.
Lemma bind_ret (a : A) (f : A → M S E B) s : ((mret a : M S E A) ≫= f) s = f a s.
Proof. done. Qed.
Lemma bind_lift (o : outcome E A) (f : A → M S E B) s :
  ((lift o : M S E A) ≫= f) s =
  match o with Ok a => f a s | Err e => (Err e, s) | Panic => (Panic, s) end.
Proof. by destruct o. Qed.
Lemma bind_Ok_inv (m : M S E A) (f : A → M S E B) (s s' : S) (b : B) :
  (m ≫= f) s = (Ok b, s') → ∃ a s1, m s = (Ok a, s1) ∧ f a s1 = (Ok b, s').
Proof.
  unfold mbind, M_bind. destruct (m s) as [[a|e|] s1]; [|done|done]. by eauto.
Qed.
End monad_laws.

(** A run from its outcome. *)
Lemma pair_run {A B : Type} (p : A * B) x : p.1 = x → p = (x, p.2).
Proof. destruct p. by intros <-. Qed.

(** ** Simulation of methods

    [sim R m n]: run in states related by [R], the methods [m] and [n] return
    the same outcome and leave related states behind. *)

Definition sim {S T} (R : S → T → Prop) {E A} (m : M S E A) (n : M T E A) : Prop :=
  ∀ s t, R s t → (m s).1 = (n t).1 ∧ R (m s).2 (n t).2.
Definition sim_read {S T} (R : S → T → Prop) {E A}
    (f : S → outcome E A) (g : T → outcome E A) : Prop :=
  ∀ s t, R s t → f s = g t.

Create HintDb sim.

Section sim.
Context {S T : Type} (R : S → T → Prop) {E : Type}.

Lemma sim_ret {A} (a : A) : sim R (mret a : M S E A) (mret a).
Proof. by intros s t HR. Qed.
Lemma sim_lift {A} (o : outcome E A) : sim R (lift o) (lift o).
Proof. by intros s t HR. Qed.
Lemma sim_fail {A} (e : E) : sim R (fail e : M S E A) (fail e).
Proof. by intros s t HR. Qed.
Lemma sim_reads {A} (f : S → outcome E A) (g : T → outcome E A) :
  sim_read R f g → sim R (reads f) (reads g).
Proof. intros Hfg s t HR. by split; [apply Hfg|]. Qed.
Lemma sim_bind {A B} (m : M S E A) (n : M T E A) (f : A → M S E B) (g : A → M T E B) :
  sim R m n → (∀ a, sim R (f a) (g a)) → sim R (m ≫= f) (n ≫= g).
Proof.
  intros Hmn Hfg s t HR. destruct (Hmn s t HR) as [Hr HR']. unfold mbind, M_bind.
  destruct (m s) as [r s'], (n t) as [r' t']; simpl in *. subst r'.
  destruct r as [a|e|]; simpl; [by apply Hfg|done..].
Qed.
Lemma sim_if {A} (b : bool) (m m' : M S E A) (n n' : M T E A) :
  sim R m n → sim R m' n' → sim R (if b then m else m') (if b then n else n').
Proof. by destruct b. Qed.
Lemma sim_map_err {F A} (h : E → F) (m : M S E A) (n : M T E A) :
  sim R m n → sim R (map_errM h m) (map_errM h n).
Proof.
  intros Hmn s t HR. destruct (Hmn s t HR) as [Hr HR']. unfold map_errM.
  destruct (m s), (n t); simpl in *. by subst.
Qed.
Lemma sim_forM {A} (f : A → M S E unit) (g : A → M T E unit) xs :
  (∀ x, sim R (f x) (g x)) → sim R (forM f xs) (forM g xs).
Proof.
  intros Hfg. induction xs as [|x xs IH]; [apply sim_ret|]. by apply sim_bind.
Qed.
End sim.
#[export] Hint Resolve sim_ret sim_lift sim_fail sim_reads sim_map_err sim_forM : sim.

(** Decompose a simulation goal along the structure of the two methods. *)
Ltac simulate :=
  repeat first
    [ progress intros
    | solve [eauto 3 with sim]
    | apply sim_bind
    | apply sim_map_err
    | apply sim_if
    | match goal with
      | |- sim _ (match ?x with _ => _ end) (match ?x with _ => _ end) => destruct x
      end ].

(** ** Invariants of methods

    [keeps I m Q]: run in a state satisfying [I], the method [m] leaves a state
    satisfying [I], whatever its outcome, and a value it returns satisfies [Q]. *)

Definition keeps {S} (I : S → Prop) {E A} (m : M S E A) (Q : A → Prop) : Prop :=
  ∀ s, I s → I (m s).2 ∧ ∀ a, (m s).1 = Ok a → Q a.

Create HintDb keeps.

Section keeps.
Context {S : Type} (I : S → Prop) {E : Type}.

Lemma keeps_ret {A} (a : A) (Q : A → Prop) : Q a → keeps I (mret a : M S E A) Q.
Proof. intros HQ s HI. split; [done|]. by intros b [= <-]. Qed.
Lemma keeps_lift {A} (o : outcome E A) : keeps I (lift o) (λ a, o = Ok a).
Proof. by intros s HI. Qed.
Lemma keeps_fail {A} (e : E) (Q : A → Prop) : keeps I (fail e : M S E A) Q.
Proof. by intros s HI. Qed.
Lemma keeps_gets {A} (f : S → A) : keeps I (gets f : M S E A) (λ _, True).
Proof. by intros s HI. Qed.
Lemma keeps_reads {A} (f : S → outcome E A) : keeps I (reads f) (λ _, True).
Proof. by intros s HI. Qed.
Lemma keeps_modify (f : S → S) : (∀ s, I s → I (f s)) → keeps I (modify f : M S E unit) (λ _, True).
Proof. intros Hf s HI. split; [by apply Hf|done]. Qed.
Lemma keeps_bind {A B} (m : M S E A) (f : A → M S E B) (Q : A → Prop) (Q' : B → Prop) :
  keeps I m Q → (∀ a, Q a → keeps I (f a) Q') → keeps I (m ≫= f) Q'.
Proof.
  intros Hm Hf s HI. destruct (Hm s HI) as [HI' HQ]. unfold mbind, M_bind.
  destruct (m s) as [[a|e|] s']; simpl in *; [|done..]. apply Hf; [by apply HQ|done].
Qed.
Lemma keeps_weaken {A} (m : M S E A) (Q Q' : A → Prop) :
  keeps I m Q → (∀ a, Q a → Q' a) → keeps I m Q'.
Proof. intros Hm HQ s HI. destruct (Hm s HI). eauto. Qed.
Lemma keeps_if {A} (b : bool) (m n : M S E A) Q :
  (b = true → keeps I m Q) → (b = false → keeps I n Q) → keeps I (if b then m else n) Q.
Proof. destruct b; auto. Qed.
Lemma keeps_zoom {T A} (get : S → T) (set : T → S → S) (m : M T E A) :
  (∀ t s, I s → I (set t s)) → keeps I (zoom get set m) (λ _, True).
Proof. intros Hset s HI. unfold zoom. destruct (m (get s)). split; [by apply Hset|done]. Qed.
End keeps.

(** ** Machine integers

    An unsigned Rust integer of width [w] is a number [n : N] with
    [n ≤ MAX], where [MAX = 2^w - 1]. *)

Definition U8 : N := 255.
Definition U16 : N := 65535.
Definition U32 : N := 4294967295.
Definition U64 : N := 18446744073709551615.
Definition U128 : N := 340282366920938463463374607431768211455.
(** The node targets 64-bit hosts. *)
Definition USIZE : N := U64.

(** Whether the build has overflow checks: the [dev] profile of Cargo.toml
    does, the [release] profile does not and wraps around. *)
Class Profile := overflow_checks : bool.

Definition overflow {E} `{Profile} (wrapped : N) : outcome E N :=
  if overflow_checks then Panic else Ok wrapped.

(** The operators [+], [-], [*] on an unsigned type with maximum [max]. *)
Definition uadd {E} `{Profile} (max a b : N) : outcome E N :=
  if (a + b <=? max)%N then Ok (a + b)%N else overflow ((a + b) mod (max + 1))%N.
Definition usub {E} `{Profile} (max a b : N) : outcome E N :=
  if (b <=? a)%N then Ok (a - b)%N else overflow (max + 1 + a - b)%N.
Definition umul {E} `{Profile} (max a b : N) : outcome E N :=
  if (a * b <=? max)%N then Ok (a * b)%N else overflow ((a * b) mod (max + 1))%N.

Definition checked_add (max a b : N) : option N :=
  if (a + b <=? max)%N then Some (a + b)%N else None.
Definition saturating_add (max a b : N) : N := N.min (a + b) max.
Definition saturating_mul (max a b : N) : N := N.min (a * b) max.
Definition saturating_sub (a b : N) : N := (a - b)%N.
(** [n as uW]: truncation to the low bits. *)
Definition as_uint (max n : N) : N := (n mod (max + 1))%N.

Section ints.
Context {E : Type} `{Profile}.
Local Open Scope N_scope.
Lemma uadd_ok max a b : a + b ≤ max → uadd (E:=E) max a b = Ok (a + b).
Proof. intros. unfold uadd. by rewrite (proj2 (N.leb_le _ _)). Qed.
Lemma usub_ok max a b : b ≤ a → usub (E:=E) max a b = Ok (a - b).
Proof. intros. unfold usub. by rewrite (proj2 (N.leb_le _ _)). Qed.
Lemma umul_ok max a b : a * b ≤ max → umul (E:=E) max a b = Ok (a * b).
Proof. intros. unfold umul. by rewrite (proj2 (N.leb_le _ _)). Qed.
Lemma uadd_range max a b c : uadd (E:=E) max a b = Ok c → c ≤ max.
Proof.
  unfold uadd, overflow. destruct (N.leb_spec (a + b) max); intros Heq.
  - by simplify_eq.
  - destruct overflow_checks; simplify_eq.
    pose proof (N.mod_lt (a + b) (max + 1)). lia.
Qed.
Lemma checked_add_Some max a b c :
  checked_add max a b = Some c ↔ c = a + b ∧ a + b ≤ max.
Proof. unfold checked_add. destruct (N.leb_spec (a + b) max); naive_solver lia. Qed.
Lemma checked_add_None max a b : checked_add max a b = None ↔ max < a + b.
Proof. unfold checked_add. destruct (N.leb_spec (a + b) max); naive_solver lia. Qed.
Lemma saturating_add_le max a b : saturating_add max a b ≤ max.
Proof. unfold saturating_add. lia. Qed.
Lemma saturating_add_exact max a b : a + b ≤ max → saturating_add max a b = a + b.
Proof. unfold saturating_add. lia. Qed.
Lemma saturating_mul_exact max a b : a * b ≤ max → saturating_mul max a b = a * b.
Proof. unfold saturating_mul. lia. Qed.
End ints.

Create HintDb pmx.
#[export] Hint Rewrite @uadd_ok @usub_ok @umul_ok using lia : pmx.
#[export] Hint Resolve saturating_add_le : pmx.

(** ** Bytes *)

Notation byte := Byte.byte.
Notation bytes := (list Byte.byte).

#[export] Instance byte_eq_dec : EqDecision byte := Byte.byte_eq_dec.
#[export] Program Instance byte_countable : Countable byte :=
  inj_countable Byte.to_N Byte.of_N _.
Next Obligation. intros b. apply Byte.of_to_N. Qed.

(** Lexicographic order of byte slices ([Ord for [u8]]). *)
Fixpoint bytes_leb (x y : bytes) : bool :=
  match x, y with
  | [], _ => true
  | _ :: _, [] => false
  | a :: x, b :: y =>
      if (Byte.to_N a <? Byte.to_N b)%N then true
      else if (Byte.to_N b <? Byte.to_N a)%N then false
      else bytes_leb x y
  end.

Lemma byte_to_N_inj a b : Byte.to_N a = Byte.to_N b → a = b.
Proof.
  intros Hab. apply (inj Some). by rewrite <-(Byte.of_to_N a), <-(Byte.of_to_N b), Hab.
Qed.

Lemma bytes_leb_total x y : bytes_leb x y = true ∨ bytes_leb y x = true.
Proof.
  revert y. induction x as [|a x IH]; intros [|b y]; simpl; auto.
  destruct (N.ltb_spec (Byte.to_N a) (Byte.to_N b)),
    (N.ltb_spec (Byte.to_N b) (Byte.to_N a)); auto.
Qed.
Lemma bytes_leb_antisym x y : bytes_leb x y = true → bytes_leb y x = true → x = y.
Proof.
  revert y. induction x as [|a x IH]; intros [|b y]; simpl; try done.
  destruct (N.ltb_spec (Byte.to_N a) (Byte.to_N b)),
    (N.ltb_spec (Byte.to_N b) (Byte.to_N a)); try done || lia.
  intros ??. f_equal; [|by apply IH]. apply byte_to_N_inj. lia.
Qed.
Lemma bytes_leb_trans x y z :
  bytes_leb x y = true → bytes_leb y z = true → bytes_leb x z = true.
Proof.
  revert y z. induction x as [|a x IH]; intros [|b y] [|c z]; simpl; try done.
  destruct (N.ltb_spec (Byte.to_N a) (Byte.to_N b)),
    (N.ltb_spec (Byte.to_N b) (Byte.to_N a)),
    (N.ltb_spec (Byte.to_N b) (Byte.to_N c)),
    (N.ltb_spec (Byte.to_N c) (Byte.to_N b)),
    (N.ltb_spec (Byte.to_N a) (Byte.to_N c)),
    (N.ltb_spec (Byte.to_N c) (Byte.to_N a)); try done || lia.
  apply IH.
Qed.

(** ** Ordered keys and [BTreeMap] iteration

    A [BTreeMap<K, V>] is a finite map [gmap K V] whose iteration order is the
    increasing order of the keys. *)

Class KeyOrd (K : Type) := {
  key_leb : K → K → bool;
  key_leb_total x y : key_leb x y = true ∨ key_leb y x = true;
  key_leb_trans x y z : key_leb x y = true → key_leb y z = true → key_leb x z = true;
  key_leb_antisym x y : key_leb x y = true → key_leb y x = true → x = y;
}.

#[export] Program Instance N_key_ord : KeyOrd N := {| key_leb := N.leb |}.
Next Obligation. intros. rewrite !N.leb_le. lia. Qed.
Next Obligation. intros ???. rewrite !N.leb_le. lia. Qed.
Next Obligation. intros ??. rewrite !N.leb_le. lia. Qed.

#[export] Instance bytes_key_ord : KeyOrd bytes := {|
  key_leb := bytes_leb;
  key_leb_total := bytes_leb_total;
  key_leb_trans := bytes_leb_trans;
  key_leb_antisym := bytes_leb_antisym;
|}.

Definition entry_le {K V} `{KeyOrd K} (x y : K * V) : Prop := key_leb x.1 y.1 = true.

#[export] Instance entry_le_dec {K V} `{KeyOrd K} : RelDecision (entry_le (K:=K) (V:=V)).
Proof. intros x y. unfold entry_le. apply _. Defined.
#[export] Instance entry_le_trans {K V} `{KeyOrd K} : Transitive (entry_le (K:=K) (V:=V)).
Proof. intros ???. unfold entry_le. apply key_leb_trans. Qed.
#[export] Instance entry_le_total {K V} `{KeyOrd K} : Total (entry_le (K:=K) (V:=V)).
Proof. intros ??. unfold entry_le. apply key_leb_total. Qed.

(** [BTreeMap::iter] *)
Definition btree_iter {K V} `{KeyOrd K, Countable K} (m : gmap K V) : list (K * V) :=
  merge_sort entry_le (map_to_list m).
(** [BTreeMap::keys] and [BTreeMap::values] *)
Definition btree_keys {K V} `{KeyOrd K, Countable K} (m : gmap K V) : list K :=
  (btree_iter m).*1.
Definition btree_values {K V} `{KeyOrd K, Countable K} (m : gmap K V) : list V :=
  (btree_iter m).*2.

Section btree.
Context {K V : Type} `{KeyOrd K, Countable K}.
Implicit Types m : gmap K V.

Lemma btree_iter_perm m : btree_iter m ≡ₚ map_to_list m.
Proof. apply merge_sort_Permutation. Qed.
Lemma elem_of_btree_iter m k v : (k, v) ∈ btree_iter m ↔ m !! k = Some v.
Proof. by rewrite btree_iter_perm, elem_of_map_to_list. Qed.
Lemma btree_iter_sorted m : StronglySorted entry_le (btree_iter m).
Proof. apply (StronglySorted_merge_sort entry_le). Qed.
Lemma btree_keys_NoDup m : NoDup (btree_keys m).
Proof.
  unfold btree_keys. rewrite btree_iter_perm. apply NoDup_fst_map_to_list.
Qed.
Lemma elem_of_btree_keys m k : k ∈ btree_keys m ↔ is_Some (m !! k).
Proof.
  unfold btree_keys. rewrite list_elem_of_fmap. split.
  - intros ([k' v] & -> & Hin). apply elem_of_btree_iter in Hin. eauto.
  - intros [v Hv]. exists (k, v). by rewrite elem_of_btree_iter.
Qed.
Lemma length_btree_keys m : length (btree_keys m) = size m.
Proof. unfold btree_keys. by rewrite length_fmap, btree_iter_perm, length_map_to_list. Qed.
Lemma btree_keys_empty : btree_keys (∅ : gmap K V) = [].
Proof. unfold btree_keys, btree_iter. by rewrite map_to_list_empty. Qed.
End btree.

Lemma StronglySorted_filter {A} (R : relation A) (P : A → Prop) `{∀ x, Decision (P x)} l :
  StronglySorted R l → StronglySorted R (filter P l).
Proof.
  induction 1 as [|x l Hl IH Hx]; [constructor|].
  rewrite filter_cons. case_decide; [|done]. constructor; [done|].
  rewrite Forall_forall in *. intros y Hy. apply Hx. by apply list_elem_of_filter in Hy as [_ ?].
Qed.
(** Sorted entry lists with distinct keys are determined by their elements. *)
Lemma sorted_entries_unique {K V} `{KeyOrd K} (l k : list (K * V)) :
  StronglySorted entry_le l → StronglySorted entry_le k →
  NoDup l.*1 → NoDup k.*1 → (∀ e, e ∈ l ↔ e ∈ k) → l = k.
Proof.
  intros Hl Hk Hnl Hnk Heq.
  apply (StronglySorted_unique_strong entry_le); [|done..|].
  - intros [k1 v1] [k2 v2] Hin1 Hin2%Heq Hle1 Hle2.
    assert (k1 = k2) as -> by by apply key_leb_antisym.
    f_equal. clear -Hin1 Hin2 Hnl.
    induction l as [|[a b] l IH]; [set_solver|]. simpl in *.
    apply NoDup_cons in Hnl as [Ha Hnl].
    assert (∀ v, (a, v) ∉ l) by (intros v Hv; apply Ha, (list_elem_of_fmap_2 fst _ _ Hv)).
    set_solver.
  - apply NoDup_Permutation; eauto using NoDup_fmap_1.
Qed.

(** ** Sums over finite maps *)

Definition map_sum {K V} `{Countable K} (f : K → V → N) (m : gmap K V) : N :=
  map_fold (λ k v acc, f k v + acc)%N 0%N m.

Section map_sum.
Context {K V : Type} `{Countable K} (f : K → V → N).
Implicit Types m : gmap K V.
Local Open Scope N_scope.

Lemma map_sum_empty : map_sum f ∅ = 0.
Proof. apply map_fold_empty. Qed.
Lemma map_sum_insert_new m k v : m !! k = None → map_sum f (<[k:=v]> m) = f k v + map_sum f m.
Proof. intros. unfold map_sum. rewrite map_fold_insert_L; [done| |done]. intros; lia. Qed.
Lemma map_sum_delete m k v : m !! k = Some v → map_sum f m = f k v + map_sum f (delete k m).
Proof.
  intros. unfold map_sum.
  rewrite (map_fold_delete_L (λ k v acc, f k v + acc) _ k v m); [done| |done]. intros; lia.
Qed.
(** Contribution of the binding of [k], zero when absent. *)
Definition at_key m k : N := match m !! k with Some v => f k v | None => 0 end.
Lemma map_sum_insert m k v : map_sum f (<[k:=v]> m) + at_key m k = f k v + map_sum f m.
Proof.
  unfold at_key. destruct (m !! k) as [v'|] eqn:Hk.
  - rewrite (map_sum_delete m k v') by done.
    rewrite <-insert_delete_eq, map_sum_insert_new by apply lookup_delete_eq. lia.
  - rewrite map_sum_insert_new by done. lia.
Qed.
Lemma map_sum_delete' m k : map_sum f (delete k m) + at_key m k = map_sum f m.
Proof.
  unfold at_key. destruct (m !! k) as [v|] eqn:Hk.
  - rewrite (map_sum_delete m k v) by done. lia.
  - rewrite delete_id by done. lia.
Qed.
Lemma map_sum_at_key m k : at_key m k ≤ map_sum f m.
Proof. rewrite <-(map_sum_delete' m k). lia. Qed.
End map_sum.

(** ** Lists *)
(** What no step of a loop changes, the loop does not change. *)
Lemma foldl_same {A B C} (p : A → C) (f : A → B → A) (l : list B) (x : A) :
  (∀ x y, p (f x y) = p x) → p (foldl f x l) = p x.
Proof. intros Hf. revert x. induction l as [|y l IH]; intros x; simpl; [done|]. by rewrite IH. Qed.

Definition sumN (l : list N) : N := foldr N.add 0%N l.

Lemma sumN_cons x l : sumN (x :: l) = (x + sumN l)%N.
Proof. done. Qed.
Lemma sumN_app l k : sumN (l ++ k) = (sumN l + sumN k)%N.
Proof. unfold sumN. induction l; simpl in *; lia. Qed.
#[export] Instance sumN_proper : Proper ((≡ₚ) ==> (=)) sumN.
Proof. unfold sumN. induction 1; simpl in *; lia. Qed.
Lemma sumN_le (l k : list N) : Forall2 N.le l k → (sumN l ≤ sumN k)%N.
Proof. unfold sumN. induction 1; simpl in *; lia. Qed.
Lemma sumN_replicate n x : sumN (replicate n x) = (N.of_nat n * x)%N.
Proof. unfold sumN. induction n; simpl in *; lia. Qed.
Lemma sumN_elem_le x l : x ∈ l → (x ≤ sumN l)%N.
Proof. unfold sumN. induction 1; simpl in *; lia. Qed.

Lemma map_sum_list {K V} `{Countable K} (f : K → V → N) (m : gmap K V) :
  map_sum f m = sumN (uncurry f <$> map_to_list m).
Proof.
  unfold map_sum. rewrite map_fold_foldr. unfold sumN.
  induction (map_to_list m) as [|[k v] l IH]; [done|]. cbn. by rewrite IH.
Qed.
Lemma map_sum_btree {K V} `{KeyOrd K, Countable K} (f : K → V → N) (m : gmap K V) :
  map_sum f m = sumN (uncurry f <$> btree_iter m).
Proof. by rewrite map_sum_list, btree_iter_perm. Qed.

Section map_sum_more.
Context {K V : Type} `{Countable K}.
Implicit Types (m : gmap K V) (f g : K → V → N).
Local Open Scope N_scope.
Lemma map_sum_mono f g m :
  (∀ k v, m !! k = Some v → f k v ≤ g k v) → map_sum f m ≤ map_sum g m.
Proof.
  induction m as [|k v m Hk IH] using map_ind; intros Hle; [by rewrite !map_sum_empty|].
  rewrite !map_sum_insert_new by done. apply N.add_le_mono.
  - apply Hle. apply lookup_insert_eq.
  - apply IH. intros k' v' Hk'. apply Hle. rewrite lookup_insert_ne by congruence. done.
Qed.
Lemma map_sum_ext f g m :
  (∀ k v, m !! k = Some v → f k v = g k v) → map_sum f m = map_sum g m.
Proof.
  intros Hfg. apply N.le_antisymm; apply map_sum_mono; intros k v Hk; rewrite (Hfg k v Hk); lia.
Qed.
Lemma map_sum_add f g m : map_sum (λ k v, f k v + g k v) m = map_sum f m + map_sum g m.
Proof.
  induction m as [|k v m Hk IH] using map_ind; [by rewrite !map_sum_empty|].
  rewrite !map_sum_insert_new, IH by done. lia.
Qed.
Lemma map_sum_zero m : map_sum (λ _ _, 0) m = 0.
Proof.
  induction m as [|k v m Hk IH] using map_ind; [by rewrite !map_sum_empty|].
  by rewrite map_sum_insert_new, IH by done.
Qed.
(** The sum with all bindings but that of [k] set to zero. *)
Lemma map_sum_at f m k :
  map_sum (λ k' v, if decide (k' = k) then f k' v else 0) m = at_key f m k.
Proof.
  induction m as [|k' v m Hk IH] using map_ind; [by rewrite map_sum_empty|].
  rewrite map_sum_insert_new, IH by done. unfold at_key. rewrite lookup_insert.
  repeat case_decide; subst; rewrite ?Hk; try done; lia.
Qed.
End map_sum_more.

(** The loop [iter.sum()] over an unsigned type. *)
Definition usum {E} `{Profile} (max : N) (l : list N) : outcome E N :=
  foldl (λ acc x, acc ← acc; uadd max acc x) (Ok 0%N) l.
Lemma usum_from {E} `{Profile} max acc l :
  (acc + sumN l ≤ max)%N →
  foldl (λ acc x, acc ← acc; uadd (E:=E) max acc x) (Ok acc) l = Ok (acc + sumN l)%N.
Proof.
  revert acc. induction l as [|x l IH]; intros acc Hle; simpl in *.
  - by rewrite N.add_0_r.
  - unfold sumN in *; simpl in *. rewrite uadd_ok by lia. rewrite IH by lia. f_equal. lia.
Qed.
Lemma usum_ok {E} `{Profile} max l : (sumN l ≤ max)%N → usum (E:=E) max l = Ok (sumN l).
Proof. intros. unfold usum. by rewrite usum_from. Qed.

(** ** Proof automation *)

(** Split a boolean comparison on [N] in the goal and record it for [lia]. *)
Ltac Ncases :=
  repeat match goal with
  | |- context [N.eqb ?a ?b] => destruct (N.eqb_spec a b)
  | |- context [N.ltb ?a ?b] => destruct (N.ltb_spec a b)
  | |- context [N.leb ?a ?b] => destruct (N.leb_spec a b)
  end.

(** Case analysis of the [match]es of a hypothesis that equates a run with its
    result, discarding the impossible branches. *)
Ltac run_in H :=
  repeat (case_match; simplify_eq/=; try done).
