(* ===== verification/Externals.v ===== *)
(** * Code outside the repository

    The crates the sources call without containing them ([blake3], [hex],
    [serde_json], [ed25519-dalek]) are parameters of the model, given as type
    classes.  What the code relies on of each is a separate class of laws, which
    states behaviour those crates document.  The module [Reference] gives a
    concrete instance of every class, so that theorems can be instantiated and
    the executable definitions run. *)

From Stdlib Require Import Strings.Byte.
From S2P Require Import Prelude.

(** ** Fixed-size arrays *)

(** [[u8; 32]] *)
Record array32 := Array32 {
  array32_bytes : bytes;
  array32_len : bool_decide (length array32_bytes = 32%nat) = true;
}.

(** [<[u8; 32]>::try_from(&[u8])] *)
Definition array32_try_from (l : bytes) : option array32 :=
  match decide (bool_decide (length l = 32%nat) = true) with
  | left Hl => Some (Array32 l Hl)
  | right _ => None
  end.

(** [[0u8; 32]] *)
Definition array32_zero : array32 := Array32 (replicate 32 x00) eq_refl.

Lemma array32_eq (a b : array32) : array32_bytes a = array32_bytes b → a = b.
Proof. destruct a, b; simpl. intros ->. f_equal. apply proof_irrel. Qed.
Lemma array32_length (a : array32) : length (array32_bytes a) = 32%nat.
Proof. destruct a as [l Hl]; simpl. by apply bool_decide_eq_true_1 in Hl. Qed.
Lemma array32_try_from_Some (l : bytes) (a : array32) :
  array32_try_from l = Some a ↔ l = array32_bytes a.
Proof.
  unfold array32_try_from. split.
  - case_decide; naive_solver.
  - intros ->. destruct a as [l Hl]; simpl. rewrite decide_True_pi with Hl. done.
Qed.
Lemma array32_try_from_None (l : bytes) :
  array32_try_from l = None ↔ length l ≠ 32%nat.
Proof.
  unfold array32_try_from. case_decide as Hl.
  - pose proof (bool_decide_eq_true_1 _ Hl). naive_solver.
  - rewrite bool_decide_eq_true in Hl. naive_solver.
Qed.

#[export] Instance array32_eq_dec : EqDecision array32.
Proof.
  refine (λ a b, cast_if (decide (array32_bytes a = array32_bytes b))).
  - by apply array32_eq.
  - congruence.
Defined.
#[export] Program Instance array32_countable : Countable array32 :=
  inj_countable array32_bytes array32_try_from _.
Next Obligation. intros a. by apply array32_try_from_Some. Qed.

(** ** The external crates *)

(** [blake3::hash] *)
Class Blake3 := blake3_hash : bytes → array32.

(** [hex::encode] and [hex::decode] *)
Class Hex := {
  hex_encode : bytes → string;
  hex_decode : string → option bytes;
}.
Definition hex_digits : list Ascii.ascii := String.list_ascii_of_string "0123456789abcdef".
(** [hex::encode] produces lower-case hexadecimal digits, two per byte, which
    [hex::decode] turns back into the bytes. *)
Class HexLaws `{Hex} : Prop := {
  hex_decode_encode b : hex_decode (hex_encode b) = Some b;
  hex_encode_digits b : Forall (λ c, c ∈ hex_digits) (String.list_ascii_of_string (hex_encode b));
  hex_encode_length b : String.length (hex_encode b) = (2 * length b)%nat;
}.

(** [serde_json::to_vec] and [serde_json::from_slice] at a type with derived
    (or hand-written) [Serialize] and [Deserialize] implementations.  [to_vec]
    fails only for a failing [Serialize] or a map with non-string keys, which
    none of the encoded types has. *)
Class Serde (A : Type) := {
  to_vec : A → bytes;
  from_slice : bytes → option A;
}.
Class SerdeLaws (A : Type) `{Serde A} : Prop :=
  from_slice_to_vec (x : A) : from_slice (to_vec x) = Some x.

#[export] Instance to_vec_inj `{SerdeLaws A} : Inj (=) (=) (to_vec (A:=A)).
Proof.
  intros x y Hxy. apply (inj Some). by rewrite <-!from_slice_to_vec, Hxy.
Qed.

(** [ed25519_dalek]: a signing key is 32 bytes; [verifying_key],
    [dalek_sign], [vk_from_bytes] and [dalek_verify] are
    [SigningKey::verifying_key], [Signer::sign], [VerifyingKey::from_bytes]
    (which may reject the bytes) and [Verifier::verify]. *)
Class Dalek := {
  verifying_key : array32 → array32;
  dalek_sign : array32 → bytes → bytes;
  vk_from_bytes : array32 → bool;
  dalek_verify : array32 → bytes → bytes → bool;
}.
Class DalekLaws `{Dalek} : Prop := {
  dalek_sign_length sk m : length (dalek_sign sk m) = 64%nat;
  verifying_key_valid sk : vk_from_bytes (verifying_key sk) = true;
  dalek_sign_verify sk m : dalek_verify (verifying_key sk) m (dalek_sign sk m) = true;
}.

(** ** Reference instances *)
Module Reference.

(** A hash that pads or truncates to 32 bytes. *)
Definition pad32 (b : bytes) : bytes := take 32 (b ++ replicate 32 x00).
Lemma pad32_len b : bool_decide (length (pad32 b) = 32%nat) = true.
Proof.
  apply bool_decide_eq_true. unfold pad32.
  rewrite length_take, length_app, length_replicate. lia.
Qed.
Definition ref_hash (b : bytes) : array32 := Array32 (pad32 b) (pad32_len b).
#[export] Instance ref_blake3 : Blake3 := ref_hash.

(** Hexadecimal. *)
Definition digit (n : nat) : Ascii.ascii := nth n hex_digits Ascii.zero.
Definition undigit (c : Ascii.ascii) : option nat := fst <$> list_find (λ d, d = c) hex_digits.
Fixpoint ref_hex_encode (b : bytes) : string :=
  match b with
  | [] => ""
  | x :: b =>
      let n := Byte.to_nat x in
      String (digit (n / 16)) (String (digit (n mod 16)) (ref_hex_encode b))
  end.
Fixpoint ref_hex_decode (s : string) : option bytes :=
  match s with
  | EmptyString => Some []
  | String h (String l s) =>
      h ← undigit h; l ← undigit l; x ← Byte.of_nat (16 * h + l);
      b ← ref_hex_decode s; Some (x :: b)
  | String _ EmptyString => None
  end.
#[export] Instance ref_hex : Hex :=
  {| hex_encode := ref_hex_encode; hex_decode := ref_hex_decode |}.
Lemma ref_hex_byte (x : byte) : ∃ h l,
  undigit (digit (Byte.to_nat x / 16)) = Some h ∧
  undigit (digit (Byte.to_nat x mod 16)) = Some l ∧ Byte.of_nat (16 * h + l) = Some x.
Proof. destruct x; eexists _, _; split_and!; reflexivity. Qed.
Lemma ref_hex_digit (x : byte) :
  digit (Byte.to_nat x / 16) ∈ hex_digits ∧ digit (Byte.to_nat x mod 16) ∈ hex_digits.
Proof. destruct x; split; apply (bool_decide_unpack _); exact I. Qed.
#[export] Instance ref_hex_laws : HexLaws.
Proof.
  split.
  - induction b as [|x b IH]; [done|].
    destruct (ref_hex_byte x) as (h & l & Hh & Hl & Hx).
    cbn [hex_encode hex_decode ref_hex ref_hex_encode ref_hex_decode] in *.
    by rewrite Hh, Hl; cbn [mbind option_bind]; rewrite Hx; cbn [mbind option_bind]; rewrite IH.
  - induction b as [|x b IH]; simpl; [constructor|].
    destruct (ref_hex_digit x) as [Hh Hl].
    apply Forall_cons; split; [exact Hh|]. apply Forall_cons; split; [exact Hl|exact IH].
  - induction b as [|x b IH]; [done|]. cbn [hex_encode ref_hex ref_hex_encode String.length length] in *. lia.
Qed.

(** Serialization of any countable type, one bit per byte. *)
Fixpoint pos_to_bytes (p : positive) : bytes :=
  match p with
  | xH => []
  | xO p => x00 :: pos_to_bytes p
  | xI p => x01 :: pos_to_bytes p
  end.
Fixpoint pos_of_bytes (b : bytes) : option positive :=
  match b with
  | [] => Some xH
  | x00 :: b => xO <$> pos_of_bytes b
  | x01 :: b => xI <$> pos_of_bytes b
  | _ => None
  end.
Lemma pos_of_to_bytes p : pos_of_bytes (pos_to_bytes p) = Some p.
Proof. induction p as [p IH|p IH|]; simpl; by rewrite ?IH. Qed.
#[export] Instance ref_serde `{Countable A} : Serde A := {|
  to_vec x := pos_to_bytes (encode x);
  from_slice b := p ← pos_of_bytes b; decode p;
|}.
#[export] Instance ref_serde_laws `{Countable A} : SerdeLaws A.
Proof. intros x. simpl. rewrite pos_of_to_bytes. apply decode_encode. Qed.

(** A signature is the signing key followed by a digest of the message. *)
Definition ref_sign (sk : array32) (m : bytes) : bytes :=
  array32_bytes sk ++ array32_bytes (ref_hash m).
#[export] Instance ref_dalek : Dalek := {|
  verifying_key sk := sk;
  dalek_sign := ref_sign;
  vk_from_bytes _ := true;
  dalek_verify pk m s := bool_decide (s = ref_sign pk m);
|}.
#[export] Instance ref_dalek_laws : DalekLaws.
Proof.
  split; simpl; intros; [|done|by apply bool_decide_eq_true_2].
  unfold ref_sign. by rewrite length_app, !array32_length.
Qed.

(** The [dev] build profile. *)
Definition dev : Profile := true.

End Reference.
