(* ===== verification/Primitives.v ===== *)
(** * Crate [pemrix-primitives]: canonical types and encoding

    Hashes, addresses, accounts, transactions, blocks and staking records of
    [crates/pemrix-primitives/src], with the parsing and printing of hashes and
    addresses and the hashing of transactions and block headers. *)

From Stdlib Require Import Strings.Byte.
From S2P Require Import Prelude.
From S2P Require Import Externals.

(** ** [hash.rs], [address.rs]: data *)

(** [struct Hash(pub [u8; 32])] *)
Record Hash := MkHash { hash_array : array32 }.
(** [struct Address(pub [u8; 32])] *)
Record Address := MkAddress { address_array : array32 }.

#[export] Instance Hash_eq_dec : EqDecision Hash.
Proof. solve_decision. Defined.
#[export] Instance Hash_countable : Countable Hash.
Proof.
  refine (inj_countable' hash_array MkHash _).
  by intros [].
Defined.
#[export] Instance Address_eq_dec : EqDecision Address.
Proof. solve_decision. Defined.
#[export] Instance Address_countable : Countable Address.
Proof.
  refine (inj_countable' address_array MkAddress _).
  by intros [].
Defined.

(** [Hash::as_bytes] and [Address::as_bytes] *)
Definition hash_as_bytes (h : Hash) : bytes := array32_bytes (hash_array h).
Definition address_as_bytes (a : Address) : bytes := array32_bytes (address_array a).
(** [#[derive(Default)]] *)
Definition Hash_default : Hash := MkHash array32_zero.
Definition Address_default : Address := MkAddress array32_zero.
(** [Address::from_public_key_hash] *)
Definition from_public_key_hash (h : Hash) : Address := MkAddress (hash_array h).

(** [#[derive(PartialOrd, Ord)]] on the byte arrays. *)
#[export] Program Instance Address_key_ord : KeyOrd Address :=
  {| key_leb a b := bytes_leb (address_as_bytes a) (address_as_bytes b) |}.
Next Obligation. intros. apply bytes_leb_total. Qed.
Next Obligation. intros ???. apply bytes_leb_trans. Qed.
Next Obligation.
  intros [a] [b] Hab Hba. f_equal. apply array32_eq. by apply bytes_leb_antisym.
Qed.

(** ** [account.rs], [staking.rs], [transaction.rs], [block.rs]: data *)

(** [struct Account]; [Balance = u128], [Nonce = u64]. *)
Record Account := MkAccount { acc_balance : N; acc_nonce : N }.
Definition Account_default : Account := MkAccount 0 0.

Inductive ValidatorStatus := Active | Jailed | Unbonding.

Record Delegation := MkDelegation {
  dl_amount : N;
  dl_unbonding : bool;
  dl_unbond_end_height : N;
}.
Definition Delegation_default : Delegation := MkDelegation 0 false 0.

Record ValidatorRecord := MkValidatorRecord {
  vr_address : Address;
  vr_consensus_pubkey : bytes;
  vr_self_stake : N;
  vr_delegated_stake : N;
  vr_commission_bps : N;
  vr_status : ValidatorStatus;
  vr_jailed_until : N;
  vr_pending_rewards : N;
}.

(** [ValidatorRecord::new] *)
Definition ValidatorRecord_new (address : Address) (consensus_pubkey : bytes)
    (self_stake commission_bps : N) : ValidatorRecord :=
  MkValidatorRecord address consensus_pubkey self_stake 0 commission_bps Active 0 0.

(** [ValidatorRecord::total_stake] *)
Definition total_stake (r : ValidatorRecord) : N :=
  saturating_add U128 (vr_self_stake r) (vr_delegated_stake r).

Record Transaction := MkTransaction {
  tx_sender : Address;
  tx_recipient : Address;
  tx_amount : N;
  tx_nonce : N;
  tx_fee : N;
  tx_public_key : bytes;
  tx_signature : bytes;
  tx_payload : bytes;
}.

(** The derived [Default]. *)
Definition Transaction_default : Transaction := MkTransaction Address_default Address_default 0 0 0 [] [] [].
(** [Transaction::transfer] *)
Definition transfer_tx (sender recipient : Address) (amount nonce fee : N) : Transaction :=
  MkTransaction sender recipient amount nonce fee [] [] [].

Record BlockHeader := MkBlockHeader {
  bh_height : N;
  bh_timestamp : N;
  bh_previous_hash : Hash;
  bh_state_root : Hash;
  bh_tx_root : Hash;
  bh_proposer : array32;
}.
Record BlockBody := MkBlockBody { transactions : list Transaction }.
Record Block := MkBlock { header : BlockHeader; body : BlockBody }.

Definition BlockHeader_default : BlockHeader :=
  MkBlockHeader 0 0 Hash_default Hash_default Hash_default array32_zero.
Definition BlockBody_default : BlockBody := MkBlockBody [].
Definition Block_default : Block := MkBlock BlockHeader_default BlockBody_default.

(** Decidable equality and countability of the records. *)
#[export] Instance Account_eq_dec : EqDecision Account.
Proof. solve_decision. Defined.
#[export] Instance Account_countable : Countable Account.
Proof.
  refine (inj_countable' (λ a, (acc_balance a, acc_nonce a)) (λ p, MkAccount p.1 p.2) _).
  by intros [].
Defined.
#[export] Instance ValidatorStatus_eq_dec : EqDecision ValidatorStatus.
Proof. solve_decision. Defined.
#[export] Instance ValidatorStatus_countable : Countable ValidatorStatus.
Proof.
  refine (inj_countable' (λ s, match s with Active => 0 | Jailed => 1 | Unbonding => 2 end)
    (λ n, match n with 0 => Active | 1 => Jailed | _ => Unbonding end) _).
  by intros [].
Defined.
#[export] Instance Delegation_eq_dec : EqDecision Delegation.
Proof. solve_decision. Defined.
#[export] Instance Delegation_countable : Countable Delegation.
Proof.
  refine (inj_countable' (λ d, (dl_amount d, dl_unbonding d, dl_unbond_end_height d))
    (λ '(a, u, e), MkDelegation a u e) _).
  by intros [].
Defined.
#[export] Instance ValidatorRecord_eq_dec : EqDecision ValidatorRecord.
Proof. solve_decision. Defined.
#[export] Instance ValidatorRecord_countable : Countable ValidatorRecord.
Proof.
  refine (inj_countable'
    (λ r, (vr_address r, vr_consensus_pubkey r, vr_self_stake r, vr_delegated_stake r,
           vr_commission_bps r, vr_status r, vr_jailed_until r, vr_pending_rewards r))
    (λ '(a, b, c, d, e, f, g, h), MkValidatorRecord a b c d e f g h) _).
  by intros [].
Defined.
#[export] Instance Transaction_eq_dec : EqDecision Transaction.
Proof. solve_decision. Defined.
#[export] Instance Transaction_countable : Countable Transaction.
Proof.
  refine (inj_countable'
    (λ t, (tx_sender t, tx_recipient t, tx_amount t, tx_nonce t, tx_fee t,
           tx_public_key t, tx_signature t, tx_payload t))
    (λ '(a, b, c, d, e, f, g, h), MkTransaction a b c d e f g h) _).
  by intros [].
Defined.
#[export] Instance BlockHeader_eq_dec : EqDecision BlockHeader.
Proof. solve_decision. Defined.
#[export] Instance BlockHeader_countable : Countable BlockHeader.
Proof.
  refine (inj_countable'
    (λ h, (bh_height h, bh_timestamp h, bh_previous_hash h, bh_state_root h, bh_tx_root h,
           bh_proposer h))
    (λ '(a, b, c, d, e, f), MkBlockHeader a b c d e f) _).
  by intros [].
Defined.
#[export] Instance BlockBody_eq_dec : EqDecision BlockBody.
Proof. solve_decision. Defined.
#[export] Instance BlockBody_countable : Countable BlockBody.
Proof.
  refine (inj_countable' transactions MkBlockBody _).
  by intros [].
Defined.
#[export] Instance Block_eq_dec : EqDecision Block.
Proof. solve_decision. Defined.
#[export] Instance Block_countable : Countable Block.
Proof.
  refine (inj_countable' (λ b, (header b, body b)) (λ '(h, b), MkBlock h b) _).
  by intros [].
Defined.

(** ** Machine-integer ranges of the record fields *)

Definition account_wf (a : Account) : Prop := (acc_balance a ≤ U128 ∧ acc_nonce a ≤ U64)%N.
Definition delegation_wf (d : Delegation) : Prop :=
  (dl_amount d ≤ U128 ∧ dl_unbond_end_height d ≤ U64)%N.
Definition record_wf (r : ValidatorRecord) : Prop :=
  (vr_self_stake r ≤ U128 ∧ vr_delegated_stake r ≤ U128 ∧ vr_commission_bps r ≤ U16 ∧
   vr_jailed_until r ≤ U64 ∧ vr_pending_rewards r ≤ U128)%N.
Definition tx_wf (t : Transaction) : Prop :=
  (tx_amount t ≤ U128 ∧ tx_nonce t ≤ U64 ∧ tx_fee t ≤ U128)%N.

(** ** Operations *)

(** [str::strip_prefix] *)
Fixpoint strip_prefix (p s : string) : option string :=
  match p, s with
  | EmptyString, _ => Some s
  | String a p, String b s => if decide (a = b) then strip_prefix p s else None
  | String _ _, EmptyString => None
  end.

Section hex_text.
Context `{Hex}.

(** [impl Display for Hash] *)
Definition Hash_to_string (h : Hash) : string := hex_encode (hash_as_bytes h).
(** [impl FromStr for Hash] *)
Definition Hash_from_str (s : string) : outcome string Hash :=
  b ← ok_or (hex_decode s) "invalid hex";
  match array32_try_from b with
  | None => Err "hash must be 32 bytes"
  | Some arr => Ok (MkHash arr)
  end.
(** [impl Display for Address] *)
Definition Address_to_string (a : Address) : string :=
  ("px" +:+ hex_encode (address_as_bytes a))%string.
(** [impl FromStr for Address] *)
Definition Address_from_str (s : string) : outcome string Address :=
  let s := default s (strip_prefix "px" s) in
  b ← ok_or (hex_decode s) "invalid hex";
  match array32_try_from b with
  | None => Err "address must be 32 bytes"
  | Some arr => Ok (MkAddress arr)
  end.
End hex_text.

Section hashing.
Context `{Blake3, Serde Transaction, Serde BlockHeader}.

(** [Hash::hash_bytes] *)
Definition hash_bytes (b : bytes) : Hash := MkHash (blake3_hash b).

(** [encoding::encode] and [encoding::decode] *)
Definition encode {A} `{Serde A} (x : A) : bytes := to_vec x.
Definition decode {A} `{Serde A} (b : bytes) : outcome string A :=
  ok_or (from_slice b) "decode failed".

(** [Transaction::unsigned] *)
Definition unsigned (t : Transaction) : Transaction :=
  MkTransaction (tx_sender t) (tx_recipient t) (tx_amount t) (tx_nonce t) (tx_fee t)
    (tx_public_key t) [] (tx_payload t).
(** [Transaction::hash] and [Transaction::signing_hash] *)
Definition tx_hash (t : Transaction) : Hash := hash_bytes (encode (unsigned t)).
Definition signing_hash (t : Transaction) : Hash := tx_hash t.
(** [Block::hash] *)
Definition block_hash (b : Block) : Hash := hash_bytes (encode (header b)).
End hashing.

(** ** Properties *)

Lemma strip_prefix_app p s : strip_prefix p (p +:+ s) = Some s.
Proof. induction p as [|a p IH]; [done|]. simpl. by rewrite decide_True. Qed.

Section text_theorems.
Context `{HexLaws}.

Lemma Hash_from_to_string h : Hash_from_str (Hash_to_string h) = Ok h.
Proof.
  unfold Hash_from_str, Hash_to_string. rewrite hex_decode_encode. simpl.
  rewrite (proj2 (array32_try_from_Some _ (hash_array h))) by done. by destruct h.
Qed.
Lemma Address_from_to_string a : Address_from_str (Address_to_string a) = Ok a.
Proof.
  unfold Address_from_str, Address_to_string.
  rewrite strip_prefix_app. simpl. rewrite hex_decode_encode. simpl.
  rewrite (proj2 (array32_try_from_Some _ (address_array a))) by done. by destruct a.
Qed.
(** The "px" prefix is optional: bare hexadecimal digits parse as well, since
    no hexadecimal digit is a 'p'. *)
Lemma Address_from_bare_hex a : Address_from_str (hex_encode (address_as_bytes a)) = Ok a.
Proof.
  unfold Address_from_str.
  assert (strip_prefix "px" (hex_encode (address_as_bytes a)) = None) as ->.
  { pose proof (hex_encode_digits (address_as_bytes a)) as Hd.
    destruct (hex_encode _) as [|c s]; [done|]. simpl in *.
    apply Forall_cons in Hd as [Hc _]. case_decide as Hp; [|done]. subst c.
    exfalso. revert Hc. by apply (bool_decide_unpack _). }
  simpl. rewrite hex_decode_encode. simpl.
  rewrite (proj2 (array32_try_from_Some _ (address_array a))) by done. by destruct a.
Qed.
(** Anything but 32 bytes is rejected. *)
Lemma Address_from_str_length s a :
  Address_from_str s = Ok a →
  ∃ b, hex_decode (default s (strip_prefix "px" s)) = Some b ∧ b = address_as_bytes a.
Proof.
  unfold Address_from_str. destruct (hex_decode _) as [b|]; [|done]. simpl.
  destruct (array32_try_from b) as [arr|] eqn:Hb; [|done].
  intros. simplify_eq. exists b. split; [done|]. by apply array32_try_from_Some.
Qed.
End text_theorems.

Section hash_theorems.
Context `{Blake3, SerdeLaws Transaction, SerdeLaws BlockHeader}.

(** Signing does not change what is signed. *)
Lemma signing_hash_signature t sig :
  signing_hash (MkTransaction (tx_sender t) (tx_recipient t) (tx_amount t) (tx_nonce t)
    (tx_fee t) (tx_public_key t) sig (tx_payload t)) = signing_hash t.
Proof. done. Qed.
Lemma decode_encode {A} `{SerdeLaws A} (x : A) : decode (encode x) = Ok x.
Proof. unfold decode, encode. by rewrite from_slice_to_vec. Qed.
End hash_theorems.

Lemma total_stake_exact r :
  (vr_self_stake r + vr_delegated_stake r ≤ U128)%N →
  total_stake r = (vr_self_stake r + vr_delegated_stake r)%N.
Proof. apply saturating_add_exact. Qed.
