(* ===== verification/Storage.v ===== *)
(** * Crate [pemrix-storage], [backend.rs]: storage backends

    The trait [StateBackend], its in-memory and RocksDB implementations, and the
    contract ([BackendLaws]) every client of a backend relies on, which both
    implementations are shown to satisfy. *)

From Stdlib Require Import Strings.Byte.
From S2P Require Import Prelude.
From S2P Require Import Externals.
From S2P Require Import Primitives.

(** ** [error.rs] *)
Inductive StorageError :=
| NotFound
| Backend (msg : string)
| Serialization
| StateRootMismatch.

(** ** [trait StateBackend] *)
Notation RawEntry := (bytes * bytes)%type.

Class StateBackend (B : Type) := {
  get_account : B → Address → outcome StorageError (option Account);
  put_account : Address → Account → M B StorageError unit;
  delete_account : Address → M B StorageError unit;
  get_raw : B → bytes → outcome StorageError (option bytes);
  put_raw : bytes → bytes → M B StorageError unit;
  delete_raw : bytes → M B StorageError unit;
  iter_raw_prefix : B → bytes → outcome StorageError (list RawEntry);
  state_root : B → outcome StorageError Hash;
}.

(** Key prefixes [b"acc:"], [b"val:"], [b"dlg:"]. *)
Definition acc_prefix : bytes := String.list_byte_of_string "acc:".
Definition val_prefix : bytes := String.list_byte_of_string "val:".
Definition dlg_prefix : bytes := String.list_byte_of_string "dlg:".
Arguments acc_prefix : simpl never.
Arguments val_prefix : simpl never.
Arguments dlg_prefix : simpl never.

(** [Iterator::take_while] *)
Fixpoint take_while {A} (p : A → bool) (l : list A) : list A :=
  match l with
  | [] => []
  | x :: l => if p x then x :: take_while p l else []
  end.
(** [<[u8]>::starts_with] *)
Definition starts_with (k p : bytes) : bool := bool_decide (p `prefix_of` k).

(** ** [InMemoryBackend] *)
Record InMemoryBackend := MkInMemory {
  im_accounts : gmap Address Account;
  im_raw : gmap bytes bytes;
}.
Definition InMemory_new : InMemoryBackend := MkInMemory ∅ ∅.

Section in_memory.
Context `{Hex, Blake3, Serde Account, Serde (gmap string bytes)}.

Definition im_get_account (b : InMemoryBackend) (a : Address)
    : outcome StorageError (option Account) := Ok (im_accounts b !! a).
Definition im_put_account (a : Address) (x : Account) : M InMemoryBackend StorageError unit :=
  modify (λ b, MkInMemory (<[a := x]> (im_accounts b)) (im_raw b)).
Definition im_delete_account (a : Address) : M InMemoryBackend StorageError unit :=
  modify (λ b, MkInMemory (delete a (im_accounts b)) (im_raw b)).
Definition im_get_raw (b : InMemoryBackend) (k : bytes)
    : outcome StorageError (option bytes) := Ok (im_raw b !! k).
Definition im_put_raw (k v : bytes) : M InMemoryBackend StorageError unit :=
  modify (λ b, MkInMemory (im_accounts b) (<[k := v]> (im_raw b))).
Definition im_delete_raw (k : bytes) : M InMemoryBackend StorageError unit :=
  modify (λ b, MkInMemory (im_accounts b) (delete k (im_raw b))).
(** [.range(prefix..).take_while(|(k, _)| k.starts_with(&prefix))] *)
Definition im_iter_raw_prefix (b : InMemoryBackend) (p : bytes)
    : outcome StorageError (list RawEntry) :=
  Ok (take_while (λ e, starts_with e.1 p)
        (filter (λ e, bytes_leb p e.1 = true) (btree_iter (im_raw b)))).

(** The snapshot that [state_root] encodes: hex-encoded keys, accounts first. *)
Definition im_snapshot (b : InMemoryBackend) : gmap string bytes :=
  let accounts := 
    foldl (λ m e, <[hex_encode (acc_prefix ++ address_as_bytes e.1) := encode e.2]> m)
      ∅ (btree_iter (im_accounts b)) in
  foldl (λ m e, <[hex_encode e.1 := e.2]> m) accounts (btree_iter (im_raw b)).
Definition im_state_root (b : InMemoryBackend) : outcome StorageError Hash :=
  Ok (hash_bytes (encode (im_snapshot b))).

#[export] Instance InMemory_StateBackend : StateBackend InMemoryBackend := {|
  get_account := im_get_account;
  put_account := im_put_account;
  delete_account := im_delete_account;
  get_raw := im_get_raw;
  put_raw := im_put_raw;
  delete_raw := im_delete_raw;
  iter_raw_prefix := im_iter_raw_prefix;
  state_root := im_state_root;
|}.
End in_memory.

(** ** [RocksDbBackend]

    The [rocksdb] crate is a parameter: a database handle with the calls the
    backend makes.  Errors are the crate's own, rendered as text. *)
Class RocksDB (DB : Type) := {
  db_get : DB → bytes → outcome string (option bytes);
  db_put : bytes → bytes → M DB string unit;
  db_delete : bytes → M DB string unit;
  db_prefix_iterator : DB → bytes → list (outcome string RawEntry);
  db_iterator : DB → list (outcome string RawEntry);
}.

Record RocksDbBackend (DB : Type) := MkRocksDb { rk_db : DB }.
Arguments MkRocksDb {DB} _.
Arguments rk_db {DB} _.

Definition rocks_err (what e : string) : StorageError :=
  Backend ("rocksdb " +:+ what +:+ " error: " +:+ e)%string.

Section rocksdb.
Context {DB : Type} `{RocksDB DB, Hex, Blake3, Serde Account, Serde (gmap string bytes)}.
Notation on_db := (zoom rk_db (λ db _, MkRocksDb db)).

(** [RocksDbBackend::account_key] *)
Definition account_key (a : Address) : bytes := acc_prefix ++ address_as_bytes a.

Definition rk_get_account (b : RocksDbBackend DB) (a : Address)
    : outcome StorageError (option Account) :=
  match db_get (rk_db b) (account_key a) with
  | Ok (Some bs) => x ← map_err (λ _, Serialization) (decode bs); Ok (Some x)
  | Ok None => Ok None
  | Err e => Err (rocks_err "get" e)
  | Panic => Panic
  end.
Definition rk_put_account (a : Address) (x : Account)
    : M (RocksDbBackend DB) StorageError unit :=
  map_errM (rocks_err "put") (on_db (db_put (account_key a) (encode x))).
Definition rk_delete_account (a : Address) : M (RocksDbBackend DB) StorageError unit :=
  map_errM (rocks_err "delete") (on_db (db_delete (account_key a))).
Definition rk_get_raw (b : RocksDbBackend DB) (k : bytes)
    : outcome StorageError (option bytes) :=
  map_err (rocks_err "get") (db_get (rk_db b) k).
Definition rk_put_raw (k v : bytes) : M (RocksDbBackend DB) StorageError unit :=
  map_errM (rocks_err "put") (on_db (db_put k v)).
Definition rk_delete_raw (k : bytes) : M (RocksDbBackend DB) StorageError unit :=
  map_errM (rocks_err "delete") (on_db (db_delete k)).
(** The loop [for item in iter { let (key, value) = item?; entries.push(..) }]. *)
Fixpoint collect_items (items : list (outcome string RawEntry))
    : outcome StorageError (list RawEntry) :=
  match items with
  | [] => Ok []
  | i :: items =>
      e ← map_err (rocks_err "iterator") i;
      es ← collect_items items; Ok (e :: es)
  end.
Definition rk_iter_raw_prefix (b : RocksDbBackend DB) (p : bytes)
    : outcome StorageError (list RawEntry) :=
  collect_items (db_prefix_iterator (rk_db b) p).
Definition rk_state_root (b : RocksDbBackend DB) : outcome StorageError Hash :=
  es ← collect_items (db_iterator (rk_db b));
  let snapshot := foldl (λ m e, <[hex_encode e.1 := e.2]> m) (∅ : gmap string bytes) es in
  Ok (hash_bytes (encode snapshot)).

#[export] Instance RocksDb_StateBackend : StateBackend (RocksDbBackend DB) := {|
  get_account := rk_get_account;
  put_account := rk_put_account;
  delete_account := rk_delete_account;
  get_raw := rk_get_raw;
  put_raw := rk_put_raw;
  delete_raw := rk_delete_raw;
  iter_raw_prefix := rk_iter_raw_prefix;
  state_root := rk_state_root;
|}.
End rocksdb.

(** ** The contract of a backend

    [backend_rel b A R]: the backend [b] stores the accounts [A] and the raw
    protocol records [R], all of whose keys are in the "val:" and "dlg:" name
    spaces. *)
Definition raw_key (k : bytes) : Prop := val_prefix `prefix_of` k ∨ dlg_prefix `prefix_of` k.
Definition raw_keys_ok (R : gmap bytes bytes) : Prop := ∀ k, is_Some (R !! k) → raw_key k.

Class BackendLaws (B : Type) `{StateBackend B}
    `{Hex, Blake3, Serde Account, Serde (gmap string bytes)} := {
  backend_rel : B → gmap Address Account → gmap bytes bytes → Prop;
  law_keys b A R : backend_rel b A R → raw_keys_ok R;
  law_get_account b A R a : backend_rel b A R → get_account b a = Ok (A !! a);
  law_put_account b A R a x : backend_rel b A R →
    ∃ b', put_account a x b = (Ok tt, b') ∧ backend_rel b' (<[a := x]> A) R;
  law_delete_account b A R a : backend_rel b A R →
    ∃ b', delete_account a b = (Ok tt, b') ∧ backend_rel b' (delete a A) R;
  law_get_raw b A R k : backend_rel b A R → raw_key k → get_raw b k = Ok (R !! k);
  law_put_raw b A R k v : backend_rel b A R → raw_key k →
    ∃ b', put_raw k v b = (Ok tt, b') ∧ backend_rel b' A (<[k := v]> R);
  law_delete_raw b A R k : backend_rel b A R → raw_key k →
    ∃ b', delete_raw k b = (Ok tt, b') ∧ backend_rel b' A (delete k R);
  law_iter_val b A R : backend_rel b A R →
    iter_raw_prefix b val_prefix = Ok (filter (λ e, val_prefix `prefix_of` e.1) (btree_iter R));
  law_state_root b A R : backend_rel b A R → state_root b = im_state_root (MkInMemory A R);
}.

(** The documented behaviour of an operational RocksDB database: a sorted
    key-value map.  A prefix iterator starts at the prefix and covers at least
    the keys that have it; without a prefix extractor it may run on. *)
Class RocksDBLaws (DB : Type) `{RocksDB DB} := {
  db_view : DB → gmap bytes bytes;
  db_get_ok db k : db_get db k = Ok (db_view db !! k);
  db_put_ok db k v : ∃ db', db_put k v db = (Ok tt, db') ∧ db_view db' = <[k := v]> (db_view db);
  db_delete_ok db k : ∃ db', db_delete k db = (Ok tt, db') ∧ db_view db' = delete k (db_view db);
  db_iterator_ok db : db_iterator db = Ok <$> btree_iter (db_view db);
  db_prefix_iterator_ok db p : ∃ stay : RawEntry → bool,
    (∀ e, p `prefix_of` e.1 → stay e = true) ∧
    db_prefix_iterator db p =
      Ok <$> take_while stay (filter (λ e, bytes_leb p e.1 = true) (btree_iter (db_view db)));
}.

(** *** Prefixes and the byte order *)

Lemma bytes_leb_prefix p k : p `prefix_of` k → bytes_leb p k = true.
Proof.
  intros [s ->]. induction p as [|a p IH]; simpl; [done|]. by rewrite N.ltb_irrefl.
Qed.
(** Once past the keys with prefix [p], no later key has it. *)
Lemma prefix_of_sorted p k k' :
  bytes_leb p k = true → ¬ p `prefix_of` k → bytes_leb k k' = true → ¬ p `prefix_of` k'.
Proof.
  revert k k'. induction p as [|a p IH]; intros k k' Hpk Hn Hkk' Hp.
  { apply Hn, prefix_nil. }
  destruct k as [|b k]; [done|]. destruct k' as [|c k'].
  { by apply prefix_nil_not in Hp. }
  simpl in *.
  pose proof (prefix_cons_inv_1 _ _ _ _ Hp) as <-. apply prefix_cons_inv_2 in Hp.
  destruct (N.ltb_spec (Byte.to_N a) (Byte.to_N b)),
    (N.ltb_spec (Byte.to_N b) (Byte.to_N a)); try done || lia.
  assert (a = b) as -> by (apply byte_to_N_inj; lia).
  eapply (IH k k'); eauto using prefix_cons.
Qed.
Lemma take_while_ext {A} (f g : A → bool) l :
  (∀ x, x ∈ l → f x = g x) → take_while f l = take_while g l.
Proof.
  induction l as [|x l IH]; intros Hfg; [done|]. simpl.
  rewrite (Hfg x), IH; [done|set_solver|set_solver].
Qed.
Lemma take_while_all {A} (f : A → bool) l : (∀ x, x ∈ l → f x = true) → take_while f l = l.
Proof.
  induction l as [|x l IH]; intros Hf; [done|]. simpl.
  rewrite (Hf x), IH; [done|set_solver|set_solver].
Qed.
Lemma filter_none {A} (P : A → Prop) `{∀ x, Decision (P x)} l :
  (∀ x, x ∈ l → ¬ P x) → filter P l = [].
Proof.
  induction l as [|x l IH]; intros Hn; [done|]. rewrite filter_cons_False by set_solver.
  apply IH. set_solver.
Qed.
(** The range-then-take-while of a sorted iterator is the prefix filter. *)
Lemma take_while_range (p : bytes) (l : list RawEntry) :
  StronglySorted entry_le l →
  take_while (λ e, starts_with e.1 p) (filter (λ e, bytes_leb p e.1 = true) l) =
  filter (λ e, p `prefix_of` e.1) l.
Proof.
  induction 1 as [|e l Hl IH He]; [done|].
  rewrite !filter_cons. destruct (decide (p `prefix_of` e.1)) as [Hp|Hp].
  - rewrite decide_True by by apply bytes_leb_prefix. simpl.
    unfold starts_with at 1. rewrite bool_decide_true by done. by f_equal.
  - case_decide as Hle; [|done]. simpl. unfold starts_with at 1.
    rewrite bool_decide_false by done. symmetry. apply filter_none.
    intros e' He'. rewrite Forall_forall in He. eapply prefix_of_sorted; [done..|].
    by apply He.
Qed.

Lemma raw_key_not_acc k : raw_key k → ¬ acc_prefix `prefix_of` k.
Proof.
  intros [[s ->]|[s ->]] Hp; by apply prefix_cons_inv_1 in Hp.
Qed.
(** No protocol key sorts after the "val:" name space. *)
Lemma raw_key_ge_val k :
  raw_key k → bytes_leb val_prefix k = true → val_prefix `prefix_of` k.
Proof. intros [?|[s ->]]; done. Qed.
Lemma acc_key_lt_val a : bytes_leb val_prefix (account_key a) = false.
Proof. done. Qed.

#[export] Instance account_key_inj : Inj (=) (=) account_key.
Proof.
  intros [a] [b] Hab. unfold account_key in Hab. simplify_list_eq.
  f_equal. by apply array32_eq.
Qed.
(** A 36-byte key in the "acc:" name space is the key of an account. *)
Lemma account_key_surj k :
  acc_prefix `prefix_of` k → length k = 36%nat → ∃ a, k = account_key a.
Proof.
  intros [s ->] Hl. rewrite length_app in Hl. simpl in Hl.
  destruct (array32_try_from s) as [arr|] eqn:Hs.
  - apply array32_try_from_Some in Hs as ->. by exists (MkAddress arr).
  - apply array32_try_from_None in Hs. lia.
Qed.

(** *** Snapshots *)
Section snapshot.
Context {K V W : Type} `{KeyOrd K, Countable K} (f : K → string) (g : V → W).
Let ins (m : gmap string W) (e : K * V) := <[f e.1 := g e.2]> m.

Lemma foldl_ins_notin (l : list (K * V)) m j :
  j ∉ f <$> l.*1 → foldl ins m l !! j = m !! j.
Proof.
  revert m. induction l as [|[k v] l IH]; intros m Hj; [done|].
  simpl in *. rewrite IH by set_solver. unfold ins; simpl. rewrite lookup_insert_ne; set_solver.
Qed.
Lemma foldl_ins_in `{!Inj (=) (=) f} (l : list (K * V)) m k v :
  NoDup l.*1 → (k, v) ∈ l → foldl ins m l !! f k = Some (g v).
Proof.
  revert m. induction l as [|[k' v'] l IH]; intros m Hnd Hin; [by apply not_elem_of_nil in Hin|].
  simpl in *. apply NoDup_cons in Hnd as [Hk' Hnd].
  apply elem_of_cons in Hin as [Heq|Hin]; [|by apply IH].
  simplify_eq. rewrite foldl_ins_notin.
  - unfold ins; simpl. apply lookup_insert_eq.
  - by rewrite (list_elem_of_fmap_inj f).
Qed.
Lemma foldl_ins_lookup `{!Inj (=) (=) f} (m : gmap K V) m0 k :
  foldl ins m0 (btree_iter m) !! f k =
  match m !! k with Some v => Some (g v) | None => m0 !! f k end.
Proof.
  destruct (m !! k) as [v|] eqn:Hk.
  - apply foldl_ins_in; [apply (btree_keys_NoDup m)|by apply elem_of_btree_iter].
  - apply foldl_ins_notin. rewrite (list_elem_of_fmap_inj f).
    intros Hin. apply (elem_of_btree_keys m) in Hin as [v Hv]. congruence.
Qed.
End snapshot.

(** ** The implementations satisfy the contract *)

Lemma raw_keys_insert R k v : raw_keys_ok R → raw_key k → raw_keys_ok (<[k := v]> R).
Proof. intros HR Hk k' Hk'. rewrite lookup_insert in Hk'. case_decide; naive_solver. Qed.
Lemma raw_keys_delete R k : raw_keys_ok R → raw_keys_ok (delete k R).
Proof. intros HR k' Hk'. rewrite lookup_delete in Hk'. case_decide; naive_solver. Qed.

Section in_memory_laws.
Context `{Hex, Blake3, Serde Account, Serde (gmap string bytes)}.

#[export] Instance InMemory_laws : BackendLaws InMemoryBackend.
Proof.
  refine {| backend_rel b A R := im_accounts b = A ∧ im_raw b = R ∧ raw_keys_ok R |};
    intros b A R.
  - by intros (_ & _ & ?).
  - by intros a (<- & _ & _).
  - intros a x (<- & <- & ?). by eexists.
  - intros a (<- & <- & ?). by eexists.
  - by intros k (_ & <- & _) _.
  - intros k v (<- & <- & ?) ?. eexists. split_and!; [done..|]. by apply raw_keys_insert.
  - intros k (<- & <- & ?) ?. eexists. split_and!; [done..|]. by apply raw_keys_delete.
  - intros (_ & <- & _). cbn. unfold im_iter_raw_prefix. f_equal.
    apply take_while_range, btree_iter_sorted.
  - intros (<- & <- & _). by destruct b.
Defined.
End in_memory_laws.

Section rocks_laws.
Context {DB : Type} `{!RocksDB DB, !RocksDBLaws DB}.
Context `{Hex, !HexLaws, Blake3, !Serde Account, !SerdeLaws Account, !Serde (gmap string bytes)}.

(** The key-value map of a database that holds accounts [A] and records [R]. *)
Definition rocks_holds (V : gmap bytes bytes) (A : gmap Address Account)
    (R : gmap bytes bytes) : Prop :=
  raw_keys_ok R ∧
  (∀ a, V !! account_key a = encode <$> A !! a) ∧
  (∀ k, raw_key k → V !! k = R !! k) ∧
  (∀ k, is_Some (V !! k) → raw_key k ∨ ∃ a, k = account_key a).

Lemma raw_key_ne_account k a : raw_key k → k ≠ account_key a.
Proof. intros Hk ->. apply raw_key_not_acc in Hk. apply Hk. by eexists. Qed.

Lemma rocks_holds_put_account V A R a x :
  rocks_holds V A R → rocks_holds (<[account_key a := encode x]> V) (<[a := x]> A) R.
Proof.
  intros (HR & HA & Hraw & Hks). split_and!; [done|..].
  - intros a'. destruct (decide (a = a')) as [->|Hne]; [by simplify_map_eq|].
    rewrite !lookup_insert_ne; [done|done|]. by intros ?%(inj account_key).
  - intros k Hk. rewrite lookup_insert_ne; [by apply Hraw|].
    intros <-. by eapply raw_key_ne_account.
  - intros k. rewrite lookup_insert. case_decide; [by eauto|]. apply Hks.
Qed.
Lemma rocks_holds_delete_account V A R a :
  rocks_holds V A R → rocks_holds (delete (account_key a) V) (delete a A) R.
Proof.
  intros (HR & HA & Hraw & Hks). split_and!; [done|..].
  - intros a'. destruct (decide (a = a')) as [->|Hne]; [by simplify_map_eq|].
    rewrite !lookup_delete_ne; [done|done|]. by intros ?%(inj account_key).
  - intros k Hk. rewrite lookup_delete_ne; [by apply Hraw|].
    intros <-. by eapply raw_key_ne_account.
  - intros k. rewrite lookup_delete. case_decide; [by intros []|]. apply Hks.
Qed.
Lemma rocks_holds_put_raw V A R k v :
  rocks_holds V A R → raw_key k → rocks_holds (<[k := v]> V) A (<[k := v]> R).
Proof.
  intros (HR & HA & Hraw & Hks) Hk. split_and!; [by apply raw_keys_insert|..].
  - intros a. rewrite lookup_insert_ne; [done|]. by apply raw_key_ne_account.
  - intros k' Hk'. rewrite !lookup_insert. case_decide; [done|]. by apply Hraw.
  - intros k'. rewrite lookup_insert. case_decide; [naive_solver|]. apply Hks.
Qed.
Lemma rocks_holds_delete_raw V A R k :
  rocks_holds V A R → raw_key k → rocks_holds (delete k V) A (delete k R).
Proof.
  intros (HR & HA & Hraw & Hks) Hk. split_and!; [by apply raw_keys_delete|..].
  - intros a. rewrite lookup_delete_ne; [done|]. by apply raw_key_ne_account.
  - intros k' Hk'. rewrite !lookup_delete. case_decide; [done|]. by apply Hraw.
  - intros k'. rewrite lookup_delete. case_decide; [by intros []|]. apply Hks.
Qed.

Lemma collect_items_Ok es : collect_items (Ok <$> es) = Ok es.
Proof. induction es as [|e es IH]; [done|]. rewrite fmap_cons. cbn. by rewrite IH. Qed.

(** Iterating the whole tail of the database from "val:" yields exactly the
    validator records. *)
Lemma rocks_iter_val V A R (stay : RawEntry → bool) :
  rocks_holds V A R → (∀ e, val_prefix `prefix_of` e.1 → stay e = true) →
  take_while stay (filter (λ e, bytes_leb val_prefix e.1 = true) (btree_iter V)) =
  filter (λ e, val_prefix `prefix_of` e.1) (btree_iter R).
Proof.
  intros (HR & HA & Hraw & Hks) Hstay.
  assert (∀ e, e ∈ btree_iter V → bytes_leb val_prefix e.1 = true → val_prefix `prefix_of` e.1)
    as Hge.
  { intros [k v] Hin%elem_of_btree_iter Hle.
    destruct (Hks k) as [Hk|[a ->]]; [by eauto|by apply raw_key_ge_val|].
    cbn [fst] in Hle. by rewrite acc_key_lt_val in Hle. }
  rewrite take_while_all.
  2: { intros e [Hle Hin]%list_elem_of_filter. by apply Hstay, Hge. }
  apply sorted_entries_unique.
  - apply StronglySorted_filter, btree_iter_sorted.
  - apply StronglySorted_filter, btree_iter_sorted.
  - eapply sublist_NoDup; [apply (btree_keys_NoDup V)|]. apply fmap_sublist, sublist_filter.
  - eapply sublist_NoDup; [apply (btree_keys_NoDup R)|]. apply fmap_sublist, sublist_filter.
  - intros [k v]. rewrite !list_elem_of_filter, !elem_of_btree_iter. cbn [fst]. split.
    + intros [Hle HV]. assert (val_prefix `prefix_of` k) as Hp.
      { apply (Hge (k, v)); [by apply elem_of_btree_iter|done]. }
      rewrite <-Hraw; [done|by left].
    + intros [Hp HRk]. split; [by apply bytes_leb_prefix|]. rewrite Hraw; [done|by left].
Qed.

#[local] Instance hex_encode_inj : Inj (=) (=) hex_encode.
Proof. intros x y Hxy. apply (inj Some). by rewrite <-!hex_decode_encode, Hxy. Qed.

(** What a snapshot of accounts and records holds, key by key. *)
Lemma im_snapshot_account A R a :
  raw_keys_ok R → im_snapshot (MkInMemory A R) !! hex_encode (account_key a) = encode <$> A !! a.
Proof.
  intros HR. unfold im_snapshot; simpl.
  rewrite (foldl_ins_lookup hex_encode id R _ (account_key a)).
  destruct (R !! account_key a) as [v|] eqn:Hk.
  { destruct (raw_key_ne_account (account_key a) a); [|done]. apply HR. by eexists. }
  etransitivity; [exact (foldl_ins_lookup (hex_encode ∘ account_key) encode A ∅ a)|].
  by destruct (A !! a).
Qed.
Lemma im_snapshot_raw A R k :
  raw_key k → im_snapshot (MkInMemory A R) !! hex_encode k = R !! k.
Proof.
  intros Hk. unfold im_snapshot; simpl. rewrite (foldl_ins_lookup hex_encode id R _ k).
  destruct (R !! k) as [v|]; [done|].
  etransitivity; [apply (foldl_ins_notin (hex_encode ∘ account_key) encode)|done].
  intros (a & Heq & _)%list_elem_of_fmap. simpl in Heq. apply (inj hex_encode) in Heq.
  by eapply raw_key_ne_account.
Qed.
Lemma im_snapshot_dom A R j :
  is_Some (im_snapshot (MkInMemory A R) !! j) →
  (∃ a, j = hex_encode (account_key a)) ∨ (∃ k, is_Some (R !! k) ∧ j = hex_encode k).
Proof.
  unfold im_snapshot; simpl. intros Hj.
  destruct (decide (j ∈ hex_encode <$> (btree_iter R).*1)) as [Hin|Hin].
  { apply list_elem_of_fmap in Hin as (k & -> & Hk). right. exists k. split; [|done].
    by apply (elem_of_btree_keys R). }
  rewrite (foldl_ins_notin hex_encode (@id bytes) (btree_iter R) _ j Hin) in Hj. left.
  destruct (decide (j ∈ (hex_encode ∘ account_key) <$> (btree_iter A).*1)) as [Hin'|Hin'].
  { apply list_elem_of_fmap in Hin' as (a & -> & _). by exists a. }
  pose proof (foldl_ins_notin (hex_encode ∘ account_key) encode (btree_iter A) ∅ j Hin') as Hn.
  destruct Hj as [v Hj]. assert (Some v = None) by (rewrite <-Hj; exact Hn). done.
Qed.

(** Both backends hash the same snapshot. *)
Lemma rocks_snapshot V A R :
  rocks_holds V A R →
  foldl (λ m e, <[hex_encode e.1 := e.2]> m) (∅ : gmap string bytes) (btree_iter V) =
  im_snapshot (MkInMemory A R).
Proof.
  intros (HR & HA & Hraw & Hks).
  assert (∀ k, foldl (λ m e, <[hex_encode e.1 := e.2]> m) (∅ : gmap string bytes) (btree_iter V)
    !! hex_encode k = V !! k) as HV.
  { intros k. rewrite (foldl_ins_lookup hex_encode id V ∅ k).
    rewrite lookup_empty. by destruct (V !! k). }
  assert (∀ k, raw_key k ∨ (∃ a, k = account_key a) →
    im_snapshot (MkInMemory A R) !! hex_encode k = V !! k) as Hsnap.
  { intros k [Hk|[a ->]].
    - by rewrite im_snapshot_raw, Hraw.
    - by rewrite im_snapshot_account, HA. }
  apply map_eq. intros j. apply option_eq. intros v. split.
  - intros Hj. destruct (decide (j ∈ hex_encode <$> (btree_iter V).*1)) as [Hin|Hin].
    + apply list_elem_of_fmap in Hin as (k & -> & Hk). apply (elem_of_btree_keys V) in Hk.
      rewrite HV in Hj. rewrite Hsnap by by apply Hks. done.
    + by rewrite (foldl_ins_notin hex_encode (@id bytes) (btree_iter V) ∅ j Hin) in Hj.
  - intros Hj. destruct (im_snapshot_dom A R j) as [[a ->]|(k & Hk & ->)]; [by eauto|..].
    + rewrite HV, <-Hsnap by by eauto. done.
    + apply HR in Hk. rewrite HV, <-Hsnap by by eauto. done.
Qed.

(** The snapshot determines the stored accounts and records. *)
Lemma im_snapshot_inj `{!SerdeLaws Account} A R A' R' :
  raw_keys_ok R → raw_keys_ok R' →
  im_snapshot (MkInMemory A R) = im_snapshot (MkInMemory A' R') → A = A' ∧ R = R'.
Proof.
  intros HR HR' Heq. split; apply map_eq.
  - intros a. apply (inj (fmap encode)).
    rewrite <-(im_snapshot_account A R), <-(im_snapshot_account A' R'); by rewrite ?Heq.
  - intros k. destruct (R !! k) as [v|] eqn:Hk.
    + rewrite <-(im_snapshot_raw A' R' k), <-Heq, im_snapshot_raw; [done|apply HR; eauto..].
    + destruct (R' !! k) as [v|] eqn:Hk'; [|done].
      rewrite <-Hk, <-Hk', <-(im_snapshot_raw A R k), Heq, im_snapshot_raw;
        [done|apply HR'; eauto..].
Qed.

#[export] Instance RocksDb_laws : BackendLaws (RocksDbBackend DB).
Proof.
  refine {| backend_rel b A R := rocks_holds (db_view (rk_db b)) A R |}; intros b A R.
  - by intros [? _].
  - intros a (HR & HA & _). cbn. unfold rk_get_account. rewrite db_get_ok, HA.
    destruct (A !! a) as [x|]; [|done]. simpl. unfold decode, encode.
    by rewrite from_slice_to_vec.
  - intros a x HVAR. destruct (db_put_ok (rk_db b) (account_key a) (encode x)) as (db' & Hput & Hv).
    exists (MkRocksDb db'). cbn. unfold rk_put_account, map_errM, zoom. rewrite Hput. split; [done|].
    simpl. rewrite Hv. by apply rocks_holds_put_account.
  - intros a HVAR. destruct (db_delete_ok (rk_db b) (account_key a)) as (db' & Hdel & Hv).
    exists (MkRocksDb db'). cbn. unfold rk_delete_account, map_errM, zoom. rewrite Hdel.
    split; [done|]. simpl. rewrite Hv. by apply rocks_holds_delete_account.
  - intros k (_ & _ & Hraw & _) Hk. cbn. unfold rk_get_raw. by rewrite db_get_ok, Hraw.
  - intros k v HVAR Hk. destruct (db_put_ok (rk_db b) k v) as (db' & Hput & Hv).
    exists (MkRocksDb db'). cbn. unfold rk_put_raw, map_errM, zoom. rewrite Hput. split; [done|].
    simpl. rewrite Hv. by apply rocks_holds_put_raw.
  - intros k HVAR Hk. destruct (db_delete_ok (rk_db b) k) as (db' & Hdel & Hv).
    exists (MkRocksDb db'). cbn. unfold rk_delete_raw, map_errM, zoom. rewrite Hdel.
    split; [done|]. simpl. rewrite Hv. by apply rocks_holds_delete_raw.
  - intros HVAR. cbn. unfold rk_iter_raw_prefix.
    destruct (db_prefix_iterator_ok (rk_db b) val_prefix) as (stay & Hstay & ->).
    rewrite collect_items_Ok. f_equal. by eapply rocks_iter_val.
  - intros HVAR. cbn. unfold rk_state_root, im_state_root.
    rewrite db_iterator_ok, collect_items_Ok. simpl. by erewrite rocks_snapshot.
Defined.
End rocks_laws.

(** ** A reference database *)
Module ReferenceDb.
(** A sorted map whose prefix iterator runs on to the end of the database. *)
#[export] Instance ref_db : RocksDB (gmap bytes bytes) := {|
  db_get db k := Ok (db !! k);
  db_put k v db := (Ok tt, <[k := v]> db);
  db_delete k db := (Ok tt, delete k db);
  db_prefix_iterator db p := Ok <$> filter (λ e, bytes_leb p e.1 = true) (btree_iter db);
  db_iterator db := Ok <$> btree_iter db;
|}.
#[export] Instance ref_db_laws : RocksDBLaws (gmap bytes bytes).
Proof.
  refine {| db_view db := db |}; intros db.
  - done.
  - by eexists.
  - by eexists.
  - done.
  - intros p. exists (λ _, true). split; [done|]. by rewrite take_while_all.
Defined.
End ReferenceDb.
