(* ===== verification/StateStore.v ===== *)
(** * Crate [pemrix-storage], [state.rs]: the state store

    [StateStore<B>] over any backend, the interface [Store] the executors and
    the consensus engine use, the abstract [Ledger] it promises, and the
    simulation of a store by a ledger for every lawful backend. *)

From Stdlib Require Import Strings.Byte.
From S2P Require Import Prelude.
From S2P Require Import Externals.
From S2P Require Import Primitives.
From S2P Require Import Storage.

(** ** Keys *)
Definition validator_key (a : Address) : bytes := val_prefix ++ address_as_bytes a.
Definition delegation_key (delegator validator : Address) : bytes :=
  dlg_prefix ++ address_as_bytes delegator ++ address_as_bytes validator.

(** ** [struct StateStore<B>] *)
Record StateStore (B : Type) := MkStateStore { backend : B }.
Arguments MkStateStore {B} _.
Arguments backend {B} _.

(** The primitive methods of the store, which every other operation of the
    system is written with. *)
Class Store (S : Type) := {
  store_get_account : S → Address → outcome StorageError (option Account);
  store_set_account : Address → Account → M S StorageError unit;
  store_state_root : S → outcome StorageError Hash;
  store_validator_record : S → Address → outcome StorageError (option ValidatorRecord);
  store_set_validator_record : Address → ValidatorRecord → M S StorageError unit;
  store_delegation : S → Address → Address → outcome StorageError (option Delegation);
  store_set_delegation : Address → Address → Delegation → M S StorageError unit;
  store_delete_delegation : Address → Address → M S StorageError unit;
  store_validator_records : S → outcome StorageError (list (Address * ValidatorRecord));
}.

Section state_store.
Context {B : Type} `{StateBackend B, Serde ValidatorRecord, Serde Delegation}.
Notation on_backend := (zoom backend (λ b _, MkStateStore b)).

Definition ss_get_account (s : StateStore B) (a : Address) : outcome StorageError (option Account) :=
  get_account (backend s) a.
Definition ss_set_account (a : Address) (x : Account) : M (StateStore B) StorageError unit :=
  on_backend (put_account a x).
Definition ss_state_root (s : StateStore B) : outcome StorageError Hash := state_root (backend s).
Definition ss_validator_record (s : StateStore B) (a : Address)
    : outcome StorageError (option ValidatorRecord) :=
  o ← get_raw (backend s) (validator_key a);
  match o with
  | Some b => r ← map_err (λ _, Serialization) (decode b); Ok (Some r)
  | None => Ok None
  end.
Definition ss_set_validator_record (a : Address) (r : ValidatorRecord)
    : M (StateStore B) StorageError unit :=
  on_backend (put_raw (validator_key a) (encode r)).
Definition ss_delegation (s : StateStore B) (delegator validator : Address)
    : outcome StorageError (option Delegation) :=
  o ← get_raw (backend s) (delegation_key delegator validator);
  match o with
  | Some b => d ← map_err (λ _, Serialization) (decode b); Ok (Some d)
  | None => Ok None
  end.
Definition ss_set_delegation (delegator validator : Address) (d : Delegation)
    : M (StateStore B) StorageError unit :=
  on_backend (put_raw (delegation_key delegator validator) (encode d)).
Definition ss_delete_delegation (delegator validator : Address)
    : M (StateStore B) StorageError unit :=
  on_backend (delete_raw (delegation_key delegator validator)).

(** The loop of [validator_records]: entries of the wrong length are skipped. *)
Fixpoint parse_records (entries : list RawEntry)
    : outcome StorageError (list (Address * ValidatorRecord)) :=
  match entries with
  | [] => Ok []
  | (key, value) :: entries =>
      if decide (length key ≠ length val_prefix + 32)%nat then parse_records entries
      else
        arr ← ok_or (array32_try_from (drop (length val_prefix) key)) (Backend "invalid validator key");
        r ← map_err (λ _, Serialization) (decode value);
        rs ← parse_records entries;
        Ok ((MkAddress arr, r) :: rs)
  end.
Definition ss_validator_records (s : StateStore B)
    : outcome StorageError (list (Address * ValidatorRecord)) :=
  es ← iter_raw_prefix (backend s) val_prefix;
  parse_records es.

#[export] Instance StateStore_Store : Store (StateStore B) := {|
  store_get_account := ss_get_account;
  store_set_account := ss_set_account;
  store_state_root := ss_state_root;
  store_validator_record := ss_validator_record;
  store_set_validator_record := ss_set_validator_record;
  store_delegation := ss_delegation;
  store_set_delegation := ss_set_delegation;
  store_delete_delegation := ss_delete_delegation;
  store_validator_records := ss_validator_records;
|}.
End state_store.

(** [StateStore::new_in_memory] *)
Definition new_in_memory : StateStore InMemoryBackend := MkStateStore InMemory_new.

(** ** Derived operations of the store *)
Section derived.
Context {S : Type} `{Store S, Profile}.

(** [StateStore::balance] and [StateStore::nonce] *)
Definition store_balance (s : S) (a : Address) : outcome StorageError N :=
  o ← store_get_account s a; Ok (match o with Some x => acc_balance x | None => 0%N end).
Definition store_nonce (s : S) (a : Address) : outcome StorageError N :=
  o ← store_get_account s a; Ok (match o with Some x => acc_nonce x | None => 0%N end).

(** [StateStore::transfer_amount_only] *)
Definition transfer_amount_only (to : Address) (amount : N) : M S StorageError unit :=
  o ← reads (λ s, store_get_account s to);
  let recipient := default Account_default o in
  balance ← lift (ok_or (checked_add U128 (acc_balance recipient) amount)
                    (Backend "balance overflow"));
  store_set_account to (MkAccount balance (acc_nonce recipient)).

(** [StateStore::transfer] *)
Definition transfer (from to : Address) (amount fee : N) : M S StorageError unit :=
  o ← reads (λ s, store_get_account s from);
  sender ← lift (ok_or o NotFound);
  total ← lift (ok_or (checked_add U128 amount fee) (Backend "balance overflow"));
  if (acc_balance sender <? total)%N then fail (Backend "insufficient balance")
  else
    balance ← lift (usub U128 (acc_balance sender) total);
    nonce ← lift (uadd U64 (acc_nonce sender) 1);
    _ ← store_set_account from (MkAccount balance nonce);
    transfer_amount_only to amount.
End derived.

(** ** The abstract ledger *)
Record Ledger := MkLedger {
  accts : gmap Address Account;
  vals : gmap Address ValidatorRecord;
  dels : gmap (Address * Address) Delegation;
}.
Definition ledger_empty : Ledger := MkLedger ∅ ∅ ∅.

#[export] Instance validator_key_inj : Inj (=) (=) validator_key.
Proof.
  intros [a] [b] Hab. unfold validator_key in Hab. apply (inj (app val_prefix)) in Hab.
  f_equal. by apply array32_eq.
Qed.
#[export] Instance delegation_key_inj : Inj (=) (=) (uncurry delegation_key).
Proof.
  intros [[a] [b]] [[c] [d]] Heq. unfold delegation_key in Heq. simpl in Heq.
  apply (inj (app dlg_prefix)), app_inj_1 in Heq as [H1 H2].
  - repeat f_equal; by apply array32_eq.
  - unfold address_as_bytes. by rewrite !array32_length.
Qed.
Lemma validator_delegation_key a d v : validator_key a ≠ delegation_key d v.
Proof. done. Qed.

Section ledger.
Context `{Hex, Blake3, Serde Account, Serde (gmap string bytes)}.
Context `{!Serde ValidatorRecord, !Serde Delegation}.

(** The protocol records of a ledger, as stored in a backend. *)
Definition ledger_raw (L : Ledger) : gmap bytes bytes :=
  (kmap validator_key (encode <$> vals L) : gmap bytes bytes) ∪
  kmap (uncurry delegation_key) (encode <$> dels L).

#[export] Instance Ledger_Store : Store Ledger := {|
  store_get_account L a := Ok (accts L !! a);
  store_set_account a x := modify (λ L, MkLedger (<[a := x]> (accts L)) (vals L) (dels L));
  store_state_root L := im_state_root (MkInMemory (accts L) (ledger_raw L));
  store_validator_record L a := Ok (vals L !! a);
  store_set_validator_record a r :=
    modify (λ L, MkLedger (accts L) (<[a := r]> (vals L)) (dels L));
  store_delegation L d v := Ok (dels L !! (d, v));
  store_set_delegation d v x :=
    modify (λ L, MkLedger (accts L) (vals L) (<[(d, v) := x]> (dels L)));
  store_delete_delegation d v :=
    modify (λ L, MkLedger (accts L) (vals L) (delete (d, v) (dels L)));
  store_validator_records L := Ok (btree_iter (vals L));
|}.

(** *** The records of a ledger, key by key *)
Lemma kmap_lookup_None {K V} `{Countable K} (f : K → bytes) `{!Inj (=) (=) f} (m : gmap K V) j :
  (∀ k, f k ≠ j) → (kmap f m : gmap bytes V) !! j = None.
Proof.
  intros Hj. apply (lookup_kmap_None f). intros k ->. by destruct (Hj k).
Qed.
Lemma ledger_raw_validator L a : ledger_raw L !! validator_key a = encode <$> vals L !! a.
Proof.
  unfold ledger_raw. rewrite lookup_union, lookup_kmap, lookup_fmap by apply _.
  rewrite (kmap_lookup_None (uncurry delegation_key)) by (intros [d v]; simpl; apply not_eq_sym, validator_delegation_key).
  by destruct (vals L !! a).
Qed.
Lemma ledger_raw_delegation L d v : ledger_raw L !! delegation_key d v = encode <$> dels L !! (d, v).
Proof.
  unfold ledger_raw. rewrite lookup_union.
  rewrite (kmap_lookup_None validator_key) by (intros a; apply validator_delegation_key).
  change (delegation_key d v) with (uncurry delegation_key (d, v)).
  rewrite (lookup_kmap (uncurry delegation_key)), lookup_fmap.
  by destruct (dels L !! (d, v)).
Qed.
Lemma ledger_raw_inv L k : is_Some (ledger_raw L !! k) →
  (∃ a, k = validator_key a) ∨ (∃ d v, k = delegation_key d v).
Proof.
  intros [x Hx]. unfold ledger_raw in Hx. apply lookup_union_Some_raw in Hx as [Hx|[_ Hx]];
    apply lookup_kmap_Some in Hx; try apply _.
  - destruct Hx as (a & -> & _). eauto.
  - destruct Hx as ([d v] & -> & _). eauto.
Qed.
Lemma validator_key_raw a : raw_key (validator_key a).
Proof. left. by eexists. Qed.
Lemma delegation_key_raw d v : raw_key (delegation_key d v).
Proof. right. by eexists. Qed.
Lemma ledger_raw_keys_ok L : raw_keys_ok (ledger_raw L).
Proof.
  intros k Hk. destruct (ledger_raw_inv L k Hk) as [[a ->]|(d & v & ->)];
    auto using validator_key_raw, delegation_key_raw.
Qed.
End ledger.

(** ** Simulation of a store by another *)
Class StoreSim {S T : Type} `{Store S, Store T} (R : S → T → Prop) : Prop := {
  sim_get_account a : sim_read R (λ s, store_get_account s a) (λ t, store_get_account t a);
  sim_set_account a x : sim R (store_set_account a x) (store_set_account a x);
  sim_state_root : sim_read R store_state_root store_state_root;
  sim_validator_record a :
    sim_read R (λ s, store_validator_record s a) (λ t, store_validator_record t a);
  sim_set_validator_record a r :
    sim R (store_set_validator_record a r) (store_set_validator_record a r);
  sim_delegation d v : sim_read R (λ s, store_delegation s d v) (λ t, store_delegation t d v);
  sim_set_delegation d v x : sim R (store_set_delegation d v x) (store_set_delegation d v x);
  sim_delete_delegation d v : sim R (store_delete_delegation d v) (store_delete_delegation d v);
  sim_validator_records : sim_read R store_validator_records store_validator_records;
}.
#[export] Hint Resolve sim_get_account sim_set_account sim_state_root sim_validator_record
  sim_set_validator_record sim_delegation sim_set_delegation sim_delete_delegation
  sim_validator_records : sim.

Section derived_sim.
Context {S T : Type} {R : S → T → Prop} `{StoreSim S T R, Profile}.
Lemma sim_balance a : sim_read R (λ s, store_balance s a) (λ t, store_balance t a).
Proof. intros s t HR. unfold store_balance. by rewrite (sim_get_account a s t HR). Qed.
Lemma sim_nonce a : sim_read R (λ s, store_nonce s a) (λ t, store_nonce t a).
Proof. intros s t HR. unfold store_nonce. by rewrite (sim_get_account a s t HR). Qed.
Lemma sim_transfer_amount_only to amount :
  sim R (transfer_amount_only to amount) (transfer_amount_only to amount).
Proof. unfold transfer_amount_only. simulate. Qed.
Lemma sim_transfer from to amount fee :
  sim R (transfer from to amount fee) (transfer from to amount fee).
Proof. unfold transfer. simulate. Qed.
End derived_sim.
#[export] Hint Resolve sim_balance sim_nonce sim_transfer_amount_only sim_transfer : sim.

(** ** A store over a lawful backend simulates the ledger *)
Section refinement.
Context {B : Type} `{StateBackend B, Hex, Blake3, Serde Account, Serde (gmap string bytes)}.
Context `{!BackendLaws B, !Serde ValidatorRecord, !SerdeLaws ValidatorRecord}.
Context `{!Serde Delegation, !SerdeLaws Delegation}.

(** The store [s] holds the ledger [L]. *)
Definition store_rel (s : StateStore B) (L : Ledger) : Prop :=
  backend_rel (backend s) (accts L) (ledger_raw L).

Lemma ledger_raw_set_validator A V D a r :
  ledger_raw (MkLedger A (<[a := r]> V) D) =
  <[validator_key a := encode r]> (ledger_raw (MkLedger A V D)).
Proof.
  unfold ledger_raw; simpl. rewrite fmap_insert, kmap_insert by apply _.
  by rewrite insert_union_l.
Qed.
Lemma ledger_raw_set_delegation A V D d v x :
  ledger_raw (MkLedger A V (<[(d, v) := x]> D)) =
  <[delegation_key d v := encode x]> (ledger_raw (MkLedger A V D)).
Proof.
  unfold ledger_raw; simpl. rewrite fmap_insert, kmap_insert by apply _.
  rewrite insert_union_r; [done|].
  apply (kmap_lookup_None validator_key). intros a. apply validator_delegation_key.
Qed.
Lemma ledger_raw_delete_delegation A V D d v :
  ledger_raw (MkLedger A V (delete (d, v) D)) =
  delete (delegation_key d v) (ledger_raw (MkLedger A V D)).
Proof.
  unfold ledger_raw; simpl. rewrite fmap_delete, kmap_delete by apply _.
  rewrite delete_union. f_equal. symmetry. apply delete_id.
  apply (kmap_lookup_None validator_key). intros a. apply validator_delegation_key.
Qed.

(** The validator entries of a ledger, in key order. *)
Lemma ledger_raw_val_entries L :
  filter (λ e, val_prefix `prefix_of` e.1) (btree_iter (ledger_raw L)) =
  prod_map validator_key encode <$> btree_iter (vals L).
Proof.
  apply sorted_entries_unique.
  - apply StronglySorted_filter, btree_iter_sorted.
  - pose proof (btree_iter_sorted (vals L)) as Hs.
    induction Hs as [|e l Hl IH He]; simpl; constructor; [done|].
    apply Forall_forall. intros e' (e0 & -> & Hin)%list_elem_of_fmap.
    pose proof (proj1 (Forall_forall _ _) He _ Hin) as Hle. revert Hle. by unfold entry_le.
  - eapply sublist_NoDup; [apply (btree_keys_NoDup (ledger_raw L))|].
    apply fmap_sublist, sublist_filter.
  - rewrite <-list_fmap_compose.
    rewrite (list_fmap_ext _ (validator_key ∘ fst)), list_fmap_compose by (by intros ? []).
    apply NoDup_fmap_2; [apply _|]. apply (btree_keys_NoDup (vals L)).
  - intros [k v]. rewrite list_elem_of_filter, elem_of_btree_iter, list_elem_of_fmap. split.
    + intros [Hp Hk]. destruct (ledger_raw_inv L k) as [[a ->]|(d & v' & ->)]; [by eauto| |].
      * rewrite ledger_raw_validator in Hk. destruct (vals L !! a) as [r|] eqn:Ha; simplify_eq/=.
        exists (a, r). by rewrite elem_of_btree_iter.
      * exfalso. by apply prefix_cons_inv_1 in Hp.
    + intros ([a r] & Heq & Hin%elem_of_btree_iter). simpl in Heq. simplify_eq.
      split; [by eexists|]. by rewrite ledger_raw_validator, Hin.
Qed.
Lemma parse_records_entries (l : list (Address * ValidatorRecord)) :
  parse_records (prod_map validator_key encode <$> l) = Ok l.
Proof.
  induction l as [|[a r] l IH]; [done|]. rewrite fmap_cons. cbn [prod_map fst snd parse_records].
  destruct (decide _) as [Hne|_].
  { destruct Hne. unfold validator_key, address_as_bytes.
    by rewrite length_app, array32_length. }
  unfold validator_key. rewrite drop_app_length, (proj2 (array32_try_from_Some _ (address_array a))) by done.
  cbn [ok_or mbind outcome_bind]. rewrite decode_encode.
  cbn [map_err mbind outcome_bind]. fold validator_key. rewrite IH. by destruct a.
Qed.

#[export] Instance store_sim : StoreSim store_rel.
Proof.
  split.
  - intros a s L HR. cbn. by eapply law_get_account.
  - intros a x s L HR. cbn. unfold ss_set_account, zoom.
    destruct (law_put_account (backend s) _ _ a x HR) as (b' & -> & HR'). by split.
  - intros s L HR. cbn. by apply law_state_root.
  - intros a s L HR. cbn. unfold ss_validator_record.
    rewrite (law_get_raw _ _ _ _ HR (validator_key_raw a)). cbn. rewrite ledger_raw_validator.
    destruct (vals L !! a); [|done]. cbn. by rewrite decode_encode.
  - intros a r s L HR. cbn. unfold ss_set_validator_record, zoom.
    destruct (law_put_raw (backend s) _ _ _ (encode r) HR (validator_key_raw a)) as (b' & -> & HR').
    split; [done|]. unfold store_rel; simpl. by rewrite ledger_raw_set_validator; destruct L.
  - intros d v s L HR. cbn. unfold ss_delegation.
    rewrite (law_get_raw _ _ _ _ HR (delegation_key_raw d v)). cbn. rewrite ledger_raw_delegation.
    destruct (dels L !! (d, v)); [|done]. cbn. by rewrite decode_encode.
  - intros d v x s L HR. cbn. unfold ss_set_delegation, zoom.
    destruct (law_put_raw (backend s) _ _ _ (encode x) HR (delegation_key_raw d v)) as (b' & -> & HR').
    split; [done|]. unfold store_rel; simpl. by rewrite ledger_raw_set_delegation; destruct L.
  - intros d v s L HR. cbn. unfold ss_delete_delegation, zoom.
    destruct (law_delete_raw (backend s) _ _ _ HR (delegation_key_raw d v)) as (b' & -> & HR').
    split; [done|]. unfold store_rel; simpl. by rewrite ledger_raw_delete_delegation; destruct L.
  - intros s L HR. cbn. unfold ss_validator_records. rewrite (law_iter_val _ _ _ HR). cbn.
    rewrite ledger_raw_val_entries. apply parse_records_entries.
Qed.
End refinement.

(** The empty in-memory store holds the empty ledger. *)
Lemma new_in_memory_rel `{Hex, Blake3, Serde Account, Serde (gmap string bytes)}
    `{!Serde ValidatorRecord, !Serde Delegation} :
  store_rel new_in_memory ledger_empty.
Proof. split_and!; [done|done|apply ledger_raw_keys_ok]. Qed.
