(* ===== verification/Crypto.v ===== *)
(** * Crate [pemrix-crypto]: signature schemes

    The [SignatureScheme] trait as a record of operations (the hybrid scheme
    holds boxed trait objects), Ed25519 over the [ed25519-dalek] parameter, and
    the hybrid classical + post-quantum scheme. *)

From Stdlib Require Import Strings.Byte.
From S2P Require Import Prelude.
From S2P Require Import Externals.

(** ** [error.rs], [scheme.rs] *)
Inductive CryptoError :=
| VerificationFailed | InvalidKey | RngFailed | UnsupportedAlgorithm | HybridMismatch.

Record PublicKey := MkPublicKey { public_bytes : bytes }.
Record SecretKey := MkSecretKey { secret_bytes : bytes }.
Record Signature := MkSignature { signature_bytes : bytes }.
Record KeyPair := MkKeyPair { kp_public : PublicKey; kp_secret : SecretKey }.
Definition Signature_default : Signature := MkSignature [].

(** [trait SignatureScheme]; key generation takes the 32 random bytes it draws. *)
Record SignatureScheme := MkScheme {
  generate_keypair : array32 → outcome CryptoError KeyPair;
  sign : SecretKey → bytes → outcome CryptoError Signature;
  verify : PublicKey → bytes → Signature → outcome CryptoError unit;
  algorithm_id : string;
}.

(** ** [classical.rs] *)
Section ed25519.
Context `{Dalek, Blake3}.

Definition keypair_of (signing_key : array32) : KeyPair :=
  MkKeyPair (MkPublicKey (array32_bytes (verifying_key signing_key)))
    (MkSecretKey (array32_bytes signing_key)).
(** [Ed25519Scheme::keypair_from_seed] *)
Definition keypair_from_seed (seed : bytes) : outcome CryptoError KeyPair :=
  Ok (keypair_of (blake3_hash seed)).
Definition ed_generate_keypair (random : array32) : outcome CryptoError KeyPair :=
  Ok (keypair_of random).
Definition ed_sign (secret : SecretKey) (message : bytes) : outcome CryptoError Signature :=
  signing_key ← ok_or (array32_try_from (secret_bytes secret)) InvalidKey;
  Ok (MkSignature (dalek_sign signing_key message)).
Definition ed_verify (public : PublicKey) (message : bytes) (signature : Signature)
    : outcome CryptoError unit :=
  pk ← ok_or (array32_try_from (public_bytes public)) InvalidKey;
  if negb (vk_from_bytes pk) then Err InvalidKey
  else if decide (length (signature_bytes signature) = 64%nat) then
    if dalek_verify pk message (signature_bytes signature) then Ok tt else Err VerificationFailed
  else Err InvalidKey.
Definition Ed25519Scheme : SignatureScheme := {|
  generate_keypair := ed_generate_keypair;
  sign := ed_sign;
  verify := ed_verify;
  algorithm_id := "ed25519";
|}.
End ed25519.

(** ** [hybrid.rs] *)
Record HybridSignature := MkHybrid {
  hs_classical : Signature;
  hs_post_quantum : option Signature;
  hs_classical_algorithm : string;
  hs_post_quantum_algorithm : option string;
}.
Definition HybridSignature_default : HybridSignature := MkHybrid Signature_default None "" None.
(** [HybridSignature::classical] and [HybridSignature::hybrid] *)
Definition hybrid_classical (algorithm : string) (signature : Signature) : HybridSignature :=
  MkHybrid signature None algorithm None.
Definition hybrid_full (classical_algorithm : string) (classical : Signature)
    (pq_algorithm : string) (post_quantum : Signature) : HybridSignature :=
  MkHybrid classical (Some post_quantum) classical_algorithm (Some pq_algorithm).
Definition is_post_quantum (h : HybridSignature) : bool :=
  match hs_post_quantum h with Some _ => true | None => false end.

#[export] Instance Signature_eq_dec : EqDecision Signature.
Proof. solve_decision. Defined.
#[export] Instance Signature_countable : Countable Signature.
Proof.
  refine (inj_countable' signature_bytes MkSignature _).
  by intros [].
Defined.
#[export] Instance HybridSignature_eq_dec : EqDecision HybridSignature.
Proof. solve_decision. Defined.
#[export] Instance HybridSignature_countable : Countable HybridSignature.
Proof.
  refine (inj_countable'
    (λ h, (hs_classical h, hs_post_quantum h, hs_classical_algorithm h, hs_post_quantum_algorithm h))
    (λ '(a, b, c, d), MkHybrid a b c d) _).
  by intros [].
Defined.

Section hybrid.
Context `{Serde HybridSignature}.

(** [impl From<HybridSignature> for Signature] and back *)
Definition signature_of_hybrid (h : HybridSignature) : Signature := MkSignature (to_vec h).
Definition hybrid_of_signature (s : Signature) : HybridSignature :=
  default HybridSignature_default (from_slice (signature_bytes s)).

(** [HybridScheme::new] with its [SignatureScheme] implementation *)
Definition HybridScheme (classical : SignatureScheme) (post_quantum : option SignatureScheme)
    : SignatureScheme := {|
  generate_keypair := generate_keypair classical;
  sign secret message :=
    classical_sig ← sign classical secret message;
    Ok (signature_of_hybrid (hybrid_classical (algorithm_id classical) classical_sig));
  verify public message signature :=
    let hybrid := hybrid_of_signature signature in
    _ ← verify classical public message (hs_classical hybrid);
    match post_quantum, hs_post_quantum hybrid with
    | Some pq, Some pq_sig => verify pq public message pq_sig
    | _, _ => Ok tt
    end;
  algorithm_id := "hybrid";
|}.
End hybrid.

(** ** Properties *)

(** A signature made with a generated secret key verifies under its public key. *)
Definition scheme_correct (s : SignatureScheme) : Prop :=
  ∀ random kp message, generate_keypair s random = Ok kp →
    ∃ sig, sign s (kp_secret kp) message = Ok sig ∧ verify s (kp_public kp) message sig = Ok tt.

Lemma ed_sign_key `{Dalek} sk message :
  ed_sign (MkSecretKey (array32_bytes sk)) message = Ok (MkSignature (dalek_sign sk message)).
Proof.
  unfold ed_sign; simpl. by rewrite (proj2 (array32_try_from_Some _ sk)).
Qed.
Lemma ed_verify_sign `{DalekLaws} sk message :
  ed_verify (kp_public (keypair_of sk)) message (MkSignature (dalek_sign sk message)) = Ok tt.
Proof.
  unfold ed_verify; simpl. rewrite (proj2 (array32_try_from_Some _ (verifying_key sk))) by done.
  simpl. by rewrite verifying_key_valid, decide_True, dalek_sign_verify by apply dalek_sign_length.
Qed.
Lemma ed_correct `{DalekLaws} : scheme_correct Ed25519Scheme.
Proof.
  intros random kp message [= <-]. eexists. split; [apply ed_sign_key|apply ed_verify_sign].
Qed.
Lemma hybrid_correct `{SerdeLaws HybridSignature} c pq :
  scheme_correct c → scheme_correct (HybridScheme c pq).
Proof.
  intros Hc random kp message Hkp. destruct (Hc random kp message Hkp) as (sig & Hs & Hv).
  cbn. rewrite Hs. eexists. split; [done|]. unfold signature_of_hybrid, hybrid_of_signature.
  simpl. rewrite from_slice_to_vec. simpl. rewrite Hv. by destruct pq.
Qed.
(** A signature verifies under a hybrid scheme with a post-quantum component
    exactly when its classical part does and its post-quantum part, if present,
    does too. *)
Lemma hybrid_verify_iff `{SerdeLaws HybridSignature} c pq public message h :
  verify (HybridScheme c (Some pq)) public message (signature_of_hybrid h) = Ok tt ↔
  verify c public message (hs_classical h) = Ok tt ∧
  ∀ s, hs_post_quantum h = Some s → verify pq public message s = Ok tt.
Proof.
  cbn. unfold hybrid_of_signature; simpl. rewrite from_slice_to_vec. simpl.
  destruct (verify c public message (hs_classical h)) as [[]|e|]; simpl; [|naive_solver..].
  destruct (hs_post_quantum h); naive_solver.
Qed.
