(* ===== verification/Vm.v ===== *)
(** * Crate [pemrix-vm]: transaction execution

    Gas, the native executor, the staking executor and the block executor that
    consensus runs for every transaction, over any [Store]. *)

From Stdlib Require Import Strings.Byte.
From S2P Require Import Prelude.
From S2P Require Import Externals.
From S2P Require Import Primitives.
From S2P Require Import Storage.
From S2P Require Import StateStore.
From S2P Require Import Crypto.

(** ** [gas.rs], [error.rs], [executor.rs] *)
Record Gas := MkGas { gas_units : N }.
(** [Gas::consume]: the boolean it returns and the gas left. *)
Definition gas_consume (g : Gas) (amount : N) : bool * Gas :=
  if (gas_units g <? amount)%N then (false, g) else (true, MkGas (gas_units g - amount)).

Inductive VmError :=
| InsufficientBalance | InvalidNonce | OutOfGas | InvalidContract | InvalidSignature
| VmStorage | UnknownOperation | Execution (msg : string).

Record ExecutionResult := MkExecutionResult {
  success : bool;
  gas_used : Gas;
  message : string;
}.
Definition rejected (msg : string) : ExecutionResult := MkExecutionResult false (MkGas 0) msg.

(** ** [staking.rs]: data *)
Inductive StakingOperation :=
| RegisterValidator (consensus_pubkey : bytes) (commission_bps self_stake : N)
| Delegate (validator : Address) (amount : N)
| Undelegate (validator : Address) (amount : N).

#[export] Instance StakingOperation_eq_dec : EqDecision StakingOperation.
Proof. solve_decision. Defined.
#[export] Instance StakingOperation_countable : Countable StakingOperation.
Proof.
  refine (inj_countable'
    (λ o, match o with
          | RegisterValidator p c s => inl (p, c, s)
          | Delegate v a => inr (inl (v, a))
          | Undelegate v a => inr (inr (v, a))
          end)
    (λ x, match x with
          | inl (p, c, s) => RegisterValidator p c s
          | inr (inl (v, a)) => Delegate v a
          | inr (inr (v, a)) => Undelegate v a
          end) _).
  by intros [].
Defined.

Definition MIN_SELF_STAKE : N := 10000.
Definition MIN_DELEGATION : N := 1.

Section payload.
Context `{Serde StakingOperation}.
(** [StakingExecutor::encode] *)
Definition staking_encode (op : StakingOperation) : bytes := x01 :: to_vec op.
(** [StakingExecutor::decode] *)
Definition staking_decode (payload : bytes) : outcome VmError StakingOperation :=
  if (length payload <? 2)%nat || negb (bool_decide (head payload = Some x01)) then Err InvalidContract
  else ok_or (from_slice (drop 1 payload)) InvalidContract.
End payload.

(** ** Signature check of the native and the block executor *)
Section signature.
Context `{Blake3, Dalek, Serde Transaction}.
Definition verify_signature (t : Transaction) : outcome VmError unit :=
  if decide (length (tx_public_key t) ≠ 32%nat) then Err InvalidSignature
  else if decide (length (tx_signature t) ≠ 64%nat) then Err InvalidSignature
  else if decide (hash_as_bytes (hash_bytes (tx_public_key t)) ≠ address_as_bytes (tx_sender t))
  then Err InvalidSignature
  else
    map_err (λ _, InvalidSignature)
      (verify Ed25519Scheme (MkPublicKey (tx_public_key t))
         (hash_as_bytes (signing_hash t)) (MkSignature (tx_signature t))).
End signature.

(** ** The executors *)
Section executors.
Context {S : Type} `{Store S, Profile, Blake3, Dalek, !Serde Transaction, !Serde StakingOperation}.

(** [.map_err(|_| VmError::Storage)?] *)
Definition storage {A} (m : M S StorageError A) : M S VmError A := map_errM (λ _, VmStorage) m.
Definition get_or_default (a : Address) : M S VmError Account :=
  o ← storage (reads (λ s, store_get_account s a)); mret (default Account_default o).

(** *** [native.rs]: [NativeExecutor::execute] *)
Definition native_execute (t : Transaction) : M S VmError ExecutionResult :=
  _ ← lift (verify_signature t);
  sender_balance ← storage (reads (λ s, store_balance s (tx_sender t)));
  sender_nonce ← storage (reads (λ s, store_nonce s (tx_sender t)));
  if negb (sender_nonce =? tx_nonce t)%N then mret (rejected "invalid nonce")
  else
    total ← lift (ok_or (checked_add U128 (tx_amount t) (tx_fee t)) InsufficientBalance);
    if (sender_balance <? total)%N then mret (rejected "insufficient balance")
    else
      _ ← storage (transfer (tx_sender t) (tx_recipient t) (tx_amount t) (tx_fee t));
      mret (MkExecutionResult true (MkGas 21000) "ok").

(** *** [staking.rs]: [StakingExecutor] *)
Definition register (sender : Address) (consensus_pubkey : bytes) (commission_bps self_stake : N)
    : M S VmError ExecutionResult :=
  if bool_decide (consensus_pubkey = []) then fail InvalidContract
  else if (10000 <? commission_bps)%N then fail InvalidContract
  else if (self_stake <? MIN_SELF_STAKE)%N then fail InvalidContract
  else
    existing ← storage (reads (λ s, store_validator_record s sender));
    match existing with
    | Some _ => fail InvalidContract
    | None =>
        balance ← storage (reads (λ s, store_balance s sender));
        if (balance <? self_stake)%N then fail InsufficientBalance
        else
          account ← get_or_default sender;
          balance ← lift (usub U128 (acc_balance account) self_stake);
          _ ← storage (store_set_account sender (MkAccount balance (acc_nonce account)));
          let record := ValidatorRecord_new sender consensus_pubkey self_stake commission_bps in
          _ ← storage (store_set_validator_record sender record);
          mret (MkExecutionResult true (MkGas 50000) "validator registered")
    end.

Definition with_delegated_stake (r : ValidatorRecord) (d : N) : ValidatorRecord :=
  MkValidatorRecord (vr_address r) (vr_consensus_pubkey r) (vr_self_stake r) d
    (vr_commission_bps r) (vr_status r) (vr_jailed_until r) (vr_pending_rewards r).
Definition with_amount (d : Delegation) (a : N) : Delegation :=
  MkDelegation a (dl_unbonding d) (dl_unbond_end_height d).

Definition delegate (sender validator : Address) (amount : N) : M S VmError ExecutionResult :=
  if (amount <? MIN_DELEGATION)%N then fail InvalidContract
  else
    o ← storage (reads (λ s, store_validator_record s validator));
    record ← lift (ok_or o InvalidContract);
    if bool_decide (vr_status record ≠ Active) then fail InvalidContract
    else
      balance ← storage (reads (λ s, store_balance s sender));
      if (balance <? amount)%N then fail InsufficientBalance
      else
        account ← get_or_default sender;
        balance ← lift (usub U128 (acc_balance account) amount);
        _ ← storage (store_set_account sender (MkAccount balance (acc_nonce account)));
        delegated ← lift (uadd U128 (vr_delegated_stake record) amount);
        _ ← storage (store_set_validator_record validator (with_delegated_stake record delegated));
        o ← storage (reads (λ s, store_delegation s sender validator));
        let delegation := default Delegation_default o in
        total ← lift (uadd U128 (dl_amount delegation) amount);
        _ ← storage (store_set_delegation sender validator (with_amount delegation total));
        mret (MkExecutionResult true (MkGas 30000) "delegated").

Definition undelegate (sender validator : Address) (amount : N) : M S VmError ExecutionResult :=
  o ← storage (reads (λ s, store_delegation s sender validator));
  delegation ← lift (ok_or o InvalidContract);
  if (dl_amount delegation <? amount)%N then fail InsufficientBalance
  else
    o ← storage (reads (λ s, store_validator_record s validator));
    record ← lift (ok_or o InvalidContract);
    _ ← storage (store_set_validator_record validator
           (with_delegated_stake record (saturating_sub (vr_delegated_stake record) amount)));
    rest ← lift (usub U128 (dl_amount delegation) amount);
    _ ← (if (rest =? 0)%N then storage (store_delete_delegation sender validator)
         else storage (store_set_delegation sender validator (with_amount delegation rest)));
    account ← get_or_default sender;
    balance ← lift (uadd U128 (acc_balance account) amount);
    _ ← storage (store_set_account sender (MkAccount balance (acc_nonce account)));
    mret (MkExecutionResult true (MkGas 30000) "undelegated").

Definition staking_execute (t : Transaction) : M S VmError ExecutionResult :=
  op ← lift (staking_decode (tx_payload t));
  match op with
  | RegisterValidator consensus_pubkey commission_bps self_stake =>
      register (tx_sender t) consensus_pubkey commission_bps self_stake
  | Delegate validator amount => delegate (tx_sender t) validator amount
  | Undelegate validator amount => undelegate (tx_sender t) validator amount
  end.

(** *** [block_executor.rs]: [BlockExecutor::execute] *)
(** The native-transfer branch, after the fee was deducted. *)
Definition execute_transfer (t : Transaction) : M S VmError ExecutionResult :=
  if (0 <? tx_amount t)%N then
    sender ← get_or_default (tx_sender t);
    if (acc_balance sender <? tx_amount t)%N then
      mret (rejected "insufficient balance for transfer")
    else
      balance ← lift (usub U128 (acc_balance sender) (tx_amount t));
      _ ← storage (store_set_account (tx_sender t) (MkAccount balance (acc_nonce sender)));
      _ ← storage (transfer_amount_only (tx_recipient t) (tx_amount t));
      mret (MkExecutionResult true (MkGas 21000) "ok")
  else mret (MkExecutionResult true (MkGas 21000) "ok").

Definition execute (t : Transaction) : M S VmError ExecutionResult :=
  _ ← lift (verify_signature t);
  sender_nonce ← storage (reads (λ s, store_nonce s (tx_sender t)));
  if negb (sender_nonce =? tx_nonce t)%N then mret (rejected "invalid nonce")
  else
    sender_balance ← storage (reads (λ s, store_balance s (tx_sender t)));
    if (sender_balance <? tx_fee t)%N then mret (rejected "insufficient balance for fee")
    else
      sender ← get_or_default (tx_sender t);
      balance ← lift (usub U128 (acc_balance sender) (tx_fee t));
      nonce ← lift (uadd U64 (acc_nonce sender) 1);
      _ ← storage (store_set_account (tx_sender t) (MkAccount balance nonce));
      match tx_payload t with
      | [] => execute_transfer t
      | prefix :: _ =>
          if bool_decide (prefix = x01) then staking_execute t
          else mret (rejected "invalid contract")
      end.

(** *** [wasm.rs]: [WasmVm::execute]; running a module is [wasmtime]'s. *)
Definition wasm_execute (run_contract : bytes → outcome VmError Z) (pretty : Z → string)
    (t : Transaction) : M S VmError ExecutionResult :=
  if bool_decide (tx_payload t = []) then fail InvalidContract
  else
    result ← lift (run_contract (tx_payload t));
    mret (MkExecutionResult (bool_decide (result = 0%Z)) (MkGas 100000)
            ("wasm contract returned " +:+ pretty result)%string).
End executors.

(** [WasmVm::run_contract] without the [wasm] feature. *)
Definition run_contract_disabled (wasm : bytes) : outcome VmError Z := Err InvalidContract.
