(* ===== verification/VmTheorems.v ===== *)
(** * Correctness of transaction execution

    The executors on the abstract ledger: the effect of every operation, the
    conservation of the token supply, the authorization of every change by the
    sender's signature, replay protection; and their transport to a state store
    over any lawful backend. *)

From Stdlib Require Import Strings.Byte.
From S2P Require Import Prelude.
From S2P Require Import Externals.
From S2P Require Import Primitives.
From S2P Require Import Storage.
From S2P Require Import StateStore.
From S2P Require Import Crypto.
From S2P Require Import Vm.

(** The state after executing some transactions one after the other. *)
Definition run_txs {S} `{Store S, Profile, Blake3, Dalek, !Serde Transaction, !Serde StakingOperation}
    (ts : list Transaction) (s : S) : S :=
  foldl (λ s t, (execute t s).2) s ts.

(** ** Simulation of the executors *)
Section executor_sim.
Context {S T : Type} {R : S → T → Prop} `{StoreSim S T R}.
Context `{Profile, Blake3, Dalek, !Serde Transaction, !Serde StakingOperation}.

Lemma sim_storage {A} (m : M S StorageError A) (n : M T StorageError A) :
  sim R m n → sim R (storage m) (storage n).
Proof. apply sim_map_err. Qed.
#[local] Hint Resolve sim_storage : sim.
Lemma sim_get_or_default a : sim R (get_or_default a) (get_or_default a).
Proof. unfold get_or_default. simulate. Qed.
#[local] Hint Resolve sim_get_or_default : sim.
Lemma sim_native_execute t : sim R (native_execute t) (native_execute t).
Proof. unfold native_execute. simulate. Qed.
Lemma sim_register s p c k : sim R (register s p c k) (register s p c k).
Proof. unfold register. simulate. Qed.
Lemma sim_delegate s v a : sim R (delegate s v a) (delegate s v a).
Proof. unfold delegate. simulate. Qed.
Lemma sim_undelegate s v a : sim R (undelegate s v a) (undelegate s v a).
Proof. unfold undelegate. simulate. Qed.
#[local] Hint Resolve sim_register sim_delegate sim_undelegate : sim.
Lemma sim_staking_execute t : sim R (staking_execute t) (staking_execute t).
Proof. unfold staking_execute. simulate. Qed.
Lemma sim_execute_transfer t : sim R (execute_transfer t) (execute_transfer t).
Proof. unfold execute_transfer. simulate. Qed.
#[local] Hint Resolve sim_staking_execute sim_execute_transfer : sim.
Lemma sim_execute t : sim R (execute t) (execute t).
Proof. unfold execute. simulate. Qed.

Lemma sim_run {A} (m : M S VmError A) (n : M T VmError A) s t :
  sim R m n → R s t → R (m s).2 (n t).2.
Proof. intros Hsim HR. apply (Hsim _ _ HR). Qed.
Lemma sim_run_txs ts s t : R s t → R (run_txs ts s) (run_txs ts t).
Proof.
  unfold run_txs. revert s t. induction ts as [|x ts IH]; intros s t HR; [done|].
  simpl. apply IH. by apply sim_run; [apply sim_execute|].
Qed.
End executor_sim.
#[export] Hint Resolve sim_storage sim_get_or_default sim_native_execute sim_execute : sim.

(** ** The ledger: balances, locked stake and the supply *)
Section supply.
Local Open Scope N_scope.

Definition acct (L : Ledger) (a : Address) : Account := default Account_default (accts L !! a).
Definition record_locked (r : ValidatorRecord) : N := vr_self_stake r + vr_delegated_stake r.
Definition total_balance (L : Ledger) : N := map_sum (λ _ x, acc_balance x) (accts L).
Definition total_locked (L : Ledger) : N := map_sum (λ _ r, record_locked r) (vals L).
(** Every token is either in an account or locked with a validator. *)
Definition supply (L : Ledger) : N := total_balance L + total_locked L.

Definition delegated (L : Ledger) (v : Address) : N :=
  match vals L !! v with Some r => vr_delegated_stake r | None => 0 end.
Definition delegation_to (v : Address) (k : Address * Address) (d : Delegation) : N :=
  if decide (k.2 = v) then dl_amount d else 0.
Definition delegated_to (L : Ledger) (v : Address) : N := map_sum (delegation_to v) (dels L).

(** A validator's delegated stake is the sum of the delegations to it, and the
    supply fits the balance type. *)
Definition ledger_inv (L : Ledger) : Prop :=
  (∀ v, delegated L v = delegated_to L v) ∧ supply L ≤ U128.

Definition set_acct (a : Address) (x : Account) (L : Ledger) : Ledger :=
  MkLedger (<[a := x]> (accts L)) (vals L) (dels L).
Definition set_val (a : Address) (r : ValidatorRecord) (L : Ledger) : Ledger :=
  MkLedger (accts L) (<[a := r]> (vals L)) (dels L).
Definition set_del (d v : Address) (x : Delegation) (L : Ledger) : Ledger :=
  MkLedger (accts L) (vals L) (<[(d, v) := x]> (dels L)).
Definition del_del (d v : Address) (L : Ledger) : Ledger :=
  MkLedger (accts L) (vals L) (delete (d, v) (dels L)).

Lemma total_balance_set L a x :
  total_balance (set_acct a x L) + acc_balance (acct L a) = acc_balance x + total_balance L.
Proof.
  unfold total_balance, set_acct, acct; simpl.
  rewrite <-(map_sum_insert (λ _ x, acc_balance x) (accts L) a x). f_equal.
  unfold at_key. by destruct (accts L !! a).
Qed.
Lemma total_locked_set L a r :
  total_locked (set_val a r L) + from_option record_locked 0 (vals L !! a) =
  record_locked r + total_locked L.
Proof.
  unfold total_locked, set_val; simpl.
  rewrite <-(map_sum_insert (λ _ r, record_locked r) (vals L) a r). f_equal.
Qed.
Lemma balance_le_total L a : acc_balance (acct L a) ≤ total_balance L.
Proof.
  unfold acct, total_balance. etransitivity; [|apply (map_sum_at_key _ _ a)].
  unfold at_key. by destruct (accts L !! a).
Qed.
Lemma locked_le_total L a r : vals L !! a = Some r → record_locked r ≤ total_locked L.
Proof.
  intros Ha. unfold total_locked. etransitivity; [|apply (map_sum_at_key _ _ a)].
  unfold at_key. by rewrite Ha.
Qed.
Lemma delegation_le_delegated L d v x :
  dels L !! (d, v) = Some x → dl_amount x ≤ delegated_to L v.
Proof.
  intros Hd. unfold delegated_to. etransitivity; [|apply (map_sum_at_key _ _ (d, v))].
  unfold at_key, delegation_to. rewrite Hd; simpl. by rewrite decide_True.
Qed.
Lemma delegated_to_set L d v x w :
  delegated_to (set_del d v x L) w + (if decide (v = w) then from_option dl_amount 0 (dels L !! (d, v)) else 0) =
  (if decide (v = w) then dl_amount x else 0) + delegated_to L w.
Proof.
  unfold delegated_to, set_del; simpl.
  pose proof (map_sum_insert (delegation_to w) (dels L) (d, v) x) as Hs.
  unfold at_key, delegation_to in *; simpl in *.
  destruct (dels L !! (d, v)); case_decide; simpl; lia.
Qed.
Lemma delegated_to_del L d v w :
  delegated_to (del_del d v L) w + (if decide (v = w) then from_option dl_amount 0 (dels L !! (d, v)) else 0) =
  delegated_to L w.
Proof.
  unfold delegated_to, del_del; simpl.
  pose proof (map_sum_delete' (delegation_to w) (dels L) (d, v)) as Hs.
  unfold at_key, delegation_to in *; simpl in *.
  destruct (dels L !! (d, v)); case_decide; simpl; lia.
Qed.
Lemma acct_set L a x b : acct (set_acct a x L) b = if decide (a = b) then x else acct L b.
Proof. unfold acct, set_acct; simpl. rewrite lookup_insert. by case_decide. Qed.
Lemma set_acct_twice a x y L : set_acct a x (set_acct a y L) = set_acct a x L.
Proof. unfold set_acct; simpl. by rewrite insert_insert_eq. Qed.
Lemma set_acct_inv L a x :
  acc_balance x ≤ acc_balance (acct L a) → ledger_inv L → ledger_inv (set_acct a x L).
Proof.
  intros Hle [Hd Hs]. split; [done|]. unfold supply in *.
  pose proof (total_balance_set L a x). pose proof (balance_le_total L a).
  change (total_locked (set_acct a x L)) with (total_locked L). lia.
Qed.
End supply.

(** ** What each operation does to the ledger *)
Section ledger_runs.
Context `{Hex, Blake3, Serde Account, Serde (gmap string bytes)}.
Context `{!Serde ValidatorRecord, !Serde Delegation}.
Context `{Profile, Dalek, !Serde Transaction, !Serde StakingOperation}.
Local Open Scope N_scope.
Implicit Types L : Ledger.

Ltac run :=
  cbv beta iota zeta delta [mbind M_bind mret M_ret outcome_bind storage map_errM reads lift fail
    modify get_or_default store_balance store_nonce store_get_account store_set_account
    store_validator_record store_set_validator_record store_delegation store_set_delegation
    store_delete_delegation Ledger_Store map_err ok_or fst snd].

Lemma balance_acct L a :
  match accts L !! a with Some x => acc_balance x | None => 0 end = acc_balance (acct L a).
Proof. unfold acct. by destruct (accts L !! a). Qed.
Lemma nonce_acct L a :
  match accts L !! a with Some x => acc_nonce x | None => 0 end = acc_nonce (acct L a).
Proof. unfold acct. by destruct (accts L !! a). Qed.

Definition registered (s : Address) (p : bytes) (c k : N) (L : Ledger) : Ledger :=
  set_val s (ValidatorRecord_new s p k c)
    (set_acct s (MkAccount (acc_balance (acct L s) - k) (acc_nonce (acct L s))) L).

Lemma register_run s p c k L :
  (∃ e, register s p c k L = (Err e, L)) ∨
  (p ≠ [] ∧ c ≤ 10000 ∧ MIN_SELF_STAKE ≤ k ∧ vals L !! s = None ∧ k ≤ acc_balance (acct L s) ∧
   register s p c k L =
     (Ok (MkExecutionResult true (MkGas 50000) "validator registered"), registered s p c k L)).
Proof.
  unfold register. case_bool_decide; [left; by eexists|].
  destruct (N.ltb_spec 10000 c); [left; by eexists|].
  destruct (N.ltb_spec k MIN_SELF_STAKE); [left; by eexists|]. run.
  destruct (vals L !! s) as [r|] eqn:Hr; [left; by eexists|].
  rewrite balance_acct. destruct (N.ltb_spec (acc_balance (acct L s)) k); [left; by eexists|].
  right. fold (acct L s). rewrite usub_ok by done. done.
Qed.

Definition delegated_state (s v : Address) (a : N) (r : ValidatorRecord) (L : Ledger) : Ledger :=
  let d := default Delegation_default (dels L !! (s, v)) in
  set_del s v (with_amount d (dl_amount d + a))
    (set_val v (with_delegated_stake r (vr_delegated_stake r + a))
       (set_acct s (MkAccount (acc_balance (acct L s) - a) (acc_nonce (acct L s))) L)).

Lemma delegate_run s v a L :
  ledger_inv L →
  (∃ e, delegate s v a L = (Err e, L)) ∨
  (∃ r, MIN_DELEGATION ≤ a ∧ vals L !! v = Some r ∧ vr_status r = Active ∧
     a ≤ acc_balance (acct L s) ∧
     delegate s v a L =
       (Ok (MkExecutionResult true (MkGas 30000) "delegated"), delegated_state s v a r L)).
Proof.
  intros [Hinv Hsup]. unfold delegate.
  destruct (N.ltb_spec a MIN_DELEGATION); [left; by eexists|]. run.
  destruct (vals L !! v) as [r|] eqn:Hr; cbn; [|left; by eexists].
  case_bool_decide as Hact; [left; by eexists|].
  rewrite balance_acct. destruct (N.ltb_spec (acc_balance (acct L s)) a); [left; by eexists|].
  right. exists r. split_and!; [done..|].
  assert (record_locked r ≤ total_locked L) as Hlk by by eapply locked_le_total.
  pose proof (balance_le_total L s). unfold record_locked, supply in *.
  fold (acct L s). rewrite usub_ok by done. cbn. rewrite uadd_ok by lia. cbn.
  rewrite uadd_ok; [done|].
  destruct (dels L !! (s, v)) as [d|] eqn:Hd; cbn; [|lia].
  apply delegation_le_delegated in Hd. specialize (Hinv v). unfold delegated in Hinv.
  rewrite Hr in Hinv. lia.
Qed.

Definition undelegated_state (s v : Address) (a : N) (r : ValidatorRecord) (d : Delegation)
    (L : Ledger) : Ledger :=
  set_acct s (MkAccount (acc_balance (acct L s) + a) (acc_nonce (acct L s)))
    (let L := set_val v (with_delegated_stake r (vr_delegated_stake r - a)) L in
     if dl_amount d - a =? 0 then del_del s v L
     else set_del s v (with_amount d (dl_amount d - a)) L).

Lemma undelegate_run s v a L :
  ledger_inv L →
  (∃ e, undelegate s v a L = (Err e, L) ∧
     (vals L !! v = None ∨ ∀ d, dels L !! (s, v) = Some d → dl_amount d < a)) ∨
  (∃ r d, vals L !! v = Some r ∧ dels L !! (s, v) = Some d ∧ a ≤ dl_amount d ∧
     dl_amount d ≤ vr_delegated_stake r ∧
     undelegate s v a L =
       (Ok (MkExecutionResult true (MkGas 30000) "undelegated"), undelegated_state s v a r d L)).
Proof.
  intros [Hinv Hsup]. unfold undelegate. run.
  destruct (dels L !! (s, v)) as [d|] eqn:Hd; cbn; [|left; eexists; split; [done|by right]].
  destruct (N.ltb_spec (dl_amount d) a); [left; eexists; split; [done|by right; intros ? [= <-]]|].
  destruct (vals L !! v) as [r|] eqn:Hr; cbn; [|left; eexists; split; [done|by left]].
  right. exists r, d. pose proof (delegation_le_delegated _ _ _ _ Hd) as Hle.
  specialize (Hinv v). unfold delegated in Hinv. rewrite Hr in Hinv.
  split_and!; [done..|lia|]. rewrite usub_ok by done. cbn.
  assert (record_locked r ≤ total_locked L) as Hlk by by eapply locked_le_total.
  pose proof (balance_le_total L s) as Hb. unfold record_locked, supply, acct in *.
  unfold undelegated_state. destruct (dl_amount d - a =? 0); cbn; by rewrite uadd_ok by lia.
Qed.

Definition transferred (s to : Address) (a : N) (L : Ledger) : Ledger :=
  let L := set_acct s (MkAccount (acc_balance (acct L s) - a) (acc_nonce (acct L s))) L in
  set_acct to (MkAccount (acc_balance (acct L to) + a) (acc_nonce (acct L to))) L.

Lemma execute_transfer_run t L :
  ledger_inv L →
  execute_transfer t L =
    if tx_amount t =? 0 then (Ok (MkExecutionResult true (MkGas 21000) "ok"), L)
    else if acc_balance (acct L (tx_sender t)) <? tx_amount t
    then (Ok (rejected "insufficient balance for transfer"), L)
    else (Ok (MkExecutionResult true (MkGas 21000) "ok"),
          transferred (tx_sender t) (tx_recipient t) (tx_amount t) L).
Proof.
  intros [Hinv Hsup]. unfold execute_transfer.
  destruct (N.ltb_spec 0 (tx_amount t)), (N.eqb_spec (tx_amount t) 0); try lia; [|done]. run.
  fold (acct L (tx_sender t)).
  destruct (N.ltb_spec (acc_balance (acct L (tx_sender t))) (tx_amount t)); [done|].
  rewrite usub_ok by done. cbn.
  set (L1 := set_acct (tx_sender t) (MkAccount (acc_balance (acct L (tx_sender t)) - tx_amount t)
    (acc_nonce (acct L (tx_sender t)))) L).
  change (MkLedger (<[tx_sender t := _]> (accts L)) (vals L) (dels L)) with L1.
  unfold transfer_amount_only. run. fold (acct L1 (tx_recipient t)).
  assert (checked_add U128 (acc_balance (acct L1 (tx_recipient t))) (tx_amount t) =
    Some (acc_balance (acct L1 (tx_recipient t)) + tx_amount t)) as ->; [|done].
  apply checked_add_Some. split; [done|].
  pose proof (total_balance_set L (tx_sender t) (MkAccount (acc_balance (acct L (tx_sender t)) - tx_amount t)
    (acc_nonce (acct L (tx_sender t))))) as Ht. fold L1 in Ht. simpl in Ht.
  pose proof (balance_le_total L1 (tx_recipient t)). unfold supply in *. lia.
Qed.

(** *** What an operation of sender [s] may change *)
Record authorized (s : Address) (L L' : Ledger) : Prop := {
  auth_inv : ledger_inv L';
  auth_supply : supply L' = supply L;
  auth_balance a : a ≠ s → acc_balance (acct L a) ≤ acc_balance (acct L' a);
  auth_nonce a : acc_nonce (acct L' a) = acc_nonce (acct L a);
  auth_delegation d v : d ≠ s → dels L' !! (d, v) = dels L !! (d, v);
  auth_record v r : vals L !! v = Some r → ∃ r', vals L' !! v = Some r' ∧
    vr_self_stake r' = vr_self_stake r ∧ vr_status r' = vr_status r;
}.

Lemma authorized_refl s L : ledger_inv L → authorized s L L.
Proof. intros Hinv. split; eauto; done. Qed.

Lemma registered_authorized s p c k L :
  ledger_inv L → vals L !! s = None → k ≤ acc_balance (acct L s) →
  authorized s L (registered s p c k L).
Proof.
  intros [Hinv Hsup] Hnone Hk. unfold registered.
  set (L1 := set_acct s _ L). set (r := ValidatorRecord_new s p k c).
  assert (supply (set_val s r L1) = supply L) as Heq.
  { unfold supply. change (total_balance (set_val s r L1)) with (total_balance L1).
    pose proof (total_balance_set L s (MkAccount (acc_balance (acct L s) - k) (acc_nonce (acct L s))))
      as Hb. fold L1 in Hb. simpl in Hb. pose proof (total_locked_set L1 s r) as Hl.
    change (vals L1) with (vals L) in Hl. rewrite Hnone in Hl.
    unfold record_locked, r in *; simpl in *. change (total_locked L1) with (total_locked L) in Hl.
    lia. }
  split.
  - split; [|lia]. intros v. specialize (Hinv v). unfold delegated, delegated_to in *; simpl.
    rewrite lookup_insert. case_decide as Hv; [|done]. subst v. by rewrite Hnone in Hinv.
  - done.
  - intros a Ha. change (acct (set_val s r L1) a) with (acct L1 a). subst L1. rewrite acct_set.
    by rewrite decide_False.
  - intros a. change (acct (set_val s r L1) a) with (acct L1 a). subst L1. rewrite acct_set.
    by case_decide; subst.
  - done.
  - intros v r' Hv. simpl. rewrite lookup_insert_ne by congruence. eauto.
Qed.

Lemma delegated_authorized s v a r L :
  ledger_inv L → vals L !! v = Some r → a ≤ acc_balance (acct L s) →
  authorized s L (delegated_state s v a r L).
Proof.
  intros [Hinv Hsup] Hr Ha. unfold delegated_state.
  set (d := default Delegation_default _). set (L1 := set_acct s _ L).
  set (L2 := set_val v _ L1). set (x := with_amount d _).
  assert (supply (set_del s v x L2) = supply L) as Heq.
  { change (supply (set_del s v x L2)) with (total_balance L1 + total_locked L2).
    pose proof (total_balance_set L s (MkAccount (acc_balance (acct L s) - a) (acc_nonce (acct L s))))
      as Hb. fold L1 in Hb. simpl in Hb.
    pose proof (total_locked_set L1 v (with_delegated_stake r (vr_delegated_stake r + a))) as Hl.
    fold L2 in Hl. change (vals L1) with (vals L) in Hl. rewrite Hr in Hl.
    change (total_locked L1) with (total_locked L) in Hl.
    unfold record_locked, supply in *; simpl in *. lia. }
  split.
  - split; [|lia]. intros w. pose proof (delegated_to_set L2 s v x w) as Hd.
    change (delegated_to L2 w) with (delegated_to L w) in Hd.
    change (dels L2) with (dels L) in Hd. specialize (Hinv w).
    unfold delegated in *. cbn [vals set_del L2 set_val]. change (vals L1) with (vals L).
    rewrite lookup_insert.
    case_decide as Hw; [subst w|lia]. rewrite Hr in Hinv. subst x d. simpl in *.
    destruct (dels L !! (s, v)); simpl in *; lia.
  - done.
  - intros b Hb. change (acct (set_del s v x L2) b) with (acct L1 b). subst L1. rewrite acct_set.
    by rewrite decide_False.
  - intros b. change (acct (set_del s v x L2) b) with (acct L1 b). subst L1. rewrite acct_set.
    by case_decide; subst.
  - intros d' v' Hd'. simpl. rewrite lookup_insert_ne by congruence. done.
  - intros w r' Hw. simpl. rewrite lookup_insert. case_decide as Hv; [subst w; simplify_eq|];
      eexists; split_and!; done.
Qed.

Lemma undelegated_authorized s v a r d L :
  ledger_inv L → vals L !! v = Some r → dels L !! (s, v) = Some d →
  a ≤ dl_amount d → dl_amount d ≤ vr_delegated_stake r →
  authorized s L (undelegated_state s v a r d L).
Proof.
  intros [Hinv Hsup] Hr Hd Ha Hdr. unfold undelegated_state.
  set (L1 := set_val v _ L). set (L2 := if _ =? 0 then _ else _). set (y := MkAccount _ _).
  assert (accts L2 = accts L) as Hacc by (subst L2; by case_match).
  assert (vals L2 = vals L1) as Hvals by (subst L2; by case_match).
  assert (∀ b, acct L2 b = acct L b) as Hacct by (intros b; unfold acct; by rewrite Hacc).
  assert (∀ w, delegated_to L2 w + (if decide (v = w) then a else 0) = delegated_to L w) as Hdel.
  { intros w. subst L2. destruct (N.eqb_spec (dl_amount d - a) 0).
    - pose proof (delegated_to_del L1 s v w) as Hw. change (dels L1) with (dels L) in Hw.
      change (delegated_to L1 w) with (delegated_to L w) in Hw. rewrite Hd in Hw. simpl in Hw.
      case_decide; lia.
    - pose proof (delegated_to_set L1 s v (with_amount d (dl_amount d - a)) w) as Hw.
      change (dels L1) with (dels L) in Hw.
      change (delegated_to L1 w) with (delegated_to L w) in Hw. rewrite Hd in Hw. simpl in Hw.
      case_decide; lia. }
  assert (supply (set_acct s y L2) = supply L) as Heq.
  { pose proof (total_balance_set L2 s y) as Hb.
    pose proof (total_locked_set L v (with_delegated_stake r (vr_delegated_stake r - a))) as Hl.
    fold L1 in Hl. rewrite Hr in Hl. unfold supply.
    change (total_locked (set_acct s y L2)) with (total_locked L2).
    assert (total_locked L2 = total_locked L1) as -> by (unfold total_locked; by rewrite Hvals).
    assert (total_balance L2 = total_balance L) as HbL by (unfold total_balance; by rewrite Hacc).
    rewrite Hacct, HbL in Hb. subst y. unfold record_locked in *; simpl in *. lia. }
  split.
  - split; [|lia]. intros w. specialize (Hinv w). specialize (Hdel w).
    change (delegated (set_acct s y L2) w) with (delegated L2 w).
    change (delegated_to (set_acct s y L2) w) with (delegated_to L2 w).
    unfold delegated in *. rewrite Hvals. cbn [L1 set_val vals]. rewrite lookup_insert.
    case_decide as Hw; [subst w; rewrite Hr in Hinv; simpl|]; lia.
  - done.
  - intros b Hb. by rewrite acct_set, decide_False, Hacct.
  - intros b. rewrite acct_set, Hacct. by case_decide; subst.
  - intros d' v' Hd'. cbn [set_acct dels]. subst L2. case_match; simpl.
    + by rewrite lookup_delete_ne by congruence.
    + by rewrite lookup_insert_ne by congruence.
  - intros w r' Hw. cbn [set_acct vals]. rewrite Hvals. cbn [L1 set_val vals].
    rewrite lookup_insert. case_decide as Hv; [subst w; simplify_eq|];
      eexists; split_and!; done.
Qed.

Lemma transferred_authorized s to a L :
  ledger_inv L → a ≤ acc_balance (acct L s) → authorized s L (transferred s to a L).
Proof.
  intros [Hinv Hsup] Ha. unfold transferred.
  set (x := MkAccount (acc_balance (acct L s) - a) _). set (L1 := set_acct s x L).
  set (y := MkAccount _ _).
  pose proof (total_balance_set L s x) as HA1. fold L1 in HA1.
  pose proof (total_balance_set L1 to y) as HA2. subst x y. simpl in *.
  assert (supply (set_acct to (MkAccount (acc_balance (acct L1 to) + a) (acc_nonce (acct L1 to))) L1) =
    supply L) as Heq.
  { unfold supply. change (total_locked (set_acct to _ L1)) with (total_locked L). lia. }
  split.
  - split; [done|]. lia.
  - done.
  - intros b Hb. rewrite acct_set. subst L1. rewrite !acct_set.
    repeat case_decide; subst; simpl; try done; lia.
  - intros b. rewrite acct_set. subst L1. rewrite !acct_set.
    repeat case_decide; subst; done.
  - done.
  - intros v r Hv. by eauto.
Qed.

(** *** The block executor *)

(** After the fee was charged and the nonce advanced. *)
Definition charged (t : Transaction) (L : Ledger) : Ledger :=
  set_acct (tx_sender t) (MkAccount (acc_balance (acct L (tx_sender t)) - tx_fee t)
    (acc_nonce (acct L (tx_sender t)) + 1)) L.
Definition dispatch (t : Transaction) : M Ledger VmError ExecutionResult :=
  match tx_payload t with
  | [] => execute_transfer t
  | prefix :: _ =>
      if bool_decide (prefix = x01) then staking_execute t else mret (rejected "invalid contract")
  end.

Lemma execute_run t L :
  acc_nonce (acct L (tx_sender t)) < U64 →
  execute t L =
    match verify_signature t with
    | Ok _ =>
        if negb (acc_nonce (acct L (tx_sender t)) =? tx_nonce t) then (Ok (rejected "invalid nonce"), L)
        else if acc_balance (acct L (tx_sender t)) <? tx_fee t
        then (Ok (rejected "insufficient balance for fee"), L)
        else dispatch t (charged t L)
    | Err e => (Err e, L)
    | Panic => (Panic, L)
    end.
Proof.
  intros Hn. unfold execute. run. destruct (verify_signature t) as [[]|e|]; [|done..].
  rewrite nonce_acct. case_match; [done|]. cbv beta. rewrite balance_acct.
  destruct (N.ltb_spec (acc_balance (acct L (tx_sender t))) (tx_fee t)); [done|].
  fold (acct L (tx_sender t)). rewrite usub_ok by done. rewrite uadd_ok by lia. done.
Qed.

Lemma dispatch_authorized t L r L' :
  ledger_inv L → dispatch t L = (r, L') → r ≠ Panic ∧ authorized (tx_sender t) L L'.
Proof.
  intros Hinv. unfold dispatch.
  assert (∀ e, (Err e, L) = (r, L') → r ≠ Panic ∧ authorized (tx_sender t) L L') as HErr.
  { intros e [= <- <-]. split; [done|by apply authorized_refl]. }
  destruct (tx_payload t) as [|prefix payload] eqn:Hp.
  - rewrite execute_transfer_run by done. case_match; [|case_match].
    1,2: intros [= <- <-]; split; [done|by apply authorized_refl].
    intros [= <- <-]. split; [done|]. apply transferred_authorized; [done|].
    by apply N.ltb_ge.
  - case_bool_decide; [|intros [= <- <-]; split; [done|by apply authorized_refl]].
    unfold staking_execute, lift, mbind at 1, M_bind at 1.
    destruct (staking_decode _) as [op|e|] eqn:Hop; [|by apply HErr|].
    2: { unfold staking_decode, ok_or in Hop. by repeat case_match. }
    destruct op as [p c k|v a|v a].
    + destruct (register_run (tx_sender t) p c k L) as [[e ->]|(?&?&?&?&?&->)]; [by apply HErr|].
      intros [= <- <-]. split; [done|]. by apply registered_authorized.
    + destruct (delegate_run (tx_sender t) v a L) as [[e ->]|(?&?&?&?&?&->)]; [done|by apply HErr|].
      intros [= <- <-]. split; [done|]. by apply delegated_authorized.
    + destruct (undelegate_run (tx_sender t) v a L) as [(e & -> & _)|(?&?&?&?&?&?&->)];
        [done|by apply HErr|].
      intros [= <- <-]. split; [done|]. by apply undelegated_authorized.
Qed.

(** The transaction passes the checks made before the fee is charged. *)
Definition accepted (t : Transaction) (L : Ledger) : bool :=
  is_ok (verify_signature t) && (acc_nonce (acct L (tx_sender t)) =? tx_nonce t) &&
  (tx_fee t <=? acc_balance (acct L (tx_sender t))).
Definition fee_paid (t : Transaction) (L : Ledger) : N := if accepted t L then tx_fee t else 0.

Lemma verify_signature_total t : verify_signature t = Ok tt ∨ ∃ e, verify_signature t = Err e.
Proof.
  unfold verify_signature. repeat case_decide; eauto. cbn. unfold ed_verify.
  destruct (array32_try_from _); cbn; [|by eauto].
  destruct (vk_from_bytes _); cbn; [|by eauto]. case_decide; [|by eauto].
  destruct (dalek_verify _ _ _); cbn; eauto.
Qed.
(** What a valid signature says: the sender's address is the hash of the public
    key, and the key's owner signed the hash of the transaction. *)
Definition signed_by_sender (t : Transaction) : Prop :=
  ∃ pk : array32,
    array32_bytes pk = tx_public_key t ∧ length (tx_signature t) = 64%nat ∧
    from_public_key_hash (hash_bytes (tx_public_key t)) = tx_sender t ∧
    vk_from_bytes pk = true ∧
    dalek_verify pk (hash_as_bytes (signing_hash t)) (tx_signature t) = true.
Lemma verify_signature_iff t : verify_signature t = Ok tt ↔ signed_by_sender t.
Proof.
  unfold verify_signature, signed_by_sender. split.
  - repeat case_decide; try done. cbn. unfold ed_verify. simpl.
    destruct (array32_try_from _) as [pk|] eqn:Hpk; [|done]. simpl.
    destruct (vk_from_bytes pk) eqn:Hvk; [|done]. case_decide; [|done].
    destruct (dalek_verify _ _ _) eqn:Hv; [|done]. intros _. exists pk.
    apply array32_try_from_Some in Hpk. split_and!; [done|lia| |done..].
    destruct (tx_sender t) as [x]. unfold from_public_key_hash. f_equal.
    by apply array32_eq.
  - intros (pk & Hpk & Hlen & Hs & Hvk & Hv). rewrite <-Hpk in *.
    rewrite !decide_False; [| | |]; [|by rewrite <-Hs; intros Hne|lia|by rewrite array32_length; lia].
    cbn. unfold ed_verify. simpl. rewrite (proj2 (array32_try_from_Some _ pk)) by done. simpl.
    by rewrite Hvk, decide_True, Hv.
Qed.
Lemma execute_accepted t L :
  acc_nonce (acct L (tx_sender t)) < U64 → accepted t L = true →
  execute t L = dispatch t (charged t L).
Proof.
  intros Hn. unfold accepted. rewrite !andb_true_iff. intros [[Hv Hnc] Hf].
  rewrite execute_run, Hnc by done. destruct (verify_signature t) as [[]|e|]; [|done..]. simpl.
  apply N.leb_le, N.ltb_ge in Hf. by rewrite Hf.
Qed.
Lemma execute_rejected t L :
  acc_nonce (acct L (tx_sender t)) < U64 → accepted t L = false →
  ∃ r, execute t L = (r, L) ∧ r ≠ Panic.
Proof.
  intros Hn. unfold accepted. rewrite execute_run by done.
  destruct (verify_signature_total t) as [->|[e ->]]; [|by eauto]. simpl.
  destruct (_ =? _); simpl; [|by eauto].
  destruct (N.leb_spec (tx_fee t) (acc_balance (acct L (tx_sender t)))); [done|].
  intros _. rewrite (proj2 (N.ltb_lt _ _)) by done. by eauto.
Qed.
Lemma charged_inv t L : ledger_inv L → ledger_inv (charged t L).
Proof. apply set_acct_inv. simpl. lia. Qed.
Lemma charged_supply t L : accepted t L = true → supply (charged t L) + tx_fee t = supply L.
Proof.
  unfold accepted. rewrite !andb_true_iff, N.leb_le. intros [_ Hf]. unfold charged.
  set (x := MkAccount _ _). pose proof (total_balance_set L (tx_sender t) x) as Hb.
  unfold supply. change (total_locked (set_acct _ _ L)) with (total_locked L).
  subst x. simpl in *. lia.
Qed.
Lemma execute_effect t L r L' :
  ledger_inv L → acc_nonce (acct L (tx_sender t)) < U64 → execute t L = (r, L') →
  r ≠ Panic ∧
  (accepted t L = false ∧ L' = L ∨
   accepted t L = true ∧ authorized (tx_sender t) (charged t L) L').
Proof.
  intros Hinv Hn Hrun. destruct (accepted t L) eqn:Hacc.
  - rewrite execute_accepted in Hrun by done.
    apply dispatch_authorized in Hrun as [Hp Hauth]; [|by apply charged_inv]. eauto.
  - destruct (execute_rejected t L) as (r' & Hr & Hp); [done..|]. rewrite Hrun in Hr.
    simplify_eq. eauto.
Qed.
(** The nonce counts the accepted transactions of the sender. *)
Lemma execute_nonce t L r L' a :
  ledger_inv L → acc_nonce (acct L (tx_sender t)) < U64 → execute t L = (r, L') →
  acc_nonce (acct L' a) =
    acc_nonce (acct L a) + (if accepted t L && bool_decide (tx_sender t = a) then 1 else 0).
Proof.
  intros Hinv Hn Hrun. destruct (execute_effect _ _ _ _ Hinv Hn Hrun) as [_ [[-> ->]|[-> Hauth]]].
  { simpl. lia. }
  rewrite (auth_nonce _ _ _ Hauth a). unfold charged. rewrite acct_set. simpl.
  case_decide; [rewrite bool_decide_true by done; by subst|rewrite bool_decide_false by done; lia].
Qed.
Lemma execute_inv t L r L' :
  ledger_inv L → acc_nonce (acct L (tx_sender t)) < U64 → execute t L = (r, L') → ledger_inv L'.
Proof.
  intros Hinv Hn Hrun. destruct (execute_effect _ _ _ _ Hinv Hn Hrun) as [_ [[_ ->]|[_ Ha]]];
    [done|]. by apply (auth_inv _ _ _ Ha).
Qed.
Lemma execute_supply t L r L' :
  ledger_inv L → acc_nonce (acct L (tx_sender t)) < U64 → execute t L = (r, L') →
  supply L' + fee_paid t L = supply L.
Proof.
  intros Hinv Hn Hrun. unfold fee_paid.
  destruct (execute_effect _ _ _ _ Hinv Hn Hrun) as [_ [[-> ->]|[Hacc Ha]]]; [lia|].
  rewrite Hacc, (auth_supply _ _ _ Ha). by apply charged_supply.
Qed.

(** A transaction that does not succeed changes nothing but the fee and the
    nonce. *)
Lemma dispatch_atomic t L r L' :
  ledger_inv L → dispatch t L = (r, L') → (∀ x, r = Ok x → success x = false) → L' = L.
Proof.
  intros Hinv. unfold dispatch. destruct (tx_payload t) as [|prefix payload].
  - rewrite execute_transfer_run by done. repeat case_match; intros [= <- <-] Hs; try done.
    by specialize (Hs _ eq_refl).
  - case_bool_decide; [|by intros [= <- <-]].
    unfold staking_execute, lift, mbind at 1, M_bind at 1.
    destruct (staking_decode _) as [[p c k|v a|v a]|e|]; [..|by intros [= <- <-]|by intros [= <- <-]].
    + destruct (register_run (tx_sender t) p c k L) as [[e ->]|(?&?&?&?&?&->)];
        intros [= <- <-] Hs; [done|by specialize (Hs _ eq_refl)].
    + destruct (delegate_run (tx_sender t) v a L) as [[e ->]|(?&?&?&?&?&->)];
        [done|..]; intros [= <- <-] Hs; [done|by specialize (Hs _ eq_refl)].
    + destruct (undelegate_run (tx_sender t) v a L) as [(e & -> & _)|(?&?&?&?&?&?&->)];
        [done|..]; intros [= <- <-] Hs; [done|by specialize (Hs _ eq_refl)].
Qed.

(** *** Sequences of transactions *)
(** Every account can still send [n] transactions. *)
Definition nonce_room (n : nat) (L : Ledger) : Prop :=
  ∀ a, acc_nonce (acct L a) + N.of_nat n < U64.

Lemma execute_room n t L r L' :
  ledger_inv L → nonce_room (1 + n) L → execute t L = (r, L') → nonce_room n L'.
Proof.
  intros Hinv Hroom Hrun a. pose proof (Hroom (tx_sender t)). specialize (Hroom a).
  rewrite (execute_nonce t L r L' a) by (done || lia). case_match; lia.
Qed.
Lemma run_txs_spec ts L n :
  ledger_inv L → nonce_room (length ts + n) L →
  ledger_inv (run_txs ts L) ∧ nonce_room n (run_txs ts L) ∧
  (∀ a, acc_nonce (acct L a) ≤ acc_nonce (acct (run_txs ts L) a)) ∧
  supply (run_txs ts L) ≤ supply L.
Proof.
  revert L. induction ts as [|t ts IH]; intros L Hinv Hroom; [done|].
  simpl in *. destruct (execute t L) as [r L'] eqn:Hrun. simpl.
  assert (acc_nonce (acct L (tx_sender t)) < U64) as Hn by (specialize (Hroom (tx_sender t)); lia).
  destruct (IH L') as (H1' & H2' & H3' & H4'); [by eapply execute_inv|by eapply execute_room|].
  split_and!; [done..| |].
  - intros a. etransitivity; [|apply H3']. rewrite (execute_nonce t L r L' a) by done. lia.
  - pose proof (execute_supply t L r L' Hinv Hn Hrun). lia.
Qed.

(** *** Stale nonces, on any store *)
Lemma execute_stale {S} `{!Store S} t (s : S) n :
  verify_signature t = Ok tt → store_nonce s (tx_sender t) = Ok n → n ≠ tx_nonce t →
  execute t s = (Ok (rejected "invalid nonce"), s).
Proof.
  intros Hv Hn Hne. unfold execute. rewrite bind_lift, Hv.
  rewrite (bind_Ok n _ s s); [by rewrite (proj2 (N.eqb_neq _ _) Hne)|].
  unfold storage, map_errM, reads. by rewrite Hn.
Qed.

(** *** The native transfer, account by account *)
Lemma acct_transferred t L a :
  0 < tx_amount t → tx_amount t + tx_fee t ≤ acc_balance (acct L (tx_sender t)) →
  acct (transferred (tx_sender t) (tx_recipient t) (tx_amount t) (charged t L)) a =
  MkAccount
    (acc_balance (acct L a) + (if decide (tx_recipient t = a) then tx_amount t else 0) -
     (if decide (tx_sender t = a) then tx_amount t + tx_fee t else 0))
    (acc_nonce (acct L a) + (if decide (tx_sender t = a) then 1 else 0)).
Proof.
  intros Ha Hle. unfold transferred. rewrite !acct_set. unfold charged at 1.
  rewrite !acct_set. unfold charged. rewrite !acct_set.
  repeat (case_decide; subst; simpl in *); try done; try f_equal; try lia.
  1,2: replace (acct L (tx_recipient t)) with (acct L (tx_sender t)) by congruence; lia.
  destruct (acct L a); simpl in *. f_equal; lia.
Qed.

(** *** Delegating and undelegating the same amount *)
Lemma delegate_undelegate_run s v a r L :
  ledger_inv L → MIN_DELEGATION ≤ a → vals L !! v = Some r → a ≤ acc_balance (acct L s) →
  (∀ d, dels L !! (s, v) = Some d → dl_amount d ≠ 0) →
  undelegate s v a (delegated_state s v a r L) =
    (Ok (MkExecutionResult true (MkGas 30000) "undelegated"), L).
Proof.
  intros Hinv Hmin Hr Ha Hnz. unfold MIN_DELEGATION in *.
  pose proof (delegated_authorized s v a r L Hinv Hr Ha) as Hauth.
  destruct (undelegate_run s v a _ (auth_inv _ _ _ Hauth))
    as [(e & _ & Herr)|(r' & d' & Hr' & Hd' & Hle & Hle' & Hrun)].
  - exfalso. unfold delegated_state in Herr; simpl in Herr. rewrite !lookup_insert_eq in Herr.
    destruct Herr as [|Herr]; [done|]. specialize (Herr _ eq_refl). simpl in Herr. lia.
  - rewrite Hrun. f_equal. revert Hr' Hd'. unfold delegated_state, undelegated_state; simpl.
    rewrite !lookup_insert_eq. intros [= <-] [= <-]. simpl in *.
    unfold acct; simpl. rewrite lookup_insert_eq. simpl.
    assert (∃ x, accts L !! s = Some x ∧ a ≤ acc_balance x) as (x & Hx & Hxa).
    { unfold acct in Ha. destruct (accts L !! s); simpl in *; [eauto|lia]. }
    destruct L as [A V D]; unfold acct in *; simpl in *. rewrite Hx in *; simpl in *.
    assert (set_acct s (MkAccount (acc_balance x - a + a) (acc_nonce x)) = set_acct s x) as Hacc.
    { f_equal. destruct x; simpl in *. f_equal. lia. }
    rewrite Hacc. assert (with_delegated_stake
      (with_delegated_stake r (vr_delegated_stake r + a)) (vr_delegated_stake r + a - a) = r) as ->.
    { destruct r; unfold with_delegated_stake; simpl. f_equal. lia. }
    destruct (D !! (s, v)) as [d|] eqn:Hd; simpl.
    + specialize (Hnz d eq_refl). destruct (N.eqb_spec (dl_amount d + a - a) 0); [lia|].
      assert (with_amount (with_amount d (dl_amount d + a)) (dl_amount d + a - a) = d) as ->.
      { destruct d; unfold with_amount; simpl. f_equal. lia. }
      unfold set_acct, set_val, set_del; simpl. rewrite !insert_insert_eq.
      by rewrite !insert_id by done.
    + destruct (N.eqb_spec (0 + a - a) 0); [|lia].
      unfold set_acct, set_val, set_del, del_del; simpl. rewrite !insert_insert_eq.
      rewrite delete_insert_eq, delete_id by done. by rewrite !insert_id by done.
Qed.

(** *** The native executor and the block executor *)
Lemma native_execute_run t L :
  acc_nonce (acct L (tx_sender t)) < U64 → ledger_inv L → 0 < tx_amount t →
  tx_payload t = [] → ∀ r L', native_execute t L = (Ok r, L') → success r = true →
  execute t L = (Ok r, L').
Proof.
  intros Hn Hinv Ha Hp r L'. unfold native_execute. run.
  destruct (verify_signature t) as [[]|e|] eqn:Hv; [|done..].
  rewrite balance_acct, nonce_acct.
  destruct (N.eqb_spec (acc_nonce (acct L (tx_sender t))) (tx_nonce t)) as [Hnc|]; simpl;
    [|intros [= <- <-]; done].
  destruct (checked_add _ _ _) as [total|] eqn:Htot; [|done].
  apply checked_add_Some in Htot as [-> Htot].
  destruct (N.ltb_spec (acc_balance (acct L (tx_sender t))) (tx_amount t + tx_fee t));
    [intros [= <- <-]; done|].
  assert (accepted t L = true) as Hacc.
  { unfold accepted. rewrite Hv, Hnc, N.eqb_refl. simpl. apply N.leb_le. lia. }
  rewrite execute_accepted by done. unfold dispatch. rewrite Hp.
  rewrite execute_transfer_run by by apply charged_inv.
  destruct (N.eqb_spec (tx_amount t) 0); [lia|].
  destruct (N.ltb_spec (acc_balance (acct (charged t L) (tx_sender t))) (tx_amount t)) as [Hlt|_].
  { exfalso. revert Hlt. unfold charged. rewrite acct_set, decide_True by done. simpl. lia. }
  destruct (accts L !! tx_sender t) as [x|] eqn:Hx;
    [|exfalso; unfold acct in *; rewrite Hx in *; simpl in *; lia].
  assert (acct L (tx_sender t) = x) as Hax by (unfold acct; by rewrite Hx). rewrite Hax in *.
  unfold transfer, transfer_amount_only. run. rewrite Hx.
  rewrite (proj2 (checked_add_Some _ _ _ (tx_amount t + tx_fee t))) by (split; [done|lia]).
  rewrite (proj2 (N.ltb_ge _ _)) by lia. rewrite usub_ok, uadd_ok by lia.
  set (L1 := set_acct (tx_sender t) (MkAccount (acc_balance x - (tx_amount t + tx_fee t))
    (acc_nonce x + 1)) L).
  change (MkLedger (<[tx_sender t := _]> (accts L)) (vals L) (dels L)) with L1.
  assert (transferred (tx_sender t) (tx_recipient t) (tx_amount t) (charged t L) =
    set_acct (tx_recipient t) (MkAccount (acc_balance (acct L1 (tx_recipient t)) + tx_amount t)
      (acc_nonce (acct L1 (tx_recipient t)))) L1) as ->.
  { unfold transferred. replace (set_acct (tx_sender t) _ (charged t L)) with L1; [done|].
    unfold charged. rewrite set_acct_twice, acct_set, decide_True, Hax by done. simpl.
    subst L1. f_equal. f_equal. lia. }
  fold (acct L1 (tx_recipient t)). destruct (checked_add _ _ _) as [b|] eqn:Hb; [|done].
  apply checked_add_Some in Hb as [-> _]. by intros [= <- <-].
Qed.
End ledger_runs.
