(* ===== verification/VmProperties.v ===== *)
(** * Properties of transaction execution on a state store

    The theorems of the executors for a [StateStore] over any lawful backend,
    with a concrete scenario that instantiates each of them. *)

From Stdlib Require Import Strings.Byte.
From S2P Require Import Prelude.
From S2P Require Import Externals.
From S2P Require Import Primitives.
From S2P Require Import Storage.
From S2P Require Import StateStore.
From S2P Require Import Crypto.
From S2P Require Import Vm.
From S2P Require Import VmTheorems.

Section store_properties.
Context {B : Type} `{StateBackend B, Hex, Blake3, Serde Account, Serde (gmap string bytes)}.
Context `{!BackendLaws B, !Serde ValidatorRecord, !SerdeLaws ValidatorRecord}.
Context `{!Serde Delegation, !SerdeLaws Delegation}.
Context `{Profile, Dalek, !Serde Transaction, !Serde StakingOperation}.
Local Open Scope N_scope.
Implicit Types (s : StateStore B) (L : Ledger) (t : Transaction).

(** C6: The block executor on a state store over any lawful backend (in-memory
    or RocksDB) behaves as the block executor on the abstract ledger: it returns
    the same outcome, and the store it leaves holds the ledger it leaves. *)
Theorem execute_refines_ledger s L t :
  store_rel s L →
  (execute t s).1 = (execute t L).1 ∧ store_rel (execute t s).2 (execute t L).2.
Proof. apply sim_execute. Qed.

(** C1: Executing a transaction neither creates nor destroys tokens except for
    the fee: the balances and the stake locked with validators afterwards sum to
    what they were, less the fee of a transaction that was accepted; the stake
    delegated to each validator stays the sum of its delegations; no panic. *)
Theorem execute_conserves_supply s L t r s' :
  store_rel s L → ledger_inv L → acc_nonce (acct L (tx_sender t)) < U64 →
  execute t s = (r, s') →
  ∃ L', store_rel s' L' ∧ ledger_inv L' ∧ r ≠ Panic ∧ supply L' + fee_paid t L = supply L.
Proof.
  intros HR Hinv Hn Hrun. destruct (sim_execute t s L HR) as [Hr HR'].
  rewrite Hrun in Hr, HR'. destruct (execute t L) as [r' L'] eqn:HL. simpl in *. subst r'.
  exists L'. split_and!; [done|by eapply execute_inv|by apply (execute_effect t L r L')|].
  by eapply execute_supply.
Qed.

(** C2: Only the sender can lose anything, and only by signing: if the ledger
    changes, the sender's address is the hash of a valid public key and the
    transaction's hash was signed under that key; every other account keeps at
    least its balance, its nonce and its delegations, and every validator keeps
    its self-stake and status. *)
Theorem execute_authorized s L t r s' :
  store_rel s L → ledger_inv L → acc_nonce (acct L (tx_sender t)) < U64 →
  execute t s = (r, s') →
  ∃ L', store_rel s' L' ∧ (L' ≠ L → signed_by_sender t) ∧
    (∀ a, a ≠ tx_sender t →
       acc_balance (acct L a) ≤ acc_balance (acct L' a) ∧
       acc_nonce (acct L' a) = acc_nonce (acct L a) ∧
       ∀ v, dels L' !! (a, v) = dels L !! (a, v)) ∧
    (∀ v x, vals L !! v = Some x → ∃ x', vals L' !! v = Some x' ∧
       vr_self_stake x' = vr_self_stake x ∧ vr_status x' = vr_status x).
Proof.
  intros HR Hinv Hn Hrun. destruct (sim_execute t s L HR) as [Hr HR'].
  rewrite Hrun in Hr, HR'. destruct (execute t L) as [r' L'] eqn:HL. simpl in *.
  exists L'. split; [done|].
  destruct (execute_effect t L r' L') as [_ [[Hacc ->]|[Hacc Ha]]]; [done..| |].
  { split_and!; [done|done|]. intros v x Hx. by exists x. }
  split_and!.
  - intros _. apply verify_signature_iff. unfold accepted in Hacc.
    destruct (verify_signature_total t) as [?|[e He]]; [done|]. by rewrite He in Hacc.
  - intros a Hne. split_and!.
    + pose proof (auth_balance _ _ _ Ha a Hne) as Hb. unfold charged in Hb.
      by rewrite acct_set, decide_False in Hb.
    + rewrite (auth_nonce _ _ _ Ha). unfold charged. by rewrite acct_set, decide_False.
    + intros v. by apply (auth_delegation _ _ _ Ha).
  - apply (auth_record _ _ _ Ha).
Qed.

(** C5: A transaction that fails (with an error or an unsuccessful result)
    changes nothing, or only takes the fee from the sender and advances the
    sender's nonce. *)
Theorem execute_failure_atomic s L t r s' :
  store_rel s L → ledger_inv L → acc_nonce (acct L (tx_sender t)) < U64 →
  execute t s = (r, s') → (∀ x, r = Ok x → success x = false) →
  store_rel s' L ∨
  store_rel s' (set_acct (tx_sender t)
    (MkAccount (acc_balance (acct L (tx_sender t)) - tx_fee t)
       (acc_nonce (acct L (tx_sender t)) + 1)) L).
Proof.
  intros HR Hinv Hn Hrun Hfail. destruct (sim_execute t s L HR) as [Hr HR'].
  rewrite Hrun in Hr, HR'. simpl in Hr, HR'. destruct (accepted t L) eqn:Hacc.
  - right. rewrite execute_accepted in Hr, HR' by done.
    destruct (dispatch t (charged t L)) as [r' L'] eqn:Hd. simpl in *. subst r'.
    by rewrite (dispatch_atomic _ _ _ _ (charged_inv _ _ Hinv) Hd Hfail) in HR'.
  - left. destruct (execute_rejected t L Hn Hacc) as (r' & Hrej & _). by rewrite Hrej in HR'.
Qed.

(** C3: No transaction is executed twice: once accepted, it is rejected with
    "invalid nonce", leaving the store as it is, after any further transactions. *)
Theorem execute_no_replay s L t ts :
  store_rel s L → ledger_inv L → nonce_room (2 + length ts) L → accepted t L = true →
  let s' := run_txs ts (execute t s).2 in
  execute t s' = (Ok (rejected "invalid nonce"), s').
Proof.
  intros HR Hinv Hroom Hacc s'.
  assert (acc_nonce (acct L (tx_sender t)) < U64) as Hn by (specialize (Hroom (tx_sender t)); lia).
  set (L' := run_txs ts (execute t L).2).
  assert (store_rel s' L') as HR' by (apply sim_run_txs, sim_run; [apply sim_execute|done]).
  destruct (execute t L) as [r L1] eqn:Hrun. simpl in L'.
  pose proof (execute_nonce t L r L1 (tx_sender t) Hinv Hn Hrun) as Hnonce.
  rewrite Hacc, bool_decide_true in Hnonce by done. simpl in Hnonce.
  destruct (run_txs_spec ts L1 0) as (_ & _ & Hmono & _); [by eapply execute_inv| |].
  { replace (length ts + 0)%nat with (length ts) by lia. eapply execute_room; [done| |done].
    intros a. specialize (Hroom a). lia. }
  specialize (Hmono (tx_sender t)). fold L' in Hmono.
  unfold accepted in Hacc. rewrite !andb_true_iff, N.eqb_eq in Hacc. destruct Hacc as [[Hv Heq] _].
  apply (execute_stale t s' (acc_nonce (acct L' (tx_sender t)))).
  - destruct (verify_signature t) as [[]|e|]; done.
  - rewrite (sim_nonce (tx_sender t) s' L' HR'). unfold store_nonce. cbn. by rewrite nonce_acct.
  - lia.
Qed.

(** C4: A correctly signed native transfer that the sender can pay for succeeds
    and moves exactly the amount: the sender pays amount and fee and advances
    its nonce, the recipient receives the amount (the sender itself included),
    and nothing else changes. *)
Theorem execute_transfer_correct s L t :
  store_rel s L → ledger_inv L → acc_nonce (acct L (tx_sender t)) < U64 →
  tx_payload t = [] → verify_signature t = Ok tt → acc_nonce (acct L (tx_sender t)) = tx_nonce t →
  0 < tx_amount t → tx_amount t + tx_fee t ≤ acc_balance (acct L (tx_sender t)) →
  ∃ s' L', execute t s = (Ok (MkExecutionResult true (MkGas 21000) "ok"), s') ∧ store_rel s' L' ∧
    vals L' = vals L ∧ dels L' = dels L ∧
    ∀ a, acct L' a = MkAccount
      (acc_balance (acct L a) + (if decide (tx_recipient t = a) then tx_amount t else 0) -
       (if decide (tx_sender t = a) then tx_amount t + tx_fee t else 0))
      (acc_nonce (acct L a) + (if decide (tx_sender t = a) then 1 else 0)).
Proof.
  intros HR Hinv Hn Hp Hv Hnc Ha Hle. destruct (sim_execute t s L HR) as [Hr HR'].
  assert (accepted t L = true) as Hacc.
  { unfold accepted. rewrite Hv, Hnc, N.eqb_refl. simpl. apply N.leb_le. lia. }
  rewrite execute_accepted in Hr, HR' by done. unfold dispatch in Hr, HR'. rewrite Hp in Hr, HR'.
  rewrite execute_transfer_run in Hr, HR' by by apply charged_inv.
  destruct (N.eqb_spec (tx_amount t) 0); [lia|].
  destruct (N.ltb_spec (acc_balance (acct (charged t L) (tx_sender t))) (tx_amount t)) as [Hlt|_].
  { exfalso. revert Hlt. unfold charged. rewrite acct_set, decide_True by done. simpl. lia. }
  destruct (execute t s) as [r s']. simpl in Hr, HR'. subst r.
  eexists s', _. split_and!; [done|exact HR'|done|done|]. intros a. by apply acct_transferred.
Qed.

(** Undelegating what was just delegated restores the ledger exactly: the
    account, the validator record and the delegation. *)
Lemma delegate_undelegate_roundtrip s L d v a r s' :
  store_rel s L → ledger_inv L → (∀ x, dels L !! (d, v) = Some x → dl_amount x ≠ 0) →
  delegate d v a s = (Ok r, s') →
  ∃ s'', undelegate d v a s' = (Ok (MkExecutionResult true (MkGas 30000) "undelegated"), s'') ∧
    store_rel s'' L.
Proof.
  intros HR Hinv Hnz Hrun. destruct (sim_delegate d v a s L HR) as [Hr HR'].
  rewrite Hrun in Hr, HR'. simpl in Hr, HR'.
  destruct (delegate_run d v a L Hinv) as [[e Hd]|(x & Hmin & Hx & _ & Hle & Hd)];
    rewrite Hd in Hr, HR'; simpl in Hr, HR'; [done|].
  destruct (sim_undelegate d v a s' _ HR') as [Hu HRu].
  rewrite (delegate_undelegate_run d v a x L) in Hu, HRu by done.
  destruct (undelegate d v a s') as [ru s'']. simpl in Hu, HRu. subst ru. by exists s''.
Qed.

(** The native executor and the block executor agree on transfers: whatever
    the native executor carries out, the block executor carries out with the
    same result and the same final ledger. *)
Lemma native_block_executor_agree s L t r s1 s2 :
  store_rel s L → ledger_inv L → acc_nonce (acct L (tx_sender t)) < U64 →
  tx_payload t = [] → 0 < tx_amount t →
  native_execute t s = (Ok r, s1) → success r = true →
  (execute t s).2 = s2 →
  (execute t s).1 = Ok r ∧ ∃ L', store_rel s1 L' ∧ store_rel s2 L'.
Proof.
  intros HR Hinv Hn Hp Ha Hnat Hok <-. destruct (sim_native_execute t s L HR) as [Hr1 HR1].
  rewrite Hnat in Hr1, HR1. destruct (native_execute t L) as [r1 L1] eqn:HL1. simpl in Hr1, HR1.
  subst r1. pose proof (native_execute_run t L Hn Hinv Ha Hp r L1 HL1 Hok) as Hex.
  destruct (sim_execute t s L HR) as [Hr2 HR2]. rewrite Hex in Hr2, HR2. eauto.
Qed.
End store_properties.

Section payload_properties.
Context `{Serde StakingOperation, !SerdeLaws StakingOperation}.
(** A staking operation encoded into a transaction payload decodes to itself
    (given that [serde_json] rejects empty input). *)
Lemma staking_payload_roundtrip (op : StakingOperation) :
  from_slice ([] : bytes) = (None : option StakingOperation) →
  staking_decode (staking_encode op) = Ok op.
Proof.
  intros Hempty. unfold staking_decode, staking_encode. simpl.
  assert (to_vec op ≠ []) as Hne.
  { intros Hnil. pose proof (from_slice_to_vec op) as Hop. rewrite Hnil, Hempty in Hop. done. }
  destruct (to_vec op) as [|x b] eqn:Hv; [done|]. simpl.
  by rewrite <-Hv, from_slice_to_vec.
Qed.
End payload_properties.

(** ** A concrete scenario

    Alice, whose key is 32 bytes 0x01, holds 100000 tokens; Val is a registered
    validator. *)
Module Scenario.
Import Reference ReferenceDb.
#[export] Existing Instance dev.
Local Open Scope N_scope.

Definition sk_alice : array32 := Array32 (replicate 32 x01) eq_refl.
Definition alice : Address := MkAddress sk_alice.
Definition bob : Address := MkAddress (Array32 (replicate 32 x02) eq_refl).
Definition val : Address := MkAddress (Array32 (replicate 32 x03) eq_refl).
(** [sign_tx] of the tests. *)
Definition signed (t : Transaction) : Transaction :=
  let t := MkTransaction (tx_sender t) (tx_recipient t) (tx_amount t) (tx_nonce t) (tx_fee t)
             (array32_bytes sk_alice) [] (tx_payload t) in
  MkTransaction (tx_sender t) (tx_recipient t) (tx_amount t) (tx_nonce t) (tx_fee t)
    (tx_public_key t) (dalek_sign sk_alice (hash_as_bytes (signing_hash t))) (tx_payload t).

Definition ledger0 : Ledger :=
  MkLedger {[alice := MkAccount 100000 0]} {[val := ValidatorRecord_new val [x07] 10000 500]} ∅.
Definition store0 : StateStore InMemoryBackend :=
  MkStateStore (MkInMemory (accts ledger0) (ledger_raw ledger0)).
Definition pay : Transaction := signed (transfer_tx alice bob 100 0 1).
(** A payment Alice cannot afford. *)
Definition overdraft : Transaction := signed (transfer_tx alice bob 1000000 0 1).

Lemma store0_rel : store_rel store0 ledger0.
Proof. split_and!; [done|done|apply ledger_raw_keys_ok]. Qed.
Lemma ledger0_inv : ledger_inv ledger0.
Proof.
  split; [|by vm_compute]. intros v. unfold delegated, delegated_to. simpl.
  rewrite map_sum_empty. destruct (decide (v = val)) as [->|Hne].
  - by rewrite lookup_singleton_eq.
  - by rewrite lookup_singleton_ne.
Qed.
Lemma ledger0_room : nonce_room 10 ledger0.
Proof.
  intros a. unfold acct; simpl. destruct (decide (a = alice)) as [->|Hne].
  - rewrite lookup_singleton_eq. by vm_compute.
  - rewrite lookup_singleton_ne by done. by vm_compute.
Qed.

(** The empty database holds the empty ledger. *)
Lemma rocks_empty_rel :
  store_rel (MkStateStore (MkRocksDb (∅ : gmap bytes bytes))) ledger_empty.
Proof.
  split_and!; [apply ledger_raw_keys_ok|done| |].
  - done.
  - by intros k [x Hx].
Qed.
Lemma fee_paid_pay : fee_paid pay ledger0 = 1.
Proof. by vm_compute. Qed.
Lemma execute_refines_ledger_witness :
  store_rel (MkStateStore (MkRocksDb (∅ : gmap bytes bytes))) ledger_empty ∧
  (execute pay (MkStateStore (MkRocksDb (∅ : gmap bytes bytes)))).1 = (execute pay ledger_empty).1.
Proof.
  split; [apply rocks_empty_rel|].
  apply (execute_refines_ledger _ _ pay rocks_empty_rel).
Defined.
Lemma execute_conserves_supply_witness :
  ∃ L', store_rel (execute pay store0).2 L' ∧ supply L' + 1 = supply ledger0.
Proof.
  destruct (execute_conserves_supply store0 ledger0 pay (execute pay store0).1
    (execute pay store0).2) as (L' & HR & _ & _ & Hs).
  - apply store0_rel.
  - apply ledger0_inv.
  - by vm_compute.
  - apply surjective_pairing.
  - exists L'. split; [exact HR|]. by rewrite <-Hs, fee_paid_pay.
Defined.
Lemma execute_authorized_witness :
  ∃ L', store_rel (execute pay store0).2 L' ∧ acc_balance (acct ledger0 bob) ≤ acc_balance (acct L' bob).
Proof.
  destruct (execute_authorized store0 ledger0 pay (execute pay store0).1
    (execute pay store0).2) as (L' & HR & _ & Hb & _).
  - apply store0_rel.
  - apply ledger0_inv.
  - by vm_compute.
  - apply surjective_pairing.
  - exists L'. split; [exact HR|]. by apply (Hb bob).
Defined.
Lemma execute_failure_atomic_witness :
  (execute overdraft store0).1 = Ok (rejected "insufficient balance for transfer") ∧
  (store_rel (execute overdraft store0).2 ledger0 ∨
   store_rel (execute overdraft store0).2 (set_acct alice (MkAccount 99999 1) ledger0)).
Proof.
  split; [by vm_compute|].
  apply (execute_failure_atomic store0 ledger0 overdraft (execute overdraft store0).1
    (execute overdraft store0).2).
  - apply store0_rel.
  - apply ledger0_inv.
  - by vm_compute.
  - apply surjective_pairing.
  - assert ((execute overdraft store0).1 = Ok (rejected "insufficient balance for transfer"))
      as -> by by vm_compute.
    by intros x [= <-].
Defined.
Lemma execute_no_replay_witness :
  accepted pay ledger0 = true ∧
  execute pay (run_txs [overdraft] (execute pay store0).2) =
    (Ok (rejected "invalid nonce"), run_txs [overdraft] (execute pay store0).2).
Proof.
  split; [by vm_compute|]. apply (execute_no_replay store0 ledger0 pay [overdraft]).
  - apply store0_rel.
  - apply ledger0_inv.
  - intros a. pose proof (ledger0_room a). simpl in *. lia.
  - by vm_compute.
Defined.
Lemma execute_transfer_correct_witness :
  ∃ s' L', execute pay store0 = (Ok (MkExecutionResult true (MkGas 21000) "ok"), s') ∧
    store_rel s' L' ∧ acct L' alice = MkAccount 99899 1 ∧ acct L' bob = MkAccount 100 0.
Proof.
  destruct (execute_transfer_correct store0 ledger0 pay) as (s' & L' & Hrun & HR & _ & _ & Ha).
  - apply store0_rel.
  - apply ledger0_inv.
  - by vm_compute.
  - done.
  - by vm_compute.
  - by vm_compute.
  - by vm_compute.
  - by vm_compute.
  - exists s', L'. split_and!; [exact Hrun|exact HR| |]; rewrite Ha; by vm_compute.
Defined.
Lemma delegate_undelegate_roundtrip_witness :
  ∃ s'', undelegate alice val 5000 (delegate alice val 5000 store0).2 =
    (Ok (MkExecutionResult true (MkGas 30000) "undelegated"), s'') ∧ store_rel s'' ledger0.
Proof.
  eapply (delegate_undelegate_roundtrip store0 ledger0 alice val 5000
    (MkExecutionResult true (MkGas 30000) "delegated")).
  - apply store0_rel.
  - apply ledger0_inv.
  - intros x Hx. simpl in Hx. by rewrite lookup_empty in Hx.
  - apply pair_run. by vm_compute.
Defined.
Lemma native_block_executor_agree_witness :
  (execute pay store0).1 = Ok (MkExecutionResult true (MkGas 21000) "ok") ∧
  ∃ L', store_rel (native_execute pay store0).2 L' ∧ store_rel (execute pay store0).2 L'.
Proof.
  apply (native_block_executor_agree store0 ledger0 pay (MkExecutionResult true (MkGas 21000) "ok")
    (native_execute pay store0).2 (execute pay store0).2).
  - apply store0_rel.
  - apply ledger0_inv.
  - by vm_compute.
  - done.
  - by vm_compute.
  - apply pair_run. by vm_compute.
  - done.
  - done.
Defined.
Lemma staking_payload_roundtrip_witness :
  staking_decode (staking_encode (Delegate val 7)) = Ok (Delegate val 7).
Proof. apply staking_payload_roundtrip. by vm_compute. Defined.
End Scenario.
