(* ===== verification/ValidatorSet.v ===== *)
(** * Crate [pemrix-consensus], [validator_set.rs]: the validator committee

    Voting powers, the quorum threshold and round-robin proposer selection; any
    two quorums overlap in more than a third of the power, and every validator
    proposes once in each rotation. *)

From Stdlib Require Import Strings.Byte.
From S2P Require Import Prelude.
From S2P Require Import Externals.
From S2P Require Import Primitives.

Record Validator := MkValidator { v_address : Address; v_power : N }.

(** [struct ValidatorSet { validators: BTreeMap<Address, u64> }] *)
Record ValidatorSet := MkValidatorSet { validators : gmap Address N }.
Definition ValidatorSet_new : ValidatorSet := MkValidatorSet ∅.
#[export] Instance ValidatorSet_eq_dec : EqDecision ValidatorSet.
Proof. solve_decision. Defined.

Definition vs_add (address : Address) (power : N) (s : ValidatorSet) : ValidatorSet :=
  MkValidatorSet (<[address := power]> (validators s)).
Definition vs_remove (address : Address) (s : ValidatorSet) : ValidatorSet :=
  MkValidatorSet (delete address (validators s)).
(** [ValidatorSet::from_validators] *)
Definition from_validators (vs : list Validator) : ValidatorSet :=
  foldl (λ s v, vs_add (v_address v) (v_power v) s) ValidatorSet_new vs.
Definition is_validator (s : ValidatorSet) (a : Address) : bool :=
  bool_decide (is_Some (validators s !! a)).
Definition vs_power (s : ValidatorSet) (a : Address) : option N := validators s !! a.
Definition vs_len (s : ValidatorSet) : N := N.of_nat (size (validators s)).
Definition vs_is_empty (s : ValidatorSet) : bool := bool_decide (validators s = ∅).
Definition vs_validators (s : ValidatorSet) : list Validator :=
  (λ e, MkValidator e.1 e.2) <$> btree_iter (validators s).
Definition vs_addresses (s : ValidatorSet) : gset Address := dom (validators s).

Section arithmetic.
Context {E : Type} `{Profile}.

Definition total_power (s : ValidatorSet) : outcome E N := usum U64 (btree_values (validators s)).
(** [(total * 2 / 3) + 1] *)
Definition quorum_threshold (s : ValidatorSet) : outcome E N :=
  total ← total_power s;
  double ← umul U64 total 2;
  uadd U64 (double / 3) 1.
(** [ValidatorSet::proposer] *)
Definition proposer (s : ValidatorSet) (height round : N) : outcome E (option Address) :=
  if vs_is_empty s then Ok None
  else
    let vs := btree_keys (validators s) in
    sum ← uadd U64 height round;
    Ok (vs !! N.to_nat (as_uint USIZE sum mod N.of_nat (length vs))).
End arithmetic.

(** ** Power of a set of voters *)
Local Open Scope N_scope.

Definition power_of (s : ValidatorSet) (a : Address) : N := default 0 (validators s !! a).
Definition set_power (s : ValidatorSet) : N := map_sum (λ _ p, p) (validators s).
Definition power_in (s : ValidatorSet) (X : gset Address) : N :=
  map_sum (λ a p, if decide (a ∈ X) then p else 0) (validators s).
(** The powers fit: doubling the total does not overflow. *)
Definition power_fits (s : ValidatorSet) : Prop := 2 * set_power s ≤ U64.

Lemma btree_values_sum s : sumN (btree_values (validators s)) = set_power s.
Proof.
  unfold set_power, btree_values. rewrite map_sum_btree. f_equal.
Qed.
Lemma total_power_ok {E} `{Profile} s : set_power s ≤ U64 → total_power (E:=E) s = Ok (set_power s).
Proof.
  intros. unfold total_power. by rewrite usum_ok, btree_values_sum by by rewrite btree_values_sum.
Qed.
Lemma quorum_threshold_ok {E} `{Profile} s :
  power_fits s → quorum_threshold (E:=E) s = Ok (set_power s * 2 / 3 + 1).
Proof.
  unfold power_fits. intros Hf. unfold quorum_threshold. rewrite total_power_ok by lia. cbn.
  rewrite umul_ok by lia. cbn. rewrite uadd_ok; [done|].
  pose proof (N.Div0.div_le_mono (set_power s * 2) U64 3).
  assert (U64 / 3 + 1 ≤ U64) by by vm_compute. lia.
Qed.

Lemma power_in_le s X : power_in s X ≤ set_power s.
Proof. apply map_sum_mono. intros k v _. case_decide; lia. Qed.
Lemma power_in_split s X Y :
  power_in s X + power_in s Y = power_in s (X ∪ Y) + power_in s (X ∩ Y).
Proof.
  unfold power_in. rewrite <-!map_sum_add. apply map_sum_ext. intros k v _.
  repeat case_decide; set_solver by lia.
Qed.
Lemma power_in_singleton s a X : a ∉ X → power_in s ({[a]} ∪ X) = power_of s a + power_in s X.
Proof.
  intros Ha. unfold power_in. transitivity
    (map_sum (λ k p, (if decide (k = a) then p else 0) + (if decide (k ∈ X) then p else 0)) (validators s)).
  - apply map_sum_ext. intros k v _. repeat case_decide; set_solver by lia.
  - rewrite map_sum_add, map_sum_at. f_equal.
Qed.
Lemma power_in_keys s (ks : list Address) :
  NoDup ks → sumN (power_of s <$> ks) = power_in s (list_to_set ks).
Proof.
  induction 1 as [|k ks Hk Hnd IH].
  - unfold power_in. rewrite (map_sum_ext _ (λ _ _, 0)), map_sum_zero; [done|].
    intros k v _. by rewrite decide_False by set_solver.
  - simpl. rewrite power_in_singleton by by rewrite elem_of_list_to_set. by rewrite <-IH.
Qed.

(** Two quorums share more than a third of the voting power. *)
Lemma quorum_overlap s X Y q :
  q = set_power s * 2 / 3 + 1 → q ≤ power_in s X → q ≤ power_in s Y →
  set_power s < 3 * power_in s (X ∩ Y).
Proof.
  intros -> HX HY. pose proof (power_in_split s X Y). pose proof (power_in_le s (X ∪ Y)).
  pose proof (N.mod_lt (set_power s * 2) 3). pose proof (N.Div0.div_mod (set_power s * 2) 3). lia.
Qed.
(** A positive total power can always reach the threshold. *)
Lemma quorum_reachable s : 0 < set_power s → set_power s * 2 / 3 + 1 ≤ set_power s.
Proof.
  intros Hp. pose proof (N.Div0.div_lt_upper_bound (set_power s * 2) 3 (set_power s)). lia.
Qed.

(** ** Proposer rotation *)
Lemma proposer_eq {E} `{Profile} s h r :
  validators s ≠ ∅ → h + r ≤ U64 →
  proposer (E:=E) s h r = Ok (btree_keys (validators s) !! N.to_nat ((h + r) mod vs_len s)).
Proof.
  intros Hne Hle. unfold proposer, vs_is_empty. rewrite bool_decide_false by done.
  rewrite uadd_ok by done. cbn. unfold as_uint, vs_len. rewrite length_btree_keys.
  by rewrite (N.mod_small (h + r) (USIZE + 1)) by (unfold USIZE; lia).
Qed.
Lemma vs_len_pos s : validators s ≠ ∅ → 0 < vs_len s.
Proof.
  intros Hne. unfold vs_len. assert (size (validators s) ≠ 0%nat); [|lia].
  by rewrite map_size_empty_iff.
Qed.
(** Which height in a window of [n] consecutive ones is congruent to [i]. *)
Lemma window_hit (n h i : N) : 
  i < n → ∃ k, (k < n ∧ (h + k) mod n = i) ∧ ∀ k', k' < n → (h + k') mod n = i → k' = k.
Proof.
  intros Hi. set (c := h mod n). assert (c < n) by (apply N.mod_lt; lia).
  assert (∀ k, (h + k) mod n = (c + k) mod n) as Hc.
  { intros k. unfold c. by rewrite N.Div0.add_mod_idemp_l. }
  assert (∀ k, k < n → (c + k) mod n = if c + k <? n then c + k else c + k - n) as Hm.
  { intros k Hk. destruct (N.ltb_spec (c + k) n); [by apply N.mod_small|].
    symmetry. apply (N.mod_unique _ _ 1); lia. }
  exists (if c <=? i then i - c else i + n - c).
  split.
  - destruct (N.leb_spec c i); (split; [lia|]); rewrite Hc, Hm by lia;
      destruct (N.ltb_spec (c + (if c <=? i then i - c else i + n - c)) n) as [Hl|Hl];
      Ncases; lia.
  - intros k Hk Heq. rewrite Hc, Hm in Heq by done. revert Heq. Ncases; lia.
Qed.

Lemma power_in_witness s X Z :
  power_in s Z < power_in s X → ∃ a, is_validator s a = true ∧ a ∈ X ∧ a ∉ Z.
Proof.
  intros Hlt. destruct (set_choose_or_empty ((dom (validators s) ∩ X) ∖ Z)) as [[a Ha]|Hnone].
  - exists a. unfold is_validator. rewrite bool_decide_eq_true, <-elem_of_dom. set_solver.
  - exfalso. apply (N.lt_irrefl (power_in s X)). eapply N.le_lt_trans; [|exact Hlt].
    apply map_sum_mono. intros a p Ha. apply elem_of_dom_2 in Ha.
    repeat case_decide; try done; [|lia]. set_solver.
Qed.
Lemma proposer_is_validator {E} `{Profile} s h r a :
  proposer (E:=E) s h r = Ok (Some a) → is_validator s a = true.
Proof.
  unfold proposer. destruct (vs_is_empty s); [done|]. destruct (uadd U64 h r); [|done..]. cbn.
  intros [= Ha%list_elem_of_lookup_2%elem_of_btree_keys]. by apply bool_decide_eq_true.
Qed.

(** Quorum intersection: if the validators in [byz] hold at most a third of
    the voting power, any two sets of voters that each reach the quorum
    threshold share a validator outside [byz]. *)
Lemma quorums_share_honest_validator `{Profile} (s : ValidatorSet) (X Y byz : gset Address) q :
  power_fits s → quorum_threshold (E:=unit) s = Ok q →
  q ≤ power_in s X → q ≤ power_in s Y → 3 * power_in s byz ≤ set_power s →
  ∃ a, is_validator s a = true ∧ a ∈ X ∧ a ∈ Y ∧ a ∉ byz.
Proof.
  intros Hf Hq HX HY Hbyz. rewrite quorum_threshold_ok in Hq by done. simplify_eq.
  pose proof (quorum_overlap s X Y _ eq_refl HX HY) as Hov.
  destruct (power_in_witness s (X ∩ Y) byz) as (a & Ha & HXY & Hnot); [lia|].
  exists a. set_solver.
Qed.

(** C36: Proposer rotation is fair: among any [len] consecutive heights each
    validator is the proposer of exactly one. *)
Theorem proposer_rotation_fair `{Profile} (s : ValidatorSet) (h : N) (a : Address) :
  is_validator s a = true → h + vs_len s ≤ U64 →
  ∃ k, (k < vs_len s ∧ proposer (E:=unit) s (h + k) 0 = Ok (Some a)) ∧
    ∀ k', k' < vs_len s → proposer (E:=unit) s (h + k') 0 = Ok (Some a) → k' = k.
Proof.
  unfold is_validator. rewrite bool_decide_eq_true. intros Ha Hle.
  assert (validators s ≠ ∅) as Hne by (intros He; rewrite He in Ha; by destruct Ha).
  pose proof (vs_len_pos s Hne).
  apply elem_of_btree_keys, list_elem_of_lookup in Ha as [i Hi].
  assert (N.of_nat i < vs_len s) as Hlen.
  { apply lookup_lt_Some in Hi. rewrite length_btree_keys in Hi. unfold vs_len. lia. }
  assert (∀ k, k < vs_len s → proposer (E:=unit) s (h + k) 0 = Ok (Some a) ↔
    (h + k) mod vs_len s = N.of_nat i) as Hprop.
  { intros k Hk. rewrite proposer_eq, N.add_0_r by (done || lia). split.
    - intros [= Heq]. pose proof (NoDup_lookup _ _ _ _ (btree_keys_NoDup (validators s)) Heq Hi). lia.
    - intros ->. by rewrite Nat2N.id, Hi. }
  destruct (window_hit (vs_len s) h (N.of_nat i) Hlen) as (k & [Hk Hmod] & Huniq).
  exists k. split; [split; [done|by apply Hprop]|].
  intros k' Hk' Hp%Hprop; [|done]. by apply Huniq.
Qed.

Module ValidatorSetScenario.
Import Reference.
#[export] Existing Instance dev.
Definition v (b : byte) : Address := MkAddress (Array32 (replicate 32 b) eq_refl).
Definition committee : ValidatorSet :=
  from_validators [MkValidator (v x01) 1; MkValidator (v x02) 1; MkValidator (v x03) 1;
    MkValidator (v x04) 1].
Lemma quorums_share_honest_validator_witness :
  ∃ a, is_validator committee a = true ∧ a ∈ ({[v x01; v x02; v x03]} : gset Address) ∧
    a ∈ ({[v x02; v x03; v x04]} : gset Address) ∧ a ∉ ({[v x02]} : gset Address).
Proof. apply (quorums_share_honest_validator committee _ _ _ 3); by vm_compute. Defined.
Lemma proposer_rotation_fair_witness :
  ∃ k, (k < 4 ∧ proposer (E:=unit) committee (7 + k) 0 = Ok (Some (v x03))) ∧
    ∀ k', k' < 4 → proposer (E:=unit) committee (7 + k') 0 = Ok (Some (v x03)) → k' = k.
Proof. apply (proposer_rotation_fair committee 7 (v x03)); by vm_compute. Defined.
End ValidatorSetScenario.
