(* ===== verification/Tokenomics.v ===== *)
(** * Crate [pemrix-primitives], [tokenomics.rs]: the issuance schedule

    Block rewards, cumulative issuance and the documented asymptotic bound; the
    closed loop of [total_issued_by_height] is the sum of the block rewards. *)

From S2P Require Import Prelude.
Local Open Scope N_scope.

Record TokenomicsConfig := MkTokenomics {
  initial_supply : N;
  initial_block_reward : N;
  decay_interval : N;
  decay_numerator : N;
  decay_denominator : N;
  min_block_reward : N;
}.
(** [TokenomicsConfig::default] (mainnet) and [TokenomicsConfig::fast_test] *)
Definition mainnet : TokenomicsConfig :=
  MkTokenomics 1000000000000000000 10000000000 2000000 9 10 100000000.
Definition fast_test : TokenomicsConfig := MkTokenomics 1000000000 1000 10 9 10 1.

Section tokenomics.
Context {E : Type} `{Profile}.

(** Integer division panics on zero in every profile. *)
Definition udiv (a b : N) : outcome E N := if b =? 0 then Panic else Ok (a / b).
(** [reward.saturating_mul(num).saturating_div(den)] *)
Definition decay (c : TokenomicsConfig) (reward : N) : outcome E N :=
  udiv (saturating_mul U128 reward (decay_numerator c)) (decay_denominator c).

(** The loop of [block_reward], with its early return at the floor. *)
Fixpoint decay_loop (c : TokenomicsConfig) (decay_steps : nat) (reward : N) : outcome E N :=
  match decay_steps with
  | O => Ok reward
  | S decay_steps =>
      reward ← decay c reward;
      if reward <=? min_block_reward c then Ok (min_block_reward c)
      else decay_loop c decay_steps reward
  end.
Definition block_reward (c : TokenomicsConfig) (height : N) : outcome E N :=
  if height =? 0 then Ok 0
  else
    decay_steps ← udiv (height - 1) (decay_interval c);
    decay_loop c (N.to_nat decay_steps) (initial_block_reward c).

(** The [while remaining > 0] loop of [total_issued_by_height]; [None] when the
    fuel runs out. *)
Fixpoint issued_loop (c : TokenomicsConfig) (fuel : nat)
    (total current_reward remaining step_height : N) : option (outcome E N) :=
  if remaining =? 0 then Some (Ok total)
  else
    match fuel with
    | O => None
    | S fuel =>
        match uadd U64 step_height (decay_interval c) with
        | Ok step_end =>
            let blocks_in_step := N.min remaining (decay_interval c) in
            let total := saturating_add U128 total (saturating_mul U128 current_reward blocks_in_step) in
            let remaining := saturating_sub remaining blocks_in_step in
            if min_block_reward c <? current_reward then
              match decay c current_reward with
              | Ok r =>
                  let r := if r <? min_block_reward c then min_block_reward c else r in
                  issued_loop c fuel total r remaining step_end
              | Err e => Some (Err e)
              | Panic => Some Panic
              end
            else issued_loop c fuel total current_reward remaining step_end
        | Err e => Some (Err e)
        | Panic => Some Panic
        end
    end.
Definition total_issued_by_height (c : TokenomicsConfig) (height : N) : option (outcome E N) :=
  if height =? 0 then Some (Ok 0)
  else issued_loop c (N.to_nat (height / decay_interval c + 1)) 0 (initial_block_reward c) height 0.

Definition asymptotic_max_supply (c : TokenomicsConfig) : N :=
  if decay_denominator c <=? decay_numerator c then U128
  else
    let denom_diff := decay_denominator c - decay_numerator c in
    let infinite_issuance :=
      saturating_mul U128 (initial_block_reward c) (decay_denominator c) / denom_diff in
    saturating_add U128 (initial_supply c) infinite_issuance.
End tokenomics.

(** ** The reward of each decay step *)

(** A schedule with a positive interval and denominator that starts above its
    floor, or at its floor without growing from there. *)
Definition schedule_ok (c : TokenomicsConfig) : Prop :=
  0 < decay_interval c ∧ 0 < decay_denominator c ∧
  (min_block_reward c < initial_block_reward c ∨
   min_block_reward c = initial_block_reward c ∧ decay_numerator c ≤ decay_denominator c).

Definition decayed (c : TokenomicsConfig) (r : N) : N :=
  saturating_mul U128 r (decay_numerator c) / decay_denominator c.
Definition next_reward (c : TokenomicsConfig) (r : N) : N :=
  if min_block_reward c <? r then N.max (decayed c r) (min_block_reward c) else r.
Fixpoint step_reward (c : TokenomicsConfig) (k : nat) (r : N) : N :=
  match k with O => r | S k => step_reward c k (next_reward c r) end.
Definition reward_of (c : TokenomicsConfig) (height : N) : N :=
  step_reward c (N.to_nat ((height - 1) / decay_interval c)) (initial_block_reward c).

Section schedule.
Context {E : Type} `{Profile} (c : TokenomicsConfig) (Hc : schedule_ok c).

Lemma decay_ok r : decay (E:=E) c r = Ok (decayed c r).
Proof.
  destruct Hc as (_ & Hd & _). unfold decay, udiv, decayed.
  by rewrite (proj2 (N.eqb_neq _ _)) by lia.
Qed.
Lemma decayed_le r : decay_numerator c ≤ decay_denominator c → decayed c r ≤ r.
Proof.
  intros Hnum. destruct Hc as (_ & Hd & _). unfold decayed, saturating_mul.
  apply N.Div0.div_le_upper_bound. nia.
Qed.
Lemma next_reward_le r : decay_numerator c ≤ decay_denominator c → next_reward c r ≤ r.
Proof. intros Hnum. unfold next_reward. pose proof (decayed_le r Hnum). Ncases; lia. Qed.
Lemma next_reward_floor r : min_block_reward c ≤ r → min_block_reward c ≤ next_reward c r.
Proof. unfold next_reward. Ncases; lia. Qed.
Lemma step_reward_floor k r : min_block_reward c ≤ r → min_block_reward c ≤ step_reward c k r.
Proof. revert r. induction k; intros r Hr; simpl; auto using next_reward_floor. Qed.
Lemma step_reward_min k : step_reward c k (min_block_reward c) = min_block_reward c.
Proof. induction k as [|k IH]; simpl; [done|]. unfold next_reward. by rewrite N.ltb_irrefl. Qed.
Lemma step_reward_plus k j r : step_reward c (k + j) r = step_reward c j (step_reward c k r).
Proof. revert r. induction k; intros r; simpl; auto. Qed.
Lemma step_reward_le k r : decay_numerator c ≤ decay_denominator c → step_reward c k r ≤ r.
Proof.
  intros Hnum. revert r. induction k as [|k IH]; intros r; simpl; [done|].
  etransitivity; [apply IH|by apply next_reward_le].
Qed.
Lemma step_reward_antitone k j r :
  decay_numerator c ≤ decay_denominator c → (k ≤ j)%nat → step_reward c j r ≤ step_reward c k r.
Proof.
  intros Hnum Hkj. replace j with (k + (j - k))%nat by lia. rewrite step_reward_plus.
  by apply step_reward_le.
Qed.
Lemma decay_loop_ok k r :
  min_block_reward c < r ∨ min_block_reward c = r ∧ decay_numerator c ≤ decay_denominator c →
  decay_loop (E:=E) c k r = Ok (step_reward c k r).
Proof.
  revert r. induction k as [|k IH]; intros r Hr; simpl; [done|].
  rewrite decay_ok. cbn. destruct (N.leb_spec (decayed c r) (min_block_reward c)).
  - assert (next_reward c r = min_block_reward c) as ->; [|by rewrite step_reward_min].
    unfold next_reward. Ncases; lia.
  - rewrite IH by by left. do 2 f_equal. unfold next_reward.
    destruct Hr as [Hr|[Heq Hnum]]; [Ncases; lia|].
    pose proof (decayed_le r Hnum). lia.
Qed.
Lemma block_reward_ok h : 0 < h → block_reward (E:=E) c h = Ok (reward_of c h).
Proof.
  intros Hh. destruct Hc as (Hi & _ & Hmin). unfold block_reward, udiv.
  rewrite !(proj2 (N.eqb_neq _ _)) by lia. cbn. by apply decay_loop_ok.
Qed.

(** *** Sums of rewards *)
Definition issued (m : nat) : N := sumN (reward_of c ∘ N.of_nat <$> seq 1 m).

Lemma issued_step k b :
  b ≤ decay_interval c →
  issued (N.to_nat (N.of_nat k * decay_interval c + b)) =
  issued (N.to_nat (N.of_nat k * decay_interval c)) + b * step_reward c k (initial_block_reward c).
Proof.
  intros Hb. destruct Hc as (Hi & _). unfold issued.
  replace (N.to_nat (N.of_nat k * decay_interval c + b)) with
    (N.to_nat (N.of_nat k * decay_interval c) + N.to_nat b)%nat by lia.
  rewrite seq_app, fmap_app, sumN_app. f_equal.
  transitivity (sumN (replicate (N.to_nat b) (step_reward c k (initial_block_reward c)))).
  2: { rewrite sumN_replicate. lia. }
  f_equal. apply list_eq. intros i. rewrite list_lookup_fmap.
  destruct (decide (i < N.to_nat b)%nat) as [Hlt|Hge].
  - rewrite lookup_seq_lt, lookup_replicate_2 by done. simpl. f_equal. unfold reward_of. f_equal.
    replace ((_ - 1) / decay_interval c) with (N.of_nat k); [by rewrite Nat2N.id|].
    apply (N.div_unique _ _ _ (N.of_nat i)); lia.
  - rewrite !lookup_ge_None_2; [done|rewrite length_replicate; lia|rewrite length_seq; lia].
Qed.

(** Enough fuel for the remaining steps gives the sum of the rewards, capped at
    the largest balance. *)
Lemma issued_loop_ok h fuel k :
  N.of_nat k * decay_interval c ≤ h → h + decay_interval c ≤ U64 →
  h < (N.of_nat k + N.of_nat fuel) * decay_interval c →
  issued_loop (E:=E) c fuel (N.min U128 (issued (N.to_nat (N.of_nat k * decay_interval c))))
    (step_reward c k (initial_block_reward c)) (h - N.of_nat k * decay_interval c)
    (N.of_nat k * decay_interval c) = Some (Ok (N.min U128 (issued (N.to_nat h)))).
Proof.
  intros Hk Hh Hfuel. revert k Hk Hfuel. induction fuel as [|fuel IH]; intros k Hk Hfuel; [lia|].
  simpl. destruct (N.eqb_spec (h - N.of_nat k * decay_interval c) 0) as [H0|H0].
  { by replace (N.of_nat k * decay_interval c) with h by lia. }
  rewrite uadd_ok by lia.
  set (b := N.min (h - N.of_nat k * decay_interval c) (decay_interval c)).
  set (r := step_reward c k (initial_block_reward c)).
  assert (N.min U128 (issued (N.to_nat (N.of_nat k * decay_interval c + b))) =
    saturating_add U128 (N.min U128 (issued (N.to_nat (N.of_nat k * decay_interval c))))
      (saturating_mul U128 r b)) as Htot.
  { rewrite issued_step by (unfold b; lia). fold r. unfold saturating_add, saturating_mul. lia. }
  rewrite <-Htot.
  assert (∀ r', r' = next_reward c r → issued_loop (E:=E) c fuel
      (N.min U128 (issued (N.to_nat (N.of_nat k * decay_interval c + b)))) r'
      (saturating_sub (h - N.of_nat k * decay_interval c) b)
      (N.of_nat k * decay_interval c + decay_interval c) =
    Some (Ok (N.min U128 (issued (N.to_nat h))))) as Hgo.
  { intros r' ->. unfold saturating_sub.
    destruct (N.le_gt_cases (decay_interval c) (h - N.of_nat k * decay_interval c)) as [Hle|Hlt].
    - replace b with (decay_interval c) by (unfold b; lia).
      replace (N.of_nat k * decay_interval c + decay_interval c) with
        (N.of_nat (S k) * decay_interval c) by lia.
      replace (h - N.of_nat k * decay_interval c - decay_interval c) with
        (h - N.of_nat (S k) * decay_interval c) by lia.
      replace (next_reward c r) with (step_reward c (S k) (initial_block_reward c)).
      2: { replace (S k) with (k + 1)%nat by lia. by rewrite step_reward_plus. }
      apply IH; lia.
    - replace b with (h - N.of_nat k * decay_interval c) by (unfold b; lia).
      rewrite N.sub_diag. replace (N.of_nat k * decay_interval c + _) with h by lia.
      by destruct fuel. }
  unfold next_reward in Hgo. destruct (N.ltb_spec (min_block_reward c) r); [|by apply Hgo].
  rewrite decay_ok. apply Hgo. Ncases; lia.
Qed.
End schedule.

(** ** Properties *)

(** C37: The cumulative issuance loop returns (with the fuel it is given, so it
    terminates) the sum of the block rewards of heights 1 to [height], capped at
    the largest balance.  The schedule has a positive interval and denominator and
    starts above its floor, or at its floor with a factor of at most one; heights
    leave room for one more interval in 64 bits. *)
Theorem total_issued_is_sum_of_rewards `{Profile} (c : TokenomicsConfig) (height : N) :
  schedule_ok c → 0 < height → height + decay_interval c ≤ U64 →
  ∃ rewards : list N,
    Forall2 (λ k r, block_reward (E:=unit) c (N.of_nat k) = Ok r) (seq 1 (N.to_nat height)) rewards ∧
    total_issued_by_height (E:=unit) c height = Some (Ok (N.min U128 (sumN rewards))).
Proof.
  intros Hc Hpos Hle. exists (reward_of c ∘ N.of_nat <$> seq 1 (N.to_nat height)). split.
  - apply Forall2_fmap_r, Forall_Forall2_diag, Forall_forall. intros k Hk%elem_of_seq.
    rewrite block_reward_ok by (done || lia). done.
  - unfold total_issued_by_height. rewrite (proj2 (N.eqb_neq _ _)) by lia.
    pose proof Hc as (Hi & _).
    pose proof (issued_loop_ok (E:=unit) c Hc height (N.to_nat (height / decay_interval c + 1)) 0)
      as Hloop.
    simpl in Hloop. rewrite N.sub_0_r in Hloop. apply Hloop; [lia|done|].
    rewrite N2Nat.id. pose proof (N.mul_succ_div_gt height (decay_interval c)). lia.
Qed.

(** Block rewards never increase with the height, never exceed the initial
    reward and never drop below the floor, at any two heights from 1 on (a
    schedule as above whose factor is at most one). *)
Lemma block_reward_antitone_bounded (c : TokenomicsConfig) (h h' : N) :
  schedule_ok c → decay_numerator c ≤ decay_denominator c → 0 < h → h ≤ h' →
  ∃ r r', block_reward (E:=unit) c h = Ok r ∧ block_reward (E:=unit) c h' = Ok r' ∧
    min_block_reward c ≤ r' ∧ r' ≤ r ∧ r ≤ initial_block_reward c.
Proof.
  intros Hc Hnum Hpos Hle. exists (reward_of c h), (reward_of c h').
  rewrite !block_reward_ok by (done || lia). pose proof Hc as (Hi & _ & Hmin).
  split_and!; [done|done|apply step_reward_floor; lia| |by apply step_reward_le].
  apply step_reward_antitone; [done..|].
  assert ((h - 1) / decay_interval c ≤ (h' - 1) / decay_interval c); [|lia].
  apply N.Div0.div_le_mono. lia.
Qed.

(** The documented asymptotic maximum is not an upper bound: on the mainnet
    schedule the supply passes it at height 11. *)
Lemma asymptotic_max_supply_exceeded `{Profile} :
  ∃ total, total_issued_by_height (E:=unit) mainnet 11 = Some (Ok total) ∧
    asymptotic_max_supply mainnet < initial_supply mainnet + total.
Proof. eexists. split; [vm_compute; reflexivity|]. by vm_compute. Qed.

(** Outside such schedules the two disagree: with a factor of two from a floor of
    ten, the rewards of heights 1 and 2 are ten and twenty, and the cumulative
    issuance stays at ten a block. *)
Lemma growing_schedule_disagrees `{Profile} :
  let c := MkTokenomics 0 10 1 2 1 10 in
  block_reward (E:=unit) c 1 = Ok 10 ∧ block_reward (E:=unit) c 2 = Ok 20 ∧
  total_issued_by_height (E:=unit) c 2 = Some (Ok 20).
Proof. split_and!; vm_compute; reflexivity. Qed.

Module TokenomicsScenario.
#[local] Instance checked : Profile := true.
Lemma fast_test_ok : schedule_ok fast_test.
Proof. split_and!; [by vm_compute..|]. left. by vm_compute. Qed.
Lemma total_issued_is_sum_of_rewards_witness :
  ∃ rewards : list N,
    Forall2 (λ k r, block_reward (E:=unit) fast_test (N.of_nat k) = Ok r) (seq 1 25) rewards ∧
    total_issued_by_height (E:=unit) fast_test 25 = Some (Ok (N.min U128 (sumN rewards))).
Proof.
  apply (total_issued_is_sum_of_rewards fast_test 25);
    [apply fast_test_ok|by vm_compute|by vm_compute].
Defined.

Lemma block_reward_antitone_bounded_witness :
  ∃ r r', block_reward (E:=unit) fast_test 5 = Ok r ∧ block_reward (E:=unit) fast_test 500 = Ok r' ∧
    1 ≤ r' ∧ r' ≤ r ∧ r ≤ 1000.
Proof.
  apply (block_reward_antitone_bounded fast_test 5 500);
    [apply fast_test_ok|by vm_compute|by vm_compute|by vm_compute].
Defined.
End TokenomicsScenario.
