(* ===== verification/Protocol.v ===== *)
(** * Crates [pemrix-protocol] and [pemrix-ports]

    Protocol constants, the parameter bundle with its validation, the supply
    ceiling check, and the standard service addresses. *)

From stdpp Require Import pretty.
From S2P Require Import Prelude.
Local Open Scope N_scope.

(** ** [pemrix-protocol]: constants *)
Module protocol.
Definition DECIMALS : N := 9.
Definition ONE_PMX : N := 1000000000.
Definition GENESIS_SUPPLY : N := 1000000000 * ONE_PMX.
Definition MAX_PROTOCOL_ISSUANCE : N := 100000000 * ONE_PMX.
Definition MAX_SUPPLY : N := GENESIS_SUPPLY + MAX_PROTOCOL_ISSUANCE.
Definition MIN_SELF_STAKE : N := 10000 * ONE_PMX.
Definition MIN_ACTIVE_STAKE : N := 100000 * ONE_PMX.
Definition MIN_DELEGATION : N := ONE_PMX.
Definition TRANSFER_GAS : N := 21000.
Definition STAKING_GAS : N := 50000.
Definition UNBONDING_PERIOD_BLOCKS : N := 241920.
Definition MIN_COMMISSION_BPS : N := 0.
Definition MAX_COMMISSION_BPS : N := 2000.
Definition MAX_ACTIVE_VALIDATORS : N := 100.
End protocol.
Import protocol.

(** ** [struct ProtocolParameters] *)
Record ProtocolParameters := MkProtocolParameters {
  block_time_seconds : N;
  max_active_validators : N;
  min_active_stake : N;
  base_fee_per_gas : N;
  min_base_fee_per_gas : N;
  max_base_fee_change_bps : N;
  target_utilization_bps : N;
  priority_fee_validator_share_bps : N;
  priority_fee_treasury_share_bps : N;
  normal_quorum_bps : N;
  normal_threshold_bps : N;
  normal_voting_period_blocks : N;
  normal_timelock_blocks : N;
}.
(** [ProtocolParameters::new], which [Default] repeats. *)
Definition ProtocolParameters_new : ProtocolParameters :=
  MkProtocolParameters 8 MAX_ACTIVE_VALIDATORS MIN_ACTIVE_STAKE 100 1 125 5000 9000 1000
    2000 5000 75600 32400.

Inductive ParameterError :=
| ZeroBlockTime | ZeroActiveValidators | BaseFeeBelowMinimum | PriorityFeeSharesOverflow
| InvalidGovernanceThreshold.

(** [ProtocolParameters::validate]; the shares are added as [u16]. *)
Definition validate `{Profile} (p : ProtocolParameters) : outcome ParameterError unit :=
  if block_time_seconds p =? 0 then Err ZeroBlockTime
  else if max_active_validators p =? 0 then Err ZeroActiveValidators
  else if base_fee_per_gas p <? min_base_fee_per_gas p then Err BaseFeeBelowMinimum
  else
    shares ← uadd U16 (priority_fee_validator_share_bps p) (priority_fee_treasury_share_bps p);
    if 10000 <? shares then Err PriorityFeeSharesOverflow
    else if (10000 <? normal_quorum_bps p) || (10000 <? normal_threshold_bps p)
    then Err InvalidGovernanceThreshold
    else Ok tt.

Inductive InvariantError := SupplyCeilingExceeded.
Definition check_supply_invariant (total_supply : N) : outcome InvariantError unit :=
  if MAX_SUPPLY <? total_supply then Err SupplyCeilingExceeded else Ok tt.

(** ** [pemrix-ports] *)
Module ports.
Definition RPC : N := 61001.
Definition GRPC : N := 61002.
Definition SERVICES_RPC : N := 61006.
Definition FAUCET : N := 61003.
Definition EXPLORER : N := 61004.
Definition WEBHOOKS : N := 61005.
Definition P2P_BASE : N := 61100.
Local Open Scope string_scope.

Definition local_addr (port : N) : string := "127.0.0.1:" +:+ pretty port.
Definition public_addr (port : N) : string := "0.0.0.0:" +:+ pretty port.
Definition rpc_local := local_addr RPC.
Definition rpc_public := public_addr RPC.
Definition grpc_local := local_addr GRPC.
Definition grpc_public := public_addr GRPC.
Definition faucet_local := local_addr FAUCET.
Definition faucet_public := public_addr FAUCET.
Definition explorer_local := local_addr EXPLORER.
Definition explorer_public := public_addr EXPLORER.
Definition webhooks_local := local_addr WEBHOOKS.
Definition webhooks_public := public_addr WEBHOOKS.
Definition services_rpc_local := local_addr SERVICES_RPC.
Definition services_rpc_public := public_addr SERVICES_RPC.
Definition p2p_default := public_addr P2P_BASE.
Definition p2p_local_offset {E} `{Profile} (offset : N) : outcome E string :=
  port ← uadd U16 P2P_BASE offset; Ok (local_addr port).
Definition p2p_public_offset {E} `{Profile} (offset : N) : outcome E string :=
  port ← uadd U16 P2P_BASE offset; Ok (public_addr port).
Definition rpc_internal_url := "http://127.0.0.1:" +:+ pretty RPC.
End ports.
Import ports.

(** ** Properties *)
Definition params_ok (p : ProtocolParameters) : Prop :=
  0 < block_time_seconds p ∧ 0 < max_active_validators p ∧
  min_base_fee_per_gas p ≤ base_fee_per_gas p ∧
  priority_fee_validator_share_bps p + priority_fee_treasury_share_bps p ≤ 10000 ∧
  normal_quorum_bps p ≤ 10000 ∧ normal_threshold_bps p ≤ 10000.

Lemma validate_checked `{Profile} p :
  priority_fee_validator_share_bps p + priority_fee_treasury_share_bps p ≤ U16 →
  validate p = Ok tt ↔ params_ok p.
Proof.
  intros Hle. unfold validate, params_ok. rewrite uadd_ok by done. cbn.
  Ncases; simpl; split; try done; try lia; intros; split_and!; lia.
Qed.
(** With overflow checks the shares of an accepted bundle never wrap. *)
Lemma validate_dev `{Profile} p : overflow_checks = true → validate p = Ok tt → params_ok p.
Proof.
  intros Hdev Hv. apply validate_checked; [|done].
  destruct (N.le_gt_cases (priority_fee_validator_share_bps p +
    priority_fee_treasury_share_bps p) U16) as [|Hgt]; [done|].
  exfalso. revert Hv. unfold validate, uadd, overflow.
  rewrite (proj2 (N.leb_gt _ _) Hgt), Hdev. by repeat case_match.
Qed.

Lemma p2p_offset_ok {E} `{Profile} offset :
  offset ≤ 4435 → p2p_local_offset (E:=E) offset = Ok (local_addr (P2P_BASE + offset)).
Proof.
  intros Hle. unfold p2p_local_offset. rewrite uadd_ok; [done|]. unfold P2P_BASE, U16. lia.
Qed.
#[export] Instance local_addr_inj : Inj (=) (=) local_addr.
Proof. intros p q Hpq. unfold local_addr in Hpq. simplify_eq/=. done. Qed.
