(* ===== verification/Web.v ===== *)
(** * Web vocabulary: integer parsing, JSON values and HTTP status codes

    What the service crates use of the standard library ([u128::from_str] and
    [Display] of the unsigned integers), of [serde_json::Value] (a parameter) and
    of [http::StatusCode] (an enumeration of the codes the sources mention). *)

From Stdlib Require Import Strings.Ascii.
From stdpp Require Import pretty.
From S2P Require Import Prelude.
From S2P Require Import Externals.
From S2P Require Import Primitives.
Local Open Scope N_scope.

(** ** [str::parse] and [to_string] on unsigned integers *)

Inductive IntErrorKind := IntEmpty | InvalidDigit | PosOverflow.
(** [impl Display for ParseIntError] *)
Definition ParseIntError_to_string (e : IntErrorKind) : string :=
  match e with
  | IntEmpty => "cannot parse integer from empty string"
  | InvalidDigit => "invalid digit found in string"
  | PosOverflow => "number too large to fit in target type"
  end.

(** [char::to_digit(10)] *)
Definition to_digit (c : Ascii.ascii) : option N :=
  let n := Ascii.N_of_ascii c in
  if (48 <=? n) && (n <=? 57) then Some (n - 48) else None.
Fixpoint parse_digits (max acc : N) (s : string) : outcome IntErrorKind N :=
  match s with
  | EmptyString => Ok acc
  | String c s =>
      match to_digit c with
      | None => Err InvalidDigit
      | Some d => if max <? acc * 10 + d then Err PosOverflow else parse_digits max (acc * 10 + d) s
      end
  end.
(** [<uW as FromStr>::from_str], with [max] the largest value of the type. *)
Definition parse_uint (max : N) (s : string) : outcome IntErrorKind N :=
  match s with
  | EmptyString => Err IntEmpty
  | String c r =>
      if bool_decide (r = "" ∧ (c = "+"%char ∨ c = "-"%char)) then Err InvalidDigit
      else if bool_decide (c = "+"%char) then parse_digits max 0 r
      else parse_digits max 0 s
  end.

Lemma pretty_digit (x : N) : x < 10 → to_digit (pretty_N_char x) = Some x.
Proof.
  intros Hx. assert (∃ n, x = N.of_nat n ∧ (n < 10)%nat) as (n & -> & Hn).
  { exists (N.to_nat x). lia. }
  do 10 (destruct n as [|n]; [done|]). lia.
Qed.
Lemma pretty_char_sign (x : N) : x < 10 → pretty_N_char x ≠ "+"%char ∧ pretty_N_char x ≠ "-"%char.
Proof.
  intros Hx. assert (∃ n, x = N.of_nat n ∧ (n < 10)%nat) as (n & -> & Hn).
  { exists (N.to_nat x). lia. }
  do 10 (destruct n as [|n]; [done|]). lia.
Qed.
Lemma parse_digits_go max x s :
  x ≤ max → parse_digits max 0 (pretty_N_go x s) = parse_digits max x s.
Proof.
  revert s. induction (N.lt_wf_0 x) as [x _ IH]. intros s Hx.
  destruct (decide (x = 0)) as [->|Hne]; [by rewrite pretty_N_go_0|].
  rewrite pretty_N_go_step by lia.
  pose proof (N.div_mod x 10 ltac:(done)) as Hdm.
  pose proof (N.mod_lt x 10 ltac:(done)) as Hlt.
  assert (x / 10 < x) as Hdiv by (apply N.div_lt; lia).
  rewrite IH by lia. cbn [parse_digits].
  rewrite pretty_digit by done.
  replace (x / 10 * 10 + x mod 10) with x by lia.
  by rewrite (proj2 (N.ltb_ge _ _)).
Qed.
(** The digits of a number start with a digit, not with a sign. *)
Lemma pretty_go_head x s : 0 < x →
  ∃ c s', pretty_N_go x s = String c s' ∧ c ≠ "+"%char ∧ c ≠ "-"%char.
Proof.
  revert s. induction (N.lt_wf_0 x) as [x _ IH]. intros s Hx.
  rewrite pretty_N_go_step by lia.
  destruct (decide (x / 10 = 0)) as [->|Hne].
  - rewrite pretty_N_go_0. eexists _, _. split; [done|]. apply pretty_char_sign.
    by apply N.mod_lt.
  - apply IH; [by apply N.div_lt|]. by apply N.neq_0_lt_0.
Qed.
Lemma parse_uint_unsigned max c s :
  c ≠ "+"%char → c ≠ "-"%char → parse_uint max (String c s) = parse_digits max 0 (String c s).
Proof.
  intros Hp Hm. unfold parse_uint. rewrite !bool_decide_false; [done|done|]. naive_solver.
Qed.
(** Printing a number and parsing it gives the number back. *)
Lemma parse_uint_pretty max n : n ≤ max → parse_uint max (pretty n) = Ok n.
Proof.
  intros Hn. unfold pretty, pretty_N. case_decide as Hz; [by subst; destruct max|].
  destruct (pretty_go_head n "" ltac:(lia)) as (c & s & Hgo & Hp & Hm).
  rewrite Hgo, parse_uint_unsigned, <-Hgo by done. by rewrite parse_digits_go.
Qed.
Lemma parse_digits_range max acc s n :
  acc ≤ max → parse_digits max acc s = Ok n → n ≤ max.
Proof.
  revert acc. induction s as [|c s IH]; intros acc Hacc; simpl; [by intros [= <-]|].
  destruct (to_digit c) as [d|]; [|done]. destruct (N.ltb_spec max (acc * 10 + d)); [done|].
  by apply IH.
Qed.
Lemma parse_uint_range max s n : parse_uint max s = Ok n → n ≤ max.
Proof.
  unfold parse_uint. intros Hp. repeat case_match; simplify_eq;
    by eapply parse_digits_range in Hp; [|lia].
Qed.

(** ** [http::StatusCode] *)
Inductive StatusCode :=
| STATUS_OK | CREATED | NO_CONTENT | BAD_REQUEST | PAYMENT_REQUIRED | NOT_FOUND | CONFLICT
| TOO_MANY_REQUESTS | INTERNAL_SERVER_ERROR.

(** ** [serde_json::Value] *)

(** The type of values, [Value::Null], and the objects [json!] builds with a
    single numeric or string field. *)
Class Json := {
  Value : Type;
  Null : Value;
  json_number : string → N → Value;
  json_string : string → string → Value;
}.
(** [serde_json::to_value], which fails on numbers out of [Value]'s range. *)
Class ToValue `{Json} (A : Type) := to_value : A → option Value.
(** [serde_json::to_value(&x).unwrap_or_default()] *)
Definition value_or_null `{Json, !ToValue A} (x : A) : Value := default Null (to_value x).

(** A concrete value type. *)
Module ReferenceJson.
Inductive value := VNull | VNumber (k : string) (n : N) | VString (k s : string)
| VBlock (b : Block) | VTransaction (t : Transaction).
#[export] Instance ref_json : Json :=
  {| Value := value; Null := VNull; json_number := VNumber; json_string := VString |}.
#[export] Instance ref_value_block : ToValue Block := λ b, Some (VBlock b).
#[export] Instance ref_value_transaction : ToValue Transaction := λ t, Some (VTransaction t).
End ReferenceJson.
