(* ===== verification/TextForms.v ===== *)
(** * Text forms in JSON

    The hand-written [serde] impls: hashes and addresses as their text
    ([hash.rs], [address.rs] of [pemrix-primitives]), 128-bit amounts as decimal
    strings ([u128_string] of [pemrix-vm], [staking.rs]), and the [Debug] texts.
    The string a serializer is given, and the string a deserializer reads, are the
    result and the argument. *)

From Stdlib Require Import Strings.Byte Strings.Ascii.
From stdpp Require Import pretty.
From S2P Require Import Prelude.
From S2P Require Import Externals.
From S2P Require Import Primitives.
From S2P Require Import Web.
Local Open Scope N_scope.

Section text_forms.
Context `{Hex}.

(** [impl Serialize], [impl Deserialize] and [impl Debug] for [Hash] and
    [Address]; [AsRef] is [hash_as_bytes]. *)
Definition Hash_serialize (h : Hash) : string := Hash_to_string h.
Definition Hash_deserialize (s : string) : outcome string Hash := Hash_from_str s.
Definition Hash_debug (h : Hash) : string := "Hash(" +:+ Hash_to_string h +:+ ")".
Definition hash_as_ref (h : Hash) : bytes := hash_as_bytes h.
Definition Address_serialize (a : Address) : string := Address_to_string a.
Definition Address_deserialize (s : string) : outcome string Address := Address_from_str s.
Definition Address_debug (a : Address) : string := "Address(" +:+ Address_to_string a +:+ ")".

(** A deserializer for what a serializer writes, for the values of a type. *)
Record text_form {A} (wf : A → Prop) (ser : A → string) (de : string → outcome string A) : Prop := {
  tf_back x : wf x → de (ser x) = Ok x;
  tf_typed s x : de s = Ok x → wf x;
}.
(** Different values have different texts. *)
Lemma text_form_inj {A} (wf : A → Prop) ser de x y :
  text_form wf ser de → wf x → wf y → ser x = ser y → x = y.
Proof.
  intros Hf Hx Hy Heq. pose proof (tf_back _ _ _ Hf x Hx) as Hx'.
  rewrite Heq, (tf_back _ _ _ Hf y Hy) in Hx'. by injection Hx'.
Qed.
Lemma Hash_text_form `{!HexLaws} : text_form (λ _, True) Hash_serialize Hash_deserialize.
Proof. split; [intros h _; apply Hash_from_to_string|done]. Qed.
Lemma Address_text_form `{!HexLaws} : text_form (λ _, True) Address_serialize Address_deserialize.
Proof. split; [intros a _; apply Address_from_to_string|done]. Qed.
End text_forms.

(** [u128_string]: numbers beyond what JSON readers hold travel as strings. *)
Definition u128_serialize (value : N) : string := pretty value.
Definition u128_deserialize (s : string) : outcome string N :=
  map_err ParseIntError_to_string (parse_uint U128 s).
(** Every amount comes back, and no text gives a number beyond the type. *)
Lemma u128_text_form : text_form (λ n, n ≤ U128) u128_serialize u128_deserialize.
Proof.
  unfold u128_serialize, u128_deserialize. split.
  - intros n Hn. by rewrite parse_uint_pretty.
  - intros s n. destruct (parse_uint U128 s) as [m|e|] eqn:Hp; [|done..].
    intros [= <-]. by eapply parse_uint_range.
Qed.
Lemma u128_overflow_rejected : u128_deserialize (pretty (U128 + 1)) = Err "number too large to fit in target type".
Proof. vm_compute. reflexivity. Qed.
