(* ===== verification/Rpc.v ===== *)
(** * Crate [pemrix-rpc]: the shared RPC state and the REST handlers

    [server.rs], [types.rs], [handlers.rs] and [error.rs].  The state lives behind
    one mutex which every method locks once, so a method is an atomic function of
    the state; a handler is a sequence of methods.  Path and body extraction is
    axum's: a handler's arguments are the extracted values. *)

From Stdlib Require Import Strings.Byte.
From S2P Require Import Prelude.
From S2P Require Import Externals.
From S2P Require Import Primitives.
From S2P Require Import Crypto.
From S2P Require Import Web.
Local Open Scope N_scope.

(** ** [server.rs]: [struct RpcStateInner] *)
Record RpcStateInner := MkRpcState {
  rpc_accounts : gmap Address Account;
  rpc_blocks : gmap N Block;
  rpc_blocks_by_hash : gmap Hash Block;
  rpc_transactions : gmap Hash Transaction;
  rpc_pending : list Transaction;
  rpc_height : N;
  rpc_validators : gmap Address ValidatorRecord;
  rpc_delegations : gmap (Address * Address) Delegation;
}.

(** ** [impl RpcState] *)
Module RpcState.
Definition new : RpcStateInner := MkRpcState ∅ ∅ ∅ ∅ [] 0 ∅ ∅.

Definition set_account (a : Address) (x : Account) (s : RpcStateInner) : RpcStateInner :=
  MkRpcState (<[a := x]> (rpc_accounts s)) (rpc_blocks s) (rpc_blocks_by_hash s)
    (rpc_transactions s) (rpc_pending s) (rpc_height s) (rpc_validators s) (rpc_delegations s).
Definition get_account (a : Address) (s : RpcStateInner) : option Account := rpc_accounts s !! a.

Definition store_block `{Blake3, !Serde BlockHeader} (b : Block) (s : RpcStateInner) : RpcStateInner :=
  let hash := block_hash b in
  let height := bh_height (header b) in
  MkRpcState (rpc_accounts s) (<[height := b]> (rpc_blocks s)) (<[hash := b]> (rpc_blocks_by_hash s))
    (rpc_transactions s) (rpc_pending s)
    (if rpc_height s <? height then height else rpc_height s)
    (rpc_validators s) (rpc_delegations s).
Definition get_block_by_height (h : N) (s : RpcStateInner) : option Block := rpc_blocks s !! h.
Definition get_block_by_hash (h : Hash) (s : RpcStateInner) : option Block :=
  rpc_blocks_by_hash s !! h.

Definition store_transaction (h : Hash) (t : Transaction) (s : RpcStateInner) : RpcStateInner :=
  MkRpcState (rpc_accounts s) (rpc_blocks s) (rpc_blocks_by_hash s)
    (<[h := t]> (rpc_transactions s)) (rpc_pending s) (rpc_height s) (rpc_validators s)
    (rpc_delegations s).
Definition get_transaction (h : Hash) (s : RpcStateInner) : option Transaction :=
  rpc_transactions s !! h.
Definition submit_transaction (t : Transaction) (s : RpcStateInner) : RpcStateInner :=
  MkRpcState (rpc_accounts s) (rpc_blocks s) (rpc_blocks_by_hash s) (rpc_transactions s)
    (rpc_pending s ++ [t]) (rpc_height s) (rpc_validators s) (rpc_delegations s).
Definition pending_transactions (s : RpcStateInner) : list Transaction := rpc_pending s.
Definition height (s : RpcStateInner) : N := rpc_height s.

Definition set_validator (a : Address) (r : ValidatorRecord) (s : RpcStateInner) : RpcStateInner :=
  MkRpcState (rpc_accounts s) (rpc_blocks s) (rpc_blocks_by_hash s) (rpc_transactions s)
    (rpc_pending s) (rpc_height s) (<[a := r]> (rpc_validators s)) (rpc_delegations s).
Definition get_validator (a : Address) (s : RpcStateInner) : option ValidatorRecord :=
  rpc_validators s !! a.
Definition set_delegation (d v : Address) (x : Delegation) (s : RpcStateInner) : RpcStateInner :=
  MkRpcState (rpc_accounts s) (rpc_blocks s) (rpc_blocks_by_hash s) (rpc_transactions s)
    (rpc_pending s) (rpc_height s) (rpc_validators s) (<[(d, v) := x]> (rpc_delegations s)).
Definition get_delegation (d v : Address) (s : RpcStateInner) : option Delegation :=
  rpc_delegations s !! (d, v).
Definition delete_delegation (d v : Address) (s : RpcStateInner) : RpcStateInner :=
  MkRpcState (rpc_accounts s) (rpc_blocks s) (rpc_blocks_by_hash s) (rpc_transactions s)
    (rpc_pending s) (rpc_height s) (rpc_validators s) (delete (d, v) (rpc_delegations s)).
End RpcState.

(** ** [types.rs] *)
Record BalanceResponse := MkBalanceResponse { bal_address : Address; bal_balance : N }.
Record NonceResponse := MkNonceResponse { non_address : Address; non_nonce : N }.
Record ValidatorResponse := MkValidatorResponse { val_address : Address; val_validator : ValidatorRecord }.
Record DelegationResponse := MkDelegationResponse {
  del_delegator : Address; del_validator : Address; del_delegation : Delegation;
}.
Record SendTransactionRequest := MkSendTransactionRequest { st_transaction : Transaction }.
Record BlockResponse `{Json} := MkBlockResponse {
  br_hash : Hash; br_height : N; br_payload : Value;
}.
Record TransactionResponse `{Json} := MkTransactionResponse {
  tr_hash : Hash; tr_status : string; tr_payload : Value;
}.
(** The object built by [status_handler]. *)
Record StatusBody := MkStatusBody { sb_status : string; sb_height : N; sb_version : string }.

(** ** [error.rs] *)
Inductive RpcError :=
| TransactionNotFound | BlockNotFound | AccountNotFound | InvalidRequest | RpcInternal (msg : string).
(** [impl From<RpcError> for StatusCode] *)
Definition StatusCode_from_RpcError (e : RpcError) : StatusCode := INTERNAL_SERVER_ERROR.

(** ** [server.rs]: the handlers *)
Section handlers.
Context `{Json, !ToValue Block, !ToValue Transaction}.
Context `{Hex, Blake3, Dalek, !Serde Transaction, !Serde BlockHeader}.
Notation Handler := (M RpcStateInner StatusCode).
Notation read f := (gets (E:=StatusCode) (S:=RpcStateInner) f).

Definition bad_request {A} (o : outcome string A) : Handler A :=
  lift (map_err (λ _, BAD_REQUEST) o).
Definition or_not_found {A B} (f : A → B) (o : option A) : Handler B :=
  lift (ok_or (f <$> o) NOT_FOUND).

(** [version] is [env!("CARGO_PKG_VERSION")]. *)
Definition status_handler (version : string) : Handler StatusBody :=
  h ← read RpcState.height; mret (MkStatusBody "ok" h version).
Definition block_raw_handler (h : N) : Handler Block :=
  o ← read (RpcState.get_block_by_height h); or_not_found id o.
Definition block_by_height_handler (h : N) : Handler BlockResponse :=
  o ← read (RpcState.get_block_by_height h);
  or_not_found (λ b, MkBlockResponse _ (block_hash b) h (value_or_null b)) o.
Definition block_by_hash_handler (s : string) : Handler BlockResponse :=
  hash ← bad_request (Hash_from_str s);
  o ← read (RpcState.get_block_by_hash hash);
  or_not_found (λ b, MkBlockResponse _ hash (bh_height (header b)) (value_or_null b)) o.
Definition transaction_handler (s : string) : Handler TransactionResponse :=
  hash ← bad_request (Hash_from_str s);
  o ← read (RpcState.get_transaction hash);
  or_not_found (λ t, MkTransactionResponse _ hash "confirmed" (value_or_null t)) o.
Definition balance_handler (s : string) : Handler BalanceResponse :=
  address ← bad_request (Address_from_str s);
  o ← read (RpcState.get_account address);
  mret (MkBalanceResponse address (from_option acc_balance 0 o)).
Definition nonce_handler (s : string) : Handler NonceResponse :=
  address ← bad_request (Address_from_str s);
  o ← read (RpcState.get_account address);
  mret (MkNonceResponse address (from_option acc_nonce 0 o)).
Definition validator_handler (s : string) : Handler ValidatorResponse :=
  address ← bad_request (Address_from_str s);
  o ← read (RpcState.get_validator address);
  or_not_found (MkValidatorResponse address) o.
Definition delegation_handler (d v : string) : Handler DelegationResponse :=
  delegator ← bad_request (Address_from_str d);
  validator ← bad_request (Address_from_str v);
  o ← read (RpcState.get_delegation delegator validator);
  or_not_found (MkDelegationResponse delegator validator) o.

Definition validate_transaction (t : Transaction) : Handler Hash :=
  if bool_decide (length (tx_public_key t) ≠ 32%nat ∨ length (tx_signature t) ≠ 64%nat)
  then fail BAD_REQUEST
  else if bool_decide (from_public_key_hash (hash_bytes (tx_public_key t)) ≠ tx_sender t)
  then fail BAD_REQUEST
  else
    _ ← lift (map_err (λ _, BAD_REQUEST)
          (verify Ed25519Scheme (MkPublicKey (tx_public_key t))
             (hash_as_bytes (signing_hash t)) (MkSignature (tx_signature t))));
    let total := saturating_add U128 (tx_amount t) (tx_fee t) in
    o ← read (RpcState.get_account (tx_sender t));
    match o with
    | Some account =>
        if acc_balance account <? total then fail PAYMENT_REQUIRED
        else if negb (acc_nonce account =? tx_nonce t) then fail CONFLICT
        else mret (tx_hash t)
    | None => fail PAYMENT_REQUIRED
    end.

Definition send_transaction_handler (request : SendTransactionRequest) : Handler TransactionResponse :=
  let t := st_transaction request in
  hash ← validate_transaction t;
  _ ← modify (RpcState.store_transaction hash t);
  _ ← modify (RpcState.submit_transaction t);
  mret (MkTransactionResponse _ hash "pending" Null).
End handlers.

(** ** [handlers.rs] *)
Inductive HashOrHeight := ByHash (h : Hash) | ByHeight (h : N).
Record SimpleRpcHandler := MkSimpleRpcHandler { srh_balance : N }.

(** [trait RpcHandler] *)
Class RpcHandler `{Json} (T : Type) := {
  rh_get_balance : T → Address → outcome RpcError BalanceResponse;
  rh_get_block : T → HashOrHeight → outcome RpcError BlockResponse;
  rh_get_transaction : T → Hash → outcome RpcError TransactionResponse;
  rh_send_transaction : T → SendTransactionRequest → outcome RpcError TransactionResponse;
}.
#[export] Instance SimpleRpcHandler_RpcHandler `{Json, Blake3, !Serde Transaction} :
    RpcHandler SimpleRpcHandler := {|
  rh_get_balance self address := Ok (MkBalanceResponse address (srh_balance self));
  rh_get_block self _ := Err BlockNotFound;
  rh_get_transaction self _ := Err TransactionNotFound;
  rh_send_transaction self request :=
    Ok (MkTransactionResponse _ (tx_hash (st_transaction request)) "pending" Null);
|}.

(** ** Lemmas *)

(** Setting the accounts of a map overlays it on those of the state. *)
Lemma set_accounts_union (m : gmap Address Account) (r : RpcStateInner) :
  rpc_accounts (foldl (λ r e, RpcState.set_account e.1 e.2 r) r (btree_iter m)) = m ∪ rpc_accounts r.
Proof.
  apply map_eq. intros a.
  assert (∀ l r, NoDup l.*1 → ∀ x, rpc_accounts (foldl (λ r e, RpcState.set_account e.1 e.2 r) r l) !! a = Some x ↔
    (a, x) ∈ l ∨ (a ∉ l.*1 ∧ rpc_accounts r !! a = Some x)) as Hl.
  { intros l. induction l as [|[a0 x0] l IH]; intros r0 Hnd x; simpl; [set_solver|].
    apply NoDup_cons in Hnd as [Hnot Hnd]. rewrite IH by done. simpl.
    rewrite elem_of_cons, not_elem_of_cons, lookup_insert_Some. split.
    - intros [?|[? [[-> ->]|[? ?]]]]; [by left; right|by left; left|]. right. by split_and!.
    - intros [[[= -> ->]|?]|[[? ?] ?]]; [right|by left|right]; (split; [done|]); [by left|].
      right. split; [congruence|done]. }
  apply option_eq. intros x. rewrite Hl by apply btree_keys_NoDup.
  change (a ∉ (btree_iter m).*1) with (a ∉ btree_keys m).
  rewrite elem_of_btree_iter, elem_of_btree_keys, lookup_union_Some_raw, eq_None_not_Some. done.
Qed.
Section rpc_lemmas.
Context `{Hex, Blake3, Dalek, !Serde Transaction, !Serde BlockHeader}.

(** What acceptance says about the transaction and the account on file. *)
Lemma validate_transaction_Ok t s s' h :
  validate_transaction t s = (Ok h, s') →
  s' = s ∧ h = tx_hash t ∧
  length (tx_public_key t) = 32%nat ∧ length (tx_signature t) = 64%nat ∧
  from_public_key_hash (hash_bytes (tx_public_key t)) = tx_sender t ∧
  verify Ed25519Scheme (MkPublicKey (tx_public_key t)) (hash_as_bytes (signing_hash t))
    (MkSignature (tx_signature t)) = Ok tt ∧
  ∃ account, rpc_accounts s !! tx_sender t = Some account ∧
    saturating_add U128 (tx_amount t) (tx_fee t) ≤ acc_balance account ∧
    acc_nonce account = tx_nonce t.
Proof.
  unfold validate_transaction. case_bool_decide as Hlen; [done|].
  case_bool_decide as Haddr; [done|].
  assert (length (tx_public_key t) = 32%nat) as Hpk by (apply dec_stable; tauto).
  assert (length (tx_signature t) = 64%nat) as Hsig by (apply dec_stable; tauto).
  rewrite bind_lift.
  destruct (verify _ _ _ _) as [[]|e|] eqn:Hv; [|done|done]. cbn [map_err].
  unfold mbind, M_bind, gets, RpcState.get_account.
  destruct (rpc_accounts s !! tx_sender t) as [account|] eqn:Ha; [|done].
  destruct (N.ltb_spec (acc_balance account) (saturating_add U128 (tx_amount t) (tx_fee t))); [done|].
  destruct (N.eqb_spec (acc_nonce account) (tx_nonce t)); [|done].
  intros [= <- <-]. split_and!; eauto.
Qed.
(** A request the REST endpoint refuses leaves the state alone; one it accepts
    is stored under its hash and queued. *)
Lemma send_transaction_run `{Json} r s :
  send_transaction_handler r s =
    match validate_transaction (st_transaction r) s with
    | (Ok h, _) => (Ok (MkTransactionResponse _ h "pending" Null),
        RpcState.submit_transaction (st_transaction r)
          (RpcState.store_transaction h (st_transaction r) s))
    | (Err e, _) => (Err e, s)
    | (Panic, _) => (Panic, s)
    end.
Proof.
  unfold send_transaction_handler, mbind at 1, M_bind at 1.
  assert ((validate_transaction (st_transaction r) s).2 = s) as Hs.
  { unfold validate_transaction. repeat case_bool_decide; [done..|]. rewrite bind_lift.
    destruct (map_err _ _); [|done|done]. unfold mbind, M_bind, gets.
    by repeat case_match. }
  destruct (validate_transaction (st_transaction r) s) as [[h|e|] s']; simpl in Hs; by subst.
Qed.
End rpc_lemmas.
