(* ===== verification/Grpc.v ===== *)
(** * Crate [pemrix-rpc], [grpc.rs]: the gRPC service

    The service over the RPC state shared with the REST server, with the message
    types of [proto/pemrix_rpc_v1.proto] as records and the conversions
    between transactions and their protobuf form. *)

From Stdlib Require Import Strings.Byte.
From stdpp Require Import pretty.
From S2P Require Import Prelude.
From S2P Require Import Externals.
From S2P Require Import Primitives.
From S2P Require Import Crypto.
From S2P Require Import StateStore.
From S2P Require Import Vm.
From S2P Require Import VmTheorems.
From S2P Require Import Web.
From S2P Require Import Rpc.
Local Open Scope N_scope.

(** ** Messages *)
Module proto.
Record Transaction := MkTransaction {
  sender : string; recipient : string; amount : string; nonce : N; fee : string; payload : bytes;
}.
Record BlockHeader := MkBlockHeader {
  height : N; timestamp : N; previous_hash : string; state_root : string; tx_root : string;
  proposer : string;
}.
Record BlockBody := MkBlockBody { transactions : list Transaction }.
Record BlockResponse := MkBlockResponse {
  br_hash : string; br_height : N; br_header : option BlockHeader; br_body : option BlockBody;
}.
Record TransactionResponse := MkTransactionResponse {
  tr_hash : string; tr_status : string; tr_transaction : option Transaction;
}.
Record StatusResponse := MkStatusResponse { st_status : string; st_height : N; st_version : string }.
Record BalanceResponse := MkBalanceResponse { ba_address : string; ba_balance : string }.
Record SendTransactionRequest := MkSendTransactionRequest { sr_transaction : option Transaction }.
Record SendTransactionResponse := MkSendTransactionResponse { se_hash : string; se_status : string }.
End proto.

(** [tonic::Status] as the sources build it. *)
Inductive Code := InvalidArgument | NotFound.
Record Status := MkStatus { status_code : Code; status_message : string }.

(** ** Conversions *)
Section conversions.
Context `{Hex}.
Local Open Scope string_scope.

Definition parse_hash (s : string) : outcome Status Hash :=
  map_err (λ e, MkStatus InvalidArgument ("invalid hash: " +:+ e)) (Hash_from_str s).
Definition parse_address (s : string) : outcome Status Address :=
  map_err (λ e, MkStatus InvalidArgument ("invalid address: " +:+ e)) (Address_from_str s).
(** [.parse::<u128>().map_err(...)] with the field's name in the message. *)
Definition parse_u128 (what s : string) : outcome Status N :=
  map_err (λ e, MkStatus InvalidArgument ("invalid " +:+ what +:+ ": " +:+ ParseIntError_to_string e))
    (parse_uint U128 s).

Definition transaction_to_proto (t : Transaction) : proto.Transaction :=
  proto.MkTransaction (Address_to_string (tx_sender t)) (Address_to_string (tx_recipient t))
    (pretty (tx_amount t)) (tx_nonce t) (pretty (tx_fee t)) (tx_payload t).
Definition proto_to_transaction (p : proto.Transaction) : outcome Status Transaction :=
  sender ← parse_address (proto.sender p);
  recipient ← parse_address (proto.recipient p);
  amount ← parse_u128 "amount" (proto.amount p);
  fee ← parse_u128 "fee" (proto.fee p);
  Ok (MkTransaction sender recipient amount (proto.nonce p) fee [] [] (proto.payload p)).
Definition block_to_proto `{Blake3, !Serde BlockHeader} (b : Block) : proto.BlockResponse :=
  let h := header b in
  proto.MkBlockResponse (Hash_to_string (block_hash b)) (bh_height h)
    (Some (proto.MkBlockHeader (bh_height h) (bh_timestamp h) (Hash_to_string (bh_previous_hash h))
       (Hash_to_string (bh_state_root h)) (Hash_to_string (bh_tx_root h))
       (hex_encode (array32_bytes (bh_proposer h)))))
    (Some (proto.MkBlockBody (transaction_to_proto <$> transactions (body b)))).
End conversions.

(** ** [impl NodeService for GrpcService] *)
Module GrpcService.
Section service.
Context `{Hex, Blake3, !Serde Transaction, !Serde BlockHeader}.
Notation Method := (M RpcStateInner Status).
Notation read f := (gets (E:=Status) (S:=RpcStateInner) f).
Local Open Scope string_scope.

Definition not_found {A} (o : option A) (msg : string) : Method A :=
  lift (ok_or o (MkStatus NotFound msg)).

Definition status (version : string) : Method proto.StatusResponse :=
  h ← read RpcState.height; mret (proto.MkStatusResponse "ok" h version).
Definition get_block_by_height (h : N) : Method proto.BlockResponse :=
  o ← read (RpcState.get_block_by_height h);
  b ← not_found o ("block at height " +:+ pretty h +:+ " not found");
  mret (block_to_proto b).
Definition get_block_by_hash (s : string) : Method proto.BlockResponse :=
  hash ← lift (parse_hash s);
  o ← read (RpcState.get_block_by_hash hash);
  b ← not_found o ("block with hash " +:+ Hash_to_string hash +:+ " not found");
  mret (block_to_proto b).
Definition get_transaction (s : string) : Method proto.TransactionResponse :=
  hash ← lift (parse_hash s);
  o ← read (RpcState.get_transaction hash);
  t ← not_found o ("transaction " +:+ Hash_to_string hash +:+ " not found");
  mret (proto.MkTransactionResponse (Hash_to_string hash) "confirmed" (Some (transaction_to_proto t))).
Definition get_balance (s : string) : Method proto.BalanceResponse :=
  address ← lift (parse_address s);
  o ← read (RpcState.get_account address);
  mret (proto.MkBalanceResponse (Address_to_string address) (pretty (from_option acc_balance 0%N o))).
Definition send_transaction (r : proto.SendTransactionRequest) : Method proto.SendTransactionResponse :=
  p ← lift (ok_or (proto.sr_transaction r) (MkStatus InvalidArgument "transaction is required"));
  t ← lift (proto_to_transaction p);
  let hash := tx_hash t in
  _ ← modify (RpcState.store_transaction hash t);
  _ ← modify (RpcState.submit_transaction t);
  mret (proto.MkSendTransactionResponse (Hash_to_string hash) "pending").
End service.
End GrpcService.

(** ** Lemmas *)
Section grpc_lemmas.
Context `{HexLaws}.

Lemma parse_address_to_string a : parse_address (Address_to_string a) = Ok a.
Proof. unfold parse_address. by rewrite Address_from_to_string. Qed.
Lemma parse_u128_pretty what n : n ≤ U128 → parse_u128 what (pretty n) = Ok n.
Proof. intros. unfold parse_u128. by rewrite parse_uint_pretty. Qed.
(** The protobuf form keeps everything but the public key and the signature. *)
Lemma proto_to_transaction_to_proto t :
  tx_wf t →
  proto_to_transaction (transaction_to_proto t) =
    Ok (MkTransaction (tx_sender t) (tx_recipient t) (tx_amount t) (tx_nonce t) (tx_fee t)
          [] [] (tx_payload t)).
Proof.
  intros (Ha & _ & Hf). unfold proto_to_transaction. simpl.
  rewrite !parse_address_to_string. cbn [mbind outcome_bind]. by rewrite !parse_u128_pretty.
Qed.
Lemma proto_to_transaction_unsigned p t :
  proto_to_transaction p = Ok t → tx_public_key t = [] ∧ tx_signature t = [].
Proof.
  unfold proto_to_transaction.
  intros (? & _ & (? & _ & (? & _ & (? & _ & [= <-])%outcome_bind_Ok)%outcome_bind_Ok)%outcome_bind_Ok)%outcome_bind_Ok.
  done.
Qed.
End grpc_lemmas.
