(* ===== verification/Explorer.v ===== *)
(** * Crate [pemrix-explorer]: the block explorer index

    [service.rs]: the index behind one mutex, its queries and the HTTP handlers
    over it; and its agreement with the RPC state, which indexes the same
    blocks. *)

From Stdlib Require Import Strings.Byte.
From S2P Require Import Prelude.
From S2P Require Import Externals.
From S2P Require Import Primitives.
From S2P Require Import Web.
From S2P Require Import Rpc.
Local Open Scope N_scope.

(** ** Data *)
Record ExplorerStatus := MkExplorerStatus {
  es_height : N; es_transaction_count : N; es_account_count : N;
}.
Record AccountInfo := MkAccountInfo { ai_address : Address; ai_balance : N; ai_nonce : N }.
(** [struct ExplorerStateInner] *)
Record ExplorerStateInner := MkExplorerState {
  ex_blocks : gmap N Block;
  ex_blocks_by_hash : gmap Hash N;
  ex_transactions : gmap Hash (N * Transaction);
  ex_accounts : gmap Address Account;
}.
(** [error.rs] *)
Inductive ExplorerError :=
| ExBlockNotFound | ExTransactionNotFound | ExAccountNotFound
| InvalidParameter (msg : string) | ExInternal (msg : string).

(** ** [impl ExplorerState] *)
Module ExplorerState.
Definition new : ExplorerStateInner := MkExplorerState ∅ ∅ ∅ ∅.

Definition ingest_block `{Blake3, !Serde Transaction, !Serde BlockHeader} (b : Block)
    (s : ExplorerStateInner) : ExplorerStateInner :=
  let height := bh_height (header b) in
  let hash := block_hash b in
  MkExplorerState (<[height := b]> (ex_blocks s)) (<[hash := height]> (ex_blocks_by_hash s))
    (foldl (λ m t, <[tx_hash t := (height, t)]> m) (ex_transactions s) (transactions (body b)))
    (ex_accounts s).
Definition ingest_account (a : Address) (x : Account) (s : ExplorerStateInner) : ExplorerStateInner :=
  MkExplorerState (ex_blocks s) (ex_blocks_by_hash s) (ex_transactions s) (<[a := x]> (ex_accounts s)).

(** [heights.max().unwrap_or(0)] *)
Definition max_height (heights : list N) : N := foldr N.max 0 heights.
Definition status (s : ExplorerStateInner) : ExplorerStatus :=
  MkExplorerStatus (max_height (map_to_list (ex_blocks s)).*1)
    (N.of_nat (size (ex_transactions s))) (N.of_nat (size (ex_accounts s))).
Definition block_by_height (h : N) (s : ExplorerStateInner) : option Block := ex_blocks s !! h.
Definition block_by_hash (h : Hash) (s : ExplorerStateInner) : option Block :=
  n ← ex_blocks_by_hash s !! h; ex_blocks s !! n.
Definition transaction (h : Hash) (s : ExplorerStateInner) : option (N * Transaction) :=
  ex_transactions s !! h.
Definition account (a : Address) (s : ExplorerStateInner) : option Account := ex_accounts s !! a.

(** [sort_unstable_by(|a, b| b.cmp(a))]; the heights are distinct. *)
Definition recent_blocks (limit : N) (s : ExplorerStateInner) : list Block :=
  let heights := merge_sort N.ge (map_to_list (ex_blocks s)).*1 in
  omap (λ h, ex_blocks s !! h) (take (N.to_nat limit) heights).
End ExplorerState.

(** ** Handlers *)
Module ExplorerHandlers.
Section handlers.
Context `{Hex}.
Notation Handler := (M ExplorerStateInner StatusCode).
Notation read f := (gets (E:=StatusCode) (S:=ExplorerStateInner) f).

Definition bad_request {A} (o : outcome string A) : Handler A :=
  lift (map_err (λ _, BAD_REQUEST) o).
Definition or_not_found {A B} (f : A → B) (o : option A) : Handler B :=
  lift (ok_or (f <$> o) NOT_FOUND).

Definition status_handler : Handler ExplorerStatus := read ExplorerState.status.
Definition blocks_handler : Handler (list Block) := read (ExplorerState.recent_blocks 20).
Definition block_by_height_handler (h : N) : Handler Block :=
  o ← read (ExplorerState.block_by_height h); or_not_found id o.
Definition block_by_hash_handler (s : string) : Handler Block :=
  hash ← bad_request (Hash_from_str s);
  o ← read (ExplorerState.block_by_hash hash); or_not_found id o.
Definition transaction_handler (s : string) : Handler Transaction :=
  hash ← bad_request (Hash_from_str s);
  o ← read (ExplorerState.transaction hash); or_not_found snd o.
Definition account_handler (s : string) : Handler AccountInfo :=
  address ← bad_request (Address_from_str s);
  o ← read (ExplorerState.account address);
  or_not_found (λ x, MkAccountInfo address (acc_balance x) (acc_nonce x)) o.
End handlers.
End ExplorerHandlers.

(** ** Indexing a sequence of blocks *)
Section index.
Context `{Blake3, !Serde Transaction, !Serde BlockHeader}.
Notation height b := (bh_height (header b)).

Definition explorer_of (bs : list Block) : ExplorerStateInner :=
  foldl (λ s b, ExplorerState.ingest_block b s) ExplorerState.new bs.
Definition rpc_of (bs : list Block) : RpcStateInner :=
  foldl (λ s b, RpcState.store_block b s) RpcState.new bs.
(** The last block of [bs] that satisfies [P]. *)
Definition last_block (P : Block → Prop) `{∀ b, Decision (P b)} (bs : list Block) : option Block :=
  last (filter P bs).
Definition tip (bs : list Block) : N := ExplorerState.max_height ((λ b, height b) <$> bs).

Lemma last_block_snoc (P : Block → Prop) `{∀ b, Decision (P b)} bs b :
  last_block P (bs ++ [b]) = if decide (P b) then Some b else last_block P bs.
Proof.
  unfold last_block. rewrite filter_app, filter_cons, filter_nil.
  case_decide; [by rewrite last_snoc|by rewrite (right_id_L [] (++))].
Qed.
Lemma last_block_Some (P : Block → Prop) `{∀ b, Decision (P b)} bs b :
  last_block P bs = Some b → P b ∧ b ∈ bs.
Proof. intros Hl. by apply last_Some_elem_of, list_elem_of_filter in Hl. Qed.
Lemma last_block_ext (P Q : Block → Prop) `{∀ b, Decision (P b), ∀ b, Decision (Q b)} bs :
  (∀ b, b ∈ bs → P b ↔ Q b) → last_block P bs = last_block Q bs.
Proof.
  induction bs as [|b bs IH] using rev_ind; [done|]. intros HPQ. rewrite !last_block_snoc.
  rewrite IH by (intros; apply HPQ; set_solver).
  apply decide_ext, HPQ. set_solver.
Qed.
Lemma max_height_snoc l n : ExplorerState.max_height (l ++ [n]) = N.max n (ExplorerState.max_height l).
Proof. unfold ExplorerState.max_height. induction l; simpl in *; lia. Qed.
Lemma max_height_spec l :
  (∀ n, n ∈ l → n ≤ ExplorerState.max_height l) ∧
  (l ≠ [] → ExplorerState.max_height l ∈ l).
Proof.
  unfold ExplorerState.max_height. induction l as [|x l [IH1 IH2]]; simpl; [set_solver|].
  split.
  - intros n [->|Hn]%elem_of_cons; [lia|]. specialize (IH1 _ Hn). lia.
  - intros _. destruct (decide (l = [])) as [->|Hl]; [simpl; rewrite N.max_0_r; set_solver|].
    destruct (N.max_dec x (foldr N.max 0 l)) as [->| ->]; set_solver.
Qed.
Lemma max_height_unique l n :
  (∀ x, x ∈ l → x ≤ n) → n ∈ l → ExplorerState.max_height l = n.
Proof.
  intros Hle Hn. destruct (max_height_spec l) as [Hmax Hin]. apply N.le_antisymm.
  - apply Hle, Hin. by intros ->; apply elem_of_nil in Hn.
  - by apply Hmax.
Qed.

Lemma explorer_by_height bs h :
  ex_blocks (explorer_of bs) !! h = last_block (λ b, height b = h) bs.
Proof.
  unfold explorer_of. induction bs as [|b bs IH] using rev_ind; [done|].
  rewrite foldl_app, last_block_snoc. simpl. rewrite lookup_insert, <-IH.
  by repeat case_decide.
Qed.
Lemma explorer_by_hash bs k :
  ex_blocks_by_hash (explorer_of bs) !! k =
    (λ b, height b) <$> last_block (λ b, block_hash b = k) bs.
Proof.
  unfold explorer_of. induction bs as [|b bs IH] using rev_ind; [done|].
  rewrite foldl_app, last_block_snoc. simpl. rewrite lookup_insert, IH.
  by repeat case_decide.
Qed.
Lemma rpc_by_height bs h : rpc_blocks (rpc_of bs) !! h = last_block (λ b, height b = h) bs.
Proof.
  unfold rpc_of. induction bs as [|b bs IH] using rev_ind; [done|].
  rewrite foldl_app, last_block_snoc. simpl. rewrite lookup_insert, <-IH.
  by repeat case_decide.
Qed.
Lemma rpc_by_hash bs k :
  rpc_blocks_by_hash (rpc_of bs) !! k = last_block (λ b, block_hash b = k) bs.
Proof.
  unfold rpc_of. induction bs as [|b bs IH] using rev_ind; [done|].
  rewrite foldl_app, last_block_snoc. simpl. rewrite lookup_insert, <-IH.
  by repeat case_decide.
Qed.
Lemma rpc_tip bs : rpc_height (rpc_of bs) = tip bs.
Proof.
  unfold rpc_of, tip. induction bs as [|b bs IH] using rev_ind; [done|].
  rewrite foldl_app, fmap_app. simpl. rewrite max_height_snoc, IH. Ncases; lia.
Qed.
Lemma explorer_heights bs h :
  h ∈ (map_to_list (ex_blocks (explorer_of bs))).*1 ↔ h ∈ (λ b, height b) <$> bs.
Proof.
  unfold explorer_of. induction bs as [|b bs IH] using rev_ind; [done|].
  rewrite foldl_app, fmap_app, elem_of_app, <-IH. simpl.
  rewrite !list_elem_of_fmap. setoid_rewrite elem_of_map_to_list'. split.
  - intros ([k x] & -> & Hx). simpl in *. rewrite lookup_insert in Hx. case_decide; [set_solver|].
    left. by exists (k, x).
  - intros [([k x] & -> & Hx)|Hh]; simpl in *.
    + destruct (decide (height b = k)) as [<-|Hne].
      * exists (height b, b). simpl. by rewrite lookup_insert_eq.
      * exists (k, x). simpl. by rewrite lookup_insert_ne.
    + exists (height b, b). simpl. rewrite lookup_insert_eq. set_solver.
Qed.
Lemma explorer_tip bs : es_height (ExplorerState.status (explorer_of bs)) = tip bs.
Proof.
  unfold tip. simpl. destruct (decide (bs = [])) as [->|Hbs]; [done|].
  destruct (max_height_spec ((λ b, height b) <$> bs)) as [Hle Hin].
  apply max_height_unique.
  - intros x Hx. apply Hle. by apply explorer_heights.
  - apply explorer_heights, Hin. by destruct bs.
Qed.

(** The RPC state and the explorer, fed the same blocks, answer alike: the
    same block for every height and the same chain height, and, when no two
    different blocks share a height, the same block for every hash. *)
Lemma explorer_agrees_with_rpc (bs : list Block) :
  (∀ h, ExplorerState.block_by_height h (explorer_of bs) =
        RpcState.get_block_by_height h (rpc_of bs)) ∧
  es_height (ExplorerState.status (explorer_of bs)) = RpcState.height (rpc_of bs) ∧
  ((∀ b c, b ∈ bs → c ∈ bs → height b = height c → b = c) →
   ∀ k, ExplorerState.block_by_hash k (explorer_of bs) =
        RpcState.get_block_by_hash k (rpc_of bs)).
Proof.
  unfold ExplorerState.block_by_height, RpcState.get_block_by_height,
    ExplorerState.block_by_hash, RpcState.get_block_by_hash, RpcState.height.
  split_and!.
  - intros h. by rewrite explorer_by_height, rpc_by_height.
  - by rewrite explorer_tip, rpc_tip.
  - intros Huniq k. rewrite explorer_by_hash, rpc_by_hash.
    destruct (last_block (λ b, block_hash b = k) bs) as [b|] eqn:Hb; [|done]. simpl.
    apply last_block_Some in Hb as [_ Hb]. rewrite explorer_by_height.
    rewrite (last_block_ext _ (λ c, c = b)).
    + destruct (last_block (λ c, c = b) bs) as [c|] eqn:Hc.
      * by apply last_block_Some in Hc as [-> _].
      * unfold last_block in Hc. apply last_None in Hc.
        assert (b ∈ filter (λ c, c = b) bs) as Hin by by apply list_elem_of_filter.
        rewrite Hc in Hin. by apply elem_of_nil in Hin.
    + intros c Hc. split; [by intros; apply Huniq|by intros ->].
Qed.

(** When two blocks with different hashes arrive at one height, the explorer
    answers a query for the hash of the first with the second, whose hash is not
    the one asked for; the RPC state still answers with the first. *)
Lemma explorer_hash_query_returns_other_block (bs : list Block) (b c : Block) :
  height b = height c → block_hash b ≠ block_hash c →
  ExplorerState.block_by_hash (block_hash b) (explorer_of (bs ++ [b; c])) = Some c ∧
  RpcState.get_block_by_hash (block_hash b) (rpc_of (bs ++ [b; c])) = Some b.
Proof.
  intros Hh Hne. unfold ExplorerState.block_by_hash, RpcState.get_block_by_hash.
  replace (bs ++ [b; c]) with ((bs ++ [b]) ++ [c]) by by rewrite <-(assoc_L (++)).
  rewrite explorer_by_hash, rpc_by_hash, !last_block_snoc.
  rewrite (decide_False (P:=block_hash c = _)), decide_True by (done || congruence). simpl.
  by rewrite explorer_by_height, last_block_snoc, decide_True.
Qed.

(** *** Recent blocks *)
Lemma explorer_heights_sorted (m : gmap N Block) :
  StronglySorted (λ x y, y < x) (merge_sort N.ge (map_to_list m).*1).
Proof.
  assert (StronglySorted N.ge (merge_sort N.ge (map_to_list m).*1)) as Hs.
  { apply StronglySorted_merge_sort; [intros ???|intros ??]; lia. }
  assert (NoDup (merge_sort N.ge (map_to_list m).*1)) as Hn.
  { rewrite merge_sort_Permutation. apply NoDup_fst_map_to_list. }
  induction Hs as [|x l Hl IH Hx]; [constructor|]. apply NoDup_cons in Hn as [Hx' Hn].
  constructor; [by apply IH|]. rewrite Forall_forall in *. intros y Hy.
  specialize (Hx y Hy). assert (x ≠ y) by by intros ->. lia.
Qed.
Lemma omap_lookup_heights (m : gmap N Block) (hs : list N) :
  (∀ h, h ∈ hs → ∃ b, m !! h = Some b ∧ height b = h) →
  (λ b, height b) <$> omap (λ h, m !! h) hs = hs.
Proof.
  induction hs as [|h hs IH]; intros Hin; [done|].
  destruct (Hin h ltac:(set_solver)) as (b & Hb & Hh). cbn. rewrite Hb. cbn.
  rewrite Hh. f_equal. apply IH. set_solver.
Qed.
Lemma StronglySorted_fmap_inv {A B} (R : relation B) (f : A → B) l :
  StronglySorted R (f <$> l) → StronglySorted (λ x y, R (f x) (f y)) l.
Proof.
  induction l as [|x l IH]; [constructor|]. rewrite fmap_cons.
  intros [Hl Hx]%StronglySorted_inv. constructor; [by apply IH|].
  by rewrite Forall_fmap in Hx.
Qed.

(** The recent blocks are the [limit] highest indexed ones (all of them when
    there are fewer), each listed once, the highest first: an indexed block that
    is not listed is below every listed one. *)
Lemma explorer_recent_blocks (bs : list Block) (limit : N) :
  let s := explorer_of bs in
  let r := ExplorerState.recent_blocks limit s in
  StronglySorted (λ b c, height c < height b) r ∧
  length r = Nat.min (N.to_nat limit) (size (ex_blocks s)) ∧
  (∀ b, b ∈ r → ExplorerState.block_by_height (height b) s = Some b) ∧
  (∀ h b, ExplorerState.block_by_height h s = Some b →
     b ∈ r ∨ ∀ c, c ∈ r → height b < height c).
Proof.
  intros s r. set (hs := merge_sort N.ge (map_to_list (ex_blocks s)).*1).
  pose proof (explorer_heights_sorted (ex_blocks s)) as Hsorted. fold hs in Hsorted.
  assert (Hhs : ∀ h, h ∈ hs ↔ is_Some (ex_blocks s !! h)).
  { intros h. unfold hs. rewrite merge_sort_Permutation, list_elem_of_fmap. split.
    - intros ([k b] & -> & Hb). apply elem_of_map_to_list in Hb. by exists b.
    - intros [b Hb]. exists (h, b). by rewrite elem_of_map_to_list. }
  assert (Hkey : ∀ h b, ex_blocks s !! h = Some b → height b = h).
  { intros h b Hb. unfold s in Hb. rewrite explorer_by_height in Hb.
    by apply last_block_Some in Hb as [? _]. }
  assert ((λ b, height b) <$> r = take (N.to_nat limit) hs) as Hr.
  { apply omap_lookup_heights. intros h Hh. assert (h ∈ hs) as [b Hb]%Hhs.
    { rewrite <-(take_drop (N.to_nat limit) hs). set_solver. }
    exists b. eauto. }
  assert (Hin : ∀ b, b ∈ r → ex_blocks s !! height b = Some b).
  { intros b (h & Hh & Hb)%list_elem_of_omap. by rewrite (Hkey _ _ Hb). }
  rewrite <-(take_drop (N.to_nat limit) hs) in Hsorted.
  apply StronglySorted_app in Hsorted as (Hcross & Htake & _). rewrite <-Hr in Htake, Hcross.
  split_and!; [by apply StronglySorted_fmap_inv in Htake| |exact Hin|].
  - rewrite <-(length_fmap (λ b, height b)), Hr, length_take. f_equal. unfold hs.
    by rewrite merge_sort_Permutation, length_fmap, length_map_to_list.
  - intros h b Hb. pose proof (Hkey _ _ Hb) as Hh.
    assert (h ∈ hs) as Hh' by (apply Hhs; by exists b).
    rewrite <-(take_drop (N.to_nat limit) hs), elem_of_app, <-Hr in Hh'.
    destruct Hh' as [(c & Hc & Hcr)%list_elem_of_fmap|Hd].
    + left. apply Hin in Hcr as Hlk. unfold ExplorerState.block_by_height in Hb.
      rewrite <-Hc in Hlk. by simplify_eq.
    + right. intros c Hc. rewrite Hh. apply Hcross; [|done].
      apply list_elem_of_fmap. by exists c.
Qed.
End index.
