(* ===== verification/Webhooks.v ===== *)
(** * Crate [pemrix-webhooks]: subscriptions and deliveries

    [subscription.rs], [delivery.rs] and [service.rs].  The iteration order of
    [HashMap] and [HashSet] is unspecified and a parameter; identifiers and
    secrets drawn from [uuid] are arguments; HMAC-SHA256 and the serialization of
    JSON values are parameters. *)

From Stdlib Require Import Strings.Byte.
From S2P Require Import Prelude.
From S2P Require Import Externals.
From S2P Require Import Web.

(** ** [subscription.rs], [error.rs] *)
Inductive EventType := EvBlock | EvTransaction | EvTransactionConfirmed.
#[export] Instance EventType_eq_dec : EqDecision EventType.
Proof. solve_decision. Defined.
#[export] Instance EventType_countable : Countable EventType.
Proof.
  refine (inj_countable'
    (λ e, match e with EvBlock => 0 | EvTransaction => 1 | EvTransactionConfirmed => 2 end)
    (λ n, match n with 0 => EvBlock | 1 => EvTransaction | _ => EvTransactionConfirmed end) _).
  by intros [].
Defined.

Record WebhookSubscription := MkSubscription {
  ws_id : string;
  ws_url : string;
  ws_events : gset EventType;
  ws_secret : string;
  ws_active : bool;
}.
(** [WebhookSubscription::new] *)
Definition WebhookSubscription_new (id url : string) (events : gset EventType) (secret : string)
    : WebhookSubscription := MkSubscription id url events secret true.

Inductive WebhookError :=
| WhNotFound | WhInvalidUrl | WhDeliveryFailed (msg : string) | WhSerialization
| WhInternal (msg : string).

(** ** The crates the service uses *)

(** [Hmac::<Sha256>::new_from_slice], [update] and [finalize]; the error is the
    one of [new_from_slice]. *)
Class Hmac := hmac_sha256 : bytes → bytes → outcome string bytes.
(** [serde_json::to_vec] of a value. *)
Class ValueBytes `{Json} := value_to_vec : Value → option bytes.
(** The order in which [HashMap::values] and [HashSet::iter] visit. *)
Class HashOrder := {
  hash_values : gmap string WebhookSubscription → list WebhookSubscription;
  hash_elements : gset EventType → list EventType;
}.
(** Every entry is visited once. *)
Class HashOrderLaws `{HashOrder} : Prop := {
  hash_values_perm m : hash_values m ≡ₚ (map_to_list m).*2;
  hash_elements_perm e : hash_elements e ≡ₚ elements e;
}.

(** ** [delivery.rs] *)
Inductive DeliveryResult := DeliverySuccess | RetryableFailure (msg : string) | PermanentFailure (msg : string).
Record WebhookDelivery `{Json} := MkDelivery {
  wd_subscription_id : string;
  wd_event_type : EventType;
  wd_payload : Value;
  wd_signature : string;
}.
Arguments MkDelivery {_} _ _ _ _.

Section delivery.
Context `{Json, !ValueBytes, Hex, Hmac}.

Definition compute_signature (secret : string) (payload : Value) : outcome WebhookError string :=
  b ← ok_or (value_to_vec payload) WhSerialization;
  mac ← map_err WhInternal (hmac_sha256 (String.list_byte_of_string secret) b);
  Ok (hex_encode mac).
(** [WebhookDelivery::new] *)
Definition WebhookDelivery_new (s : WebhookSubscription) (e : EventType) (payload : Value)
    : outcome WebhookError WebhookDelivery :=
  signature ← compute_signature (ws_secret s) payload;
  Ok (MkDelivery (ws_id s) e payload signature).
Definition deliver (s : WebhookSubscription) (d : WebhookDelivery) : DeliveryResult :=
  if bool_decide (wd_subscription_id d = "") then PermanentFailure "invalid subscription id"
  else DeliverySuccess.
End delivery.

(** ** [service.rs] *)
Record WebhookStateInner := MkWebhookState {
  subscriptions : gmap string WebhookSubscription;
  delivery_log : list (string * DeliveryResult);
}.
Record SubscribeRequest := MkSubscribeRequest {
  sq_url : string; sq_events : list EventType; sq_secret : option string;
}.
Record SubscriptionResponse := MkSubscriptionResponse {
  sp_id : string; sp_url : string; sp_events : list EventType; sp_secret : string;
}.
(** [impl From<WebhookSubscription> for SubscriptionResponse] *)
Definition SubscriptionResponse_from `{HashOrder} (s : WebhookSubscription) : SubscriptionResponse :=
  MkSubscriptionResponse (ws_id s) (ws_url s) (hash_elements (ws_events s)) (ws_secret s).

Module WebhookState.
Definition new : WebhookStateInner := MkWebhookState ∅ [].
Definition subscribe (sub : WebhookSubscription) (s : WebhookStateInner) : WebhookStateInner :=
  MkWebhookState (<[ws_id sub := sub]> (subscriptions s)) (delivery_log s).
Definition unsubscribe (id : string) (s : WebhookStateInner)
    : option WebhookSubscription * WebhookStateInner :=
  (subscriptions s !! id, MkWebhookState (delete id (subscriptions s)) (delivery_log s)).
Definition list `{HashOrder} (s : WebhookStateInner) : list WebhookSubscription :=
  filter (λ sub, ws_active sub = true) (hash_values (subscriptions s)).
Definition log (id : string) (r : DeliveryResult) (s : WebhookStateInner) : WebhookStateInner :=
  MkWebhookState (subscriptions s) (delivery_log s ++ [(id, r)]).

(** The body of the loop of [trigger]. *)
Definition trigger_one `{Json, !ValueBytes, Hex, Hmac} (e : EventType) (payload : Value)
    (s : WebhookStateInner) (sub : WebhookSubscription) : WebhookStateInner :=
  if bool_decide (e ∈ ws_events sub) then
    match WebhookDelivery_new sub e payload with
    | Ok d => log (ws_id sub) (deliver sub d) s
    | _ => s
    end
  else s.
Definition trigger `{Json, !ValueBytes, Hex, Hmac, HashOrder} (e : EventType) (payload : Value)
    (s : WebhookStateInner) : WebhookStateInner :=
  foldl (trigger_one e payload) s (list s).
End WebhookState.

(** *** Handlers *)
Section handlers.
Context `{HashOrder}.

Definition subscribe_handler (fresh_id fresh_secret : string) (r : SubscribeRequest)
    : M WebhookStateInner StatusCode (StatusCode * SubscriptionResponse) :=
  let secret := default fresh_secret (sq_secret r) in
  let sub := WebhookSubscription_new fresh_id (sq_url r) (list_to_set (sq_events r)) secret in
  _ ← modify (WebhookState.subscribe sub);
  mret (CREATED, SubscriptionResponse_from sub).
Definition unsubscribe_handler (id : string) (s : WebhookStateInner) : StatusCode * WebhookStateInner :=
  let '(o, s) := WebhookState.unsubscribe id s in
  (match o with Some _ => NO_CONTENT | None => NOT_FOUND end, s).
Definition list_handler (s : WebhookStateInner) : list SubscriptionResponse :=
  SubscriptionResponse_from <$> WebhookState.list s.
End handlers.

(** ** Histories of calls *)
Section history.
Context `{Json, !ValueBytes, Hex, Hmac, HashOrder}.

Inductive webhook_op :=
| OpSubscribe (fresh_id fresh_secret : string) (r : SubscribeRequest)
| OpUnsubscribe (id : string)
| OpTrigger (e : EventType) (payload : Value).
Definition webhook_step (s : WebhookStateInner) (o : webhook_op) : WebhookStateInner :=
  match o with
  | OpSubscribe id secret r => (subscribe_handler id secret r s).2
  | OpUnsubscribe id => (unsubscribe_handler id s).2
  | OpTrigger e payload => WebhookState.trigger e payload s
  end.
Definition webhook_run (ops : list webhook_op) : WebhookStateInner :=
  foldl webhook_step WebhookState.new ops.

(** The log entries one subscription gets from an event. *)
Definition entry_of (e : EventType) (payload : Value) (sub : WebhookSubscription)
    : option (string * DeliveryResult) :=
  if bool_decide (e ∈ ws_events sub) then
    match WebhookDelivery_new sub e payload with
    | Ok d => Some (ws_id sub, deliver sub d)
    | _ => None
    end
  else None.

Lemma trigger_fold e payload subs s :
  foldl (WebhookState.trigger_one e payload) s subs =
    MkWebhookState (subscriptions s) (delivery_log s ++ omap (entry_of e payload) subs).
Proof.
  revert s. induction subs as [|sub subs IH]; intros s; simpl.
  { rewrite (right_id_L [] (++)). by destruct s. }
  rewrite IH. unfold WebhookState.trigger_one, entry_of.
  case_bool_decide; [|done]. destruct (WebhookDelivery_new sub e payload); simpl; [|done..].
  by rewrite <-(assoc_L (++)).
Qed.
(** Every subscription is stored under its own identifier. *)
Definition webhook_inv (s : WebhookStateInner) : Prop :=
  ∀ id sub, subscriptions s !! id = Some sub → ws_id sub = id.
Lemma webhook_run_inv ops : webhook_inv (webhook_run ops).
Proof.
  unfold webhook_run. induction ops as [|o ops IH] using rev_ind; [by intros ???|].
  rewrite foldl_app. simpl. set (s := foldl _ _ ops) in *.
  destruct o as [id secret r|id|e payload]; simpl; intros k sub.
  - intros Hk. apply (lookup_insert_Some (subscriptions s) id k _ sub) in Hk. revert Hk. intros [[<- <-]|[_ Hk]]; [done|by apply IH].
  - intros Hk. apply (lookup_delete_Some (subscriptions s) id k sub) in Hk as [_ Hk]. by apply IH.
  - unfold WebhookState.trigger. rewrite trigger_fold. apply IH.
Qed.
End history.

(** Selecting and mapping entries keeps their keys distinct. *)
Lemma NoDup_fmap_omap {A B K} (f : A → K) (g : A → option (K * B)) (l : list A) :
  (∀ x y, g x = Some y → y.1 = f x) → NoDup (f <$> l) → NoDup (omap g l).*1.
Proof.
  intros Hg. induction l as [|x l IH]; [constructor|]. rewrite fmap_cons.
  intros [Hx Hl]%NoDup_cons. cbn. destruct (g x) as [y|] eqn:Hy; [|by apply IH].
  rewrite fmap_cons. apply NoDup_cons. split; [|by apply IH].
  rewrite (Hg _ _ Hy). intros (z & Hz & (w & Hw & Hzw)%list_elem_of_omap)%list_elem_of_fmap.
  apply Hx, list_elem_of_fmap. exists w. by rewrite Hz, (Hg _ _ Hzw).
Qed.
Lemma NoDup_fmap_filter {A K} (f : A → K) (P : A → Prop) `{∀ x, Decision (P x)} (l : list A) :
  NoDup (f <$> l) → NoDup (f <$> filter P l).
Proof.
  induction l as [|x l IH]; [done|]. rewrite fmap_cons, filter_cons. intros [Hx Hl]%NoDup_cons.
  case_decide; [|by apply IH]. rewrite fmap_cons. apply NoDup_cons. split; [|by apply IH].
  intros (y & Hy & [_ Hin]%list_elem_of_filter)%list_elem_of_fmap.
  apply Hx, list_elem_of_fmap. by exists y.
Qed.

(** C35: After any history of subscriptions, cancellations and events, an event
    whose payload can be signed appends to the log exactly one entry for each
    active subscription to it, in some order, whose result is success unless the
    subscription has the empty identifier; subscriptions are left alone. *)
Theorem webhook_trigger_delivers `{Json, !ValueBytes, Hex, Hmac, HashOrderLaws}
    (ops : list webhook_op) (e : EventType) (payload : Value) :
  (∀ secret, is_ok (compute_signature secret payload) = true) →
  let s := webhook_run ops in
  let s' := WebhookState.trigger e payload s in
  subscriptions s' = subscriptions s ∧
  ∃ entries, delivery_log s' = delivery_log s ++ entries ∧ NoDup entries.*1 ∧
    ∀ id r, (id, r) ∈ entries ↔
      (∃ sub, subscriptions s !! id = Some sub ∧ ws_active sub = true ∧ e ∈ ws_events sub) ∧
      r = if bool_decide (id = "") then PermanentFailure "invalid subscription id"
          else DeliverySuccess.
Proof.
  intros Hok s s'. pose proof (webhook_run_inv ops) as Hinv. fold s in Hinv.
  unfold s', WebhookState.trigger. rewrite trigger_fold. split; [done|]. eexists. split; [done|].
  assert (Hentry : ∀ sub, entry_of e payload sub =
    if bool_decide (e ∈ ws_events sub) then
      Some (ws_id sub, if bool_decide (ws_id sub = "") then PermanentFailure "invalid subscription id"
                       else DeliverySuccess)
    else None).
  { intros sub. unfold entry_of, WebhookDelivery_new. specialize (Hok (ws_secret sub)).
    destruct (compute_signature _ _); done. }
  assert (Hmem : ∀ sub, sub ∈ WebhookState.list s ↔
    subscriptions s !! ws_id sub = Some sub ∧ ws_active sub = true).
  { intros sub. unfold WebhookState.list.
    rewrite list_elem_of_filter, hash_values_perm, list_elem_of_fmap. split.
    - intros [? ([id x] & -> & Hx)]. apply elem_of_map_to_list in Hx. simpl.
      by rewrite (Hinv _ _ Hx).
    - intros [Hs ?]. split; [done|]. exists (ws_id sub, sub). by rewrite elem_of_map_to_list. }
  split.
  - apply (NoDup_fmap_omap ws_id).
    { intros sub y. rewrite Hentry. case_bool_decide; [|done]. by intros [= <-]. }
    apply NoDup_fmap_filter. rewrite hash_values_perm.
    replace (ws_id <$> (map_to_list (subscriptions s)).*2)
      with ((map_to_list (subscriptions s)).*1); [apply NoDup_fst_map_to_list|].
    rewrite <-list_fmap_compose. apply list_fmap_ext. intros i [id x] Hx.
    apply list_elem_of_lookup_2, elem_of_map_to_list in Hx. simpl. by rewrite (Hinv _ _ Hx).
  - intros id r. rewrite list_elem_of_omap. setoid_rewrite Hmem. setoid_rewrite Hentry. split.
    + intros (sub & [Hs Ha] & Heq). case_bool_decide; simplify_eq. eauto 10.
    + intros [(sub & Hs & Ha & He) ->]. rewrite <-(Hinv _ _ Hs) in Hs |- *.
      exists sub. by rewrite (bool_decide_true (_ ∈ _)).
Qed.
