(* ===== verification/Sdk.v ===== *)
(** * Crate [pemrix-sdk]: wallets, the transaction builder and the offline clients

    [transaction_builder.rs], [wallet.rs], [error.rs], and the clients of
    [client.rs] that do no I/O.  A wallet's signed transactions pass the signature
    check of the executors. *)

From Stdlib Require Import Strings.Byte.
From S2P Require Import Prelude.
From S2P Require Import Externals.
From S2P Require Import Primitives.
From S2P Require Import Crypto.
From S2P Require Import StateStore.
From S2P Require Import Vm.
Local Open Scope N_scope.

(** ** [error.rs] *)
Inductive SdkError := SdkRpc (msg : string) | SdkSigning | SdkInvalidAddress | SdkInsufficientBalance.

(** ** [transaction_builder.rs] *)
Record TransactionBuilder := MkBuilder {
  tb_sender : Address; tb_recipient : Address; tb_amount : N; tb_nonce : N; tb_fee : N;
  tb_payload : bytes;
}.
Module builder.
Definition new : TransactionBuilder := MkBuilder Address_default Address_default 0 0 0 [].
Definition sender (x : Address) (b : TransactionBuilder) : TransactionBuilder :=
  MkBuilder x (tb_recipient b) (tb_amount b) (tb_nonce b) (tb_fee b) (tb_payload b).
Definition recipient (x : Address) (b : TransactionBuilder) : TransactionBuilder :=
  MkBuilder (tb_sender b) x (tb_amount b) (tb_nonce b) (tb_fee b) (tb_payload b).
Definition amount (x : N) (b : TransactionBuilder) : TransactionBuilder :=
  MkBuilder (tb_sender b) (tb_recipient b) x (tb_nonce b) (tb_fee b) (tb_payload b).
Definition nonce (x : N) (b : TransactionBuilder) : TransactionBuilder :=
  MkBuilder (tb_sender b) (tb_recipient b) (tb_amount b) x (tb_fee b) (tb_payload b).
Definition fee (x : N) (b : TransactionBuilder) : TransactionBuilder :=
  MkBuilder (tb_sender b) (tb_recipient b) (tb_amount b) (tb_nonce b) x (tb_payload b).
Definition payload (x : bytes) (b : TransactionBuilder) : TransactionBuilder :=
  MkBuilder (tb_sender b) (tb_recipient b) (tb_amount b) (tb_nonce b) (tb_fee b) x.
Definition build (b : TransactionBuilder) : Transaction :=
  MkTransaction (tb_sender b) (tb_recipient b) (tb_amount b) (tb_nonce b) (tb_fee b) [] []
    (tb_payload b).
End builder.

Definition with_public_key (pk : bytes) (t : Transaction) : Transaction :=
  MkTransaction (tx_sender t) (tx_recipient t) (tx_amount t) (tx_nonce t) (tx_fee t) pk
    (tx_signature t) (tx_payload t).
Definition with_signature (sig : bytes) (t : Transaction) : Transaction :=
  MkTransaction (tx_sender t) (tx_recipient t) (tx_amount t) (tx_nonce t) (tx_fee t)
    (tx_public_key t) sig (tx_payload t).

Section wallet.
Context `{Blake3, Dalek, !Serde Transaction}.

(** [TransactionBuilder::sign]; [expect] panics when signing fails. *)
Definition builder_sign (kp : KeyPair) (b : TransactionBuilder) : outcome SdkError Transaction :=
  let t := with_public_key (public_bytes (kp_public kp)) (builder.build b) in
  match sign Ed25519Scheme (kp_secret kp) (hash_as_bytes (signing_hash t)) with
  | Ok signature => Ok (with_signature (signature_bytes signature) t)
  | _ => Panic
  end.

(** ** [wallet.rs] *)
Record Wallet := MkWallet { wl_keypair : KeyPair; wl_address : Address }.
Definition Wallet_from_keypair (kp : KeyPair) : Wallet :=
  MkWallet kp (from_public_key_hash (hash_bytes (public_bytes (kp_public kp)))).
Definition Wallet_generate (random : array32) : outcome SdkError Wallet :=
  kp ← map_err (λ _, SdkSigning) (generate_keypair Ed25519Scheme random);
  Ok (Wallet_from_keypair kp).
Definition wallet_transfer (w : Wallet) (recipient : Address) (amount nonce fee : N)
    : outcome SdkError Transaction :=
  builder_sign (wl_keypair w)
    (builder.fee fee (builder.nonce nonce (builder.amount amount (builder.recipient recipient
      (builder.sender (wl_address w) builder.new))))).
Definition wallet_custom_payload (w : Wallet) (payload : bytes) (nonce fee : N)
    : outcome SdkError Transaction :=
  builder_sign (wl_keypair w)
    (builder.payload payload (builder.fee fee (builder.nonce nonce (builder.amount 0
      (builder.recipient Address_default (builder.sender (wl_address w) builder.new)))))).

(** ** [client.rs] *)
(** [trait Client] *)
Class Client (T : Type) := {
  client_balance : T → Address → outcome SdkError N;
  client_nonce : T → Address → outcome SdkError N;
  client_block_by_height : T → N → outcome SdkError Block;
  client_transaction : T → Hash → outcome SdkError (option Transaction);
  client_send_transaction : T → Transaction → outcome SdkError Hash;
}.
Record LocalClient := MkLocalClient { lc_balance : N }.
#[export] Instance LocalClient_Client : Client LocalClient := {|
  client_balance self _ := Ok (lc_balance self);
  client_nonce self _ := Ok 0;
  client_block_by_height self _ := Ok Block_default;
  client_transaction self _ := Ok None;
  client_send_transaction self t := Ok (tx_hash t);
|}.
Inductive GrpcClient := MkGrpcClient.
Definition grpc_unimplemented {A} : outcome SdkError A := Err (SdkRpc "gRPC client not implemented").
#[export] Instance GrpcClient_Client : Client GrpcClient := {|
  client_balance self _ := grpc_unimplemented;
  client_nonce self _ := grpc_unimplemented;
  client_block_by_height self _ := grpc_unimplemented;
  client_transaction self _ := grpc_unimplemented;
  client_send_transaction self t := grpc_unimplemented;
|}.
End wallet.

(** ** Signed transactions verify *)
Section signed.
Context `{Blake3, DalekLaws, !Serde Transaction}.

(** What signing needs of a key pair and the sender it is used for. *)
Lemma signed_verifies sk t sender :
  sender = from_public_key_hash (hash_bytes (array32_bytes (verifying_key sk))) →
  tx_sender t = sender →
  let t' := with_public_key (array32_bytes (verifying_key sk)) t in
  verify_signature (with_signature (dalek_sign sk (hash_as_bytes (signing_hash t'))) t') = Ok tt.
Proof.
  intros -> Hs t'. unfold verify_signature. simpl.
  rewrite !decide_False; [|rewrite Hs; by intros Hne|rewrite dalek_sign_length; by intros Hne
    |rewrite array32_length; by intros Hne].
  change (signing_hash (with_signature _ t')) with (signing_hash t').
  pose proof (ed_verify_sign sk (hash_as_bytes (signing_hash t'))) as Hv.
  simpl in Hv. by rewrite Hv.
Qed.
Lemma builder_sign_run sk b :
  builder_sign (keypair_of sk) b =
    let t := with_public_key (array32_bytes (verifying_key sk)) (builder.build b) in
    Ok (with_signature (dalek_sign sk (hash_as_bytes (signing_hash t))) t).
Proof. unfold builder_sign. simpl. by rewrite ed_sign_key. Qed.

(** A wallet made from an Ed25519 key pair never fails to sign: its transfers
    and its custom-payload transactions carry the requested fields, come from the
    wallet's address, and pass the signature check of the executors. *)
Lemma wallet_transactions_verify (sk : array32) (recipient : Address) (payload : bytes)
    (amount nonce fee : N) :
  let w := Wallet_from_keypair (keypair_of sk) in
  (∃ t, wallet_transfer w recipient amount nonce fee = Ok t ∧
     verify_signature t = Ok tt ∧ tx_sender t = wl_address w ∧ tx_recipient t = recipient ∧
     tx_amount t = amount ∧ tx_nonce t = nonce ∧ tx_fee t = fee ∧ tx_payload t = []) ∧
  (∃ t, wallet_custom_payload w payload nonce fee = Ok t ∧
     verify_signature t = Ok tt ∧ tx_sender t = wl_address w ∧ tx_amount t = 0 ∧
     tx_nonce t = nonce ∧ tx_fee t = fee ∧ tx_payload t = payload).
Proof.
  intros w. unfold wallet_transfer, wallet_custom_payload, w. cbn [wl_keypair Wallet_from_keypair].
  rewrite !builder_sign_run. split; eexists; (split; [reflexivity|]);
    (split; [by eapply signed_verifies|done]).
Qed.
End signed.
