(* ===== verification/Faucet.v ===== *)
(** * Crate [pemrix-faucet]: the token faucet

    [config.rs], [error.rs] and [service.rs] over any transaction submitter, and
    the submitter that pushes into a local RPC state.  [Instant]s are numbers of
    nanoseconds.  The cooldown map is locked once for the check and once for the
    update, so a request is two atomic parts with the submission between them. *)

From Stdlib Require Import Strings.Byte.
From S2P Require Import Prelude.
From S2P Require Import Externals.
From S2P Require Import Primitives.
From S2P Require Import Crypto.
From S2P Require Import StateStore.
From S2P Require Import Vm.
From S2P Require Import VmTheorems.
From S2P Require Import Protocol.
From S2P Require Import Web.
From S2P Require Import Rpc.
From S2P Require Import Sdk.
Local Open Scope N_scope.

(** ** [config.rs], [error.rs] *)
Record FaucetConfig := MkFaucetConfig {
  fc_listen : string;
  fc_faucet_address : string;
  fc_max_amount : N;
  fc_cooldown_seconds : N;
  fc_rpc_url : string;
}.
Definition FaucetConfig_default : FaucetConfig :=
  MkFaucetConfig ports.faucet_local "px" 10000 60 ports.rpc_internal_url.

Inductive FaucetError :=
| FaAmountTooHigh | FaCooldown | FaInvalidAddress | FaSigning | FaSubmission (msg : string)
| FaInsufficientFunds.
(** [impl Display for FaucetError] *)
Definition FaucetError_to_string (e : FaucetError) : string :=
  match e with
  | FaAmountTooHigh => "amount exceeds maximum"
  | FaCooldown => "address is on cooldown"
  | FaInvalidAddress => "invalid address"
  | FaSigning => "signing failed"
  | FaSubmission msg => "submission failed: " +:+ msg
  | FaInsufficientFunds => "insufficient faucet funds"
  end.

(** ** [service.rs] *)
(** [trait TransactionSubmitter]; [T] is the state submission changes. *)
Record TransactionSubmitter (T : Type) := MkSubmitter {
  submit : Transaction → M T FaucetError Hash;
  submitter_nonce : Address → T → N;
}.
Arguments submit {T} _ _.
Arguments submitter_nonce {T} _ _ _.

Definition LocalSubmitter `{Blake3, !Serde Transaction} (faucet_address : Address)
    : TransactionSubmitter RpcStateInner := {|
  submit t :=
    let hash := tx_hash t in
    _ ← modify (RpcState.store_transaction hash t);
    _ ← modify (RpcState.submit_transaction t);
    mret hash;
  submitter_nonce _ s := from_option acc_nonce 0 (RpcState.get_account faucet_address s);
|}.

(** [struct FaucetState]: what a request reads, and what it changes. *)
Record FaucetState (T : Type) := MkFaucetState {
  fs_config : FaucetConfig;
  fs_keypair : KeyPair;
  fs_address : Address;
  fs_submitter : TransactionSubmitter T;
}.
Arguments MkFaucetState {T} _ _ _ _.
Arguments fs_config {T} _.
Arguments fs_keypair {T} _.
Arguments fs_address {T} _.
Arguments fs_submitter {T} _.
Notation Cooldowns := (gmap Address N).
Record FaucetRequest := MkFaucetRequest { fq_address : string; fq_amount : string }.
Record FaucetResponse := MkFaucetResponse {
  fp_success : bool; fp_tx_hash : string; fp_message : string;
}.

Section service.
Context `{Blake3, Dalek, Hex, !Serde Transaction} {T : Type}.

(** [FaucetService::generate_keypair] *)
Definition faucet_generate_keypair (random : array32) : outcome FaucetError KeyPair :=
  map_err (λ _, FaSigning) (generate_keypair Ed25519Scheme random).

(** [last.elapsed() < Duration::from_secs(cooldown_seconds)] *)
Definition on_cooldown (cfg : FaucetConfig) (cooldowns : Cooldowns) (now : N) (a : Address) : bool :=
  match cooldowns !! a with
  | Some last => (now - last <? fc_cooldown_seconds cfg * 1000000000)
  | None => false
  end.
Definition refuse (code : StatusCode) (msg : string) : StatusCode * FaucetResponse :=
  (code, MkFaucetResponse false "" msg).

(** The checks before the submission: a refusal, or the recipient and amount. *)
Definition faucet_admit (cfg : FaucetConfig) (r : FaucetRequest) (cooldowns : Cooldowns) (now : N)
    : outcome StatusCode ((StatusCode * FaucetResponse) + (Address * N)) :=
  recipient ← map_err (λ _, BAD_REQUEST) (Address_from_str (fq_address r));
  amount ← map_err (λ _, BAD_REQUEST) (parse_uint U128 (fq_amount r));
  if fc_max_amount cfg <? amount then Ok (inl (refuse BAD_REQUEST "amount exceeds maximum"))
  else if on_cooldown cfg cooldowns now recipient
  then Ok (inl (refuse TOO_MANY_REQUESTS "address is on cooldown"))
  else Ok (inr (recipient, amount)).

(** The signed transaction of a request. *)
Definition faucet_tx (f : FaucetState T) (recipient : Address) (amount nonce : N)
    : outcome StatusCode Transaction :=
  let t := with_public_key (public_bytes (kp_public (fs_keypair f)))
             (transfer_tx (fs_address f) recipient amount nonce 0) in
  signature ← map_err (λ _, INTERNAL_SERVER_ERROR)
                (sign Ed25519Scheme (kp_secret (fs_keypair f)) (hash_as_bytes (signing_hash t)));
  Ok (with_signature (signature_bytes signature) t).
(** [match submit(tx).await]: the result as a value. *)
Definition attempt (m : M T FaucetError Hash) : M T StatusCode (Hash + FaucetError) := λ s,
  match m s with
  | (Ok hash, s) => (Ok (inl hash), s)
  | (Err e, s) => (Ok (inr e), s)
  | (Panic, s) => (Panic, s)
  end.
(** Signing and submission; the boolean says whether the cooldown starts. *)
Definition faucet_send (f : FaucetState T) (recipient : Address) (amount : N)
    : M T StatusCode (bool * (StatusCode * FaucetResponse)) :=
  nonce ← gets (submitter_nonce (fs_submitter f) (fs_address f));
  t ← lift (faucet_tx f recipient amount nonce);
  result ← attempt (submit (fs_submitter f) t);
  mret match result with
       | inl hash => (true, (STATUS_OK, MkFaucetResponse true (Hash_to_string hash) "tokens sent"))
       | inr e => (false, refuse INTERNAL_SERVER_ERROR (FaucetError_to_string e))
       end.

(** [request_handler]: [now] and [after] are the instants of the check and of
    the update. *)
Definition request_handler (f : FaucetState T) (r : FaucetRequest) (now after : N)
    : M (T * Cooldowns) StatusCode (StatusCode * FaucetResponse) :=
  admitted ← reads (λ s, faucet_admit (fs_config f) r s.2 now);
  match admitted with
  | inl refusal => mret refusal
  | inr (recipient, amount) =>
      sent ← zoom fst (λ t s, (t, s.2)) (faucet_send f recipient amount);
      let '(started, response) := sent in
      _ ← (if started : bool then modify (λ s, (s.1, <[recipient := after]> s.2)) else mret tt);
      mret response
  end.
End service.

(** ** Properties *)
Section faucet_properties.
Context `{Blake3, DalekLaws, Hex, !Serde Transaction}.
(** A faucet with an Ed25519 key pair and the address derived from it. *)
Definition derived_address (sk : array32) : Address :=
  from_public_key_hash (hash_bytes (array32_bytes (verifying_key sk))).
Definition local_faucet (cfg : FaucetConfig) (sk : array32) : FaucetState RpcStateInner :=
  MkFaucetState cfg (keypair_of sk) (derived_address sk) (LocalSubmitter (derived_address sk)).

Lemma faucet_tx_run cfg sk recipient amount nonce :
  ∃ t, faucet_tx (local_faucet cfg sk) recipient amount nonce = Ok t ∧
    verify_signature t = Ok tt ∧ tx_sender t = derived_address sk ∧
    tx_recipient t = recipient ∧ tx_amount t = amount ∧ tx_nonce t = nonce ∧ tx_fee t = 0 ∧
    tx_payload t = [].
Proof.
  unfold faucet_tx. simpl. rewrite ed_sign_key. simpl. eexists. split; [done|].
  split; [|done]. by eapply signed_verifies.
Qed.
Lemma faucet_admit_cases cfg r cooldowns now x :
  faucet_admit cfg r cooldowns now = Ok (inr x) ↔
  Address_from_str (fq_address r) = Ok x.1 ∧ parse_uint U128 (fq_amount r) = Ok x.2 ∧
  x.2 ≤ fc_max_amount cfg ∧ on_cooldown cfg cooldowns now x.1 = false.
Proof.
  destruct x as [a n]. unfold faucet_admit. destruct (Address_from_str _) as [a'|e|]; cbn; [|naive_solver..].
  destruct (parse_uint _ _) as [n'|e|]; cbn; [|naive_solver..].
  destruct (N.ltb_spec (fc_max_amount cfg) n').
  { split; [done|]. intros (_ & [= <-] & Hle & _). lia. }
  destruct (on_cooldown cfg cooldowns now a') eqn:Hc.
  - split; [done|]. intros ([= <-] & _ & _ & Hc'). congruence.
  - split; [by intros [= <- <-]|]. by intros ([= <-] & [= <-] & _).
Qed.

(** The RPC state once [t] is stored and queued. *)
Definition queued (t : Transaction) (s : RpcStateInner) : RpcStateInner :=
  RpcState.submit_transaction t (RpcState.store_transaction (tx_hash t) t s).

(** An admitted request is always paid. *)
Lemma request_handler_admitted cfg sk r now after s cooldowns a n :
  faucet_admit cfg r cooldowns now = Ok (inr (a, n)) →
  ∃ t, request_handler (local_faucet cfg sk) r now after (s, cooldowns) =
      (Ok (STATUS_OK, MkFaucetResponse true (Hash_to_string (tx_hash t)) "tokens sent"),
       (queued t s, <[a := after]> cooldowns)) ∧
    verify_signature t = Ok tt ∧ tx_sender t = derived_address sk ∧ tx_recipient t = a ∧
    tx_amount t = n ∧ tx_fee t = 0 ∧ tx_payload t = [] ∧
    tx_nonce t = from_option acc_nonce 0 (rpc_accounts s !! derived_address sk).
Proof.
  intros Hadm.
  destruct (faucet_tx_run cfg sk a n (from_option acc_nonce 0 (rpc_accounts s !! derived_address sk)))
    as (t & Ht & Hv & Hs & Hr & Hamt & Hnon & Hfee & Hpay).
  exists t. split; [|done].
  unfold request_handler, zoom, faucet_send, mbind, M_bind, gets, reads. simpl.
  rewrite Hadm. simpl. unfold RpcState.get_account. by rewrite Ht.
Qed.

(** C33: A faucet request that succeeds queues exactly one transaction, which
    pays the parsed amount, at most the configured maximum, from the faucet to
    the parsed address with no fee and the nonce on file, and which passes the
    signature check; the recipient was not on cooldown and its cooldown starts.
    A request that does not succeed leaves the RPC state and the cooldowns as
    they were. *)
Theorem faucet_request_correct (cfg : FaucetConfig) (sk : array32) (r : FaucetRequest)
    (now after : N) (s : RpcStateInner) (cooldowns : Cooldowns) :
  let '(res, (s', cooldowns')) :=
    request_handler (local_faucet cfg sk) r now after (s, cooldowns) in
  (∃ t a resp,
    res = Ok (STATUS_OK, resp) ∧ fp_success resp = true ∧
    Address_from_str (fq_address r) = Ok a ∧ parse_uint U128 (fq_amount r) = Ok (tx_amount t) ∧
    tx_amount t ≤ fc_max_amount cfg ∧ on_cooldown cfg cooldowns now a = false ∧
    verify_signature t = Ok tt ∧ tx_sender t = derived_address sk ∧ tx_recipient t = a ∧
    tx_fee t = 0 ∧ tx_nonce t = from_option acc_nonce 0 (rpc_accounts s !! derived_address sk) ∧
    s' = queued t s ∧ cooldowns' = <[a := after]> cooldowns) ∨
  ((∀ code resp, res = Ok (code, resp) → fp_success resp = false) ∧
   s' = s ∧ cooldowns' = cooldowns).
Proof.
  destruct (faucet_admit cfg r cooldowns now) as [[[code resp]|[a n]]|e|] eqn:Hadm.
  2: { destruct (request_handler_admitted cfg sk r now after s cooldowns a n Hadm)
         as (t & Hrun & Hv & Hs & Hr & Hamt & Hfee & _ & Hnon).
       apply faucet_admit_cases in Hadm as (Ha & Hn & Hle & Hcool). simpl in *.
       rewrite Hrun. left. exists t, a. rewrite Hamt. eexists. by split_and!. }
  all: unfold request_handler, mbind at 1, M_bind at 1, reads; simpl; rewrite Hadm; simpl.
  2,3: by right.
  right. split; [|done]. intros c p [= <- <-]. revert Hadm. unfold faucet_admit, refuse.
  intros (a & _ & (n & _ & Hif)%outcome_bind_Ok)%outcome_bind_Ok.
  by repeat case_match; simplify_eq.
Qed.

(** Two faucet requests between two blocks carry the same nonce, since
    queueing a transaction does not advance the nonce on file: both requesters
    are told that tokens were sent, but on any ledger that accepts the first
    payment the second is then rejected. *)
Lemma faucet_second_request_rejected
    `{!Serde Account, !Serde (gmap string bytes), !Serde ValidatorRecord, !Serde Delegation}
    `{Profile, !Serde StakingOperation}
    (cfg : FaucetConfig) (sk : array32) (r1 r2 : FaucetRequest) (now : N) (a1 a2 : Address)
    (n1 n2 : N) (s : RpcStateInner) (cooldowns : Cooldowns) (L : Ledger) :
  faucet_admit cfg r1 cooldowns now = Ok (inr (a1, n1)) →
  faucet_admit cfg r2 (<[a1 := now]> cooldowns) now = Ok (inr (a2, n2)) →
  ledger_inv L → acc_nonce (acct L (derived_address sk)) < U64 →
  let f := local_faucet cfg sk in
  let run1 := request_handler f r1 now now (s, cooldowns) in
  let run2 := request_handler f r2 now now run1.2 in
  is_ok run1.1 = true ∧ is_ok run2.1 = true ∧
  ∃ t1 t2, rpc_pending run2.2.1 = rpc_pending s ++ [t1; t2] ∧
    tx_recipient t1 = a1 ∧ tx_recipient t2 = a2 ∧ tx_nonce t1 = tx_nonce t2 ∧
    (accepted t1 L = true → (execute t2 (execute t1 L).2).1 = Ok (rejected "invalid nonce")).
Proof.
  intros Hadm1 Hadm2 Hinv Hn f run1 run2.
  destruct (request_handler_admitted cfg sk r1 now now s cooldowns a1 n1 Hadm1)
    as (t1 & Hrun1 & Hv1 & Hs1 & Hr1 & _ & _ & _ & Hn1).
  destruct (request_handler_admitted cfg sk r2 now now (queued t1 s) _ a2 n2 Hadm2)
    as (t2 & Hrun2 & Hv2 & Hs2 & Hr2 & _ & _ & _ & Hn2).
  unfold run2, run1, f. rewrite Hrun1. simpl. rewrite Hrun2. simpl.
  split; [done|]. split; [done|]. exists t1, t2. split_and!; [by rewrite <-(assoc_L (++))|done..|by rewrite Hn1, Hn2|].
  intros Hacc. destruct (execute t1 L) as [r L'] eqn:HL. simpl.
  rewrite <-Hs1 in Hn. pose proof (execute_nonce t1 L r L' (tx_sender t1) Hinv Hn HL) as Hnonce.
  rewrite Hacc, bool_decide_true in Hnonce by done. simpl in Hnonce.
  assert (acc_nonce (acct L (tx_sender t1)) = tx_nonce t1) as Heq.
  { unfold accepted in Hacc. rewrite !andb_true_iff in Hacc. destruct Hacc as [[_ Hacc] _].
    by apply N.eqb_eq. }
  rewrite (execute_stale t2 L' (acc_nonce (acct L' (tx_sender t2)))); [done|done| |].
  - unfold store_nonce, acct. simpl. by destruct (accts L' !! tx_sender t2).
  - rewrite Hs2, <-Hs1, Hnonce, Heq, Hn1, Hn2. simpl. lia.
Qed.
End faucet_properties.
