(* ===== verification/NodeServices.v ===== *)
(** * Node services: replaying blocks into the RPC, explorer and webhook state

    The two [ingest_block] functions of [node/pemrix-node/src], in [testnet.rs]
    (native transfers only) and in [services.rs] (with [replay_staking]), and how
    faithfully the account mirror they maintain follows the ledger. *)

From Stdlib Require Import Strings.Byte.
From S2P Require Import Prelude.
From S2P Require Import Externals.
From S2P Require Import Primitives.
From S2P Require Import Crypto.
From S2P Require Import StateStore.
From S2P Require Import Vm.
From S2P Require Import VmTheorems.
From S2P Require Import Web.
From S2P Require Import Rpc.
From S2P Require Import Explorer.
From S2P Require Import Webhooks.
Local Open Scope N_scope.

(** The shared state of the user-facing services. *)
Record Services := MkServices {
  sv_rpc : RpcStateInner;
  sv_explorer : ExplorerStateInner;
  sv_webhooks : WebhookStateInner;
}.
Definition on_rpc (f : RpcStateInner → RpcStateInner) (s : Services) : Services :=
  MkServices (f (sv_rpc s)) (sv_explorer s) (sv_webhooks s).
Definition on_explorer (f : ExplorerStateInner → ExplorerStateInner) (s : Services) : Services :=
  MkServices (sv_rpc s) (f (sv_explorer s)) (sv_webhooks s).
Definition on_webhooks (f : WebhookStateInner → WebhookStateInner) (s : Services) : Services :=
  MkServices (sv_rpc s) (sv_explorer s) (f (sv_webhooks s)).

(** [rpc_state.get_account(..).await.unwrap_or_default()] *)
Definition mirror_account (s : RpcStateInner) (a : Address) : Account :=
  default Account_default (RpcState.get_account a s).

(** ** [services.rs]: [replay_staking] *)
Definition replay_staking (sender : Address) (op : StakingOperation) (s : RpcStateInner)
    : RpcStateInner :=
  match op with
  | RegisterValidator consensus_pubkey commission_bps self_stake =>
      let account := mirror_account s sender in
      let s := RpcState.set_account sender
                 (MkAccount (saturating_sub (acc_balance account) self_stake) (acc_nonce account)) s in
      RpcState.set_validator sender
        (ValidatorRecord_new sender consensus_pubkey self_stake commission_bps) s
  | Delegate validator amount =>
      let account := mirror_account s sender in
      let s := RpcState.set_account sender
                 (MkAccount (saturating_sub (acc_balance account) amount) (acc_nonce account)) s in
      let s := match RpcState.get_validator validator s with
               | Some record =>
                   RpcState.set_validator validator
                     (with_delegated_stake record
                        (saturating_add U128 (vr_delegated_stake record) amount)) s
               | None => s
               end in
      let delegation := default Delegation_default (RpcState.get_delegation sender validator s) in
      RpcState.set_delegation sender validator
        (with_amount delegation (saturating_add U128 (dl_amount delegation) amount)) s
  | Undelegate validator amount =>
      let s := match RpcState.get_validator validator s with
               | Some record =>
                   RpcState.set_validator validator
                     (with_delegated_stake record (saturating_sub (vr_delegated_stake record) amount)) s
               | None => s
               end in
      let s := match RpcState.get_delegation sender validator s with
               | Some delegation =>
                   let rest := saturating_sub (dl_amount delegation) amount in
                   if rest =? 0 then RpcState.delete_delegation sender validator s
                   else RpcState.set_delegation sender validator (with_amount delegation rest) s
               | None => s
               end in
      let account := mirror_account s sender in
      RpcState.set_account sender
        (MkAccount (saturating_add U128 (acc_balance account) amount) (acc_nonce account)) s
  end.

Section ingest.
Context `{Json, !ValueBytes, Hex, Hmac, HashOrder, Blake3}.
Context `{!Serde Transaction, !Serde BlockHeader, !Serde StakingOperation}.

(** The loop body the two functions share; [staking] is what happens between
    computing the sender's account and storing it. *)
Definition replay_with (staking : Transaction → RpcStateInner → RpcStateInner)
    (s : RpcStateInner) (t : Transaction) : RpcStateInner :=
  let sender := mirror_account s (tx_sender t) in
  let total := saturating_add U128 (tx_amount t) (tx_fee t) in
  if negb (acc_nonce sender =? tx_nonce t) then s
  else if acc_balance sender <? total then s
  else
    let sender := MkAccount (saturating_sub (acc_balance sender) total)
                    (saturating_add U64 (acc_nonce sender) 1) in
    let s := staking t s in
    let s := RpcState.set_account (tx_sender t) sender s in
    let recipient := mirror_account s (tx_recipient t) in
    RpcState.set_account (tx_recipient t)
      (MkAccount (saturating_add U128 (acc_balance recipient) (tx_amount t)) (acc_nonce recipient)) s.
(** [testnet.rs] *)
Definition testnet_replay : RpcStateInner → Transaction → RpcStateInner := replay_with (λ _ s, s).
(** [services.rs] *)
Definition services_replay : RpcStateInner → Transaction → RpcStateInner :=
  replay_with (λ t s, match staking_decode (tx_payload t) with
                      | Ok op => replay_staking (tx_sender t) op s
                      | _ => s
                      end).

(** The loop that ends both functions. *)
Definition announce_transactions (ts : list Transaction) (s : Services) : Services :=
  foldl (λ s t,
    let s := on_webhooks (WebhookState.trigger EvTransaction
               (json_string "hash" (Hash_to_string (tx_hash t)))) s in
    on_rpc (RpcState.store_transaction (tx_hash t) t) s) s ts.
(** Both functions, after the replay. *)
Definition ingest_with (replay : RpcStateInner → Transaction → RpcStateInner) (b : Block)
    (s : Services) : Services :=
  let s := on_rpc (λ r, foldl replay r (transactions (body b))) s in
  let s := on_rpc (RpcState.store_block b) s in
  let s := on_explorer (ExplorerState.ingest_block b) s in
  let s := on_webhooks (WebhookState.trigger EvBlock (json_number "height" (bh_height (header b)))) s in
  announce_transactions (transactions (body b)) s.
Definition testnet_ingest_block : Block → Services → Services := ingest_with testnet_replay.
Definition services_ingest_block : Block → Services → Services := ingest_with services_replay.

(** Announcing only touches the webhooks and the transaction index. *)
Lemma announce_keeps ts s :
  let s' := announce_transactions ts s in
  sv_explorer s' = sv_explorer s ∧ rpc_accounts (sv_rpc s') = rpc_accounts (sv_rpc s) ∧
  rpc_blocks (sv_rpc s') = rpc_blocks (sv_rpc s) ∧ rpc_pending (sv_rpc s') = rpc_pending (sv_rpc s).
Proof.
  unfold announce_transactions. revert s. induction ts as [|t ts IH]; intros s; [done|]. cbn [foldl].
  match goal with |- context[foldl _ ?s1 ts] => by destruct (IH s1) as (-> & -> & -> & ->) end.
Qed.
End ingest.
(** Rewrite what announcing keeps. *)
Ltac announced :=
  match goal with |- context[announce_transactions ?ts ?s] =>
    let He := fresh in let Ha := fresh in let Hb := fresh in let Hp := fresh in
    destruct (announce_keeps ts s) as (He & Ha & Hb & Hp); rewrite ?He, ?Ha, ?Hb, ?Hp;
    clear He Ha Hb Hp
  end.

Section ingest_accounts.
Context `{Json, !ValueBytes, Hex, Hmac, HashOrder, Blake3}.
Context `{!Serde Transaction, !Serde BlockHeader, !Serde StakingOperation}.
(** Only the replay touches the accounts. *)
Lemma ingest_accounts replay b s :
  rpc_accounts (sv_rpc (ingest_with replay b s)) =
    rpc_accounts (foldl replay (sv_rpc s) (transactions (body b))).
Proof. unfold ingest_with. cbn zeta. by announced. Qed.
End ingest_accounts.

(** ** How far the mirror follows the ledger *)
Section mirror.
Context `{Hex, Blake3, !Serde Account, !Serde (gmap string bytes)}.
Context `{!Serde ValidatorRecord, !Serde Delegation}.
Context `{Profile, Dalek, !Serde Transaction, !Serde StakingOperation}.
Implicit Types (s : RpcStateInner) (L : Ledger) (t : Transaction).

(** The mirror shows every account as the ledger has it. *)
Definition mirrors s L : Prop := ∀ a, mirror_account s a = acct L a.

Lemma mirror_set a x s b :
  mirror_account (RpcState.set_account a x s) b = if decide (a = b) then x else mirror_account s b.
Proof.
  unfold mirror_account, RpcState.get_account. simpl. rewrite lookup_insert. by case_decide.
Qed.
(** What a replayed transaction does to the accounts. *)
Lemma replay_account staking s t a :
  let total := saturating_add U128 (tx_amount t) (tx_fee t) in
  acc_nonce (mirror_account s (tx_sender t)) = tx_nonce t →
  total ≤ acc_balance (mirror_account s (tx_sender t)) →
  (a ≠ tx_sender t → mirror_account (staking t s) a = mirror_account s a) →
  (tx_recipient t ≠ tx_sender t →
   mirror_account (staking t s) (tx_recipient t) = mirror_account s (tx_recipient t)) →
  mirror_account (replay_with staking s t) a =
    let x := if decide (tx_sender t = a)
             then MkAccount (acc_balance (mirror_account s a) - total)
                    (saturating_add U64 (acc_nonce (mirror_account s a)) 1)
             else mirror_account s a in
    if decide (tx_recipient t = a)
    then MkAccount (saturating_add U128 (acc_balance x) (tx_amount t)) (acc_nonce x) else x.
Proof.
  intros total Hn Hle Hst Hst'. unfold replay_with. rewrite Hn, N.eqb_refl. simpl. fold total.
  rewrite (proj2 (N.ltb_ge _ _)) by done. rewrite !mirror_set.
  destruct (decide (tx_recipient t = a)) as [<-|Hra].
  - destruct (decide (tx_sender t = tx_recipient t)) as [Heq|Hne]; [by rewrite <-Heq, Hn|].
    by rewrite Hst' by congruence.
  - destruct (decide (tx_sender t = a)) as [<-|Hne]; [by rewrite Hn|]. by rewrite Hst by congruence.
Qed.
Lemma replay_skipped staking s t :
  acc_nonce (mirror_account s (tx_sender t)) ≠ tx_nonce t ∨
  acc_balance (mirror_account s (tx_sender t)) < saturating_add U128 (tx_amount t) (tx_fee t) →
  replay_with staking s t = s.
Proof.
  unfold replay_with. intros [Hn|Hlt].
  - by rewrite (proj2 (N.eqb_neq _ _) Hn).
  - destruct (negb _); [done|]. by rewrite (proj2 (N.ltb_lt _ _) Hlt).
Qed.

(** A transfer the ledger either charges in full or does not charge at all. *)
Definition settled t L : Prop :=
  tx_wf t ∧ tx_payload t = [] ∧ verify_signature t = Ok tt ∧
  (accepted t L = true → tx_amount t + tx_fee t ≤ acc_balance (acct L (tx_sender t))).
(** Each transaction of a sequence is settled when its turn comes. *)
Fixpoint all_settled (ts : list Transaction) L : Prop :=
  match ts with
  | [] => True
  | t :: ts => settled t L ∧ all_settled ts (execute t L).2
  end.

Lemma settled_execute t L :
  ledger_inv L → acc_nonce (acct L (tx_sender t)) < U64 → settled t L → accepted t L = true →
  ∀ a, acct (execute t L).2 a =
    MkAccount
      (acc_balance (acct L a) + (if decide (tx_recipient t = a) then tx_amount t else 0) -
       (if decide (tx_sender t = a) then tx_amount t + tx_fee t else 0))
      (acc_nonce (acct L a) + (if decide (tx_sender t = a) then 1 else 0)).
Proof.
  intros Hinv Hn (_ & Hpay & Hv & Hfund) Hacc a. specialize (Hfund Hacc).
  rewrite execute_accepted by done. unfold dispatch. rewrite Hpay.
  rewrite execute_transfer_run by by apply charged_inv.
  destruct (N.eqb_spec (tx_amount t) 0) as [Hz|Hz].
  - cbn [snd]. unfold charged. rewrite acct_set, Hz.
    destruct (decide (tx_sender t = a)) as [<-|Hne].
    + simpl. case_decide; f_equal; lia.
    + destruct (acct L a); simpl. case_decide; f_equal; lia.
  - assert (acc_balance (acct (charged t L) (tx_sender t)) =
      acc_balance (acct L (tx_sender t)) - tx_fee t) as ->.
    { unfold charged. by rewrite acct_set, decide_True. }
    rewrite (proj2 (N.ltb_ge _ _)) by lia. cbn [snd]. apply acct_transferred; lia.
Qed.
Lemma mirror_step s t L :
  ledger_inv L → nonce_room 1 L → mirrors s L → settled t L →
  mirrors (testnet_replay s t) (execute t L).2.
Proof.
  intros Hinv Hroom Hm Hs. pose proof (Hroom (tx_sender t)) as Hn.
  pose proof Hs as ((_ & _ & Hfee) & _ & Hv & Hfund).
  assert (acc_balance (acct L (tx_sender t)) ≤ U128) as Hbal.
  { destruct Hinv as [_ Hsup]. pose proof (balance_le_total L (tx_sender t)).
    unfold supply in Hsup. lia. }
  destruct (accepted t L) eqn:Hacc.
  - intros a. rewrite (settled_execute t L Hinv) by (done || lia).
    specialize (Hfund eq_refl).
    assert (acc_nonce (acct L (tx_sender t)) = tx_nonce t) as Hnon.
    { unfold accepted in Hacc. rewrite !andb_true_iff in Hacc. destruct Hacc as [[_ Hacc] _].
      by apply N.eqb_eq. }
    assert (acc_balance (acct L (tx_recipient t)) + acc_balance (acct L (tx_sender t)) ≤ U128
      ∨ tx_recipient t = tx_sender t) as Hboth.
    { destruct (decide (tx_recipient t = tx_sender t)) as [|Hne]; [by right|left].
      destruct Hinv as [_ Hsup]. unfold supply in Hsup.
      pose proof (total_balance_set L (tx_sender t) (MkAccount 0 0)) as Hset.
      pose proof (balance_le_total (set_acct (tx_sender t) (MkAccount 0 0) L) (tx_recipient t)) as Hle.
      rewrite acct_set, decide_False in Hle by congruence. simpl in *. lia. }
    assert (saturating_add U128 (tx_amount t) (tx_fee t) = tx_amount t + tx_fee t) as Hexact
      by (apply saturating_add_exact; lia).
    unfold testnet_replay. rewrite (replay_account (λ _ s, s) s t a);
      [|by rewrite Hm|cbn zeta; by rewrite Hm, Hexact|done|done].
    rewrite Hm, Hexact. cbn zeta. pose proof (Hroom a) as Hna. simpl in Hna.
    destruct (decide (tx_sender t = a)) as [<-|Hne].
    + case_decide; cbn; rewrite ?saturating_add_exact by lia; f_equal; lia.
    + case_decide as Hr; [|by destruct (acct L a); simpl; f_equal; lia].
      subst a. cbn. destruct Hboth as [Hb|]; [|congruence].
      rewrite !saturating_add_exact by lia. f_equal; lia.
  - assert ((execute t L).2 = L) as ->.
    { destruct (execute_rejected t L) as (r & -> & _); [lia|done|done]. }
    unfold testnet_replay. rewrite replay_skipped; [done|]. rewrite Hm.
    unfold accepted in Hacc. rewrite Hv in Hacc. simpl in Hacc.
    destruct (N.eqb_spec (acc_nonce (acct L (tx_sender t))) (tx_nonce t)); [|by left].
    right. simpl in Hacc. apply N.leb_gt in Hacc. unfold saturating_add. lia.
Qed.

(** The services' replay of a transaction without a payload is the testnet's. *)
Lemma services_replay_transfer s t : tx_payload t = [] → services_replay s t = testnet_replay s t.
Proof. intros Hp. unfold services_replay, testnet_replay, replay_with. by rewrite Hp. Qed.
(** A sequence of settled transfers, and what it leaves of the ledger's invariants. *)
Lemma replay_mirrors (replay : RpcStateInner → Transaction → RpcStateInner) ts n s L :
  (∀ s t, tx_payload t = [] → replay s t = testnet_replay s t) →
  ledger_inv L → nonce_room (length ts + n) L → mirrors s L → all_settled ts L →
  mirrors (foldl replay s ts) (run_txs ts L) ∧ ledger_inv (run_txs ts L) ∧ nonce_room n (run_txs ts L).
Proof.
  intros Hrep. revert s L. induction ts as [|t ts IH]; intros s L Hinv Hroom Hm Hs; [done|].
  destruct Hs as [Ht Hts]. unfold run_txs. simpl. destruct (execute t L) as [r L'] eqn:HL.
  simpl in *. pose proof (Hroom (tx_sender t)) as Hn.
  apply (IH _ L'); [eapply execute_inv; [done| |done]; lia|by eapply execute_room| |done].
  replace L' with (execute t L).2 by by rewrite HL. rewrite Hrep by apply Ht.
  apply mirror_step; [done| |done|done]. intros a. specialize (Hroom a). simpl. lia.
Qed.
Lemma all_settled_app ts ts' L :
  all_settled (ts ++ ts') L ↔ all_settled ts L ∧ all_settled ts' (run_txs ts L).
Proof.
  revert L. induction ts as [|t ts IH]; intros L; [naive_solver|]. cbn [app all_settled].
  rewrite IH. unfold run_txs. cbn. tauto.
Qed.
Lemma ingest_mirrors `{Json, !ValueBytes, Hmac, HashOrder, !Serde BlockHeader} replay sv b L :
  mirrors (foldl replay (sv_rpc sv) (transactions (body b))) L →
  mirrors (sv_rpc (ingest_with replay b sv)) L.
Proof.
  intros Hm a. unfold mirror_account, RpcState.get_account. rewrite ingest_accounts. apply Hm.
Qed.

(** C23: Ingesting a block of native transfers keeps the account mirror equal to
    the ledger that executed the block, provided each transfer, when its turn
    comes, is either charged in full or rejected before anything is charged. *)
Theorem ingest_mirrors_transfers
    `{Json, !ValueBytes, Hmac, HashOrder, !Serde BlockHeader} (sv : Services) (b : Block) L :
  ledger_inv L → nonce_room (length (transactions (body b))) L →
  mirrors (sv_rpc sv) L → all_settled (transactions (body b)) L →
  mirrors (sv_rpc (testnet_ingest_block b sv)) (run_txs (transactions (body b)) L).
Proof.
  intros Hinv Hroom Hm Hs. apply ingest_mirrors.
  rewrite <-(Nat.add_0_r (length _)) in Hroom. by apply (replay_mirrors testnet_replay _ 0).
Qed.

(** A transfer that can pay its fee but not its amount is charged by the
    ledger and skipped by the mirror: from then on the mirror's nonce lags, and
    the RPC server refuses every transaction of that sender which the ledger
    would accept. *)
Lemma mirror_lost_after_failed_transfer s t L :
  ledger_inv L → acc_nonce (acct L (tx_sender t)) + 1 < U64 → mirrors s L →
  tx_payload t = [] → accepted t L = true →
  acc_balance (acct L (tx_sender t)) < tx_amount t + tx_fee t →
  tx_amount t + tx_fee t ≤ U128 →
  let s' := testnet_replay s t in
  let L' := (execute t L).2 in
  s' = s ∧ acc_nonce (acct L' (tx_sender t)) = acc_nonce (mirror_account s' (tx_sender t)) + 1 ∧
  ∀ t', tx_sender t' = tx_sender t → accepted t' L' = true →
    is_ok (validate_transaction t' s').1 = false.
Proof.
  intros Hinv Hn Hm Hpay Hacc Hlt Hle s' L'.
  assert (s' = s) as ->.
  { apply replay_skipped. right. by rewrite Hm, saturating_add_exact. }
  assert (acc_nonce (acct L' (tx_sender t)) = acc_nonce (acct L (tx_sender t)) + 1) as Hnon.
  { unfold L'. destruct (execute t L) as [r L1] eqn:HL. simpl.
    rewrite (execute_nonce t L r L1) by (done || lia). by rewrite Hacc, bool_decide_true. }
  split; [done|]. split; [by rewrite Hm|]. intros t' Hs' Hacc'.
  destruct (validate_transaction t' s) as [[h|e|] s1] eqn:Hval; [|done..]. exfalso.
  apply validate_transaction_Ok in Hval as (_ & _ & _ & _ & _ & _ & x & Hx & _ & Hxn).
  assert (acc_nonce (acct L' (tx_sender t')) = tx_nonce t') as Hn'.
  { unfold accepted in Hacc'. rewrite !andb_true_iff in Hacc'. destruct Hacc' as [[_ Hacc'] _].
    by apply N.eqb_eq. }
  pose proof (Hm (tx_sender t)) as Hmx. unfold mirror_account, RpcState.get_account in Hmx.
  rewrite Hs' in *. rewrite Hx in Hmx. simpl in Hmx. rewrite <-Hmx in Hnon. lia.
Qed.

(** Replaying a staking operation touches no account but the sender's. *)
Lemma replay_staking_other sender op s a :
  a ≠ sender → mirror_account (replay_staking sender op s) a = mirror_account s a.
Proof.
  intros Hne. unfold replay_staking, mirror_account, RpcState.get_account.
  destruct op; repeat case_match; simpl; by rewrite lookup_insert_ne by congruence.
Qed.
(** The stake an operation moves out of the sender's account. *)
Definition locked_by (op : StakingOperation) : option N :=
  match op with
  | RegisterValidator _ _ self_stake => Some self_stake
  | Delegate _ amount => Some amount
  | Undelegate _ _ => None
  end.
Lemma staking_decode_head payload op :
  staking_decode payload = Ok op → ∃ rest, payload = x01 :: rest.
Proof.
  unfold staking_decode. destruct payload as [|b rest]; [done|].
  case_bool_decide as Hb; simpl in Hb.
  - simplify_eq. by eauto.
  - by rewrite orb_true_r.
Qed.
(** A successful operation that locks stake takes it from the charged account. *)
Lemma execute_locked_stake t L r L' op k :
  ledger_inv L → acc_nonce (acct L (tx_sender t)) < U64 → accepted t L = true →
  staking_decode (tx_payload t) = Ok op → locked_by op = Some k → execute t L = (Ok r, L') →
  acc_balance (acct L' (tx_sender t)) + k = acc_balance (acct (charged t L) (tx_sender t)).
Proof.
  intros Hinv Hn Hacc Hop Hk. rewrite execute_accepted by done. unfold dispatch.
  destruct (staking_decode_head _ _ Hop) as [rest Hrest]. rewrite Hrest, bool_decide_true by done.
  unfold staking_execute. rewrite bind_lift, Hop.
  pose proof (charged_inv t L Hinv) as Hcinv.
  destruct op as [p c k'|v a|v a]; simpl in Hk; simplify_eq.
  - destruct (register_run (tx_sender t) p c k (charged t L)) as [[e ->]|(_ & _ & _ & _ & Hle & ->)]; [done|].
    intros [= <- <-]. unfold registered, set_val, acct at 1. simpl. rewrite lookup_insert_eq. simpl. lia.
  - destruct (delegate_run (tx_sender t) v k (charged t L)) as [[e ->]|(x & _ & _ & _ & Hle & ->)]; [done|done|].
    intros [= <- <-]. unfold delegated_state, set_val, set_del, acct at 1. simpl.
    rewrite lookup_insert_eq. simpl. lia.
Qed.

(** The services process does not follow staking: after a registration or a
    delegation that succeeded on the ledger, its mirror shows the sender with the
    locked stake still in the account, because the balance written by
    [replay_staking] is overwritten with the one computed before it. *)
Lemma services_replay_keeps_locked_stake s t L r L' op k :
  ledger_inv L → acc_nonce (acct L (tx_sender t)) < U64 → mirrors s L →
  accepted t L = true → tx_amount t = 0 →
  staking_decode (tx_payload t) = Ok op → locked_by op = Some k →
  execute t L = (Ok r, L') →
  acc_balance (mirror_account (services_replay s t) (tx_sender t)) =
    acc_balance (acct L' (tx_sender t)) + k.
Proof.
  intros Hinv Hn Hm Hacc Hz Hop Hk Hrun.
  rewrite (execute_locked_stake t L r L' op k) by done.
  assert (acc_balance (acct L (tx_sender t)) ≤ U128) as Hbal.
  { destruct Hinv as [_ Hsup]. pose proof (balance_le_total L (tx_sender t)).
    unfold supply in Hsup. lia. }
  unfold accepted in Hacc. rewrite !andb_true_iff in Hacc. destruct Hacc as [[_ Hnon] Hfee].
  apply N.eqb_eq in Hnon. apply N.leb_le in Hfee.
  assert (saturating_add U128 (tx_amount t) (tx_fee t) = tx_fee t) as Hexact
    by (rewrite Hz; apply saturating_add_exact; lia).
  unfold services_replay. rewrite replay_account; rewrite ?Hop, ?Hm, ?Hexact; [|done|done|done|].
  - cbn zeta. rewrite (decide_True (P:=tx_sender t = tx_sender t)), Hz by done. unfold charged.
    rewrite acct_set. rewrite (decide_True (P:=tx_sender t = tx_sender t)) by done. case_decide; cbn; [|done]. 
    rewrite saturating_add_exact by lia. lia.
  - intros Hne. rewrite <-(Hm (tx_recipient t)). by apply replay_staking_other.
Qed.
End mirror.
