(* ===== verification/Mempool.v ===== *)
(** * Crate [pemrix-consensus], [mempool.rs]: the FIFO mempool *)

From S2P Require Import Prelude.
From S2P Require Import Externals.
From S2P Require Import Primitives.

(** [struct SimpleMempool] *)
Record SimpleMempool := MkMempool { pool : list Transaction }.
Definition SimpleMempool_new : SimpleMempool := MkMempool [].

(** [Mempool::add] never fails. *)
Definition mempool_add (t : Transaction) : M SimpleMempool string unit :=
  modify (λ m, MkMempool (pool m ++ [t])).
(** [Mempool::drain]: [Vec::drain(..count)]. *)
Definition mempool_drain (max : N) : M SimpleMempool string (list Transaction) := λ m,
  let count := Nat.min (N.to_nat max) (length (pool m)) in
  (Ok (take count (pool m)), MkMempool (drop count (pool m))).
Definition mempool_len (m : SimpleMempool) : N := N.of_nat (length (pool m)).
Definition mempool_is_empty (m : SimpleMempool) : bool := bool_decide (pool m = []).

Lemma mempool_drain_run max (m : SimpleMempool) :
  mempool_drain max m =
    (Ok (take (N.to_nat max) (pool m)), MkMempool (drop (N.to_nat max) (pool m))).
Proof.
  unfold mempool_drain.
  destruct (Nat.min_spec (N.to_nat max) (length (pool m))) as [[? ->]|[? ->]]; [done|].
  by rewrite !(take_ge (pool m)), !(drop_ge (pool m)) by lia.
Qed.

(** A history of calls: transactions added and batches drained. *)
Inductive mempool_op := OpAdd (t : Transaction) | OpDrain (max : N).
(** Run a history; the transactions drained, in order, with the final pool. *)
Fixpoint mempool_run (ops : list mempool_op) (m : SimpleMempool) : list Transaction * SimpleMempool :=
  match ops with
  | [] => ([], m)
  | OpAdd t :: ops => mempool_run ops (mempool_add t m).2
  | OpDrain max :: ops =>
      let '(r, m) := mempool_drain max m in
      let '(out, m) := mempool_run ops m in
      (match r with Ok batch => batch | _ => [] end ++ out, m)
  end.
Definition added (ops : list mempool_op) : list Transaction :=
  omap (λ o, match o with OpAdd t => Some t | OpDrain _ => None end) ops.

(** First in, first out, nothing lost or duplicated: over any history of
    additions and drains, the drained transactions followed by those still
    pending are the initial ones followed by the added ones, in order. *)
Lemma mempool_fifo (ops : list mempool_op) (m : SimpleMempool) :
  (mempool_run ops m).1 ++ pool (mempool_run ops m).2 = pool m ++ added ops.
Proof.
  revert m. induction ops as [|[t|max] ops IH]; intros m; simpl.
  - by rewrite (right_id_L [] (++)).
  - rewrite IH. simpl. by rewrite <-(assoc_L (++)).
  - specialize (IH (MkMempool (drop (Nat.min (N.to_nat max) (length (pool m))) (pool m)))).
    destruct (mempool_run ops _) as [out m'] eqn:Hrun. simpl in *.
    rewrite <-(assoc_L (++)), IH, (assoc_L (++)). by rewrite take_drop.
Qed.
