(* ===== verification/Rewards.v ===== *)
(** * Crate [pemrix-consensus], [rewards.rs] and [slashing.rs]

    Distribution of a block reward among the validators, and the slashing,
    jailing and release of misbehaving ones. *)

From Stdlib Require Import Strings.Byte.
From S2P Require Import Prelude.
From S2P Require Import Externals.
From S2P Require Import Primitives.
Local Open Scope N_scope.

(** ** [rewards.rs] *)
(** A struct that nothing builds. *)
Record RewardSplit := MkRewardSplit { validator_commission : N; delegator_pool : N }.

Section rewards.
Context {E : Type} `{Profile}.

(** [*payouts.entry(v).or_insert(0) = payouts.get(v).unwrap_or(&0).saturating_add(x)] *)
Definition credit (v : Address) (x : N) (payouts : gmap Address N) : gmap Address N :=
  <[v := saturating_add U128 (default 0 (payouts !! v)) x]> payouts.

(** One iteration of the loop over the validators. *)
Definition reward_validator (records : gmap Address ValidatorRecord) (proposer : Address)
    (per_validator proposer_bonus : N) (payouts : gmap Address N) (v : Address)
    : outcome E (gmap Address N) :=
  let amount := if decide (v = proposer) then saturating_add U128 per_validator proposer_bonus
                else per_validator in
  match records !! v with
  | Some record =>
      product ← umul U128 amount (vr_commission_bps record);
      let commission := product / 10000 in
      delegator_share ← usub U128 amount commission;
      Ok (credit v delegator_share (credit v commission payouts))
  | None => Ok (credit v amount payouts)
  end.
Definition distribute_block_reward (validators : list Address)
    (records : gmap Address ValidatorRecord) (total_reward : N) (proposer : Address)
    : outcome E (gmap Address N) :=
  if bool_decide (validators = []) || (total_reward =? 0) then Ok ∅
  else
    let proposer_bonus := total_reward / 10 in
    remaining ← usub U128 total_reward proposer_bonus;
    let per_validator := remaining / N.of_nat (length validators) in
    foldl (λ acc v, payouts ← acc;
             reward_validator records proposer per_validator proposer_bonus payouts v)
      (Ok ∅) validators.
End rewards.

(** ** [slashing.rs] *)
Inductive Misbehavior :=
| DoubleSign (height round : N)
| Downtime (missed window : N)
| Equivocation (height round : N).

Record SlashingPolicy := MkSlashingPolicy {
  double_sign_bps : N;
  downtime_bps : N;
  equivocation_bps : N;
  double_sign_jail_blocks : N;
  downtime_jail_blocks : N;
  equivocation_jail_blocks : N;
  downtime_threshold_ratio : N;
}.
Definition SlashingPolicy_default : SlashingPolicy :=
  MkSlashingPolicy 500 10 100 (60 * 24 * 60) (7 * 24 * 60) (14 * 24 * 60) 50.

Definition penalty (p : SlashingPolicy) (m : Misbehavior) : N * N :=
  match m with
  | DoubleSign _ _ => (double_sign_bps p, double_sign_jail_blocks p)
  | Downtime _ _ => (downtime_bps p, downtime_jail_blocks p)
  | Equivocation _ _ => (equivocation_bps p, equivocation_jail_blocks p)
  end.
Definition with_stakes (r : ValidatorRecord) (self deleg : N) : ValidatorRecord :=
  MkValidatorRecord (vr_address r) (vr_consensus_pubkey r) self deleg (vr_commission_bps r)
    (vr_status r) (vr_jailed_until r) (vr_pending_rewards r).
Definition with_status (r : ValidatorRecord) (st : ValidatorStatus) (until : N) : ValidatorRecord :=
  MkValidatorRecord (vr_address r) (vr_consensus_pubkey r) (vr_self_stake r)
    (vr_delegated_stake r) (vr_commission_bps r) st until (vr_pending_rewards r).

(** The amount slashed and the updated record. *)
Definition apply_slash {E} `{Profile} (record : ValidatorRecord) (misbehavior : Misbehavior)
    (current_height : N) (policy : SlashingPolicy) : outcome E (N * ValidatorRecord) :=
  let '(slash_bps, jail_blocks) := penalty policy misbehavior in
  product ← umul U128 (total_stake record) slash_bps;
  let slash_amount := product / 10000 in
  until ← uadd U64 current_height jail_blocks;
  let record := with_status record Jailed until in
  if slash_amount <=? vr_self_stake record then
    Ok (slash_amount,
        with_stakes record (vr_self_stake record - slash_amount) (vr_delegated_stake record))
  else
    let remaining := slash_amount - vr_self_stake record in
    Ok (slash_amount, with_stakes record 0 (saturating_sub (vr_delegated_stake record) remaining)).

Definition is_jailed (record : ValidatorRecord) (current_height : N) : bool :=
  bool_decide (vr_status record = Jailed) && (current_height <? vr_jailed_until record).
Definition release (current_height : N) (record : ValidatorRecord) : ValidatorRecord :=
  if bool_decide (vr_status record = Jailed) && (vr_jailed_until record <=? current_height)
  then with_status record Active 0 else record.
Definition release_validators (records : gmap Address ValidatorRecord) (current_height : N)
    : gmap Address ValidatorRecord := release current_height <$> records.

(** ** The payouts of the reward loop *)
Section reward_theorems.
Context {E : Type} `{Profile}.

(** What a validator receives. *)
Definition share (proposer : Address) (per_validator bonus : N) (v : Address) : N :=
  if decide (v = proposer) then per_validator + bonus else per_validator.
Definition commissions_ok (records : gmap Address ValidatorRecord) : Prop :=
  map_Forall (λ _ r, vr_commission_bps r ≤ 10000) records.

Lemma credit_twice v x y p :
  p !! v = None → x + y ≤ U128 → credit v y (credit v x p) = <[v := x + y]> p.
Proof.
  intros Hv Hle. unfold credit. rewrite Hv, lookup_insert_eq. simpl.
  rewrite (saturating_add_exact _ 0) by lia. rewrite saturating_add_exact by lia.
  by rewrite insert_insert_eq.
Qed.
Lemma reward_validator_ok records proposer per bonus payouts v :
  commissions_ok records → payouts !! v = None → (per + bonus) * 10000 ≤ U128 →
  reward_validator (E:=E) records proposer per bonus payouts v =
    Ok (<[v := share proposer per bonus v]> payouts).
Proof.
  intros Hcomm Hv Hle. unfold reward_validator.
  assert ((if decide (v = proposer) then saturating_add U128 per bonus else per) =
    share proposer per bonus v) as ->.
  { unfold share. case_decide; [|done]. apply saturating_add_exact. lia. }
  assert (share proposer per bonus v ≤ per + bonus) as Hs by (unfold share; case_decide; lia).
  destruct (records !! v) as [r|] eqn:Hr.
  - apply Hcomm in Hr. simpl in Hr. rewrite umul_ok by nia. cbn.
    assert (share proposer per bonus v * vr_commission_bps r / 10000 ≤ share proposer per bonus v).
    { apply N.Div0.div_le_upper_bound. nia. }
    rewrite usub_ok by done. cbn. rewrite credit_twice; [|done|lia]. do 2 f_equal. lia.
  - unfold credit. rewrite Hv. simpl. by rewrite saturating_add_exact by lia.
Qed.
Lemma reward_loop_ok records proposer per bonus vs payouts :
  commissions_ok records → (per + bonus) * 10000 ≤ U128 → NoDup vs →
  (∀ v, v ∈ vs → payouts !! v = None) →
  foldl (λ acc v, payouts ← acc; reward_validator (E:=E) records proposer per bonus payouts v)
    (Ok payouts) vs =
  Ok (foldl (λ p v, <[v := share proposer per bonus v]> p) payouts vs).
Proof.
  intros Hcomm Hle Hnd. revert payouts. induction Hnd as [|v vs Hv Hnd IH]; intros payouts Hnone;
    [done|].
  simpl. rewrite reward_validator_ok by (done || (apply Hnone; set_solver)). apply IH.
  intros w Hw. rewrite lookup_insert_ne by set_solver. apply Hnone. set_solver.
Qed.
Lemma payouts_lookup f (vs : list Address) (p : gmap Address N) v :
  foldl (λ p v, <[v := f v]> p) p vs !! v = if decide (v ∈ vs) then Some (f v) else p !! v.
Proof.
  revert p. induction vs as [|w vs IH]; intros p; simpl; [done|].
  rewrite IH. rewrite lookup_insert. repeat case_decide; subst; try done; set_solver.
Qed.
Lemma payouts_sum f (vs : list Address) (p : gmap Address N) :
  NoDup vs → (∀ v, v ∈ vs → p !! v = None) →
  map_sum (λ _ x, x) (foldl (λ p v, <[v := f v]> p) p vs) =
  map_sum (λ _ x, x) p + sumN (f <$> vs).
Proof.
  intros Hnd. revert p. induction Hnd as [|v vs Hv Hnd IH]; intros p Hnone.
  { cbn. lia. }
  cbn [foldl]. rewrite IH, fmap_cons, sumN_cons.
  - rewrite map_sum_insert_new by (apply Hnone; set_solver). lia.
  - intros w Hw. rewrite lookup_insert_ne by set_solver. apply Hnone. set_solver.
Qed.
Lemma share_sum proposer per bonus vs :
  NoDup vs → sumN (share proposer per bonus <$> vs) =
    N.of_nat (length vs) * per + (if decide (proposer ∈ vs) then bonus else 0).
Proof.
  induction 1 as [|v vs Hv Hnd IH]; [done|]. rewrite fmap_cons.
  rewrite sumN_cons, IH. unfold share at 1. cbn [length].
  repeat case_decide; subst; try (set_solver by lia).
Qed.
End reward_theorems.

(** C38: A block reward is split without creating tokens: every validator gets an
    equal share of nine tenths and the proposer a tenth on top; the payouts sum
    to at most the reward, and when the proposer is a validator less than one
    unit per validator is left over. *)
Theorem distribute_block_reward_correct `{Profile} (vs : list Address)
    (records : gmap Address ValidatorRecord) (total : N) (proposer : Address) :
  vs ≠ [] → NoDup vs → commissions_ok records → 0 < total → total * 10000 ≤ U128 →
  ∃ payouts, distribute_block_reward (E:=unit) vs records total proposer = Ok payouts ∧
    (∀ v, payouts !! v = if decide (v ∈ vs) then
       Some ((total - total / 10) / N.of_nat (length vs) +
             (if decide (v = proposer) then total / 10 else 0)) else None) ∧
    map_sum (λ _ x, x) payouts ≤ total ∧
    (proposer ∈ vs → total < map_sum (λ _ x, x) payouts + N.of_nat (length vs)).
Proof.
  intros Hne Hnd Hcomm Hpos Hfit. unfold distribute_block_reward.
  rewrite bool_decide_false by done. rewrite (proj2 (N.eqb_neq _ _)) by lia. simpl.
  assert (total / 10 ≤ total) as Hten by (apply N.Div0.div_le_upper_bound; lia).
  rewrite usub_ok by done. cbn.
  set (n := N.of_nat (length vs)). set (per := (total - total / 10) / n).
  assert (0 < n) as Hn by (unfold n; destruct vs; [done|simpl; lia]).
  assert (n * per ≤ total - total / 10) as Hper by apply N.Div0.mul_div_le.
  assert (total - total / 10 < n * per + n) as Hdust.
  { pose proof (N.mul_succ_div_gt (total - total / 10) n). unfold per. lia. }
  assert (per ≤ n * per) by nia.
  rewrite reward_loop_ok by (done || lia). eexists. split; [done|]. split_and!.
  - intros v. rewrite payouts_lookup, lookup_empty. case_decide; [|done]. unfold share.
    f_equal. case_decide; lia.
  - rewrite payouts_sum, map_sum_empty, share_sum by done. fold n.
    clearbody per n. generalize dependent (total / 10). intros. case_decide; lia.
  - intros Hin. rewrite payouts_sum, map_sum_empty, share_sum by done. fold n.
    rewrite decide_True by done. lia.
Qed.

(** Slashing takes the policy's fraction of the total stake, self-stake
    first, and jails the validator until exactly the policy's number of blocks
    later: it stays jailed under [release_validators] before that height, and is
    released from that height on. *)
Lemma slash_jail_release `{Profile} (r : ValidatorRecord) (m : Misbehavior) (h : N)
    (p : SlashingPolicy) :
  let bps := (penalty p m).1 in let blocks := (penalty p m).2 in
  bps ≤ 10000 → (vr_self_stake r + vr_delegated_stake r) * 10000 ≤ U128 → h + blocks ≤ U64 →
  ∃ amount r', apply_slash (E:=unit) r m h p = Ok (amount, r') ∧
    amount = (vr_self_stake r + vr_delegated_stake r) * bps / 10000 ∧
    vr_self_stake r' = vr_self_stake r - amount ∧
    vr_self_stake r' + vr_delegated_stake r' + amount = vr_self_stake r + vr_delegated_stake r ∧
    ∀ h', is_jailed r' h' = (h' <? h + blocks) ∧
      vr_status (release h' r') = if h' <? h + blocks then Jailed else Active.
Proof.
  intros bps blocks Hbps Hfit Hh. unfold apply_slash.
  assert (penalty p m = (bps, blocks)) as -> by apply surjective_pairing.
  rewrite total_stake_exact by lia. set (stake := vr_self_stake r + vr_delegated_stake r) in *.
  rewrite umul_ok by nia. cbn. rewrite uadd_ok by done. cbn.
  set (amount := stake * bps / 10000).
  assert (amount ≤ stake) as Ha by (apply N.Div0.div_le_upper_bound; nia).
  assert (∀ x y h', is_jailed (with_stakes (with_status r Jailed (h + blocks)) x y) h' =
      (h' <? h + blocks) ∧
    vr_status (release h' (with_stakes (with_status r Jailed (h + blocks)) x y)) =
      if h' <? h + blocks then Jailed else Active) as Hjail.
  { intros x y h'. unfold is_jailed, release; simpl. split; [done|]. Ncases; try done; lia. }
  destruct (N.leb_spec amount (vr_self_stake r)); (eexists _, _; split; [done|]);
    (split_and!; [done|simpl; lia|simpl; unfold saturating_sub; lia|apply Hjail]).
Qed.

Module RewardsScenario.
#[local] Instance checked : Profile := true.
Definition a (b : byte) : Address := MkAddress (Array32 (replicate 32 b) eq_refl).
Lemma distribute_block_reward_correct_witness :
  ∃ payouts, distribute_block_reward (E:=unit) [a x01; a x02] ∅ 100 (a x01) = Ok payouts ∧
    payouts !! a x01 = Some 55 ∧ map_sum (λ _ x, x) payouts ≤ 100.
Proof.
  destruct (distribute_block_reward_correct [a x01; a x02] ∅ 100 (a x01))
    as (payouts & Hok & Hv & Hle & _).
  - done.
  - by apply (bool_decide_unpack _).
  - apply map_Forall_empty.
  - by vm_compute.
  - by vm_compute.
  - exists payouts. split_and!; [exact Hok|by rewrite Hv|exact Hle].
Defined.
Definition slashed_record : ValidatorRecord := ValidatorRecord_new (a x01) [x01] 1000000 500.
Lemma slash_jail_release_witness :
  ∃ amount r', apply_slash (E:=unit) slashed_record (DoubleSign 100 0) 100 SlashingPolicy_default =
    Ok (amount, r') ∧ amount = 50000.
Proof.
  destruct (slash_jail_release slashed_record (DoubleSign 100 0) 100 SlashingPolicy_default)
    as (amount & r' & Hrun & Ha & _).
  - by vm_compute.
  - by vm_compute.
  - by vm_compute.
  - exists amount, r'. split; [exact Hrun|]. rewrite Ha. by vm_compute.
Defined.
End RewardsScenario.
