(* ===== verification/Bft.v ===== *)
(** * Crate [pemrix-consensus]: the consensus engines

    Proposals and votes ([proposal.rs]), the BFT engine ([bft.rs]) and the solo
    engine ([solo.rs]) over any [Store].  Wall-clock time is an argument. *)

From Stdlib Require Import Strings.Byte.
From S2P Require Import Prelude.
From S2P Require Import Externals.
From S2P Require Import Primitives.
From S2P Require Import Storage.
From S2P Require Import StateStore.
From S2P Require Import Crypto.
From S2P Require Import Vm.
From S2P Require Import ValidatorSet.
From S2P Require Import Protocol.
Local Open Scope N_scope.

(** ** [proposal.rs], [error.rs] *)
Record Proposal := MkProposal {
  pr_block_hash : Hash;
  pr_height : N;
  pr_round : N;
  pr_proposer : array32;
}.
Record Vote := MkVote {
  vt_block_hash : Hash;
  vt_height : N;
  vt_round : N;
  vt_voter : array32;
}.
Record Finality := MkFinality { fin_block : Block; fin_timestamp : N }.
Inductive ConsensusError :=
| InvalidProposal | InvalidVote | ExecutionFailed (msg : string) | ConsensusStorage
| Network (msg : string) | NotProposer | AlreadyFinalized.

#[export] Instance Proposal_eq_dec : EqDecision Proposal.
Proof. solve_decision. Defined.
#[export] Instance Vote_eq_dec : EqDecision Vote.
Proof. solve_decision. Defined.
#[export] Instance Vote_countable : Countable Vote.
Proof.
  refine (inj_countable' (λ v, (vt_block_hash v, vt_height v, vt_round v, vt_voter v))
    (λ '(b, h, r, a), MkVote b h r a) _).
  by intros [].
Defined.

(** [impl Display for VmError] *)
Definition VmError_to_string (e : VmError) : string :=
  match e with
  | InsufficientBalance => "insufficient balance"
  | InvalidNonce => "invalid nonce"
  | OutOfGas => "out of gas"
  | InvalidContract => "invalid contract"
  | InvalidSignature => "invalid signature"
  | VmStorage => "storage error"
  | UnknownOperation => "unknown operation"
  | Execution msg => "execution error: " +:+ msg
  end.

(** ** [bft.rs]: state *)
Record RoundState := MkRound {
  rd_proposal : option Proposal;
  rd_block : option Block;
  rd_votes : gmap Address Vote;
  rd_finalized : bool;
}.
Definition RoundState_default : RoundState := MkRound None None ∅ false.

Record BftConsensus (S : Type) := MkBft {
  local_address : Address;
  validator_set : ValidatorSet;
  state : S;
  height : N;
  previous_hash : Hash;
  rounds : gmap N RoundState;
  finalized : gmap N Block;
  voted_this_height : gset (N * Address);
}.
Arguments MkBft {S} _ _ _ _ _ _ _ _.
Arguments local_address {S} _.
Arguments validator_set {S} _.
Arguments state {S} _.
Arguments height {S} _.
Arguments previous_hash {S} _.
Arguments rounds {S} _.
Arguments finalized {S} _.
Arguments voted_this_height {S} _.

Section bft.
Context {S : Type} `{Store S, Profile, Blake3, Dalek, !Serde Transaction, !Serde StakingOperation}.
Context `{!Serde BlockHeader, !Serde (list Transaction)}.
Notation Bft := (BftConsensus S).
Implicit Types s : Bft.

Definition set_state (st : S) s : Bft :=
  MkBft (local_address s) (validator_set s) st (height s) (previous_hash s) (rounds s)
    (finalized s) (voted_this_height s).
Definition set_validator_set (vs : ValidatorSet) s : Bft :=
  MkBft (local_address s) vs (state s) (height s) (previous_hash s) (rounds s) (finalized s)
    (voted_this_height s).
Definition set_round (h : N) (r : RoundState) s : Bft :=
  MkBft (local_address s) (validator_set s) (state s) (height s) (previous_hash s)
    (<[h := r]> (rounds s)) (finalized s) (voted_this_height s).
Definition set_voted (v : gset (N * Address)) s : Bft :=
  MkBft (local_address s) (validator_set s) (state s) (height s) (previous_hash s) (rounds s)
    (finalized s) v.

(** [new_with_store] *)
Definition new_with_store (local : Address) (vs : ValidatorSet) (st : S) (previous : Hash)
    : outcome ConsensusError Bft :=
  if is_validator vs local then Ok (MkBft local vs st 0 previous ∅ ∅ ∅) else Panic.

(** [self.rounds.entry(height).or_default()] *)
Definition round_of (h : N) s : RoundState := default RoundState_default (rounds s !! h).

(** [impl From<Block> for Proposal] *)
Definition proposal_of_block (b : Block) : Proposal :=
  MkProposal (block_hash b) (bh_height (header b)) 0 (bh_proposer (header b)).

Definition own_vote (h : N) s : option Vote :=
  r ← rounds s !! h; rd_votes r !! local_address s.
Definition own_proposal (h : N) s : option Block := r ← rounds s !! h; rd_block r.

(** *** The active set *)

(** The comparator of the sort: power descending, then address ascending. *)
Definition candidate_le (a b : Address * N) : Prop :=
  b.2 < a.2 ∨ (a.2 = b.2 ∧ key_leb a.1 b.1 = true).
#[export] Instance candidate_le_dec : RelDecision candidate_le.
Proof. intros a b. unfold candidate_le. apply _. Defined.

Definition eligible (r : ValidatorRecord) : bool :=
  bool_decide (vr_status r = Active) && (protocol.MIN_ACTIVE_STAKE <=? total_stake r).
(** Sorted and truncated candidates. *)
Definition active_candidates (records : list (Address * ValidatorRecord)) : list (Address * N) :=
  let candidates := (λ e, (e.1, N.min (total_stake e.2) U64)) <$> filter (λ e, eligible e.2 = true) records in
  take (N.to_nat protocol.MAX_ACTIVE_VALIDATORS) (merge_sort candidate_le candidates).
Definition update_validator_set : M Bft ConsensusError unit := λ s,
  match store_validator_records (state s) with
  | Ok records =>
      let new_set := foldl (λ vs e, vs_add e.1 e.2 vs) ValidatorSet_new (active_candidates records) in
      if vs_is_empty new_set then (Ok tt, s) else (Ok tt, set_validator_set new_set s)
  | Err _ => (Ok tt, s)
  | Panic => (Panic, s)
  end.

(** *** Building a block *)
Definition run_block (txs : list Transaction) : M S ConsensusError unit :=
  forM (λ tx, r ← map_errM (λ e, ExecutionFailed (VmError_to_string e)) (execute tx); mret tt) txs.
Definition build_block (h : N) (txs : list Transaction) (now : N) : M Bft ConsensusError Block :=
  _ ← zoom state set_state (run_block txs);
  _ ← update_validator_set;
  previous ← gets previous_hash;
  local ← gets local_address;
  root ← reads (λ s, map_err (λ _, ConsensusStorage) (store_state_root (state s)));
  let header := MkBlockHeader h now previous root (hash_bytes (encode txs)) (address_array local) in
  mret (MkBlock header (MkBlockBody txs)).

(** *** Validation *)
Definition validate_proposal (p : Proposal) s : outcome ConsensusError unit :=
  o ← proposer (validator_set s) (pr_height p) (pr_round p);
  expected ← ok_or o InvalidProposal;
  if pr_height p <=? height s then Err InvalidProposal
  else if bool_decide (MkAddress (pr_proposer p) ≠ expected) then Err InvalidProposal
  else Ok tt.
Definition validate_vote (v : Vote) s : outcome ConsensusError unit :=
  if vt_height v <=? height s then Err InvalidVote
  else if negb (is_validator (validator_set s) (MkAddress (vt_voter v))) then Err InvalidVote
  else
    round ← ok_or (rounds s !! vt_height v) InvalidVote;
    match rd_proposal round with
    | Some p => if bool_decide (pr_block_hash p ≠ vt_block_hash v) then Err InvalidVote else Ok tt
    | None => Err InvalidVote
    end.

(** *** Quorum and finalization *)

(** [.iter().find(|v| v.address == *addr).map(|v| v.power).unwrap_or(0)] *)
Definition find_power (vs : list Validator) (a : Address) : N :=
  match list_find (λ v, v_address v = a) vs with Some (_, v) => v_power v | None => 0 end.
Definition has_quorum (h : N) s : outcome ConsensusError bool :=
  match rounds s !! h with
  | None => Ok false
  | Some round =>
      let vs := vs_validators (validator_set s) in
      power ← usum U64 (find_power vs <$> btree_keys (rd_votes round));
      threshold ← quorum_threshold (validator_set s);
      Ok (threshold <=? power)
  end.
Definition try_finalize (h : N) : M Bft ConsensusError (option Block) := λ s,
  match has_quorum h s with
  | Ok true =>
      match rounds s !! h with
      | None => (Ok None, s)
      | Some round =>
          if rd_finalized round then (Ok (rd_block round), s)
          else
            let s := set_round h (MkRound (rd_proposal round) (rd_block round) (rd_votes round) true) s in
            match rd_block round with
            | Some block =>
                (Ok (Some block),
                 MkBft (local_address s) (validator_set s) (state s) h (block_hash block) (rounds s)
                   (<[h := block]> (finalized s))
                   (filter (λ e, e.1 ≠ h) (voted_this_height s)))
            | None => (Ok None, s)
            end
      end
  | Ok false => (Ok None, s)
  | Err e => (Err e, s)
  | Panic => (Panic, s)
  end.

(** *** [impl ConsensusEngine] *)
Definition propose (h : N) (txs : list Transaction) (now : N) : M Bft ConsensusError Block :=
  let round := 0 in
  o ← reads (λ s, proposer (validator_set s) h round);
  proposer ← lift (ok_or o NotProposer);
  local ← gets local_address;
  if bool_decide (proposer ≠ local) then fail NotProposer
  else
    block ← build_block h txs now;
    let proposal := MkProposal (block_hash block) h round (address_array local) in
    let vote := MkVote (block_hash block) h round (address_array local) in
    _ ← modify (λ s,
          let r := round_of h s in
          set_round h (MkRound (Some proposal) (Some block) (<[local := vote]> (rd_votes r))
                         (rd_finalized r)) s);
    _ ← modify (λ s, set_voted ({[(h, local)]} ∪ voted_this_height s) s);
    mret block.

Definition handle_block (block : Block) : M Bft ConsensusError Vote :=
  let proposal := proposal_of_block block in
  _ ← reads (validate_proposal proposal);
  let h := pr_height proposal in
  local ← gets local_address;
  _ ← modify (λ s,
        let r := round_of h s in
        set_round h (MkRound (Some proposal) (Some block) (rd_votes r) (rd_finalized r)) s);
  voted ← gets voted_this_height;
  if bool_decide ((h, local) ∉ voted) then
    let vote := MkVote (pr_block_hash proposal) h 0 (address_array local) in
    _ ← modify (λ s,
          let r := round_of h s in
          set_round h (MkRound (rd_proposal r) (rd_block r) (<[local := vote]> (rd_votes r))
                         (rd_finalized r)) s);
    _ ← modify (λ s, set_voted ({[(h, local)]} ∪ voted_this_height s) s);
    mret vote
  else fail InvalidVote.

Definition handle_proposal (p : Proposal) : M Bft ConsensusError unit :=
  _ ← reads (validate_proposal p);
  let h := pr_height p in
  local ← gets local_address;
  _ ← modify (λ s,
        let r := round_of h s in
        set_round h (MkRound (Some p) (rd_block r) (rd_votes r) (rd_finalized r)) s);
  voted ← gets voted_this_height;
  if bool_decide ((h, local) ∉ voted) then
    let vote := MkVote (pr_block_hash p) h (pr_round p) (address_array local) in
    _ ← modify (λ s,
          let r := round_of h s in
          set_round h (MkRound (rd_proposal r) (rd_block r) (<[local := vote]> (rd_votes r))
                         (rd_finalized r)) s);
    modify (λ s, set_voted ({[(h, local)]} ∪ voted_this_height s) s)
  else mret tt.

Definition handle_vote (v : Vote) : M Bft ConsensusError unit :=
  _ ← reads (validate_vote v);
  modify (λ s,
    let r := round_of (vt_height v) s in
    set_round (vt_height v) (MkRound (rd_proposal r) (rd_block r)
      (<[MkAddress (vt_voter v) := v]> (rd_votes r)) (rd_finalized r)) s).

(** The loop over [height + 1 ..= height + 1]. *)
Definition finalize (hash : Hash) (now : N) : M Bft ConsensusError Finality :=
  h ← reads (λ s, uadd U64 (height s) 1);
  o ← gets (λ s, rounds s !! h);
  round ← lift (ok_or o InvalidProposal);
  match rd_proposal round with
  | Some p =>
      if bool_decide (pr_block_hash p = hash) then
        b ← try_finalize h;
        match b with
        | Some block => mret (MkFinality block now)
        | None => fail InvalidProposal
        end
      else fail InvalidProposal
  | None => fail InvalidProposal
  end.

(** One iteration of the loop of [finalize_pending]. *)
Definition finalize_candidate (now : N) (found : option Block) (h : N)
    : M Bft ConsensusError (option Block) := λ s,
  match rounds s !! h ≫= rd_proposal with
  | Some p =>
      match finalize (pr_block_hash p) now s with
      | (Ok f, s) => (Ok (Some (fin_block f)), s)
      | (Err _, s) => (Ok found, s)
      | (Panic, s) => (Panic, s)
      end
  | None => (Ok found, s)
  end.
Fixpoint finalize_candidates (now : N) (found : option Block) (hs : list N)
    : M Bft ConsensusError (option Block) :=
  match hs with
  | [] => mret found
  | h :: hs => found ← finalize_candidate now found h; finalize_candidates now found hs
  end.
Definition finalize_pending (now : N) : M Bft ConsensusError (option Block) :=
  candidates ← gets (λ s, (filter (λ e, height s < e.1 ∧ is_Some (rd_proposal e.2))
                             (btree_iter (rounds s))).*1);
  finalize_candidates now None candidates.
End bft.

(** ** [solo.rs] *)
Record SoloConsensus (S : Type) := MkSolo {
  solo_state : S;
  solo_height : N;
  solo_proposer : Address;
  solo_previous_hash : Hash;
}.
Arguments MkSolo {S} _ _ _ _.
Arguments solo_state {S} _.
Arguments solo_height {S} _.
Arguments solo_proposer {S} _.
Arguments solo_previous_hash {S} _.

Section solo.
Context {S : Type} `{Store S, Profile, Blake3, Dalek, !Serde Transaction, !Serde StakingOperation}.
Context `{!Serde BlockHeader, !Serde (list Transaction)}.
Notation Solo := (SoloConsensus S).

Definition solo_new (st : S) (proposer : Address) (previous : Hash) : Solo :=
  MkSolo st 0 proposer previous.
Definition solo_propose (h : N) (txs : list Transaction) (now : N) : M Solo ConsensusError Block :=
  _ ← zoom solo_state (λ st s, MkSolo st (solo_height s) (solo_proposer s) (solo_previous_hash s))
        (run_block txs);
  root ← reads (λ s, map_err (λ _, ConsensusStorage) (store_state_root (solo_state s)));
  s ← gets id;
  let header := MkBlockHeader h now (solo_previous_hash s) root (hash_bytes (encode txs))
                  (address_array (solo_proposer s)) in
  let block := MkBlock header (MkBlockBody txs) in
  _ ← modify (λ s, MkSolo (solo_state s) h (solo_proposer s) (block_hash block));
  mret block.
Definition solo_handle_proposal (p : Proposal) : M Solo ConsensusError unit := mret tt.
Definition solo_handle_vote (v : Vote) : M Solo ConsensusError unit := mret tt.
Definition solo_finalize (hash : Hash) (now : N) : M Solo ConsensusError Finality :=
  h ← gets solo_height;
  mret (MkFinality
    (MkBlock (MkBlockHeader h 0 Hash_default Hash_default Hash_default array32_zero)
       BlockBody_default) now).
End solo.
