(* ===== verification/BftTheorems.v ===== *)
(** * Correctness of the consensus engines

    Invariants of the BFT engine under every sequence of calls, the quorum
    behind every finalized block, the liveness of a round, the active validator
    set, and block production by both engines. *)

From Stdlib Require Import Strings.Byte.
From S2P Require Import Prelude.
From S2P Require Import Externals.
From S2P Require Import Primitives.
From S2P Require Import Storage.
From S2P Require Import StateStore.
From S2P Require Import Crypto.
From S2P Require Import Vm.
From S2P Require Import VmTheorems.
From S2P Require Import ValidatorSet.
From S2P Require Import Protocol.
From S2P Require Import Bft.
Local Open Scope N_scope.

(** ** The calls of the engine as a step relation *)
Section steps.
Context {S : Type} `{Store S, Profile, Blake3, Dalek, !Serde Transaction, !Serde StakingOperation}.
Context `{!Serde BlockHeader, !Serde (list Transaction)}.
Notation Bft := (BftConsensus S).
Implicit Types s : Bft.

(** Any call, in any order and with any arguments, whatever it returns; the
    height has not reached the end of its type.  [step_state] is a change of the
    state store through [state_mut]. *)
Inductive bft_step : Bft → Bft → Prop :=
| step_propose s h txs now : bft_step s (propose h txs now s).2
| step_handle_block s b : bft_step s (handle_block b s).2
| step_handle_proposal s p : bft_step s (handle_proposal p s).2
| step_handle_vote s v : bft_step s (handle_vote v s).2
| step_finalize s hash now : height s < U64 → bft_step s (finalize hash now s).2
| step_finalize_pending s now :
    height s + N.of_nat (size (rounds s)) ≤ U64 → bft_step s (finalize_pending now s).2
| step_state s st : bft_step s (set_state st s).

(** ** The invariant *)
Definition round_ok (h : N) (r : RoundState) : Prop :=
  (∀ b, rd_block r = Some b → bh_height (header b) = h) ∧
  (∀ a v, rd_votes r !! a = Some v → vt_height v = h ∧ MkAddress (vt_voter v) = a).

(** The finalized blocks are those of heights 1 to [height], each at its own
    height; the previous hash is that of the last one. *)
Record bft_inv (genesis : Hash) s : Prop := {
  inv_rounds h r : rounds s !! h = Some r → round_ok h r;
  inv_dom h : is_Some (finalized s !! h) ↔ 1 ≤ h ≤ height s;
  inv_height h b : finalized s !! h = Some b → bh_height (header b) = h;
  inv_previous : previous_hash s =
    match finalized s !! height s with Some b => block_hash b | None => genesis end;
}.
(** [s] continues the chain of [s0], and has not forgotten voting at [h0]. *)
Record continues (s0 s : Bft) : Prop := {
  cont_local : local_address s = local_address s0;
  cont_height : height s0 ≤ height s;
  cont_final : finalized s0 ⊆ finalized s;
  cont_voted h : (h, local_address s0) ∈ voted_this_height s0 → 
    (h, local_address s0) ∈ voted_this_height s ∨ h ≤ height s;
}.
Definition chain (genesis : Hash) (s0 s : Bft) : Prop := bft_inv genesis s ∧ continues s0 s.

Lemma continues_refl s : continues s s.
Proof. split; [done|lia|done|by left]. Qed.
Lemma continues_trans s0 s1 s2 : continues s0 s1 → continues s1 s2 → continues s0 s2.
Proof.
  intros [HC1 HC2 HC3 HC4] [HC5 HC6 HC7 HC8]. split; [congruence|lia|by etransitivity|].
  intros h Hh. destruct (HC4 h Hh) as [Hv|Hle]; [|right; lia].
  rewrite <-HC1 in Hv. destruct (HC8 h Hv) as [Hv'|Hle]; [left; congruence|by right].
Qed.

Lemma round_default_ok h : round_ok h RoundState_default.
Proof. by split. Qed.
Lemma round_of_ok g s h : bft_inv g s → round_ok h (round_of h s).
Proof.
  intros Hinv. unfold round_of. destruct (rounds s !! h) as [r|] eqn:Hr; simpl.
  - by apply (inv_rounds g s Hinv).
  - apply round_default_ok.
Qed.

Section fixed.
Context (g : Hash) (s0 : Bft).
Notation I := (chain g s0).

Lemma chain_set_state st s : I s → I (set_state st s).
Proof. by intros [[] []]. Qed.
Lemma chain_set_validator_set vs s : I s → I (set_validator_set vs s).
Proof. by intros [[] []]. Qed.
Lemma chain_set_round h r s : round_ok h r → I s → I (set_round h r s).
Proof.
  intros Hr [[] []]. split; [|done]. split; simpl; [|done..].
  intros h' r'. rewrite lookup_insert. case_decide; [by intros [= <-]; subst|auto].
Qed.
Lemma chain_add_voted x s : I s → I (set_voted ({[x]} ∪ voted_this_height s) s).
Proof.
  intros [[] [HC1 HC2 HC3 HC4]]. split; [done|]. split; simpl; [done..|].
  intros h Hh. destruct (HC4 h Hh); set_solver.
Qed.
Lemma round_ok_vote h r a v :
  round_ok h r → vt_height v = h → MkAddress (vt_voter v) = a →
  round_ok h (MkRound (rd_proposal r) (rd_block r) (<[a := v]> (rd_votes r)) (rd_finalized r)).
Proof.
  intros [Hb Hv] ??. split; [done|]. simpl. intros a' v'. rewrite lookup_insert.
  case_decide; [by intros [= <-]; subst|auto].
Qed.
Lemma round_ok_block h r p b f :
  round_ok h r → bh_height (header b) = h → round_ok h (MkRound p (Some b) (rd_votes r) f).
Proof. intros [_ Hv] ?. split; [by intros ? [= <-]|done]. Qed.
Lemma round_ok_keep h r p f :
  round_ok h r → round_ok h (MkRound p (rd_block r) (rd_votes r) f).
Proof. by intros []. Qed.

Lemma address_eta (a : Address) : MkAddress (address_array a) = a.
Proof. by destruct a. Qed.

Lemma keeps_update_validator_set : keeps I update_validator_set (λ _, True).
Proof.
  intros s HI. unfold update_validator_set. repeat case_match; simpl; try done.
  split; [by apply chain_set_validator_set|done].
Qed.
Lemma keeps_build_block h txs now :
  keeps I (build_block h txs now) (λ b, bh_height (header b) = h).
Proof.
  unfold build_block. eapply keeps_bind; [apply keeps_zoom, chain_set_state|intros _ _].
  eapply keeps_bind; [apply keeps_update_validator_set|intros _ _].
  eapply keeps_bind; [apply keeps_gets|intros p _].
  eapply keeps_bind; [apply keeps_gets|intros l _].
  eapply keeps_bind; [apply keeps_reads|intros root _]. by apply keeps_ret.
Qed.
Lemma keeps_propose h txs now : keeps I (propose h txs now) (λ _, True).
Proof.
  unfold propose. eapply keeps_bind; [apply keeps_reads|intros o _].
  eapply keeps_bind; [apply keeps_lift|intros p _].
  eapply keeps_bind; [apply keeps_gets|intros l _]. apply keeps_if; intros _; [apply keeps_fail|].
  eapply keeps_bind; [apply keeps_build_block|intros b Hb].
  eapply keeps_bind; [|intros _ _].
  { apply keeps_modify. intros s Hs. apply chain_set_round; [|done].
    assert (round_ok h (round_of h s)) as Hr by (apply (round_of_ok g), Hs).
    apply (round_ok_vote h (MkRound _ (Some b) (rd_votes (round_of h s)) _));
      [by apply round_ok_block|done|apply address_eta]. }
  eapply keeps_bind; [apply keeps_modify, chain_add_voted|intros _ _]. by apply keeps_ret.
Qed.
(** The tail of [handle_block] and [handle_proposal]: the local vote. *)
Lemma keeps_own_vote h l hash rnd :
  ∀ s, I s → I (set_round h (MkRound (rd_proposal (round_of h s)) (rd_block (round_of h s))
    (<[l := MkVote hash h rnd (address_array l)]> (rd_votes (round_of h s)))
    (rd_finalized (round_of h s))) s).
Proof.
  intros s Hs. apply chain_set_round; [|done].
  apply round_ok_vote; [by apply (round_of_ok g), Hs|done|apply address_eta].
Qed.
Lemma keeps_handle_block b : keeps I (handle_block b) (λ v, vt_height v = bh_height (header b)).
Proof.
  unfold handle_block. eapply keeps_bind; [apply keeps_reads|intros _ _].
  eapply keeps_bind; [apply keeps_gets|intros l _].
  eapply keeps_bind; [apply keeps_modify|intros _ _].
  { intros s Hs. apply chain_set_round; [|done].
    apply round_ok_block; [by apply (round_of_ok g), Hs|done]. }
  eapply keeps_bind; [apply keeps_gets|intros voted _].
  apply keeps_if; intros _; [|apply keeps_fail].
  eapply keeps_bind; [apply keeps_modify, keeps_own_vote|intros _ _].
  eapply keeps_bind; [apply keeps_modify, chain_add_voted|intros _ _]. by apply keeps_ret.
Qed.
Lemma keeps_handle_proposal p : keeps I (handle_proposal p) (λ _, True).
Proof.
  unfold handle_proposal. eapply keeps_bind; [apply keeps_reads|intros _ _].
  eapply keeps_bind; [apply keeps_gets|intros l _].
  eapply keeps_bind; [apply keeps_modify|intros _ _].
  { intros s Hs. apply chain_set_round; [|done]. by apply round_ok_keep, (round_of_ok g), Hs. }
  eapply keeps_bind; [apply keeps_gets|intros voted _].
  apply keeps_if; intros _; [|by apply keeps_ret].
  eapply keeps_bind; [apply keeps_modify, keeps_own_vote|intros _ _].
  apply keeps_modify, chain_add_voted.
Qed.
Lemma keeps_handle_vote v : keeps I (handle_vote v) (λ _, True).
Proof.
  unfold handle_vote. eapply keeps_bind; [apply keeps_reads|intros _ _].
  apply keeps_modify. intros s Hs. apply chain_set_round; [|done].
  apply round_ok_vote; [by apply (round_of_ok g), Hs|done|done].
Qed.

(** *** Finalization *)
Definition advanced (h : N) (round : RoundState) (block : Block) s : Bft :=
  MkBft (local_address s) (validator_set s) (state s) h (block_hash block)
    (<[h := MkRound (rd_proposal round) (rd_block round) (rd_votes round) true]> (rounds s))
    (<[h := block]> (finalized s)) (filter (λ e, e.1 ≠ h) (voted_this_height s)).

Lemma chain_advance s r b :
  I s → rounds s !! (height s + 1) = Some r → rd_block r = Some b →
  I (advanced (height s + 1) r b s).
Proof.
  intros [[HC1 HC2 HC3 HC4] [HC5 HC6 HC7 HC8]] Hr Hb.
  assert (finalized s !! (height s + 1) = None) as Hnew.
  { apply eq_None_not_Some. rewrite HC2. lia. }
  split.
  - split; simpl.
    + intros h r'. rewrite lookup_insert. case_decide as Hh; [|auto]. intros [= <-]. subst h.
      apply round_ok_keep. by apply HC1.
    + intros h. rewrite lookup_insert. case_decide; [split; [lia|by eauto]|]. rewrite HC2. lia.
    + intros h b'. rewrite lookup_insert. case_decide as Hh; [|auto]. intros [= <-]. subst h.
      by apply (HC1 _ _ Hr).
    + by rewrite lookup_insert_eq.
  - split; simpl; [done|lia| |].
    + etransitivity; [exact HC7|]. by apply insert_subseteq.
    + intros h Hh. destruct (HC8 h Hh) as [Hv|Hle]; [|right; lia].
      destruct (decide (h = height s + 1)); [right; lia|left]. by apply elem_of_filter.
Qed.
End fixed.

(** What [try_finalize] does. *)
Lemma try_finalize_cases h s :
  (∃ r, try_finalize h s = (r, s) ∧
     ∀ b, r = Ok (Some b) → has_quorum h s = Ok true ∧
       ∃ round, rounds s !! h = Some round ∧ rd_finalized round = true ∧ rd_block round = Some b) ∨
  (∃ round, rounds s !! h = Some round ∧ rd_finalized round = false ∧ has_quorum h s = Ok true ∧
     match rd_block round with
     | Some b => try_finalize h s = (Ok (Some b), advanced h round b s)
     | None => try_finalize h s =
         (Ok None, set_round h (MkRound (rd_proposal round) None (rd_votes round) true) s)
     end).
Proof.
  unfold try_finalize. destruct (has_quorum h s) as [[]|e|] eqn:Hq; [|by left; eexists; split..].
  destruct (rounds s !! h) as [round|] eqn:Hr; [|by left; eexists; split].
  destruct (rd_finalized round) eqn:Hf.
  - left. eexists. split; [done|]. intros b [= Hb]. eauto.
  - right. exists round. split_and!; [done..|]. unfold advanced. by destruct (rd_block round) eqn:Hb.
Qed.
Lemma finalize_eq hash now s :
  height s < U64 →
  finalize hash now s =
    match rounds s !! (height s + 1) with
    | Some round =>
        if bool_decide (pr_block_hash <$> rd_proposal round = Some hash) then
          match try_finalize (height s + 1) s with
          | (Ok (Some b), s') => (Ok (MkFinality b now), s')
          | (Ok None, s') => (Err InvalidProposal, s')
          | (Err e, s') => (Err e, s')
          | (Panic, s') => (Panic, s')
          end
        else (Err InvalidProposal, s)
    | None => (Err InvalidProposal, s)
    end.
Proof.
  intros Hh. unfold finalize. rewrite (bind_Ok (height s + 1) _ s s).
  2: { unfold reads. by rewrite uadd_ok by lia. }
  rewrite (bind_Ok (rounds s !! (height s + 1)) _ s s) by done. rewrite bind_lift.
  destruct (rounds s !! (height s + 1)) as [round|]; simpl; [|done].
  destruct (rd_proposal round) as [p|]; simpl; [|done].
  destruct (decide (pr_block_hash p = hash)) as [Heq|Hne].
  - rewrite !bool_decide_true by congruence. unfold mbind, M_bind.
    by destruct (try_finalize (height s + 1) s) as [[[]| |] ?].
  - by rewrite !bool_decide_false by congruence.
Qed.
Lemma finalize_chain g s0 hash now s :
  height s < U64 → chain g s0 s →
  chain g s0 (finalize hash now s).2 ∧ height (finalize hash now s).2 ≤ height s + 1.
Proof.
  intros Hh HI. rewrite finalize_eq by done.
  destruct (rounds s !! (height s + 1)) as [round|] eqn:Hr; [|split; [done|simpl; lia]].
  case_bool_decide; [|split; [done|simpl; lia]].
  assert (chain g s0 (try_finalize (height s + 1) s).2 ∧
    height (try_finalize (height s + 1) s).2 ≤ height s + 1) as [Hc Hle].
  { destruct (try_finalize_cases (height s + 1) s) as [(r & -> & _)|(r & Hr' & _ & _ & Ht)].
    - split; [done|simpl; lia].
    - destruct (rd_block r) as [b|] eqn:Hb; rewrite Ht; simpl; (split; [|lia]).
      + by apply chain_advance.
      + apply chain_set_round; [|done]. rewrite <-Hb. apply round_ok_keep.
        by apply (inv_rounds g s); [apply HI|]. }
  destruct (try_finalize (height s + 1) s) as [[[]| |] s']; done.
Qed.
Lemma finalize_candidates_chain g s0 now hs found s :
  height s + N.of_nat (length hs) ≤ U64 → chain g s0 s →
  chain g s0 (finalize_candidates now found hs s).2.
Proof.
  revert found s. induction hs as [|h hs IH]; intros found s Hle HI; [done|].
  cbn [finalize_candidates length] in *. unfold mbind, M_bind, finalize_candidate.
  destruct (rounds s !! h ≫= rd_proposal) as [p|]; [|apply IH; [lia|done]].
  pose proof (finalize_chain g s0 (pr_block_hash p) now s) as Hf.
  destruct (finalize (pr_block_hash p) now s) as [[f|e|] s']; simpl in *;
    destruct Hf as [HI' Hh']; [lia|done|apply IH; [lia|done]|lia|done|apply IH; [lia|done]|lia|done|done].
Qed.
Lemma candidates_bound s :
  height s + N.of_nat (size (rounds s)) ≤ U64 →
  height s + N.of_nat (length (filter (λ e, (height s < e.1)%N ∧ is_Some (rd_proposal e.2)) (btree_iter (rounds s)))) ≤ U64.
Proof.
  assert (length (filter (λ e, (height s < e.1)%N ∧ is_Some (rd_proposal e.2)) (btree_iter (rounds s))) ≤
    size (rounds s))%nat; [|lia].
  etransitivity; [apply length_filter|]. rewrite <-length_btree_keys. unfold btree_keys. by rewrite length_fmap.
Qed.
Lemma finalize_pending_chain g s0 now s :
  height s + N.of_nat (size (rounds s)) ≤ U64 → chain g s0 s → chain g s0 (finalize_pending now s).2.
Proof.
  intros Hle HI. unfold finalize_pending. unfold mbind, M_bind, gets.
  apply finalize_candidates_chain; [|done]. rewrite length_fmap. by apply candidates_bound.
Qed.

(** Every call keeps the invariant and continues the chain. *)
Lemma bft_step_chain g s0 s s' : bft_step s s' → chain g s0 s → chain g s0 s'.
Proof.
  intros Hstep HI. destruct Hstep.
  - by apply (keeps_propose g s0).
  - by apply (keeps_handle_block g s0).
  - by apply (keeps_handle_proposal g s0).
  - by apply (keeps_handle_vote g s0).
  - by apply finalize_chain.
  - by apply finalize_pending_chain.
  - by apply chain_set_state.
Qed.
Lemma bft_steps_chain g s0 s s' : rtc bft_step s s' → chain g s0 s → chain g s0 s'.
Proof. induction 1; eauto using bft_step_chain. Qed.
Lemma new_with_store_inv local vs st previous s :
  new_with_store local vs st previous = Ok s → bft_inv previous s.
Proof.
  unfold new_with_store. destruct (is_validator vs local); [|done]. intros [= <-]. split; simpl.
  - intros h r Hr. by rewrite lookup_empty in Hr.
  - intros h. rewrite lookup_empty. split; [by intros []|lia].
  - intros h b Hb. by rewrite lookup_empty in Hb.
  - done.
Qed.
End steps.

(** ** The active validator set *)
#[export] Instance candidate_le_total : Total candidate_le.
Proof.
  intros [a p] [b q]. unfold candidate_le; simpl.
  destruct (N.lt_trichotomy p q) as [|[->|]]; [by right; left| |by left; left].
  destruct (key_leb_total a b); [left|right]; right; by split.
Qed.
#[export] Instance candidate_le_trans : Transitive candidate_le.
Proof.
  intros [a p] [b q] [c r]. unfold candidate_le; simpl.
  intros [?|[-> ?]] [?|[-> ?]]; [left; lia|by left|by left|right].
  split; [done|by eapply bytes_leb_trans].
Qed.

Lemma add_all_lookup (l : list (Address * N)) vs a :
  NoDup l.*1 →
  validators (foldl (λ vs e, vs_add e.1 e.2 vs) vs l) !! a =
    match list_to_map (M:=gmap Address N) l !! a with Some p => Some p | None => validators vs !! a end.
Proof.
  revert vs. induction l as [|[b p] l IH]; intros vs Hnd; [done|].
  simpl in *. apply NoDup_cons in Hnd as [Hb Hnd]. rewrite IH by done. simpl.
  rewrite !lookup_insert. case_decide as Hab; [|done].
  subst b. by rewrite not_elem_of_list_to_map_1.
Qed.
Definition candidates (records : list (Address * ValidatorRecord)) : list (Address * N) :=
  (λ e, (e.1, N.min (total_stake e.2) U64)) <$> filter (λ e, eligible e.2 = true) records.
Lemma candidates_keys records : NoDup records.*1 → NoDup (candidates records).*1.
Proof.
  intros Hnd. unfold candidates. rewrite <-list_fmap_compose.
  eapply sublist_NoDup; [exact Hnd|].
  rewrite (list_fmap_ext _ fst) by done. apply fmap_sublist, sublist_filter.
Qed.
Lemma active_candidates_spec records :
  NoDup records.*1 →
  NoDup (active_candidates records).*1 ∧
  (length (active_candidates records) ≤ 100)%nat ∧
  (∀ e, e ∈ active_candidates records → e ∈ candidates records) ∧
  (∀ e e', e ∈ candidates records → e ∉ active_candidates records →
     e' ∈ active_candidates records → candidate_le e' e).
Proof.
  intros Hnd. unfold active_candidates. fold (candidates records).
  pose proof (merge_sort_Permutation candidate_le (candidates records)) as Hperm.
  pose proof (StronglySorted_merge_sort candidate_le (candidates records)) as Hsort.
  set (sorted := merge_sort candidate_le (candidates records)) in *.
  set (n := N.to_nat protocol.MAX_ACTIVE_VALIDATORS). split_and!.
  - apply (sublist_NoDup _ sorted.*1); [rewrite Hperm; by apply candidates_keys|].
    apply fmap_sublist, sublist_take.
  - rewrite length_take. change n with 100%nat. lia.
  - intros e He. rewrite <-Hperm. apply elem_of_take in He as (i & Hi & _).
    by eapply list_elem_of_lookup_2.
  - intros e e' He Hnot He'. rewrite <-Hperm, <-(take_drop n sorted) in He.
    apply elem_of_app in He as [?|Hd]; [done|].
    rewrite <-(take_drop n sorted) in Hsort. by eapply StronglySorted_app_1_elem_of.
Qed.

(** ** Executing a block *)
Section blocks.
Context {S : Type} `{Store S, Profile, Blake3, Dalek, !Serde Transaction, !Serde StakingOperation}.
Context `{!Serde BlockHeader, !Serde (list Transaction)}.

Lemma run_block_Ok txs (st st' : S) : run_block txs st = (Ok tt, st') → st' = run_txs txs st.
Proof.
  unfold run_block, run_txs. revert st. induction txs as [|t txs IH]; intros st; simpl.
  { by intros [= <-]. }
  intros (u & st1 & Ht & Hrest)%bind_Ok_inv. apply bind_Ok_inv in Ht as (r & st2 & Ht & [= <- <-]).
  unfold map_errM in Ht. destruct (execute t st) as [x st3]. simpl in *.
  injection Ht as _ <-. by apply IH.
Qed.
(** A block with a transaction that cannot execute cannot be built. *)
Lemma run_block_rejects (t : Transaction) (e : VmError) :
  (∀ st : S, (execute t st).1 = Err e) →
  ∀ txs (st : S), t ∈ txs → is_ok (run_block txs st).1 = false.
Proof.
  intros Hex txs. unfold run_block. induction txs as [|x txs IH]; intros st Hin; [by apply elem_of_nil in Hin|].
  cbn [forM]. unfold mbind at 1, M_bind at 1.
  destruct ((r ← map_errM _ (execute x); mret tt) st) as [[u|e'|] st'] eqn:Hx; [|done..].
  apply elem_of_cons in Hin as [<-|Hin]; [|by apply IH].
  unfold mbind, M_bind, map_errM in Hx. specialize (Hex st).
  destruct (execute t st) as [r s1]. simpl in Hex. subst r. done.
Qed.
Lemma update_validator_set_state (s : BftConsensus S) r s' :
  update_validator_set s = (r, s') →
  state s' = state s ∧ previous_hash s' = previous_hash s ∧ local_address s' = local_address s ∧
  height s' = height s ∧ rounds s' = rounds s ∧ finalized s' = finalized s.
Proof. unfold update_validator_set. repeat case_match; by intros [= <- <-]. Qed.

Lemma build_block_Ok h txs now (s : BftConsensus S) b s' :
  build_block h txs now s = (Ok b, s') →
  state s' = run_txs txs (state s) ∧ local_address s' = local_address s ∧ height s' = height s ∧
  rounds s' = rounds s ∧ finalized s' = finalized s ∧
  transactions (body b) = txs ∧ bh_height (header b) = h ∧ bh_timestamp (header b) = now ∧
  bh_previous_hash (header b) = previous_hash s ∧
  store_state_root (state s') = Ok (bh_state_root (header b)) ∧
  bh_tx_root (header b) = hash_bytes (encode txs) ∧
  MkAddress (bh_proposer (header b)) = local_address s.
Proof.
  unfold build_block. intros (u & s1 & Hrun & Hb)%bind_Ok_inv.
  unfold zoom in Hrun. destruct (run_block txs (state s)) as [o st1] eqn:Hblk.
  injection Hrun as -> <-. destruct u. apply run_block_Ok in Hblk as ->.
  apply bind_Ok_inv in Hb as (u & s2 & Hup & Hb).
  apply update_validator_set_state in Hup as (Hst & Hprev & Hloc & Hh & Hr & Hf).
  apply bind_Ok_inv in Hb as (p & s3 & [= <- <-] & Hb).
  apply bind_Ok_inv in Hb as (l & s4 & [= <- <-] & Hb).
  apply bind_Ok_inv in Hb as (root & s5 & Hroot & [= <- <-]).
  unfold reads in Hroot. injection Hroot as Hroot <-.
  destruct (store_state_root (state s2)) as [rt| |] eqn:Hrt; [|done..]. injection Hroot as <-.
  simpl in *. rewrite Hloc, Hprev. split_and!; try done. apply address_eta.
Qed.
End blocks.

(** *** Fees of a block *)
Section fees.
Context `{Hex, Blake3, Serde Account, Serde (gmap string bytes)}.
Context `{!Serde ValidatorRecord, !Serde Delegation}.
Context `{Profile, Dalek, !Serde Transaction, !Serde StakingOperation}.

(** The fees taken by the transactions of a block, in order. *)
Fixpoint block_fees (ts : list Transaction) (L : Ledger) : N :=
  match ts with
  | [] => 0
  | t :: ts => fee_paid t L + block_fees ts (execute t L).2
  end.
Lemma run_txs_supply ts L :
  ledger_inv L → nonce_room (length ts) L →
  ledger_inv (run_txs ts L) ∧ supply (run_txs ts L) + block_fees ts L = supply L.
Proof.
  revert L. induction ts as [|t ts IH]; intros L Hinv Hroom; [simpl; split; [done|lia]|].
  simpl in *. destruct (execute t L) as [r L'] eqn:Hrun. simpl.
  assert (acc_nonce (acct L (tx_sender t)) < U64) as Hn by (specialize (Hroom (tx_sender t)); lia).
  destruct (IH L') as [Hinv' Hs]; [by eapply execute_inv|by eapply execute_room|].
  split; [done|]. pose proof (execute_supply t L r L' Hinv Hn Hrun). lia.
Qed.
End fees.
