(* ===== verification/BftProperties.v ===== *)
(** * Properties of the consensus engines

    Safety, finality and liveness of [BftConsensus] over any sequence of calls,
    from the invariants of [BftTheorems], with the engine run on a concrete
    committee in [BftScenario]. *)

From Stdlib Require Import Strings.Byte.
From S2P Require Import Prelude.
From S2P Require Import Externals.
From S2P Require Import Primitives.
From S2P Require Import Storage.
From S2P Require Import StateStore.
From S2P Require Import Crypto.
From S2P Require Import Vm.
From S2P Require Import VmTheorems.
From S2P Require Import ValidatorSet.
From S2P Require Import Protocol.
From S2P Require Import Bft.
From S2P Require Import BftTheorems.
Local Open Scope N_scope.

(** ** Quorums *)
Section quorum.
Context {S : Type} `{Store S, Profile, Blake3, Dalek, !Serde Transaction, !Serde StakingOperation}.
Context `{!Serde BlockHeader, !Serde (list Transaction)}.
Implicit Types s : BftConsensus S.

Lemma find_power_list (l : list (Address * N)) a :
  NoDup l.*1 →
  find_power ((λ e, MkValidator e.1 e.2) <$> l) a =
    default 0 (snd <$> (list_find (λ e, e.1 = a) l ≫= λ x, Some x.2)).
Proof.
  intros _. unfold find_power. rewrite list_find_fmap. unfold compose. simpl.
  by destruct (list_find _ l) as [[i [b p]]|].
Qed.
Lemma find_power_of vs a : find_power (vs_validators vs) a = power_of vs a.
Proof.
  unfold vs_validators. rewrite find_power_list by apply (btree_keys_NoDup (validators vs)).
  unfold power_of. destruct (list_find _ _) as [[i [b p]]|] eqn:Hf; simpl.
  - apply list_find_Some in Hf as (Hi & Heq & _). simpl in Heq. subst b.
    apply list_elem_of_lookup_2, elem_of_btree_iter in Hi. by rewrite Hi.
  - destruct (validators vs !! a) as [p|] eqn:Ha; [|done]. exfalso.
    apply list_find_None in Hf. rewrite Forall_forall in Hf.
    apply (Hf (a, p)); [by apply elem_of_btree_iter|done].
Qed.
(** [has_quorum] compares the power of the recorded voters with the threshold. *)
Lemma has_quorum_eq h s :
  power_fits (validator_set s) →
  has_quorum h s = Ok match rounds s !! h with
    | Some r => set_power (validator_set s) * 2 / 3 + 1 <=? power_in (validator_set s) (dom (rd_votes r))
    | None => false
    end.
Proof.
  intros Hfit. unfold has_quorum. destruct (rounds s !! h) as [r|]; [|done].
  assert (sumN (find_power (vs_validators (validator_set s)) <$> btree_keys (rd_votes r)) =
    power_in (validator_set s) (dom (rd_votes r))) as Hsum.
  { rewrite (list_fmap_ext _ (power_of (validator_set s))) by (intros; apply find_power_of).
    rewrite power_in_keys by apply btree_keys_NoDup. f_equal. apply set_eq. intros a.
    by rewrite elem_of_list_to_set, elem_of_btree_keys, elem_of_dom. }
  rewrite usum_ok, Hsum, quorum_threshold_ok; [done|done|].
  rewrite Hsum. pose proof (power_in_le (validator_set s) (dom (rd_votes r))).
  unfold power_fits in Hfit. lia.
Qed.

(** A block is finalized only with a quorum. *)
Lemma finalize_Ok hash now s f s' :
  height s < U64 → finalize hash now s = (Ok f, s') →
  has_quorum (height s + 1) s = Ok true ∧
  ∃ r p, rounds s !! (height s + 1) = Some r ∧ rd_proposal r = Some p ∧ pr_block_hash p = hash ∧
    rd_block r = Some (fin_block f) ∧
    if rd_finalized r then s' = s
    else height s' = height s + 1 ∧
      finalized s' = <[height s + 1 := fin_block f]> (finalized s) ∧
      previous_hash s' = block_hash (fin_block f).
Proof.
  intros Hh. rewrite finalize_eq by done.
  destruct (rounds s !! (height s + 1)) as [r|] eqn:Hr; [|done].
  case_bool_decide as Hp; [|done]. apply fmap_Some in Hp as (p & Hp & ->).
  destruct (try_finalize_cases (height s + 1) s) as [(o & Ht & Hb)|(r' & Hr' & Hf & Hq & Ht)].
  - rewrite Ht. destruct o as [[b|]| |]; [|done..]. intros [= <- <-].
    destruct (Hb b eq_refl) as (Hq & r' & Hr' & Hf & Hblk). rewrite Hr in Hr'; injection Hr' as <-. split; [done|].
    exists r, p. by rewrite Hf.
  - rewrite Hr in Hr'; injection Hr' as <-. destruct (rd_block r) as [b|] eqn:Hblk; rewrite Ht; [|done].
    intros [= <- <-]. split; [done|]. exists r, p. by rewrite Hf.
Qed.

(** *** Engines that are given whole blocks

    The calls [node.rs] makes: it never handles a bare proposal. *)
Inductive node_call : BftConsensus S → BftConsensus S → Prop :=
| nc_propose s h txs now : node_call s (propose h txs now s).2
| nc_handle_block s b : node_call s (handle_block b s).2
| nc_handle_vote s v : node_call s (handle_vote v s).2
| nc_finalize s hash now : height s < U64 → node_call s (finalize hash now s).2
| nc_finalize_pending s now :
    height s + N.of_nat (size (rounds s)) ≤ U64 → node_call s (finalize_pending now s).2
| nc_state s st : node_call s (set_state st s).
(** A round's block is the one its proposal names. *)
Definition round_matched (r : RoundState) : Prop :=
  ∀ p b, rd_proposal r = Some p → rd_block r = Some b → pr_block_hash p = block_hash b.
Definition matched s : Prop := ∀ h r, rounds s !! h = Some r → round_matched r.

Lemma matched_set_round h r s : round_matched r → matched s → matched (set_round h r s).
Proof. intros Hr Hs h' r'. simpl. rewrite lookup_insert. case_decide; [by intros [= <-]|apply Hs]. Qed.
Lemma matched_round_of h s : matched s → round_matched (round_of h s).
Proof.
  intros Hs. unfold round_of. destruct (rounds s !! h) as [r|] eqn:Hr; simpl; [by eapply Hs|].
  by intros p b [=].
Qed.
Lemma matched_block h p b votes f s :
  pr_block_hash p = block_hash b → matched s → matched (set_round h (MkRound (Some p) (Some b) votes f) s).
Proof. intros Hp. apply matched_set_round. by intros ? ? [= <-] [= <-]. Qed.
Lemma matched_vote h votes f s :
  matched s → matched (set_round h (MkRound (rd_proposal (round_of h s)) (rd_block (round_of h s)) votes f) s).
Proof. intros Hs. apply matched_set_round; [|done]. exact (matched_round_of h s Hs). Qed.

Lemma keeps_matched_propose h txs now : keeps matched (propose h txs now) (λ _, True).
Proof.
  unfold propose. eapply keeps_bind; [apply keeps_reads|intros o _].
  eapply keeps_bind; [apply keeps_lift|intros p _].
  eapply keeps_bind; [apply keeps_gets|intros l _]. apply keeps_if; intros _; [apply keeps_fail|].
  eapply (keeps_bind _ _ _ (λ _, True)); [|intros b _].
  { unfold build_block. eapply keeps_bind; [by apply keeps_zoom|intros _ _].
    eapply (keeps_bind _ _ _ (λ _, True)); [|intros _ _].
    { intros s Hs. unfold update_validator_set. by repeat case_match. }
    eapply keeps_bind; [apply keeps_gets|intros prev _].
    eapply keeps_bind; [apply keeps_gets|intros loc _].
    eapply keeps_bind; [apply keeps_reads|intros root _]. by apply keeps_ret. }
  eapply keeps_bind; [apply keeps_modify; intros s Hs; by apply matched_block|intros _ _].
  eapply keeps_bind; [by apply keeps_modify|intros _ _]. by apply keeps_ret.
Qed.
Lemma keeps_matched_handle_block b : keeps matched (handle_block b) (λ _, True).
Proof.
  unfold handle_block. eapply keeps_bind; [apply keeps_reads|intros _ _].
  eapply keeps_bind; [apply keeps_gets|intros l _].
  eapply keeps_bind; [apply keeps_modify; intros s Hs; by apply matched_block|intros _ _].
  eapply keeps_bind; [apply keeps_gets|intros voted _].
  apply keeps_if; intros _; [|apply keeps_fail].
  eapply keeps_bind; [apply keeps_modify; intros s Hs; by apply matched_vote|intros _ _].
  eapply keeps_bind; [by apply keeps_modify|intros _ _]. by apply keeps_ret.
Qed.
Lemma keeps_matched_handle_vote v : keeps matched (handle_vote v) (λ _, True).
Proof.
  unfold handle_vote. eapply keeps_bind; [apply keeps_reads|intros _ _].
  apply keeps_modify. intros s Hs. by apply matched_vote.
Qed.
(** Finalizing moves on by one height at most. *)
Lemma matched_try_finalize s :
  matched s → matched (try_finalize (height s + 1) s).2 ∧ height (try_finalize (height s + 1) s).2 ≤ height s + 1.
Proof.
  intros Hs. destruct (try_finalize_cases (height s + 1) s) as [(r & -> & _)|(r & Hr & _ & _ & Ht)];
    [split; [done|simpl; lia]|].
  pose proof (Hs _ _ Hr) as Hm. destruct (rd_block r) as [b|] eqn:Hb; rewrite Ht; simpl; (split; [|lia]).
  - intros h' r'. simpl. rewrite lookup_insert. case_decide; [|apply Hs]. intros [= <-].
    intros p b'. apply Hm.
  - apply matched_set_round; [|done]. by intros p b _ [=].
Qed.
Lemma matched_finalize hash now s :
  height s < U64 → matched s →
  matched (finalize hash now s).2 ∧ height (finalize hash now s).2 ≤ height s + 1.
Proof.
  intros Hh Hs. rewrite finalize_eq by done.
  destruct (rounds s !! _); [|split; [done|simpl; lia]]. case_bool_decide; [|split; [done|simpl; lia]].
  pose proof (matched_try_finalize s Hs) as Ht.
  by destruct (try_finalize (height s + 1) s) as [[[]| |] s'].
Qed.
Lemma matched_candidates now hs found s :
  height s + N.of_nat (length hs) ≤ U64 → matched s → matched (finalize_candidates now found hs s).2.
Proof.
  revert found s. induction hs as [|h hs IH]; intros found s Hle Hs; [done|].
  cbn [finalize_candidates length] in *. unfold mbind, M_bind, finalize_candidate.
  destruct (rounds s !! h ≫= rd_proposal) as [p|]; [|apply IH; [lia|done]].
  destruct (matched_finalize (pr_block_hash p) now s ltac:(lia) Hs) as [Hs' Hh'].
  destruct (finalize (pr_block_hash p) now s) as [[f|e|] s']; simpl in *; [apply IH; [lia|done]..|done].
Qed.
Lemma node_call_matched s s' : node_call s s' → matched s → matched s'.
Proof.
  intros [] Hs.
  - by apply keeps_matched_propose.
  - by apply keeps_matched_handle_block.
  - by apply keeps_matched_handle_vote.
  - by apply matched_finalize.
  - unfold finalize_pending, mbind, M_bind, gets. apply matched_candidates; [|done]. rewrite length_fmap.
    by apply candidates_bound.
  - done.
Qed.
Lemma node_calls_matched local vs st genesis s0 s :
  new_with_store local vs st genesis = Ok s0 → rtc node_call s0 s → matched s.
Proof.
  unfold new_with_store. destruct (is_validator vs local); [|done]. intros [= <-] Hrun.
  assert (matched (MkBft local vs st 0 genesis ∅ ∅ ∅)) as Hstart by (intros h r; simpl; by rewrite lookup_empty).
  revert Hstart. induction Hrun; eauto using node_call_matched.
Qed.
Lemma finalize_matched hash now s f s' :
  matched s → height s < U64 → finalize hash now s = (Ok f, s') →
  hash = block_hash (fin_block f) ∧ has_quorum (height s + 1) s = Ok true.
Proof.
  intros Hs Hh Hfin. destruct (finalize_Ok _ _ _ _ _ Hh Hfin) as (Hq & r & p & Hr & Hp & <- & Hb & _).
  split; [by eapply Hs|done].
Qed.
End quorum.

Section properties.
Context {S : Type} `{Store S, Profile, Blake3, Dalek, !Serde Transaction, !Serde StakingOperation}.
Context `{!Serde BlockHeader, !Serde (list Transaction)}.
Implicit Types s : BftConsensus S.

(** C13: The local chain is well formed in every reachable state: the finalized
    blocks are exactly those of heights 1 to [height], each carries its own
    height, and [previous_hash] is the hash of the last one (of the genesis
    block at height 0), whatever proposals, votes and blocks were received. *)
Theorem bft_chain_well_formed local vs st genesis (s0 s : BftConsensus S) :
  new_with_store local vs st genesis = Ok s0 → rtc bft_step s0 s →
  (∀ h, is_Some (finalized s !! h) ↔ 1 ≤ h ≤ height s) ∧
  (∀ h b, finalized s !! h = Some b → bh_height (header b) = h) ∧
  previous_hash s = match finalized s !! height s with Some b => block_hash b | None => genesis end.
Proof.
  intros Hnew Hsteps.
  destruct (bft_steps_chain genesis s0 s0 s Hsteps) as [[] _]; [|done].
  split; [by eapply new_with_store_inv|apply continues_refl].
Qed.

(** C14: Finality is permanent: in every reachable state the height never goes
    back and a finalized block is never replaced, whatever calls follow. *)
Theorem bft_finality_permanent local vs st genesis (s0 s s' : BftConsensus S) :
  new_with_store local vs st genesis = Ok s0 → rtc bft_step s0 s → rtc bft_step s s' →
  height s ≤ height s' ∧ finalized s ⊆ finalized s'.
Proof.
  intros Hnew Hsteps Hsteps'.
  destruct (bft_steps_chain genesis s0 s0 s Hsteps) as [Hinv _].
  { split; [by eapply new_with_store_inv|apply continues_refl]. }
  destruct (bft_steps_chain genesis s s s' Hsteps') as [_ []]; [|done].
  split; [done|apply continues_refl].
Qed.

(** C17: An engine returns at most one vote per height from [handle_block], even
    for conflicting blocks and whatever happens in between. *)
Theorem bft_one_vote_per_height genesis (s s1 s2 s3 : BftConsensus S) b v b' v' :
  bft_inv genesis s →
  handle_block b s = (Ok v, s1) → rtc bft_step s1 s2 → handle_block b' s2 = (Ok v', s3) →
  vt_height v ≠ vt_height v'.
Proof.
  intros Hinv Hv Hsteps Hv'.
  assert (∀ s b v s1, handle_block b s = (Ok v, s1) →
    vt_height v = bh_height (header b) ∧ height s < vt_height v ∧ local_address s1 = local_address s ∧
    (vt_height v, local_address s) ∉ voted_this_height s ∧
    (vt_height v, local_address s) ∈ voted_this_height s1) as Hhb.
  { clear. intros s b v s1. unfold handle_block, mbind, M_bind, reads, gets, modify, mret, M_ret.
    destruct (validate_proposal (proposal_of_block b) s) as [[]| |] eqn:Hval; [|done..].
    simpl. case_bool_decide as Hnv; [|done]. intros [= <- <-]. simpl. split_and!; try done.
    - revert Hval. unfold validate_proposal. destruct (proposer _ _ _) as [o| |]; simpl; [|done..].
      destruct o; simpl; [|done]. destruct (N.leb_spec (bh_height (header b)) (height s)); done.
    - set_solver. }
  pose proof (keeps_handle_block genesis s b s (conj Hinv (continues_refl s))) as [Hc1 _].
  rewrite Hv in Hc1. destruct Hc1 as [Hinv1 _].
  destruct (Hhb _ _ _ _ Hv) as (_ & _ & Hl & _ & Hin).
  destruct (bft_steps_chain genesis s1 s1 s2 Hsteps) as [_ [Hl2 _ _ Hvoted]].
  { split; [done|apply continues_refl]. }
  destruct (Hhb _ _ _ _ Hv') as (_ & Hgt & _ & Hnot & _).
  intros Heq. rewrite <-Hl in Hin. destruct (Hvoted (vt_height v) Hin) as [Hin2|Hle].
  - rewrite <-Hl2, Heq in Hin2. done.
  - rewrite Heq in Hle. lia.
Qed.

(** C15: No block is finalized without a quorum: [finalize] succeeds only for the
    hash proposed at the next height, when the recorded voters hold more than
    two thirds of the power, and then returns the block stored for that height.
    It advances the chain by exactly that block, unless the round had been marked
    finalized before the block was there: then it changes nothing. *)
Theorem bft_finalize_needs_quorum (s : BftConsensus S) hash now f s' :
  height s < U64 → power_fits (validator_set s) → finalize hash now s = (Ok f, s') →
  ∃ r p, rounds s !! (height s + 1) = Some r ∧ rd_proposal r = Some p ∧ pr_block_hash p = hash ∧
    rd_block r = Some (fin_block f) ∧
    2 * set_power (validator_set s) < 3 * power_in (validator_set s) (dom (rd_votes r)) ∧
    if rd_finalized r then s' = s
    else height s' = height s + 1 ∧
      finalized s' = <[height s + 1 := fin_block f]> (finalized s) ∧
      previous_hash s' = block_hash (fin_block f).
Proof.
  intros Hh Hfit Hfin. destruct (finalize_Ok _ _ _ _ _ Hh Hfin) as (Hq & r & p & Hr & Hp & Hhash & Hb & Hadv).
  exists r, p. split_and!; [done..| |done]. rewrite has_quorum_eq, Hr in Hq by done.
  injection Hq as Hq. apply N.leb_le in Hq.
  pose proof (N.mul_succ_div_gt (set_power (validator_set s) * 2) 3). lia.
Qed.

(** C16: Agreement: take two engines that run the calls of the node, with the
    same committee and at the same height.  If each finalizes a block, every vote
    recorded for that round names the block finalized, the Byzantine validators
    hold at most a third of the power and every other validator sent the same
    vote to both, then the two finalized blocks have the same hash. *)
Theorem bft_finalized_blocks_agree local1 local2 vs1 vs2 st1 st2 genesis1 genesis2
    (s01 s02 s1 s2 : BftConsensus S) hash1 hash2 now1 now2 f1 f2 s1' s2'
    (r1 r2 : RoundState) (byz : gset Address) :
  new_with_store local1 vs1 st1 genesis1 = Ok s01 → rtc node_call s01 s1 →
  new_with_store local2 vs2 st2 genesis2 = Ok s02 → rtc node_call s02 s2 →
  height s1 = height s2 → height s1 < U64 → validator_set s1 = validator_set s2 →
  power_fits (validator_set s1) →
  3 * power_in (validator_set s1) byz ≤ set_power (validator_set s1) →
  finalize hash1 now1 s1 = (Ok f1, s1') → finalize hash2 now2 s2 = (Ok f2, s2') →
  rounds s1 !! (height s1 + 1) = Some r1 → rounds s2 !! (height s2 + 1) = Some r2 →
  map_Forall (λ _ v, vt_block_hash v = block_hash (fin_block f1)) (rd_votes r1) →
  map_Forall (λ _ v, vt_block_hash v = block_hash (fin_block f2)) (rd_votes r2) →
  (∀ a v1 v2, a ∉ byz → rd_votes r1 !! a = Some v1 → rd_votes r2 !! a = Some v2 →
     vt_block_hash v1 = vt_block_hash v2) →
  hash1 = block_hash (fin_block f1) ∧ hash2 = block_hash (fin_block f2) ∧
  block_hash (fin_block f1) = block_hash (fin_block f2).
Proof.
  intros Hnew1 Hrun1 Hnew2 Hrun2 Hh Hlt Hvs Hfit Hbyz Hf1 Hf2 Hr1 Hr2 Hv1 Hv2 Hhon.
  assert (height s2 < U64) as Hlt2 by by rewrite <-Hh.
  destruct (finalize_matched _ _ _ _ _ (node_calls_matched _ _ _ _ _ _ Hnew1 Hrun1) Hlt Hf1) as [-> Hq1].
  destruct (finalize_matched _ _ _ _ _ (node_calls_matched _ _ _ _ _ _ Hnew2 Hrun2) Hlt2 Hf2) as [-> Hq2].
  split_and!; [done..|].
  rewrite has_quorum_eq, Hr1 in Hq1 by done.
  rewrite has_quorum_eq, Hr2 in Hq2 by by rewrite <-Hvs. rewrite <-Hvs in Hq2.
  injection Hq1 as Hq1%N.leb_le. injection Hq2 as Hq2%N.leb_le.
  pose proof (quorum_overlap _ _ _ _ eq_refl Hq1 Hq2) as Hov.
  destruct (power_in_witness (validator_set s1) (dom (rd_votes r1) ∩ dom (rd_votes r2)) byz)
    as (a & _ & [[v1 Ha1]%elem_of_dom [v2 Ha2]%elem_of_dom]%elem_of_intersection & Hnot); [lia|].
  rewrite <-(Hv1 a v1 Ha1), <-(Hv2 a v2 Ha2). by eapply Hhon.
Qed.

(** Handling the votes of a list, in order. *)
Definition handle_votes (vs : list Vote) (s : BftConsensus S) : BftConsensus S :=
  foldl (λ s v, (handle_vote v s).2) s vs.

Lemma handle_votes_spec h p b vs s r :
  height s < h → rounds s !! h = Some r → rd_proposal r = Some p → rd_block r = Some b →
  rd_finalized r = false →
  Forall (λ v, vt_height v = h ∧ vt_block_hash v = pr_block_hash p ∧
    is_validator (validator_set s) (MkAddress (vt_voter v)) = true) vs →
  let s' := handle_votes vs s in
  height s' = height s ∧ validator_set s' = validator_set s ∧
  ∃ r', rounds s' !! h = Some r' ∧ rd_proposal r' = Some p ∧ rd_block r' = Some b ∧
    rd_finalized r' = false ∧
    dom (rd_votes r') = list_to_set ((λ v, MkAddress (vt_voter v)) <$> vs) ∪ dom (rd_votes r).
Proof.
  revert s r. induction vs as [|v vs IH]; intros s r Hh Hr Hp Hb Hf Hall s'; subst s'.
  { split_and!; [done..|]. exists r. split_and!; [done..|set_solver]. }
  apply Forall_cons in Hall as [(Hvh & Hvb & Hval) Hall]. simpl.
  assert (handle_vote v s = (Ok tt, set_round h (MkRound (Some p) (Some b)
    (<[MkAddress (vt_voter v) := v]> (rd_votes r)) false) s)) as ->.
  { unfold handle_vote, mbind, M_bind, reads, modify.
    assert (validate_vote v s = Ok tt) as ->.
    { unfold validate_vote. rewrite Hvh, Hval, Hr. simpl. rewrite Hp.
      rewrite (proj2 (N.leb_gt _ _)) by done. simpl. by rewrite bool_decide_false by naive_solver. }
    unfold round_of. rewrite Hvh, Hr. simpl. by rewrite Hp, Hb, Hf. }
  destruct (IH (set_round h (MkRound (Some p) (Some b)
    (<[MkAddress (vt_voter v) := v]> (rd_votes r)) false) s)
    (MkRound (Some p) (Some b) (<[MkAddress (vt_voter v) := v]> (rd_votes r)) false))
    as (Hh' & Hvs & r' & Hr' & Hp' & Hb' & Hf' & Hdom); simpl; try done.
  { by rewrite lookup_insert_eq. }
  split_and!; [done..|]. exists r'. split_and!; [done..|]. rewrite Hdom. simpl.
  rewrite dom_insert_L. set_solver.
Qed.

(** Liveness of a round: once a block and its proposal are stored for the
    next height, receiving votes for it from validators that, with those already
    recorded, hold a quorum makes [finalize] succeed with that block, which
    becomes the head of the chain. *)
Lemma bft_votes_finalize (s : BftConsensus S) r p b (vs : list Vote) now :
  height s < U64 → power_fits (validator_set s) →
  rounds s !! (height s + 1) = Some r → rd_proposal r = Some p → rd_block r = Some b →
  rd_finalized r = false →
  Forall (λ v, vt_height v = height s + 1 ∧ vt_block_hash v = pr_block_hash p ∧
    is_validator (validator_set s) (MkAddress (vt_voter v)) = true) vs →
  set_power (validator_set s) * 2 / 3 + 1 ≤
    power_in (validator_set s) (list_to_set ((λ v, MkAddress (vt_voter v)) <$> vs) ∪ dom (rd_votes r)) →
  ∃ s', finalize (pr_block_hash p) now (handle_votes vs s) = (Ok (MkFinality b now), s') ∧
    height s' = height s + 1 ∧ finalized s' !! (height s + 1) = Some b ∧
    previous_hash s' = block_hash b.
Proof.
  intros Hlt Hfit Hr Hp Hb Hf Hall Hq.
  destruct (handle_votes_spec (height s + 1) p b vs s r) as (Hh' & Hvs & r' & Hr' & Hp' & Hb' & Hf' & Hdom);
    [lia|done..|].
  set (s1 := handle_votes vs s) in *. rewrite <-Hh' in Hr'.
  rewrite finalize_eq, Hr' by by rewrite Hh'. rewrite bool_decide_true by by rewrite Hp'.
  destruct (try_finalize_cases (height s1 + 1) s1) as [(o & Ht & Ho)|(r2 & Hr2 & _ & _ & Ht)].
  - exfalso. revert Ht. unfold try_finalize. rewrite has_quorum_eq, Hr', Hf', Hb' by by rewrite Hvs.
    rewrite Hvs, Hdom, (proj2 (N.leb_le _ _)) by done. intros [= _ Heq].
    apply (f_equal height) in Heq. simpl in Heq. lia.
  - rewrite Hr' in Hr2. injection Hr2 as <-. rewrite Hb' in Ht. rewrite Ht. eexists. split; [done|].
    simpl. rewrite Hh'. split_and!; [done|by rewrite lookup_insert_eq|done].
Qed.

(** C18: The active set is the top of the staking table: after
    [update_validator_set] it holds at most 100 validators, each active with at
    least the minimum stake and with its (capped) total stake as power; an
    eligible validator that was left out has at most the stake of every member;
    and when nobody is eligible the set is kept. *)
Theorem bft_active_set_correct (s : BftConsensus S) records s' r :
  store_validator_records (state s) = Ok records → NoDup records.*1 →
  update_validator_set s = (r, s') →
  (∀ e, e ∈ records → eligible e.2 = false) ∧ s' = s ∨
  (size (validators (validator_set s')) ≤ 100)%nat ∧ validators (validator_set s') ≠ ∅ ∧
  (∀ a p, validators (validator_set s') !! a = Some p →
     ∃ x, (a, x) ∈ records ∧ vr_status x = Active ∧ 100000 * 1000000000 ≤ total_stake x ∧
       p = N.min (total_stake x) U64) ∧
  (∀ a x, (a, x) ∈ records → eligible x = true → validators (validator_set s') !! a = None →
     ∀ b q, validators (validator_set s') !! b = Some q → N.min (total_stake x) U64 ≤ q).
Proof.
  intros Hrec Hnd. unfold update_validator_set. rewrite Hrec.
  destruct (active_candidates_spec records Hnd) as (Hand & Hlen & Hsub & Htop).
  set (A := active_candidates records) in *.
  set (new := foldl _ ValidatorSet_new A).
  assert (∀ a, validators new !! a = list_to_map (M:=gmap Address N) A !! a) as Hnew.
  { intros a. unfold new. rewrite add_all_lookup by done. simpl. rewrite lookup_empty. by case_match. }
  assert (validators new = list_to_map A) as Heq by by apply map_eq.
  assert (∀ a p, validators new !! a = Some p ↔ (a, p) ∈ A) as Helem.
  { intros a p. rewrite Heq. symmetry. by apply elem_of_list_to_map. }
  unfold vs_is_empty. case_bool_decide as Hempty; intros [= <- <-].
  - left. split; [|done]. intros [a x] Hx. simpl.
    destruct (eligible x) eqn:He; [|done]. exfalso.
    assert ((a, N.min (total_stake x) U64) ∈ candidates records) as Hc.
    { apply list_elem_of_fmap. exists (a, x). split; [done|]. by apply list_elem_of_filter. }
    assert (A = []) as HA.
    { destruct A as [|[b q] A']; [done|]. exfalso.
      assert (validators new !! b = Some q) as Hbq by (apply Helem; set_solver).
      by rewrite Hempty in Hbq. }
    unfold A, active_candidates in HA. fold (candidates records) in HA.
    assert (length (merge_sort candidate_le (candidates records)) = 0%nat) as Hl.
    { apply (f_equal length) in HA. rewrite length_take in HA. simpl in HA.
      destruct (length (merge_sort _ _)); [done|]. revert HA. vm_compute (N.to_nat _). lia. }
    rewrite (merge_sort_Permutation candidate_le) in Hl. destruct (candidates records); [|done].
    by apply not_elem_of_nil in Hc.
  - right. cbn [validator_set set_validator_set]. split_and!.
    + by rewrite Heq, map_size_list_to_map.
    + done.
    + intros a p Ha. apply Helem, Hsub, list_elem_of_fmap in Ha as ([a' x] & Hax & Hin).
      simplify_eq/=. apply list_elem_of_filter in Hin as [He Hin]. simpl in He.
      unfold eligible in He. rewrite andb_true_iff, bool_decide_eq_true, N.leb_le in He.
      destruct He as [? ?]. by exists x.
    + intros a x Hin He Hnone b q Hb. apply Helem in Hb.
      assert ((a, N.min (total_stake x) U64) ∈ candidates records) as Hc.
      { apply list_elem_of_fmap. exists (a, x). split; [done|]. by apply list_elem_of_filter. }
      assert ((a, N.min (total_stake x) U64) ∉ A) as Hout.
      { intros HinA. apply Helem in HinA. by rewrite HinA in Hnone. }
      destruct (Htop _ _ Hc Hout Hb) as [Hlt|[Hle _]]; simpl in *; lia.
Qed.
End properties.

(** ** Producing blocks *)
Section production.
Context {B : Type} `{StateBackend B, Hex, Blake3, Serde Account, Serde (gmap string bytes)}.
Context `{!BackendLaws B, !Serde ValidatorRecord, !SerdeLaws ValidatorRecord}.
Context `{!Serde Delegation, !SerdeLaws Delegation}.
Context `{Profile, Dalek, !Serde Transaction, !Serde StakingOperation}.
Context `{!Serde BlockHeader, !Serde (list Transaction)}.

(** A block the engine proposes is the execution of its transactions: the
    store afterwards holds the ledger they lead to, whose root is in the header
    and whose supply is the old one less the fees; the header extends the
    current head, the engine is the proposer of that height, and it has voted
    for the block. *)
Lemma bft_propose_executes_block (s : BftConsensus (StateStore B)) L h txs now b s' :
  store_rel (state s) L → ledger_inv L → nonce_room (length txs) L →
  propose h txs now s = (Ok b, s') →
  let L' := run_txs txs L in
  store_rel (state s') L' ∧ ledger_inv L' ∧ supply L' + block_fees txs L = supply L ∧
  store_state_root L' = Ok (bh_state_root (header b)) ∧
  bh_tx_root (header b) = hash_bytes (encode txs) ∧ transactions (body b) = txs ∧
  bh_height (header b) = h ∧ bh_previous_hash (header b) = previous_hash s ∧
  proposer (E:=ConsensusError) (validator_set s) h 0 = Ok (Some (MkAddress (bh_proposer (header b)))) ∧
  own_proposal h s' = Some b ∧
  own_vote h s' = Some (MkVote (block_hash b) h 0 (bh_proposer (header b))).
Proof.
  intros HR Hinv Hroom Hprop L'.
  unfold propose in Hprop.
  apply bind_Ok_inv in Hprop as (o & s1 & Ho & Hprop). unfold reads in Ho. injection Ho as Ho <-.
  rewrite bind_lift in Hprop. destruct o as [p|]; simpl in Hprop; [|done].
  rewrite (bind_Ok (local_address s) _ s s) in Hprop by done.
  case_bool_decide as Hp; [done|]. subst p.
  apply bind_Ok_inv in Hprop as (b' & s2 & Hb & Hprop).
  unfold mbind, M_bind, modify in Hprop. simpl in Hprop. injection Hprop as -> <-.
  destruct (build_block_Ok h txs now s b s2 Hb)
    as (Hst & Hloc & Hh & Hr & Hf & Htx & Hhd & _ & Hprev & Hroot & Htxr & Hpr).
  assert (store_rel (state s2) L') as HR' by (rewrite Hst; by apply sim_run_txs).
  destruct (run_txs_supply txs L Hinv Hroom) as [Hinv' Hs].
  split_and!; try done.
  - by rewrite <-(sim_state_root (state s2) L' HR').
  - by rewrite Hpr.
  - unfold own_proposal; simpl. by rewrite lookup_insert_eq.
  - unfold own_vote; simpl. rewrite Hloc, lookup_insert_eq. simpl.
    rewrite lookup_insert_eq, <-Hpr. done.
Qed.
End production.

(** ** Validators that only follow *)
Section followers.
Context {S : Type} `{Store S, Profile, Blake3, Dalek, !Serde Transaction, !Serde StakingOperation}.
Context `{!Serde BlockHeader, !Serde (list Transaction)}.
Notation Bft := (BftConsensus S).
Implicit Types s : Bft.

(** The calls of a validator that does not propose. *)
Inductive follower_step : Bft → Bft → Prop :=
| fl_handle_block s b : follower_step s (handle_block b s).2
| fl_handle_proposal s p : follower_step s (handle_proposal p s).2
| fl_handle_vote s v : follower_step s (handle_vote v s).2
| fl_finalize s hash now : follower_step s (finalize hash now s).2
| fl_finalize_pending s now : follower_step s (finalize_pending now s).2.

(** The store and the committee of [s] are those of [s0]. *)
Definition same_state (s0 s : Bft) : Prop := state s = state s0 ∧ validator_set s = validator_set s0.
Lemma same_state_finalize s0 hash now : keeps (same_state s0) (finalize hash now) (λ _, True).
Proof.
  unfold finalize. eapply keeps_bind; [apply keeps_reads|intros h _].
  eapply keeps_bind; [apply keeps_gets|intros o _].
  eapply keeps_bind; [apply keeps_lift|intros r _].
  destruct (rd_proposal r) as [p|]; [|apply keeps_fail]. apply keeps_if; intros _; [|apply keeps_fail].
  eapply (keeps_bind _ _ _ (λ _, True)); [|intros [b|] _; [by apply keeps_ret|apply keeps_fail]].
  intros s Hs. unfold try_finalize. by repeat case_match.
Qed.
Lemma same_state_finalize_candidates s0 now found hs :
  keeps (same_state s0) (finalize_candidates now found hs) (λ _, True).
Proof.
  revert found. induction hs as [|h hs IH]; intros found; [by apply keeps_ret|].
  cbn [finalize_candidates]. eapply (keeps_bind _ _ _ (λ _, True)); [|intros; apply IH].
  intros s Hs. unfold finalize_candidate. destruct (rounds s !! h ≫= rd_proposal) as [p|]; [|done].
  destruct (same_state_finalize s0 (pr_block_hash p) now s Hs) as [Hs' _].
  by destruct (finalize _ _ _) as [[f|e|] s'].
Qed.
Lemma follower_step_keeps s0 s s' : follower_step s s' → same_state s0 s → same_state s0 s'.
Proof.
  assert (∀ A (m : M Bft ConsensusError A) Q s1, keeps (same_state s0) m Q →
    same_state s0 s1 → same_state s0 (m s1).2) as Hk by (intros A m Q s1 Hm Hs; by apply Hm).
  intros [s1 b|s1 p|s1 v|s1 hash now|s1 now]; apply (Hk _ _ (λ _, True)); clear Hk.
  - unfold handle_block. eapply keeps_bind; [apply keeps_reads|intros _ _].
    eapply keeps_bind; [apply keeps_gets|intros l _].
    eapply keeps_bind; [by apply keeps_modify|intros _ _].
    eapply keeps_bind; [apply keeps_gets|intros voted _]. apply keeps_if; intros _; [|apply keeps_fail].
    eapply keeps_bind; [by apply keeps_modify|intros _ _].
    eapply keeps_bind; [by apply keeps_modify|intros _ _]. by apply keeps_ret.
  - unfold handle_proposal. eapply keeps_bind; [apply keeps_reads|intros _ _].
    eapply keeps_bind; [apply keeps_gets|intros l _].
    eapply keeps_bind; [by apply keeps_modify|intros _ _].
    eapply keeps_bind; [apply keeps_gets|intros voted _]. apply keeps_if; intros _; [|by apply keeps_ret].
    eapply keeps_bind; [by apply keeps_modify|intros _ _]. by apply keeps_modify.
  - unfold handle_vote. eapply keeps_bind; [apply keeps_reads|intros _ _]. by apply keeps_modify.
  - apply same_state_finalize.
  - unfold finalize_pending. eapply keeps_bind; [apply keeps_gets|intros cs _].
    apply same_state_finalize_candidates.
Qed.

(** A validator that does not propose never executes a transaction: whatever
    blocks, proposals and votes it receives and whatever it finalizes, its state
    store and its committee are the ones it started with, although its chain
    grows. *)
Lemma bft_followers_never_execute (s s' : Bft) :
  rtc follower_step s s' → state s' = state s ∧ validator_set s' = validator_set s.
Proof.
  intros Hsteps. change (same_state s s'). assert (same_state s s) as Hs by done. revert Hs.
  generalize s at 1 3 as s0. intros s0. induction Hsteps as [|s s1 s2 Hstep _ IH]; [done|].
  intros Hs. by eapply IH, follower_step_keeps.
Qed.
End followers.

Section solo_production.
Context {S : Type} `{Store S, Profile, Blake3, Dalek, !Serde Transaction, !Serde StakingOperation}.
Context `{!Serde BlockHeader, !Serde (list Transaction)}.

(** Propose a block per list of transactions, at consecutive heights. *)
Fixpoint solo_run (h : N) (batches : list (list Transaction * N)) (s : SoloConsensus S)
    : outcome ConsensusError (list Block) :=
  match batches with
  | [] => Ok []
  | (txs, now) :: batches =>
      match solo_propose h txs now s with
      | (Ok b, s) => bs ← solo_run (h + 1) batches s; Ok (b :: bs)
      | (Err e, _) => Err e
      | (Panic, _) => Panic
      end
  end.
Definition links (prev : Hash) (bs : list Block) : Prop :=
  ∀ i b, bs !! i = Some b →
    bh_previous_hash (header b) =
      match i with O => prev | Datatypes.S j => default prev (block_hash <$> bs !! j) end.

Lemma solo_propose_Ok h txs now (s : SoloConsensus S) b s' :
  solo_propose h txs now s = (Ok b, s') →
  solo_state s' = run_txs txs (solo_state s) ∧ solo_height s' = h ∧
  solo_previous_hash s' = block_hash b ∧ bh_previous_hash (header b) = solo_previous_hash s ∧
  bh_height (header b) = h ∧ transactions (body b) = txs ∧
  store_state_root (solo_state s') = Ok (bh_state_root (header b)).
Proof.
  unfold solo_propose. intros (u & s1 & Hrun & Hb)%bind_Ok_inv. unfold zoom in Hrun.
  destruct (run_block txs (solo_state s)) as [o st1] eqn:Hblk. injection Hrun as -> <-. destruct u.
  apply run_block_Ok in Hblk as ->. apply bind_Ok_inv in Hb as (root & s2 & Hroot & Hb).
  unfold reads in Hroot. injection Hroot as Hroot <-. simpl in Hroot.
  destruct (store_state_root _) as [rt| |] eqn:Hrt; [|done..]. injection Hroot as <-.
  unfold mbind, M_bind, gets, modify in Hb. simpl in Hb. injection Hb as <- <-. by split_and!.
Qed.

(** The solo engine produces a linked chain: blocks proposed one after the
    other have consecutive heights, each names its predecessor by hash, and each
    holds its own batch of transactions. *)
Lemma solo_chain_linked h batches (s : SoloConsensus S) bs :
  solo_run h batches s = Ok bs →
  links (solo_previous_hash s) bs ∧ (λ b, transactions (body b)) <$> bs = batches.*1 ∧
  ∀ i b, bs !! i = Some b → bh_height (header b) = h + N.of_nat i.
Proof.
  revert h s bs. induction batches as [|[txs now] batches IH]; intros h s bs Hrun; simpl in Hrun.
  { injection Hrun as <-. by split_and!. }
  destruct (solo_propose h txs now s) as [[b|e|] s'] eqn:Hp; [|done..].
  destruct (solo_run (h + 1) batches s') as [bs'| |] eqn:Hr; [|done..]. injection Hrun as <-.
  apply solo_propose_Ok in Hp as (_ & _ & Hprev & Hlink & Hh & Htx & _).
  destruct (IH _ _ _ Hr) as (Hl & Hb & Hi). split_and!.
  - intros [|i] b' Hb'; simpl in *; [by simplify_eq|]. rewrite (Hl i b' Hb').
    destruct i as [|j]; simpl; [done|]. pose proof (lookup_lt_Some _ _ _ Hb') as Hlt.
    destruct (lookup_lt_is_Some_2 bs' j) as [x Hx]; [lia|]. by rewrite Hx.
  - by rewrite fmap_cons, Hb, Htx.
  - intros [|i] b' Hb'; simpl in *; [simplify_eq; lia|]. rewrite (Hi i b' Hb'). lia.
Qed.
End solo_production.

(** ** A committee of four on the empty in-memory ledger *)
Module BftScenario.
Import Reference.
#[export] Existing Instance dev.

Definition addr (b : byte) : Address := MkAddress (Array32 (replicate 32 b) eq_refl).
Definition v1 := addr x01.
Definition v2 := addr x02.
Definition v3 := addr x03.
Definition v4 := addr x04.
Definition committee : ValidatorSet :=
  from_validators [MkValidator v1 1; MkValidator v2 1; MkValidator v3 1; MkValidator v4 1].
Notation Engine := (BftConsensus (StateStore InMemoryBackend)).
(** The engine of [v1]; [v2] is the proposer of height 1. *)
Definition engine0 : Engine := MkBft v1 committee new_in_memory 0 Hash_default ∅ ∅ ∅.
Definition block_a : Block :=
  MkBlock (MkBlockHeader 1 7 Hash_default Hash_default Hash_default (address_array v2)) (MkBlockBody []).
Definition block_b : Block :=
  MkBlock (MkBlockHeader 1 8 Hash_default Hash_default Hash_default (address_array v2)) (MkBlockBody []).
Definition vote_for (b : Block) (a : Address) : Vote := MkVote (block_hash b) 1 0 (address_array a).

Lemma engine0_new : new_with_store v1 committee new_in_memory Hash_default = Ok engine0.
Proof.
  unfold new_with_store. assert (is_validator committee v1 = true) as -> by (vm_compute; reflexivity).
  reflexivity.
Qed.
(** After receiving block A. *)
Definition engine1 : Engine := (handle_block block_a engine0).2.
(** After the votes of v3 and v4 for it. *)
Definition engine2 : Engine := handle_votes [vote_for block_a v3; vote_for block_a v4] engine1.
Definition engine3 : Engine := (finalize (block_hash block_a) 9 engine2).2.

Definition vote3 := vote_for block_a v3.
Definition vote4 := vote_for block_a v4.
Lemma step_engine1 : bft_step engine0 engine1.
Proof. exact (step_handle_block engine0 block_a). Qed.
Lemma steps_engine2 : rtc bft_step engine1 engine2.
Proof.
  apply (rtc_l _ _ _ _ (step_handle_vote engine1 vote3)).
  exact (rtc_once _ _ (step_handle_vote (handle_vote vote3 engine1).2 vote4)).
Qed.
Lemma step_engine3 : bft_step engine2 engine3.
Proof. apply (step_finalize engine2 (block_hash block_a) 9). by vm_compute. Qed.
Lemma steps_engine3 : rtc bft_step engine1 engine3.
Proof. exact (rtc_r _ _ _ steps_engine2 step_engine3). Qed.
Lemma steps_from_0 s : rtc bft_step engine1 s → rtc bft_step engine0 s.
Proof. exact (rtc_l _ _ _ _ step_engine1). Qed.
(** Block B arrives after the votes for block A. *)
Definition engine_b : Engine := (handle_block block_b engine2).2.
Definition engine_forked : Engine := (finalize (block_hash block_b) 9 engine_b).2.
Lemma steps_forked : rtc bft_step engine1 engine_forked.
Proof.
  transitivity engine2; [exact steps_engine2|].
  apply (rtc_l _ _ _ _ (step_handle_block engine2 block_b)).
  apply rtc_once. apply (step_finalize engine_b (block_hash block_b) 9). by vm_compute.
Qed.

Lemma forked_final : finalized engine_forked !! 1 = Some block_b.
Proof. vm_compute. reflexivity. Qed.
Lemma hashes_differ : block_hash block_a ≠ block_hash block_b.
Proof. apply (bool_decide_unpack _). vm_compute. exact I. Qed.
Lemma forked_votes :
  match rounds engine_forked !! 1 with
  | Some r => bool_decide (size (rd_votes r) = 3%nat) &&
      bool_decide (map_Forall (λ _ v, vt_block_hash v = block_hash block_a) (rd_votes r))
  | None => false
  end = true.
Proof. vm_compute. reflexivity. Qed.

(** Quorum counting ignores what was voted for: after three of four
    validators voted for block A and the proposer then sends block B at the same
    height, B is finalized although every recorded vote is for A. *)
Lemma quorum_counts_votes_for_another_block :
  ∃ s : Engine, rtc bft_step engine0 s ∧ finalized s !! 1 = Some block_b ∧
    block_hash block_a ≠ block_hash block_b ∧
    (∃ r, rounds s !! 1 = Some r ∧ size (rd_votes r) = 3%nat ∧
       map_Forall (λ _ v, vt_block_hash v = block_hash block_a) (rd_votes r)).
Proof.
  exists engine_forked. split; [exact (steps_from_0 _ steps_forked)|].
  split; [exact forked_final|]. split; [exact hashes_differ|].
  pose proof forked_votes as Hv. destruct (rounds engine_forked !! 1) as [r|]; [|done].
  exists r. apply andb_true_iff in Hv as [Hsize Hall].
  split; [reflexivity|]. split; [by apply bool_decide_eq_true in Hsize|].
  by apply bool_decide_eq_true in Hall.
Qed.

Lemma bft_chain_well_formed_witness :
  rtc bft_step engine0 engine3 ∧ (is_Some (finalized engine3 !! 1) ↔ 1 ≤ 1 ≤ height engine3).
Proof.
  split; [exact (steps_from_0 _ steps_engine3)|].
  exact (proj1 (bft_chain_well_formed v1 committee new_in_memory Hash_default engine0 engine3
    engine0_new (steps_from_0 _ steps_engine3)) 1).
Defined.
Lemma bft_finality_permanent_witness : height engine0 ≤ height engine3.
Proof.
  exact (proj1 (bft_finality_permanent v1 committee new_in_memory Hash_default engine0 engine0 engine3
    engine0_new (rtc_refl _ _) (steps_from_0 _ steps_engine3))).
Defined.
(** Height 2 is proposed by [v3]. *)
Definition block_2 : Block :=
  MkBlock (MkBlockHeader 2 9 (block_hash block_a) Hash_default Hash_default (address_array v3)) (MkBlockBody []).
Lemma bft_one_vote_per_height_witness :
  vt_height (vote_for block_a v1) ≠ vt_height (MkVote (block_hash block_2) 2 0 (address_array v1)).
Proof.
  apply (bft_one_vote_per_height Hash_default engine0 engine1 engine3
    (handle_block block_2 engine3).2 block_a (vote_for block_a v1) block_2
    (MkVote (block_hash block_2) 2 0 (address_array v1))).
  - by eapply new_with_store_inv, engine0_new.
  - apply pair_run. by vm_compute.
  - exact steps_engine3.
  - apply pair_run. by vm_compute.
Defined.
Lemma engine2_finalizes : (finalize (block_hash block_a) 9 engine2).1 = Ok (MkFinality block_a 9).
Proof. by vm_compute. Qed.
Lemma engine2_finality : finalize (block_hash block_a) 9 engine2 = (Ok (MkFinality block_a 9), engine3).
Proof. exact (pair_run _ _ engine2_finalizes). Qed.
Lemma bft_finalize_needs_quorum_witness :
  ∃ r, rounds engine2 !! 1 = Some r ∧ 2 * 4 < 3 * power_in committee (dom (rd_votes r)).
Proof.
  destruct (bft_finalize_needs_quorum engine2 (block_hash block_a) 9 (MkFinality block_a 9) engine3)
    as (r & p & Hr & _ & _ & _ & Hq & _).
  - by vm_compute.
  - by vm_compute.
  - exact engine2_finality.
  - exists r. split; [exact Hr|exact Hq].
Defined.
Definition round2 : RoundState := default RoundState_default (rounds engine2 !! 1).
Lemma round2_eq : rounds engine2 !! 1 = Some round2.
Proof.
  unfold round2. assert (bool_decide (is_Some (rounds engine2 !! 1)) = true) as Hr
    by (vm_compute; reflexivity).
  by apply bool_decide_eq_true in Hr as [r ->].
Qed.
Lemma round2_votes : map_Forall (λ _ v, vt_block_hash v = block_hash block_a) (rd_votes round2).
Proof. refine (bool_decide_eq_true_1 _ _). vm_compute. reflexivity. Qed.
(** The engine of [v3] after the same block, with other votes; [v4] may be
    Byzantine. *)
Definition other0 : Engine := MkBft v3 committee new_in_memory 0 Hash_default ∅ ∅ ∅.
Definition other2 : Engine :=
  handle_votes [vote_for block_a v1; vote_for block_a v2] (handle_block block_a other0).2.
Definition other3 : Engine := (finalize (block_hash block_a) 12 other2).2.
Definition other_round2 : RoundState := default RoundState_default (rounds other2 !! 1).
Lemma other0_new : new_with_store v3 committee new_in_memory Hash_default = Ok other0.
Proof.
  unfold new_with_store. assert (is_validator committee v3 = true) as -> by (vm_compute; reflexivity).
  reflexivity.
Qed.
Lemma votes_called (s : Engine) v w : rtc node_call s (handle_votes [v; w] s).
Proof.
  apply (rtc_l _ _ _ _ (nc_handle_vote s v)). exact (rtc_once _ _ (nc_handle_vote (handle_vote v s).2 w)).
Qed.
Lemma engine2_called : rtc node_call engine0 engine2.
Proof. exact (rtc_l _ _ _ _ (nc_handle_block engine0 block_a) (votes_called _ _ _)). Qed.
Lemma other2_called : rtc node_call other0 other2.
Proof. exact (rtc_l _ _ _ _ (nc_handle_block other0 block_a) (votes_called _ _ _)). Qed.
Lemma other2_finalizes : (finalize (block_hash block_a) 12 other2).1 = Ok (MkFinality block_a 12).
Proof. by vm_compute. Qed.
Lemma other2_finality : finalize (block_hash block_a) 12 other2 = (Ok (MkFinality block_a 12), other3).
Proof. exact (pair_run _ _ other2_finalizes). Qed.
Lemma other_round2_eq : rounds other2 !! 1 = Some other_round2.
Proof.
  unfold other_round2. assert (bool_decide (is_Some (rounds other2 !! 1)) = true) as Hr
    by (vm_compute; reflexivity).
  by apply bool_decide_eq_true in Hr as [r ->].
Qed.
Lemma other_round2_votes : map_Forall (λ _ v, vt_block_hash v = block_hash block_a) (rd_votes other_round2).
Proof. refine (bool_decide_eq_true_1 _ _). vm_compute. reflexivity. Qed.
Lemma rounds_differ : dom (rd_votes round2) ≠ dom (rd_votes other_round2).
Proof. apply (bool_decide_unpack _). vm_compute. exact I. Qed.
Lemma bft_finalized_blocks_agree_witness :
  dom (rd_votes round2) ≠ dom (rd_votes other_round2) ∧
  block_hash (fin_block (MkFinality block_a 9)) = block_hash (fin_block (MkFinality block_a 12)).
Proof.
  split; [exact rounds_differ|].
  refine (proj2 (proj2 (bft_finalized_blocks_agree v1 v3 committee committee new_in_memory new_in_memory
    Hash_default Hash_default engine0 other0 engine2 other2 (block_hash block_a) (block_hash block_a) 9 12
    (MkFinality block_a 9) (MkFinality block_a 12) engine3 other3 round2 other_round2 {[v4]}
    engine0_new engine2_called other0_new other2_called
    eq_refl _ eq_refl _ _ engine2_finality other2_finality round2_eq other_round2_eq
    round2_votes other_round2_votes _))).
  - vm_compute; reflexivity.
  - vm_compute; discriminate.
  - vm_compute; discriminate.
  - intros a w1 w2 _ Hw1 Hw2. by rewrite (round2_votes a w1 Hw1), (other_round2_votes a w2 Hw2).
Defined.
Lemma bft_votes_finalize_witness :
  ∃ s', finalize (block_hash block_a) 9 engine2 = (Ok (MkFinality block_a 9), s') ∧ height s' = 1.
Proof.
  destruct (bft_votes_finalize engine1
    (default RoundState_default (rounds engine1 !! 1)) (proposal_of_block block_a) block_a
    [vote_for block_a v3; vote_for block_a v4] 9) as (s' & Hf & Hh & _).
  - by vm_compute.
  - by vm_compute.
  - by vm_compute.
  - by vm_compute.
  - by vm_compute.
  - by vm_compute.
  - apply (bool_decide_unpack _). by vm_compute.
  - by vm_compute.
  - exists s'. split; [exact Hf|exact Hh].
Defined.

(** A staking table with one validator above and one below the threshold. *)
Definition staked : StateStore InMemoryBackend :=
  ((store_set_validator_record v4 (ValidatorRecord_new v4 [x07] 10000 0)
      (store_set_validator_record v3 (ValidatorRecord_new v3 [x07] 100000000000000 0) new_in_memory).2).2).
Definition engine_staked : Engine := set_state staked engine0.
Lemma active_set_staked :
  validators (validator_set (update_validator_set engine_staked).2) = {[v3 := 100000000000000]}.
Proof. refine (bool_decide_eq_true_1 _ _). vm_compute. reflexivity. Qed.
Lemma bft_active_set_correct_witness :
  ∃ s', update_validator_set engine_staked = (Ok tt, s') ∧
    validators (validator_set s') = {[v3 := 100000000000000]} ∧
    (size (validators (validator_set s')) ≤ 100)%nat.
Proof.
  exists (update_validator_set engine_staked).2.
  split; [apply pair_run; vm_compute; reflexivity|].
  split; [apply active_set_staked|].
  destruct (bft_active_set_correct engine_staked
    [(v3, ValidatorRecord_new v3 [x07] 100000000000000 0); (v4, ValidatorRecord_new v4 [x07] 10000 0)]
    (update_validator_set engine_staked).2 (Ok tt)) as [[Hnone _]|[Hsize _]].
  - by vm_compute.
  - apply (bool_decide_unpack _). by vm_compute.
  - apply pair_run. by vm_compute.
  - exfalso. specialize (Hnone (v3, ValidatorRecord_new v3 [x07] 100000000000000 0)).
    assert (eligible (ValidatorRecord_new v3 [x07] 100000000000000 0) = true) as He by by vm_compute.
    cbn [snd] in Hnone. rewrite Hnone in He by by left. done.
  - exact Hsize.
Defined.

(** [v2] proposes an empty block at height 1. *)
Definition engine_v2 : Engine := MkBft v2 committee new_in_memory 0 Hash_default ∅ ∅ ∅.
Lemma bft_propose_executes_block_witness :
  ∃ b, (propose 1 [] 5 engine_v2).1 = Ok b ∧ bh_height (header b) = 1 ∧
    own_proposal 1 (propose 1 [] 5 engine_v2).2 = Some b.
Proof.
  destruct (propose 1 [] 5 engine_v2) as [r s'] eqn:Hp.
  assert (is_ok (propose 1 [] 5 engine_v2).1 = true) as Hok by (vm_compute; reflexivity).
  rewrite Hp in Hok. destruct r as [b| |]; [|done..].
  destruct (bft_propose_executes_block engine_v2 ledger_empty 1 [] 5 b s')
    as (_ & _ & _ & _ & _ & _ & Hh & _ & _ & Hown & _).
  - apply new_in_memory_rel.
  - split; [intros v; by vm_compute|by vm_compute].
  - intros a. by vm_compute.
  - exact Hp.
  - exists b. by split_and!.
Defined.
Definition solo0 : SoloConsensus (StateStore InMemoryBackend) := solo_new new_in_memory v1 Hash_default.
Lemma solo_chain_linked_witness :
  ∃ bs, solo_run 1 [([], 5); ([], 6)] solo0 = Ok bs ∧ links Hash_default bs.
Proof.
  assert (is_ok (solo_run 1 [([], 5); ([], 6)] solo0) = true) as Hok by (vm_compute; reflexivity).
  destruct (solo_run 1 [([], 5); ([], 6)] solo0) as [bs| |] eqn:Hrun; [|done..].
  exists bs. split; [reflexivity|]. by apply (solo_chain_linked 1 [([], 5); ([], 6)] solo0 bs).
Defined.
(** The engine of [v1] finalizes block A as a follower. *)
Lemma follower_steps : rtc follower_step engine0 engine3.
Proof.
  exact (rtc_l _ _ _ _ (fl_handle_block engine0 block_a)
    (rtc_l _ _ _ _ (fl_handle_vote engine1 vote3)
    (rtc_l _ _ _ _ (fl_handle_vote (handle_vote vote3 engine1).2 vote4)
    (rtc_once _ _ (fl_finalize engine2 (block_hash block_a) 9))))).
Qed.
Lemma bft_followers_never_execute_witness :
  finalized engine3 !! 1 = Some block_a ∧ state engine3 = state engine0.
Proof.
  split; [vm_compute; reflexivity|].
  exact (proj1 (bft_followers_never_execute engine0 engine3 follower_steps)).
Defined.
End BftScenario.
