(* ===== verification/Engines.v ===== *)
(** * The traits behind the executors and the engines

    [trait Vm] ([pemrix-vm], [executor.rs]), [trait Mempool] and
    [trait ConsensusEngine] ([pemrix-consensus], [mempool.rs], [engine.rs]) as
    classes with the instances the crates give, what every instance promises, and
    what its users get from the promise alone.  The constructors and accessors of
    the engines that only their users call are here too. *)

From Stdlib Require Import Strings.Byte.
From S2P Require Import Prelude.
From S2P Require Import Externals.
From S2P Require Import Primitives.
From S2P Require Import Storage.
From S2P Require Import StateStore.
From S2P Require Import Crypto.
From S2P Require Import Vm.
From S2P Require Import VmTheorems.
From S2P Require Import ValidatorSet.
From S2P Require Import Mempool.
From S2P Require Import Bft.
From S2P Require Import BftTheorems.
From S2P Require Import BftProperties.
Local Open Scope N_scope.

(** ** [trait Vm] *)
Class Vm (V : Type) := vm_execute : ∀ {S} `{Store S}, V → Transaction → M S VmError ExecutionResult.

Inductive NativeExecutor := MkNativeExecutor.
Inductive BlockExecutor := MkBlockExecutor.
Inductive StakingExecutor := MkStakingExecutor.
Inductive WasmVm := MkWasmVm.

Section vms.
Context `{Profile, Blake3, Dalek, !Serde Transaction, !Serde StakingOperation}.
(** What [wasmtime] makes of a module, and how a number is printed. *)
Context (run_contract : bytes → outcome VmError Z) (pretty : Z → string).

#[export] Instance NativeExecutor_Vm : Vm NativeExecutor := λ S _ _ t, native_execute t.
#[export] Instance BlockExecutor_Vm : Vm BlockExecutor := λ S _ _ t, execute t.
#[export] Instance StakingExecutor_Vm : Vm StakingExecutor := λ S _ _ t, staking_execute t.
#[local] Instance WasmVm_Vm : Vm WasmVm := λ S _ _ t, wasm_execute run_contract pretty t.

(** What a virtual machine promises: it sees the state only through the store, so
    that it does the same on any two stores that answer alike. *)
Class VmLaws (V : Type) `{Vm V} : Prop :=
  law_vm_sim : ∀ {S T} {R : S → T → Prop} `{StoreSim S T R} (v : V) t,
    sim R (vm_execute v t) (vm_execute v t).

#[export] Instance NativeExecutor_laws : VmLaws NativeExecutor.
Proof. intros S T R HS HT HR v t. apply sim_native_execute. Qed.
#[export] Instance BlockExecutor_laws : VmLaws BlockExecutor.
Proof. intros S T R HS HT HR v t. apply sim_execute. Qed.
#[export] Instance StakingExecutor_laws : VmLaws StakingExecutor.
Proof. intros S T R HS HT HR v t. apply sim_staking_execute. Qed.
#[export] Instance WasmVm_laws : VmLaws WasmVm.
Proof.
  intros S T R HS HT HR v t. unfold vm_execute, WasmVm_Vm, wasm_execute. simulate.
Qed.

(** [WasmVm::run_contract] with the [wasm] feature, over the calls it makes to
    [wasmtime]; a module, an instance and its [run] function are what they give. *)
Class Wasmtime := {
  WtModule : Type;
  WtInstance : Type;
  WtFunc : Type;
  wt_module : bytes → option WtModule;
  wt_instantiate : WtModule → option WtInstance;
  wt_get_run : WtInstance → option WtFunc;
  wt_call : WtFunc → option Z;
}.
Definition wasm_run_contract `{Wasmtime} (wasm : bytes) : outcome VmError Z :=
  module ← ok_or (wt_module wasm) InvalidContract;
  inst ← ok_or (wt_instantiate module) InvalidContract;
  run ← ok_or (wt_get_run inst) InvalidContract;
  ok_or (wt_call run) (Execution "contract trap").
(** A contract fails to load or traps; nothing else goes wrong. *)
Lemma wasm_run_contract_errors `{Wasmtime} wasm e :
  wasm_run_contract wasm = Err e → e = InvalidContract ∨ e = Execution "contract trap".
Proof.
  unfold wasm_run_contract. destruct (wt_module wasm) as [m|]; [|intros [= <-]; by left]. cbn.
  destruct (wt_instantiate m) as [i|]; [|intros [= <-]; by left]. cbn.
  destruct (wt_get_run i) as [f|]; [|intros [= <-]; by left]. cbn.
  destruct (wt_call f); [done|]. intros [= <-]. by right.
Qed.

(** A contract call never touches the state. *)
Lemma wasm_reads_nothing {S} `{Store S} t (s : S) : (vm_execute MkWasmVm t s).2 = s.
Proof.
  unfold vm_execute, WasmVm_Vm, wasm_execute. case_bool_decide; [done|]. rewrite bind_lift.
  by destruct (run_contract (tx_payload t)).
Qed.
End vms.

(** ** [trait Mempool] *)
Class Mempool (P : Type) := {
  mp_add : Transaction → M P string unit;
  mp_drain : N → M P string (list Transaction);
  mp_len : P → N;
  mp_is_empty : P → bool;
}.
#[export] Instance SimpleMempool_Mempool : Mempool SimpleMempool := {|
  mp_add := mempool_add;
  mp_drain := mempool_drain;
  mp_len := mempool_len;
  mp_is_empty := mempool_is_empty;
|}.
(** What a mempool promises, with the waiting transactions as a list. *)
Class MempoolLaws (P : Type) `{Mempool P} := {
  mp_waiting : P → list Transaction;
  law_add t p : ∃ p', mp_add t p = (Ok tt, p') ∧ mp_waiting p' = mp_waiting p ++ [t];
  law_drain n p : ∃ p', mp_drain n p = (Ok (take (N.to_nat n) (mp_waiting p)), p') ∧
    mp_waiting p' = drop (N.to_nat n) (mp_waiting p);
  law_len p : mp_len p = N.of_nat (length (mp_waiting p));
  law_is_empty p : mp_is_empty p = (mp_len p =? 0);
}.
#[export] Instance SimpleMempool_laws : MempoolLaws SimpleMempool.
Proof.
  refine {| mp_waiting := pool |}.
  - intros t p. by eexists.
  - intros n p. eexists. split; [apply mempool_drain_run|done].
  - done.
  - by intros [[|t ts]].
Defined.
(** Adding a list of transactions, as the loops do. *)
Lemma add_all `{MempoolLaws P} (ts : list Transaction) (p : P) :
  ∃ p', forM mp_add ts p = (Ok tt, p') ∧ mp_waiting p' = mp_waiting p ++ ts.
Proof.
  revert p. induction ts as [|t ts IH]; intros p.
  - exists p. by rewrite (right_id_L [] (++)).
  - destruct (law_add t p) as (p1 & Hadd & Hw1). destruct (IH p1) as (p2 & Hall & Hw2).
    exists p2. cbn [forM]. rewrite (bind_Ok tt _ p p1 _ Hadd). split; [done|].
    by rewrite Hw2, Hw1, <-(assoc_L (++)).
Qed.

(** ** [trait ConsensusEngine] *)
Class ConsensusEngine (E : Type) := {
  ce_propose : N → list Transaction → N → M E ConsensusError Block;
  ce_handle_proposal : Proposal → M E ConsensusError unit;
  ce_handle_vote : Vote → M E ConsensusError unit;
  ce_finalize : Hash → N → M E ConsensusError Finality;
  ce_height : E → N;
  ce_validator_address : E → option Address;
}.

Section engines.
Context {S : Type} `{Store S, Profile, Blake3, Dalek, !Serde Transaction, !Serde StakingOperation}.
Context `{!Serde BlockHeader, !Serde (list Transaction)}.

(** [impl ConsensusEngine for BftConsensus] *)
#[export] Instance BftConsensus_Engine : ConsensusEngine (BftConsensus S) := {|
  ce_propose := propose;
  ce_handle_proposal := handle_proposal;
  ce_handle_vote := handle_vote;
  ce_finalize := finalize;
  ce_height := height;
  ce_validator_address s := Some (local_address s);
|}.
(** [impl ConsensusEngine for SoloConsensus] *)
#[export] Instance SoloConsensus_Engine : ConsensusEngine (SoloConsensus S) := {|
  ce_propose := solo_propose;
  ce_handle_proposal := solo_handle_proposal;
  ce_handle_vote := solo_handle_vote;
  ce_finalize := solo_finalize;
  ce_height := solo_height;
  ce_validator_address s := Some (solo_proposer s);
|}.

(** The methods of an engine. *)
Inductive engine_call `{ConsensusEngine E} : E → E → Prop :=
| call_propose s h txs now : engine_call s (ce_propose h txs now s).2
| call_handle_proposal s p : engine_call s (ce_handle_proposal p s).2
| call_handle_vote s v : engine_call s (ce_handle_vote v s).2
| call_finalize s hash now : engine_call s (ce_finalize hash now s).2.

(** What an engine promises: a block it proposes is for the height asked for, holds
    the transactions given to it under their root, bears the time it was given and
    the engine's own address, and no call changes that address. *)
Record proposed_block (h : N) (txs : list Transaction) (now : N) (by_whom : option Address) (b : Block)
    : Prop := {
  pb_height : bh_height (header b) = h;
  pb_transactions : transactions (body b) = txs;
  pb_root : bh_tx_root (header b) = hash_bytes (encode txs);
  pb_timestamp : bh_timestamp (header b) = now;
  pb_proposer : Some (MkAddress (bh_proposer (header b))) = by_whom;
}.
Class EngineLaws (E : Type) `{ConsensusEngine E} : Prop := {
  law_proposed h txs now s b s' :
    ce_propose h txs now s = (Ok b, s') → proposed_block h txs now (ce_validator_address s) b;
  law_address s s' : engine_call s s' → ce_validator_address s' = ce_validator_address s;
}.

(** Goes through a call of an engine; closes every step that leaves the address
    alone. *)
Ltac keep_address :=
  repeat match goal with
    | |- keeps _ (_ ≫= _) _ => eapply keeps_bind; [|intros ? _]
    | |- keeps _ (mret _) _ => apply (keeps_ret _ _ (λ _, True)); exact I
    | |- keeps _ (fail _) _ => apply keeps_fail
    | |- keeps _ (gets _) _ => apply keeps_gets
    | |- keeps _ (reads _) _ => apply keeps_reads
    | |- keeps _ (modify _) _ => apply keeps_modify; by intros
    | |- keeps _ (zoom _ _ _) _ => apply keeps_zoom; by intros
    | |- keeps _ (lift _) _ => apply keeps_lift
    | |- keeps _ (if _ then _ else _) _ => apply keeps_if; intros _
    | |- keeps _ (match ?x with _ => _ end) _ => destruct x
    end.
Lemma address_try_finalize l h : keeps (λ s : BftConsensus S, local_address s = l) (try_finalize h) (λ _, True).
Proof. intros s Hs. unfold try_finalize. by repeat case_match. Qed.
Lemma address_update l :
  keeps (λ s : BftConsensus S, local_address s = l) update_validator_set (λ _, True).
Proof. intros s Hs. unfold update_validator_set. by repeat case_match. Qed.
Lemma address_kept (s s' : BftConsensus S) : engine_call s s' → local_address s' = local_address s.
Proof.
  assert (∀ A (m : M (BftConsensus S) ConsensusError A) Q x,
    keeps (λ s, local_address s = local_address x) m Q → local_address (m x).2 = local_address x) as Hm
    by (intros A m Q x Hk; by apply Hk).
  intros [s0 h txs now|s0 p|s0 v|s0 hash now]; simpl; eapply (Hm _ _ (λ _, True)).
  - unfold propose, build_block. keep_address. apply address_update.
  - unfold handle_proposal. keep_address.
  - unfold handle_vote. keep_address.
  - unfold finalize. keep_address. apply address_try_finalize.
Qed.

(** A proposal that succeeds is of the block the engine built. *)
Lemma propose_built h txs now (s : BftConsensus S) b s' :
  propose h txs now s = (Ok b, s') → ∃ s1, build_block h txs now s = (Ok b, s1).
Proof.
  unfold propose. intros (o & s1 & Ho & Hrun)%bind_Ok_inv.
  assert (s1 = s) as -> by by injection Ho. clear Ho. rewrite bind_lift in Hrun.
  destruct (ok_or o NotProposer) as [p|e|]; [|done..].
  rewrite (bind_Ok (local_address s) _ s s) in Hrun by done. case_bool_decide; [done|].
  apply bind_Ok_inv in Hrun as (b' & s2 & Hb & Hrun). exists s2. rewrite Hb. repeat f_equal.
  unfold mbind, M_bind, modify in Hrun. simpl in Hrun. by injection Hrun.
Qed.
#[export] Instance BftConsensus_laws : EngineLaws (BftConsensus S).
Proof.
  split.
  - intros h txs now s b s' Hrun. destruct (propose_built _ _ _ _ _ _ Hrun) as (s1 & Hb).
    apply build_block_Ok in Hb as (_ & _ & _ & _ & _ & Htx & Hh & Ht & _ & _ & Hroot & Hp).
    split; [done..|]. simpl. by rewrite Hp.
  - intros s s' Hcall. simpl. by rewrite (address_kept s s').
Qed.
#[export] Instance SoloConsensus_laws : EngineLaws (SoloConsensus S).
Proof.
  split.
  - intros h txs now s b s'. simpl. unfold solo_propose.
    intros (u & s1 & Hrun & Hb)%bind_Ok_inv. unfold zoom in Hrun.
    destruct (run_block txs (solo_state s)) as [o st1]. injection Hrun as -> <-.
    apply bind_Ok_inv in Hb as (root & s2 & Hroot & Hb). unfold reads in Hroot. injection Hroot as _ <-.
    injection Hb as <- _. split; [done..|]. simpl. by rewrite address_eta.
  - intros s s' Hcall. simpl.
    assert (∀ l h txs now, keeps (λ s : SoloConsensus S, solo_proposer s = l) (solo_propose h txs now) (λ _, True)) as Hp.
    { intros l h txs now. unfold solo_propose. keep_address. }
    destruct Hcall as [s0 h txs now|s0 p|s0 v|s0 hash now]; simpl; [|done..].
    by rewrite (proj1 (Hp (solo_proposer s0) h txs now s0 eq_refl)).
Qed.

(** *** Users of an engine *)

(** The loops of [start_solo], [sandbox] and the testnets: propose at consecutive
    heights, a list of transactions and an instant for each. *)
Fixpoint propose_all `{ConsensusEngine E} (h : N) (batches : list (list Transaction * N))
    : M E ConsensusError (list Block) :=
  match batches with
  | [] => mret []
  | (txs, now) :: batches =>
      b ← ce_propose h txs now; bs ← propose_all (h + 1) batches; mret (b :: bs)
  end.
(** Whatever the engine, such a loop gives one block for each list, in order, at
    the height of its position, all by the same proposer. *)
Lemma propose_all_blocks `{EngineLaws E} h batches (s s' : E) bs :
  propose_all h batches s = (Ok bs, s') →
  length bs = length batches ∧
  ∀ i b, bs !! i = Some b → ∃ txs now, batches !! i = Some (txs, now) ∧
    proposed_block (h + N.of_nat i) txs now (ce_validator_address s) b.
Proof.
  revert h s bs. induction batches as [|[txs now] batches IH]; intros h s bs; cbn [propose_all].
  { by intros [= <- <-]. }
  intros (b & s1 & Hb & (bs' & s2 & Hrun & [= <- <-])%bind_Ok_inv)%bind_Ok_inv.
  destruct (IH _ _ _ Hrun) as [Hlen Hall]. split; [simpl; by rewrite Hlen|].
  intros [|i] b' Hi; simpl in Hi.
  - injection Hi as <-. exists txs, now. rewrite N.add_0_r. split; [done|by eapply law_proposed].
  - destruct (Hall i b' Hi) as (txs' & now' & Hbatch & Hp). exists txs', now'. split; [done|].
    assert (ce_validator_address s1 = ce_validator_address s) as <-.
    { rewrite <-(law_address s s1); [done|]. replace s1 with (ce_propose h txs now s).2 by by rewrite Hb.
      constructor. }
    by replace (h + N.of_nat (Datatypes.S i)) with (h + 1 + N.of_nat i) by lia.
Qed.
End engines.

(** ** Constructors and accessors *)
Section constructors.
Context `{Profile, Blake3, Dalek, Hex, !Serde Account, !Serde (gmap string bytes)}.
Context `{!Serde ValidatorRecord, !Serde Delegation}.

(** [BftConsensus::new_with_previous_hash] and [BftConsensus::new] *)
Definition bft_new_with_previous_hash (local : Address) (vs : ValidatorSet) (previous : Hash)
    : outcome ConsensusError (BftConsensus (StateStore InMemoryBackend)) :=
  new_with_store local vs new_in_memory previous.
Definition bft_new (local : Address) (vs : ValidatorSet)
    : outcome ConsensusError (BftConsensus (StateStore InMemoryBackend)) :=
  bft_new_with_previous_hash local vs Hash_default.
(** [SoloConsensus::new_with_previous_hash] and [SoloConsensus::new] *)
Definition solo_new_with_previous_hash (proposer : Address) (previous : Hash)
    : SoloConsensus (StateStore InMemoryBackend) := solo_new new_in_memory proposer previous.
Definition SoloConsensus_new (proposer : Address) : SoloConsensus (StateStore InMemoryBackend) :=
  solo_new_with_previous_hash proposer Hash_default.
(** [BftConsensus::vote_count] *)
Definition vote_count {S} (h : N) (s : BftConsensus S) : nat :=
  from_option (λ r, size (rd_votes r)) 0%nat (rounds s !! h).
(** [fund] of the two engines; [unwrap] panics when the store fails. *)
Definition unwrapped {S E A} (m : M S StorageError A) : M S E A := λ s,
  match m s with
  | (Ok a, s) => (Ok a, s)
  | (_, s) => (Panic, s)
  end.
Definition bft_fund {S} `{Store S} (a : Address) (balance : N) : M (BftConsensus S) ConsensusError unit :=
  zoom state set_state (unwrapped (store_set_account a (MkAccount balance 0))).
Definition solo_fund (a : Address) (balance : N)
    : M (SoloConsensus (StateStore InMemoryBackend)) ConsensusError unit :=
  zoom solo_state (λ st s, MkSolo st (solo_height s) (solo_proposer s) (solo_previous_hash s))
    (unwrapped (store_set_account a (MkAccount balance 0))).
End constructors.
