(* ===== verification/Sandbox.v ===== *)
(** * Crate [pemrix-sandbox]: the developer sandbox

    A solo engine over an in-memory store, a mempool and an index of the blocks
    and transactions; its operations and the chain they build. *)

From Stdlib Require Import Strings.Byte.
From S2P Require Import Prelude.
From S2P Require Import Externals.
From S2P Require Import Primitives.
From S2P Require Import Storage.
From S2P Require Import StateStore.
From S2P Require Import Crypto.
From S2P Require Import Vm.
From S2P Require Import Mempool.
From S2P Require Import Bft.
From S2P Require Import BftProperties.
Local Open Scope N_scope.

(** ** Data *)
Inductive SandboxError :=
| SxConsensus (msg : string) | SxStorage (msg : string) | SxTransactionNotFound | SxBlockNotFound.

(** [impl Display for ConsensusError] and [StorageError] *)
Definition ConsensusError_to_string (e : ConsensusError) : string :=
  match e with
  | InvalidProposal => "invalid proposal"
  | InvalidVote => "invalid vote"
  | ExecutionFailed msg => "execution failed: " +:+ msg
  | ConsensusStorage => "storage error"
  | Network msg => "network error: " +:+ msg
  | NotProposer => "not the proposer"
  | AlreadyFinalized => "already finalized"
  end.
Definition StorageError_to_string (e : StorageError) : string :=
  match e with
  | NotFound => "key not found"
  | Backend msg => "backend error: " +:+ msg
  | Serialization => "serialization error"
  | StateRootMismatch => "state root mismatch"
  end.

Record Sandbox := MkSandbox {
  sx_proposer : Address;
  sx_consensus : SoloConsensus (StateStore InMemoryBackend);
  sx_mempool : SimpleMempool;
  sx_blocks : gmap N Block;
  sx_blocks_by_hash : gmap Hash Block;
  sx_transactions : gmap Hash Transaction;
  sx_pending : list Transaction;
  sx_height : N;
}.

Section sandbox.
Context `{Profile, Hex, Blake3, Dalek, !Serde Account, !Serde (gmap string bytes)}.
Context `{!Serde ValidatorRecord, !Serde Delegation, !Serde Transaction, !Serde StakingOperation}.
Context `{!Serde BlockHeader, !Serde (list Transaction)}.
Notation SX := (M Sandbox SandboxError).

(** [impl From<ConsensusError> for SandboxError] and [From<StorageError>] *)
Definition from_consensus (e : ConsensusError) : SandboxError := SxConsensus (ConsensusError_to_string e).
Definition from_storage (e : StorageError) : SandboxError := SxStorage (StorageError_to_string e).

Definition set_consensus (c : SoloConsensus (StateStore InMemoryBackend)) (s : Sandbox) : Sandbox :=
  MkSandbox (sx_proposer s) c (sx_mempool s) (sx_blocks s) (sx_blocks_by_hash s)
    (sx_transactions s) (sx_pending s) (sx_height s).
Definition set_mempool (m : SimpleMempool) (s : Sandbox) : Sandbox :=
  MkSandbox (sx_proposer s) (sx_consensus s) m (sx_blocks s) (sx_blocks_by_hash s)
    (sx_transactions s) (sx_pending s) (sx_height s).

Definition sandbox_new (proposer : Address) : Sandbox :=
  MkSandbox proposer (solo_new new_in_memory proposer Hash_default) SimpleMempool_new ∅ ∅ ∅ [] 0.
Definition sandbox_default : Sandbox := sandbox_new Address_default.

Definition fund (a : Address) (balance : N) : SX unit :=
  map_errM from_storage
    (zoom sx_consensus set_consensus
      (zoom solo_state (λ st c, MkSolo st (solo_height c) (solo_proposer c) (solo_previous_hash c))
        (store_set_account a (MkAccount balance 0)))).

Definition sandbox_submit (t : Transaction) : SX Hash :=
  let hash := tx_hash t in
  _ ← map_errM SxConsensus (zoom sx_mempool set_mempool (mempool_add t));
  _ ← modify (λ s, MkSandbox (sx_proposer s) (sx_consensus s) (sx_mempool s) (sx_blocks s)
        (sx_blocks_by_hash s) (<[hash := t]> (sx_transactions s)) (sx_pending s ++ [t]) (sx_height s));
  mret hash.

(** [retain(|tx| !txs.iter().any(|t| t.hash() == tx.hash()))] *)
Definition retain_pending (txs pending : list Transaction) : list Transaction :=
  filter (λ tx, tx_hash tx ∉ tx_hash <$> txs) pending.
Definition produce_block (now : N) : SX Block :=
  height ← reads (λ s, uadd U64 (sx_height s) 1);
  _ ← modify (λ s, MkSandbox (sx_proposer s) (sx_consensus s) (sx_mempool s) (sx_blocks s)
        (sx_blocks_by_hash s) (sx_transactions s) (sx_pending s) height);
  txs ← map_errM SxConsensus (zoom sx_mempool set_mempool (mempool_drain 1000));
  _ ← modify (λ s, MkSandbox (sx_proposer s) (sx_consensus s) (sx_mempool s) (sx_blocks s)
        (sx_blocks_by_hash s) (sx_transactions s) (retain_pending txs (sx_pending s)) (sx_height s));
  block ← map_errM from_consensus
            (zoom sx_consensus set_consensus (solo_propose height txs now));
  let hash := block_hash block in
  _ ← modify (λ s, MkSandbox (sx_proposer s) (sx_consensus s) (sx_mempool s)
        (<[height := block]> (sx_blocks s)) (<[hash := block]> (sx_blocks_by_hash s))
        (foldl (λ m tx, <[tx_hash tx := tx]> m) (sx_transactions s) txs) (sx_pending s) (sx_height s));
  mret block.

Definition sandbox_balance (s : Sandbox) (a : Address) : outcome SandboxError N :=
  map_err from_storage (store_balance (solo_state (sx_consensus s)) a).
Definition sandbox_nonce (s : Sandbox) (a : Address) : outcome SandboxError N :=
  map_err from_storage (store_nonce (solo_state (sx_consensus s)) a).
Definition sandbox_block_by_height (s : Sandbox) (h : N) : outcome SandboxError Block :=
  ok_or (sx_blocks s !! h) SxBlockNotFound.
Definition sandbox_block_by_hash (s : Sandbox) (h : Hash) : outcome SandboxError Block :=
  ok_or (sx_blocks_by_hash s !! h) SxBlockNotFound.
Definition sandbox_transaction (s : Sandbox) (h : Hash) : outcome SandboxError Transaction :=
  ok_or (sx_transactions s !! h) SxTransactionNotFound.
Definition reset (s : Sandbox) : Sandbox :=
  MkSandbox (sx_proposer s) (solo_new new_in_memory (sx_proposer s) Hash_default) SimpleMempool_new
    ∅ ∅ ∅ [] 0.

(** ** Histories of calls *)
Inductive sandbox_op :=
| SxFund (a : Address) (balance : N)
| SxSubmit (t : Transaction)
| SxProduce (now : N)
| SxReset.
Definition sandbox_step (s : Sandbox) (o : sandbox_op) : Sandbox :=
  match o with
  | SxFund a n => (fund a n s).2
  | SxSubmit t => (sandbox_submit t s).2
  | SxProduce now => (produce_block now s).2
  | SxReset => reset s
  end.
Definition sandbox_run (s : Sandbox) (ops : list sandbox_op) : Sandbox := foldl sandbox_step s ops.

(** The sandbox once the transactions of the next block are drained. *)
Definition drained (s : Sandbox) : Sandbox :=
  let txs := take 1000 (pool (sx_mempool s)) in
  MkSandbox (sx_proposer s) (sx_consensus s) (MkMempool (drop 1000 (pool (sx_mempool s))))
    (sx_blocks s) (sx_blocks_by_hash s) (sx_transactions s) (retain_pending txs (sx_pending s))
    (sx_height s + 1).

Lemma produce_block_run now s :
  sx_height s < U64 →
  let txs := take 1000 (pool (sx_mempool s)) in
  produce_block now s =
    match solo_propose (sx_height s + 1) txs now (sx_consensus s) with
    | (Ok b, c) =>
        let s1 := drained s in
        (Ok b, MkSandbox (sx_proposer s1) c (sx_mempool s1)
          (<[sx_height s + 1 := b]> (sx_blocks s1)) (<[block_hash b := b]> (sx_blocks_by_hash s1))
          (foldl (λ m tx, <[tx_hash tx := tx]> m) (sx_transactions s1) txs)
          (sx_pending s1) (sx_height s1))
    | (Err e, c) => (Err (from_consensus e), set_consensus c (drained s))
    | (Panic, c) => (Panic, set_consensus c (drained s))
    end.
Proof.
  intros Hh txs. unfold produce_block, mbind, M_bind, reads, modify, map_errM, zoom.
  rewrite uadd_ok by lia. cbn -[mempool_drain solo_propose]. rewrite mempool_drain_run.
  change (N.to_nat 1000) with 1000%nat.
  cbn -[solo_propose]. fold txs.
  by destruct (solo_propose (sx_height s + 1) txs now (sx_consensus s)) as [[b|e|] c].
Qed.
Lemma solo_propose_failed h txs now (c c' : SoloConsensus (StateStore InMemoryBackend)) r :
  solo_propose h txs now c = (r, c') → is_ok r = false → solo_previous_hash c' = solo_previous_hash c.
Proof.
  unfold solo_propose, mbind, M_bind, zoom, reads, gets, modify, mret, M_ret.
  destruct (run_block txs (solo_state c)) as [[[]|e|] st]; simpl; [|by intros [= <- <-]..].
  destruct (ss_state_root st); simpl; by intros [= <- <-].
Qed.

(** *** The chain invariant: [bs] are the blocks produced, oldest first. *)
Record sandbox_chain_of (bs : list Block) (s : Sandbox) : Prop := {
  sc_links : links Hash_default bs;
  sc_previous : solo_previous_hash (sx_consensus s) = default Hash_default (block_hash <$> last bs);
  sc_sorted : StronglySorted (λ b c, bh_height (header b) < bh_height (header c)) bs;
  sc_heights b : b ∈ bs → 1 ≤ bh_height (header b) ≤ sx_height s;
  sc_blocks h b : sx_blocks s !! h = Some b ↔ b ∈ bs ∧ bh_height (header b) = h;
  sc_by_hash k b : sx_blocks_by_hash s !! k = Some b → b ∈ bs ∧ block_hash b = k;
}.
Lemma sandbox_chain_new p : sandbox_chain_of [] (sandbox_new p).
Proof.
  split; simpl; try done.
  - constructor.
  - intros b Hb. by apply elem_of_nil in Hb.
  - intros h b. split; [done|]. intros [Hb _]. by apply elem_of_nil in Hb.
Qed.
Lemma links_snoc prev bs b :
  links prev bs → bh_previous_hash (header b) = default prev (block_hash <$> last bs) →
  links prev (bs ++ [b]).
Proof.
  intros Hl Hb i c. rewrite lookup_app_Some. intros [Hi|[Hge Hi]].
  - rewrite (Hl i c Hi). destruct i as [|j]; [done|]. f_equal. f_equal. symmetry.
    apply lookup_app_l. apply lookup_lt_Some in Hi. lia.
  - destruct (i - length bs)%nat as [|n] eqn:Hn; [|done]. simpl in Hi. simplify_eq.
    assert (i = length bs) as -> by lia. rewrite Hb, last_lookup.
    destruct bs as [|x bs]; [done|]. cbn [length Nat.pred]. f_equal. f_equal. symmetry.
    by apply lookup_app_l; simpl; lia.
Qed.
Lemma sandbox_chain_keep bs s s' :
  sandbox_chain_of bs s → solo_previous_hash (sx_consensus s') = solo_previous_hash (sx_consensus s) →
  sx_blocks s' = sx_blocks s → sx_blocks_by_hash s' = sx_blocks_by_hash s →
  sx_height s ≤ sx_height s' → sandbox_chain_of bs s'.
Proof.
  intros [Hl Hp Hs Hh Hb Hk] Hp' Hb' Hk' Hle. split; rewrite ?Hp', ?Hb', ?Hk'; try done.
  intros b Hin. specialize (Hh b Hin). lia.
Qed.
Lemma sandbox_chain_produce bs now s :
  sandbox_chain_of bs s → sx_height s < U64 →
  ∃ bs', sandbox_chain_of bs' (produce_block now s).2 ∧
    bs' = bs ++ match (produce_block now s).1 with Ok b => [b] | _ => [] end.
Proof.
  intros Hc Hh. rewrite produce_block_run by done. cbn zeta.
  destruct (solo_propose _ _ _ _) as [[b|e|] c] eqn:Hp; cbn [fst snd].
  2,3: exists bs; rewrite (right_id_L [] (++)); split; [|done];
    apply (sandbox_chain_keep bs s); [done|by apply solo_propose_failed in Hp|done|done|simpl; lia].
  exists (bs ++ [b]). split; [|done].
  apply solo_propose_Ok in Hp as (_ & _ & Hprev & Hlink & Hbh & _).
  destruct Hc as [Hl Hpr Hs Hhs Hb Hk]. split; simpl.
  - apply links_snoc; [done|]. by rewrite Hlink.
  - by rewrite last_snoc.
  - apply StronglySorted_app. split_and!; [|done|by repeat constructor].
    intros x y Hx ->%list_elem_of_singleton. specialize (Hhs x Hx). lia.
  - intros x [Hx| ->%list_elem_of_singleton]%elem_of_app; [specialize (Hhs x Hx)|]; lia.
  - intros h x. rewrite elem_of_app, list_elem_of_singleton, lookup_insert_Some, Hb. split.
    + intros [[<- <-]|[Hne [Hx Heq]]]; auto.
    + intros [[Hx| ->] <-]; [|left; by rewrite Hbh]. right. split; [|done].
      specialize (Hhs x Hx). lia.
  - intros k x. rewrite elem_of_app, list_elem_of_singleton, lookup_insert_Some.
    intros [[<- <-]|[_ Hx]]; [by auto|]. apply Hk in Hx as [??]. auto.
Qed.
Lemma sandbox_step_chain bs s o :
  sandbox_chain_of bs s → sx_height s < U64 →
  sx_height (sandbox_step s o) ≤ sx_height s + 1 ∧ ∃ bs', sandbox_chain_of bs' (sandbox_step s o).
Proof.
  intros Hc Hh. destruct o as [a n|t|now|]; simpl.
  - split; [lia|]. exists bs. by apply (sandbox_chain_keep bs s).
  - split; [lia|]. exists bs. by apply (sandbox_chain_keep bs s).
  - destruct (sandbox_chain_produce bs now s Hc Hh) as (bs' & Hc' & _). split; [|by exists bs'].
    rewrite produce_block_run by done. cbn zeta.
    destruct (solo_propose _ _ _ _) as [[b|e|] c]; simpl; lia.
  - split; [lia|]. exists []. apply sandbox_chain_new.
Qed.

(** C34: Whatever calls are made on a sandbox, the blocks it holds form a chain
    [bs] since the last reset: each names its predecessor's hash (the first the
    zero hash), their heights increase and are at most the sandbox's height, the
    height index holds exactly these blocks under their heights, and the hash
    index only these blocks under their hashes. *)
Theorem sandbox_chain (proposer : Address) (ops : list sandbox_op) :
  N.of_nat (length ops) ≤ U64 →
  ∃ bs, sandbox_chain_of bs (sandbox_run (sandbox_new proposer) ops).
Proof.
  assert (∀ s bs, sandbox_chain_of bs s → sx_height s + N.of_nat (length ops) ≤ U64 →
    ∃ bs', sandbox_chain_of bs' (sandbox_run s ops)) as Hall.
  { induction ops as [|o ops IH]; intros s bs Hc Hle; [by exists bs|]. simpl in *.
    destruct (sandbox_step_chain bs s o Hc) as [Hh [bs' Hc']]; [lia|].
    apply (IH _ bs'); [done|lia]. }
  intros Hle. eapply Hall; [apply sandbox_chain_new|done].
Qed.

(** A block that cannot be produced takes its transactions with it: the first
    thousand pending transactions are in no block, and are neither in the mempool
    nor pending any more, although only one of them failed; the height was
    nevertheless used up. *)
Lemma sandbox_failed_block_drops_transactions (s : Sandbox) (now : N) (e : SandboxError) :
  sx_height s < U64 → (produce_block now s).1 = Err e →
  let s' := (produce_block now s).2 in
  let txs := take 1000 (pool (sx_mempool s)) in
  sx_blocks s' = sx_blocks s ∧ sx_height s' = sx_height s + 1 ∧
  pool (sx_mempool s) = txs ++ pool (sx_mempool s') ∧
  ∀ t, t ∈ txs → t ∉ sx_pending s'.
Proof.
  intros Hh He s' txs. unfold s'. revert He. rewrite produce_block_run by done. fold txs. cbn zeta.
  destruct (solo_propose _ _ _ _) as [[b|e'|] c]; [done| |done]. intros _. simpl.
  split_and!; [done|done|unfold txs; by rewrite take_drop|].
  intros t Ht. unfold retain_pending. rewrite list_elem_of_filter. intros [Hnot _].
  apply Hnot, list_elem_of_fmap. by exists t.
Qed.
End sandbox.
