(* ===== verification/Network.v ===== *)
(** * Crate [pemrix-network]: messages, peers and the mock transport

    [message.rs], [peer.rs], [transport.rs] and the stub of [quic.rs].  The order
    in which a [HashMap] yields its keys is a parameter. *)

From Stdlib Require Import Strings.Byte.
From S2P Require Import Prelude.
From S2P Require Import Externals.
From S2P Require Import Primitives.

(** ** [peer.rs] *)
Record PeerId := MkPeerId { peer_array : array32 }.
#[export] Instance PeerId_eq_dec : EqDecision PeerId.
Proof. solve_decision. Defined.
#[export] Instance PeerId_countable : Countable PeerId.
Proof.
  refine (inj_countable' peer_array MkPeerId _).
  by intros [].
Defined.
Definition peer_bytes (p : PeerId) : bytes := array32_bytes (peer_array p).
(** [#[derive(PartialOrd, Ord)]] on the byte array. *)
#[export] Program Instance PeerId_key_ord : KeyOrd PeerId :=
  {| key_leb a b := bytes_leb (peer_bytes a) (peer_bytes b) |}.
Next Obligation. intros. apply bytes_leb_total. Qed.
Next Obligation. intros ???. apply bytes_leb_trans. Qed.
Next Obligation.
  intros [a] [b] Hab Hba. f_equal. apply array32_eq. by apply bytes_leb_antisym.
Qed.
Definition PeerId_default : PeerId := MkPeerId array32_zero.
(** [PeerId::from_public_key_hash] *)
Definition peer_from_public_key_hash (h : Hash) : PeerId := MkPeerId (hash_array h).
Section peer_text.
Context `{Hex}.
(** [impl Serialize] and [impl Deserialize for PeerId], through a string. *)
Definition peer_serialize (p : PeerId) : string := hex_encode (peer_bytes p).
Definition peer_deserialize (s : string) : outcome string PeerId :=
  b ← ok_or (hex_decode s) "invalid hex";
  ok_or (MkPeerId <$> array32_try_from b) "peer id must be 32 bytes".
Lemma peer_deserialize_serialize `{!HexLaws} p : peer_deserialize (peer_serialize p) = Ok p.
Proof.
  unfold peer_deserialize, peer_serialize. rewrite hex_decode_encode. cbn.
  rewrite (proj2 (array32_try_from_Some _ (peer_array p))) by done. by destruct p.
Qed.
End peer_text.

(** ** [message.rs] *)
Inductive Message :=
| MsgTransaction (t : Transaction)
| MsgBlock (b : Block)
| MsgBlockRequest (h : Hash)
| MsgBlockResponse (b : option Block)
| MsgVote (v : bytes)
| MsgProposal (p : bytes)
| Ping
| Pong.
#[export] Instance Message_eq_dec : EqDecision Message.
Proof. solve_decision. Defined.
#[export] Instance Message_countable : Countable Message.
Proof.
  refine (inj_countable'
    (λ m, match m with
          | MsgTransaction t => inl (inl t)
          | MsgBlock b => inl (inr b)
          | MsgBlockRequest h => inr (inl h)
          | MsgBlockResponse b => inr (inr (inl b))
          | MsgVote v => inr (inr (inr (inl v)))
          | MsgProposal p => inr (inr (inr (inr (inl p))))
          | Ping => inr (inr (inr (inr (inr true))))
          | Pong => inr (inr (inr (inr (inr false))))
          end)
    (λ x, match x with
          | inl (inl t) => MsgTransaction t
          | inl (inr b) => MsgBlock b
          | inr (inl h) => MsgBlockRequest h
          | inr (inr (inl b)) => MsgBlockResponse b
          | inr (inr (inr (inl v))) => MsgVote v
          | inr (inr (inr (inr (inl p)))) => MsgProposal p
          | inr (inr (inr (inr (inr true)))) => Ping
          | inr (inr (inr (inr (inr false)))) => Pong
          end) _).
  by intros [].
Defined.

Inductive NetworkEvent :=
| PeerConnected (p : PeerId)
| PeerDisconnected (p : PeerId)
| MessageReceived (p : PeerId) (m : Message).
#[export] Instance NetworkEvent_eq_dec : EqDecision NetworkEvent.
Proof. solve_decision. Defined.

(** ** [transport.rs] *)
(** [trait Transport]; [T] is the state the methods change. *)
Class Transport (T : Type) := {
  broadcast : Message → M T string unit;
  send_to : PeerId → Message → M T string unit;
  next_event : M T string (option NetworkEvent);
}.

Record MockTransportState := MkMock {
  mock_peers : gmap PeerId (list Message);
  mock_events : list NetworkEvent;
}.
Definition mock_new : MockTransportState := MkMock ∅ [].
(** [entry(peer).or_default()] *)
Definition or_default (p : PeerId) (m : gmap PeerId (list Message)) : gmap PeerId (list Message) :=
  <[p := default [] (m !! p)]> m.
Definition mock_add_peer (p : PeerId) (s : MockTransportState) : MockTransportState :=
  MkMock (or_default p (mock_peers s)) (mock_events s ++ [PeerConnected p]).
Definition mock_deliver (m : Message) (s : MockTransportState) (p : PeerId) : MockTransportState :=
  MkMock (<[p := default [] (mock_peers s !! p) ++ [m]]> (mock_peers s))
    (mock_events s ++ [MessageReceived p m]).

(** [HashMap::keys] *)
Class PeerOrder := peer_keys : gmap PeerId (list Message) → list PeerId.

#[export] Instance MockTransport_Transport `{PeerOrder} : Transport MockTransportState := {|
  broadcast m := modify (λ s, foldl (mock_deliver m) s (peer_keys (mock_peers s)));
  send_to p m := λ s,
    match mock_peers s !! p with
    | None => (Err "peer not found", s)
    | Some _ => (Ok tt, mock_deliver m s p)
    end;
  next_event := λ s,
    match mock_events s with
    | [] => (Ok None, s)
    | e :: es => (Ok (Some e), MkMock (mock_peers s) es)
    end;
|}.

(** ** [quic.rs]: not implemented in the code either. *)
Inductive QuicTransport := MkQuic.
#[export] Instance QuicTransport_Transport : Transport QuicTransport := {|
  broadcast _ := fail "QUIC transport not yet implemented";
  send_to _ _ := fail "QUIC transport not yet implemented";
  next_event := mret None;
|}.
