(* ===== verification/Tcp.v ===== *)
(** * Crate [pemrix-network], [tcp.rs]: the TCP transport

    Message framing over a byte stream, the slot table that keeps one connection
    per peer, and the rule by which two peers that dial each other keep the same
    socket.  A method that locks the slot table is one atomic step; the identity
    of a socket stands for the [Arc] token of its slot. *)

From Stdlib Require Import Strings.Byte.
From S2P Require Import Prelude.
From S2P Require Import Externals.
From S2P Require Import Primitives.
From S2P Require Import Network.
Local Open Scope N_scope.

(** ** Framing *)

(** [n as u8] *)
Definition low_byte (n : N) : byte := default x00 (Byte.of_N (n mod 256)).
(** [u32::to_be_bytes] and [u32::from_be_bytes] *)
Definition to_be_bytes (n : N) : bytes :=
  [low_byte (N.shiftr n 24); low_byte (N.shiftr n 16); low_byte (N.shiftr n 8); low_byte n].
Definition from_be_bytes (b : bytes) : N :=
  foldl (λ acc x, N.shiftl acc 8 + Byte.to_N x) 0 b.
(** [8 * 1024 * 1024] *)
Definition MAX_FRAME : N := 8388608.

Section framing.
Context `{!Serde Message}.

(** [write_message]: the bytes it writes when no write fails. *)
Definition write_message (m : Message) : bytes :=
  let b := encode m in
  to_be_bytes (as_uint U32 (N.of_nat (length b))) ++ b.

(** [read_exact] on what is left of the stream. *)
Definition read_exact (n : nat) (stream : bytes) : option (bytes * bytes) :=
  if (n <=? length stream)%nat then Some (take n stream, drop n stream) else None.
(** One turn of the loop of [read_messages]: the message and what is left of the
    stream, or the error that ends the loop. *)
Definition read_message (stream : bytes) : outcome string (Message * bytes) :=
  '(len_bytes, stream) ← ok_or (read_exact 4 stream) "read length failed";
  let len := from_be_bytes len_bytes in
  if MAX_FRAME <? len then Err "message too large"
  else
    '(buf, stream) ← ok_or (read_exact (N.to_nat len) stream) "read payload failed";
    m ← map_err (λ _, "decode failed") (decode buf);
    Ok (m, stream).
(** [read_messages]: the events emitted and the error that ends the loop; each
    turn consumes at least four bytes. *)
Fixpoint read_messages (fuel : nat) (remote_id : PeerId) (stream : bytes)
    : option (list NetworkEvent * outcome string unit) :=
  match fuel with
  | O => None
  | S fuel =>
      match read_message stream with
      | Ok (m, stream) =>
          '(events, result) ← read_messages fuel remote_id stream;
          Some (MessageReceived remote_id m :: events, result)
      | Err e => Some ([], Err e)
      | Panic => Some ([], Panic)
      end
  end.
(** Enough fuel for any stream. *)
Definition read_stream (remote_id : PeerId) (stream : bytes)
    : option (list NetworkEvent * outcome string unit) :=
  read_messages (S (length stream)) remote_id stream.
End framing.

(** ** The slot table *)
Record PeerConnection := MkConnection {
  conn_queue : list Message;
  conn_open : bool;
  conn_token : N;
}.
Record TcpTransport := MkTcp {
  tcp_local_id : PeerId;
  tcp_peers : gmap PeerId PeerConnection;
  tcp_events : list NetworkEvent;
}.
Definition tcp_new (local_id : PeerId) : TcpTransport := MkTcp local_id ∅ [].
Definition set_peers (ps : gmap PeerId PeerConnection) (s : TcpTransport) : TcpTransport :=
  MkTcp (tcp_local_id s) ps (tcp_events s).
Definition emit (e : NetworkEvent) (s : TcpTransport) : TcpTransport :=
  MkTcp (tcp_local_id s) (tcp_peers s) (tcp_events s ++ [e]).
Definition peer_count (s : TcpTransport) : nat := size (tcp_peers s).

(** [conn.tx.send(message)]: fails once the receiving task is gone. *)
Definition channel_send (m : Message) (c : PeerConnection) : outcome string PeerConnection :=
  if conn_open c then Ok (MkConnection (conn_queue c ++ [m]) true (conn_token c))
  else Err "peer channel closed".
#[export] Instance TcpTransport_Transport : Transport TcpTransport := {|
  broadcast m := λ s,
    if bool_decide (tcp_peers s = ∅) then (Err "no connected peers", s)
    else (Ok tt, set_peers ((λ c, match channel_send m c with Ok c => c | _ => c end) <$> tcp_peers s) s);
  send_to p m := λ s,
    match tcp_peers s !! p with
    | None => (Err "peer not connected", s)
    | Some c =>
        match channel_send m c with
        | Ok c => (Ok tt, set_peers (<[p := c]> (tcp_peers s)) s)
        | Err e => (Err e, s)
        | Panic => (Panic, s)
        end
    end;
  next_event := λ s,
    match tcp_events s with
    | [] => (Ok None, s)
    | e :: es => (Ok (Some e), MkTcp (tcp_local_id s) (tcp_peers s) es)
    end;
|}.

(** ** [run_connection] *)
(** [a > b] on peer identifiers. *)
Definition peer_gt (a b : PeerId) : bool := negb (key_leb a b).
(** The handshake check: the remote identifier a dialled socket must show. *)
Definition check_handshake (known_peer : option PeerId) (remote_id : PeerId) : outcome string unit :=
  match known_peer with
  | Some expected => if bool_decide (expected ≠ remote_id) then Err "peer id mismatch" else Ok tt
  | None => Ok tt
  end.
Definition wins_tie (is_outbound : bool) (local_id remote_id : PeerId) : bool :=
  if is_outbound then peer_gt local_id remote_id else peer_gt remote_id local_id.
(** The section under one lock that claims the slot, and the event after it; the
    result is the connection that loses its slot, told so by a last ping. *)
Definition claim_slot (is_outbound : bool) (remote_id : PeerId) (token : N)
    : M TcpTransport string (option PeerConnection) := λ s,
  let claimed := emit (PeerConnected remote_id)
    (set_peers (<[remote_id := MkConnection [] true token]> (tcp_peers s)) s) in
  match tcp_peers s !! remote_id with
  | Some existing =>
      if negb (wins_tie is_outbound (tcp_local_id s) remote_id)
      then (Err "duplicate connection closed", s)
      else (Ok (Some (match channel_send Ping existing with Ok c => c | _ => existing end)), claimed)
  | None => (Ok None, claimed)
  end.
(** [outbound.abort()]: the receiving end of this connection's channel goes. *)
Definition abort_outbound (remote_id : PeerId) (token : N) (s : TcpTransport) : TcpTransport :=
  match tcp_peers s !! remote_id with
  | Some c =>
      if bool_decide (conn_token c = token)
      then set_peers (<[remote_id := MkConnection (conn_queue c) false token]> (tcp_peers s)) s else s
  | None => s
  end.
(** The section that frees the slot if this connection still owns it. *)
Definition release_slot (remote_id : PeerId) (token : N) (s : TcpTransport) : TcpTransport :=
  match tcp_peers s !! remote_id with
  | Some c =>
      if bool_decide (conn_token c = token) then set_peers (delete remote_id (tcp_peers s)) s else s
  | None => s
  end.
(** A whole connection: the handshake, the slot, the messages of the stream,
    and the exit. *)
Definition run_connection `{!Serde Message} (known_peer : option PeerId) (remote_id : PeerId)
    (token : N) (stream : bytes) : M TcpTransport string unit :=
  _ ← lift (check_handshake known_peer remote_id);
  _ ← claim_slot (bool_decide (is_Some known_peer)) remote_id token;
  match read_stream remote_id stream with
  | Some (events, result) =>
      _ ← modify (λ s, foldl (λ s e, emit e s) s events);
      _ ← modify (abort_outbound remote_id token);
      _ ← modify (release_slot remote_id token);
      lift result
  | None => mret tt
  end.
(** The bootstrap peers the retry loop dials next. *)
Definition pending_dials {Addr} (bootstrap : gmap PeerId Addr) (dialing : gset PeerId)
    (s : TcpTransport) : list (PeerId * Addr) :=
  filter (λ e, e.1 ≠ tcp_local_id s ∧ tcp_peers s !! e.1 = None ∧ e.1 ∉ dialing)
    (btree_iter bootstrap).

(** ** Lemmas *)
Lemma low_byte_to_N n : Byte.to_N (low_byte n) = n mod 256.
Proof.
  unfold low_byte. destruct (Byte.of_N (n mod 256)) as [b|] eqn:Hb; simpl.
  - by apply Byte.to_of_N.
  - apply Byte.of_N_None_iff in Hb. pose proof (N.mod_lt n 256). lia.
Qed.
Lemma from_to_be_bytes n : n ≤ U32 → from_be_bytes (to_be_bytes n) = n.
Proof.
  intros Hn. unfold from_be_bytes, to_be_bytes. cbn [foldl]. rewrite !low_byte_to_N.
  rewrite !N.shiftr_div_pow2, !N.shiftl_mul_pow2. change (2 ^ 8) with 256.
  change (2 ^ 16) with (256 * 256). change (2 ^ 24) with (256 * 256 * 256).
  rewrite <-!N.Div0.div_div. unfold U32 in Hn.
  pose proof (N.div_mod n 256 ltac:(done)) as E0.
  pose proof (N.div_mod (n / 256) 256 ltac:(done)) as E1.
  pose proof (N.div_mod (n / 256 / 256) 256 ltac:(done)) as E2.
  assert (n / 256 / 256 / 256 < 256) as Hlt.
  { clear E0 E1 E2. apply N.Div0.div_lt_upper_bound, N.Div0.div_lt_upper_bound,
      N.Div0.div_lt_upper_bound. eapply N.le_lt_trans; [exact Hn|]. reflexivity. }
  rewrite (N.mod_small (n / 256 / 256 / 256)) by done. clear Hlt Hn. revert E0 E1 E2.
  generalize (n mod 256), (n / 256 mod 256), (n / 256 / 256 mod 256), (n / 256 / 256 / 256).
  generalize (n / 256 / 256). intros q2. generalize (n / 256). intros q1 r0 r1 r2 q3. lia.
Qed.
Lemma read_exact_app (b rest : bytes) : read_exact (length b) (b ++ rest) = Some (b, rest).
Proof.
  unfold read_exact. rewrite length_app. rewrite (proj2 (Nat.leb_le _ _)) by lia.
  by rewrite take_app_length, drop_app_length.
Qed.
Lemma read_exact_shrinks n stream b rest :
  read_exact n stream = Some (b, rest) → length stream = (n + length rest)%nat.
Proof.
  unfold read_exact. destruct (Nat.leb_spec n (length stream)); [|done].
  intros [= <- <-]. rewrite length_drop. lia.
Qed.

Section framing_lemmas.
Context `{!Serde Message}.

Lemma read_message_shrinks stream m rest :
  read_message stream = Ok (m, rest) → (length rest < length stream)%nat.
Proof.
  unfold read_message. destruct (read_exact 4 stream) as [[lb s1]|] eqn:H4; [|done].
  apply read_exact_shrinks in H4. cbn. case_match; [done|].
  destruct (read_exact (N.to_nat (from_be_bytes lb)) s1) as [[buf s2]|] eqn:Hb; [|done].
  apply read_exact_shrinks in Hb. cbn. destruct (decode buf); [|done..]. cbn. intros [= -> ->]. lia.
Qed.
Lemma read_message_empty : read_message [] = Err "read length failed".
Proof. done. Qed.

Section frames.
Context `{!SerdeLaws Message}.

(** The reader undoes the writer, within the limits each of them has. *)
Lemma read_message_frame m rest :
  N.of_nat (length (encode m)) ≤ U32 →
  read_message (write_message m ++ rest) =
    if MAX_FRAME <? N.of_nat (length (encode m)) then Err "message too large" else Ok (m, rest).
Proof.
  intros Hle. unfold write_message. set (len := N.of_nat (length (encode m))) in *.
  assert (as_uint U32 len = len) as Has by (apply N.mod_small; unfold U32 in *; lia).
  rewrite Has. unfold read_message. rewrite <-(assoc_L (++)).
  change 4%nat with (length (to_be_bytes len)). rewrite read_exact_app. cbn [ok_or mbind outcome_bind].
  rewrite from_to_be_bytes by done. case_match; [done|]. unfold len. rewrite Nat2N.id, read_exact_app.
  cbn [ok_or mbind outcome_bind]. by rewrite decode_encode.
Qed.
End frames.

(** The loop always ends, and the fuel does not matter once it exceeds the
    stream. *)
Lemma read_messages_fuel fuel remote stream :
  (length stream < fuel)%nat →
  read_messages fuel remote stream = read_stream remote stream ∧
  is_Some (read_stream remote stream).
Proof.
  unfold read_stream.
  assert (∀ n s f g, (length s < n)%nat → (length s < f)%nat → (length s < g)%nat →
    read_messages f remote s = read_messages g remote s ∧ is_Some (read_messages g remote s)) as Hall.
  { induction n as [|n IH]; [lia|]. intros s [|f] [|g] Hn Hf Hg; try lia. simpl.
    destruct (read_message s) as [[m s2]|e|] eqn:Hm; [|by eauto..].
    apply read_message_shrinks in Hm. destruct (IH s2 f g) as [-> [[es e] ->]]; [lia..|]. cbn. by eauto. }
  intros Hlt. apply (Hall (S (length stream))); lia.
Qed.
(** The stream is read message by message. *)
Lemma read_stream_eq remote stream :
  read_stream remote stream =
    match read_message stream with
    | Ok (m, rest) =>
        '(events, result) ← read_stream remote rest;
        Some (MessageReceived remote m :: events, result)
    | Err e => Some ([], Err e)
    | Panic => Some ([], Panic)
    end.
Proof.
  unfold read_stream at 1. cbn [read_messages]. destruct (read_message stream) as [[m rest]|e|] eqn:Hm; [|done..].
  apply read_message_shrinks in Hm. by destruct (read_messages_fuel (length stream) remote rest) as [-> _].
Qed.

(** C31: The TCP framing loses nothing: a peer that reads the frames of any
    messages of at most 8 MiB each receives exactly these messages, in order,
    whatever follows in the stream; the loop ends when the stream does. *)
Theorem tcp_stream_roundtrip `{!SerdeLaws Message} (remote : PeerId) (ms : list Message) (rest : bytes) :
  Forall (λ m, N.of_nat (length (encode m)) ≤ MAX_FRAME) ms →
  ∃ events result,
    read_stream remote rest = Some (events, result) ∧
    read_stream remote (concat (write_message <$> ms) ++ rest) =
      Some ((MessageReceived remote <$> ms) ++ events, result) ∧
    (rest = [] → events = [] ∧ result = Err "read length failed").
Proof.
  intros Hall. destruct (read_messages_fuel (S (length rest)) remote rest) as [_ [[events result] Hr]];
    [lia|]. exists events, result. split; [done|]. split.
  - induction Hall as [|m ms Hm _ IH]; [done|].
    rewrite fmap_cons. cbn [concat]. rewrite <-(assoc_L (++)), read_stream_eq.
    rewrite read_message_frame by (unfold MAX_FRAME, U32 in *; lia).
    rewrite (proj2 (N.ltb_ge _ _)) by done. by rewrite IH.
  - intros ->. cbn in Hr. by simplify_eq.
Qed.

(** The writer does not apply the reader's limit: a frame between 8 MiB and
    4 GiB makes the reader close the connection, losing all that follows. *)
Lemma oversized_message_closes_connection `{!SerdeLaws Message} remote m rest :
  MAX_FRAME < N.of_nat (length (encode m)) ≤ U32 →
  read_stream remote (write_message m ++ rest) = Some ([], Err "message too large").
Proof.
  intros [Hlt Hle]. rewrite read_stream_eq, read_message_frame by done.
  by rewrite (proj2 (N.ltb_lt _ _)).
Qed.
End framing_lemmas.

(** ** Simultaneous dials *)

(** One end of two crossing sockets: the one it dialled, [out], and the one it
    accepted, [inc], claim the slot in one of the two orders. *)
Definition crossing_claims (out_first : bool) (remote_id : PeerId) (out inc : N) (s : TcpTransport)
    : TcpTransport :=
  if out_first then (claim_slot false remote_id inc (claim_slot true remote_id out s).2).2
  else (claim_slot true remote_id out (claim_slot false remote_id inc s).2).2.
Definition slot_token (s : TcpTransport) (p : PeerId) : option N := conn_token <$> tcp_peers s !! p.

Lemma crossing_claims_token out_first remote_id out inc s :
  tcp_peers s !! remote_id = None → tcp_local_id s ≠ remote_id →
  slot_token (crossing_claims out_first remote_id out inc s) remote_id =
    Some (if peer_gt (tcp_local_id s) remote_id then out else inc).
Proof.
  intros Hnone Hne. unfold crossing_claims, slot_token, claim_slot, wins_tie.
  assert (peer_gt remote_id (tcp_local_id s) = negb (peer_gt (tcp_local_id s) remote_id)) as Hgt.
  { unfold peer_gt. destruct (key_leb (tcp_local_id s) remote_id) eqn:Hlr,
      (key_leb remote_id (tcp_local_id s)) eqn:Hrl; try done.
    - exfalso. by apply Hne, key_leb_antisym.
    - destruct (key_leb_total (tcp_local_id s) remote_id); congruence. }
  destruct out_first; rewrite Hnone; simpl; rewrite lookup_insert_eq; simpl; rewrite ?Hgt;
    destruct (peer_gt (tcp_local_id s) remote_id); simpl; by rewrite lookup_insert_eq.
Qed.

(** C32: Two peers that dial each other at the same time settle on one socket:
    whatever the order in which the two sockets claim the slots at either end,
    both ends keep the socket dialled by the peer with the greater identifier,
    and the handler of the other socket, when it exits, does not free the slot. *)
Theorem tcp_tie_break_agreement (a b : TcpTransport) (by_a by_b : N) (order_a order_b : bool) :
  tcp_local_id a ≠ tcp_local_id b → by_a ≠ by_b →
  tcp_peers a !! tcp_local_id b = None → tcp_peers b !! tcp_local_id a = None →
  let winner := if peer_gt (tcp_local_id a) (tcp_local_id b) then by_a else by_b in
  let loser := if peer_gt (tcp_local_id a) (tcp_local_id b) then by_b else by_a in
  let a' := crossing_claims order_a (tcp_local_id b) by_a by_b a in
  let b' := crossing_claims order_b (tcp_local_id a) by_b by_a b in
  slot_token a' (tcp_local_id b) = Some winner ∧ slot_token b' (tcp_local_id a) = Some winner ∧
  release_slot (tcp_local_id b) loser a' = a' ∧ release_slot (tcp_local_id a) loser b' = b'.
Proof.
  intros Hne Hsock Ha Hb winner loser a' b'.
  assert (slot_token a' (tcp_local_id b) = Some winner) as Hta by by apply crossing_claims_token.
  assert (slot_token b' (tcp_local_id a) = Some winner) as Htb.
  { unfold b'. rewrite crossing_claims_token by done. unfold winner, peer_gt.
    destruct (key_leb (tcp_local_id a) (tcp_local_id b)) eqn:Hab,
      (key_leb (tcp_local_id b) (tcp_local_id a)) eqn:Hba; try done.
    - exfalso. by apply Hne, key_leb_antisym.
    - destruct (key_leb_total (tcp_local_id a) (tcp_local_id b)); congruence. }
  assert (∀ s p, slot_token s p = Some winner → release_slot p loser s = s) as Hrel.
  { intros s p Ht. unfold release_slot, slot_token in *. destruct (tcp_peers s !! p) as [c|]; [|done].
    simpl in Ht. injection Ht as ->. rewrite bool_decide_false; [done|].
    unfold winner, loser. destruct (peer_gt _ _); congruence. }
  split_and!; [done|done|by apply Hrel..].
Qed.
