(* ===== verification/TcpNetwork.v ===== *)
(** * Crate [pemrix-network], [tcp.rs]: transports connected to each other

    Every task of [tcp.rs] at work in a network of transports: the retry loop
    that dials bootstrap peers, the accepting side, the handshake of each
    connection, its writer and its reader, and its exit.  A section under a lock,
    a write or a read is one step; a connection may break at any time, a write
    after any number of bytes.  The two ends of a socket are two connection tasks;
    a task's key stands for its token. *)

From Stdlib Require Import Strings.Byte.
From S2P Require Import Prelude.
From S2P Require Import Externals.
From S2P Require Import Primitives.
From S2P Require Import Network.
From S2P Require Import Tcp.
Local Open Scope N_scope.

(** ** State *)

(** Where a connection task is: about to send its identifier, waiting for the
    remote one, reading messages, about to free its slot, returned from
    [run_connection], and over. *)
Inductive Stage :=
| Fresh | Greeting | Reading (remote : PeerId) | Closing (remote : PeerId) | Returned | Over.
(** A connection task: the transport it belongs to, the peer it dialled if it
    dialled one, the task at the other end of the socket, whether its writer runs,
    what is left in its channel when another connection has taken its slot, and
    the bytes on their way to it. *)
Record Connection := MkConn {
  cn_owner : PeerId;
  cn_known : option PeerId;
  cn_other : N;
  cn_stage : Stage;
  cn_writing : bool;
  cn_replaced : list Message;
  cn_stream : bytes;
}.
(** A transport with the state of its retry loop: the peers being dialled, those
    the current turn has still to dial, and the sockets being opened. *)
Record TcpNode (Addr : Type) := MkTcpNode {
  tn_tcp : TcpTransport;
  tn_dialing : gset PeerId;
  tn_pending : list (PeerId * Addr);
  tn_connecting : gmap PeerId Addr;
}.
Arguments MkTcpNode {Addr}. Arguments tn_tcp {Addr}. Arguments tn_dialing {Addr}.
Arguments tn_pending {Addr}. Arguments tn_connecting {Addr}.
(** The network: the transports by their identifiers, the connection tasks, and
    what each transport was asked to send. *)
Record TcpNet (Addr : Type) := MkNet {
  nt_nodes : gmap PeerId (TcpNode Addr);
  nt_conns : gmap N Connection;
  nt_sent : list (PeerId * Message);
}.
Arguments MkNet {Addr}. Arguments nt_nodes {Addr}. Arguments nt_conns {Addr}. Arguments nt_sent {Addr}.

Definition new_conn (owner : PeerId) (known : option PeerId) (other : N) : Connection :=
  MkConn owner known other Fresh false [] [].
Definition staged (st : Stage) (c : Connection) : Connection :=
  MkConn (cn_owner c) (cn_known c) (cn_other c) st (cn_writing c) (cn_replaced c) (cn_stream c).
Definition received (b : bytes) (c : Connection) : Connection :=
  MkConn (cn_owner c) (cn_known c) (cn_other c) (cn_stage c) (cn_writing c) (cn_replaced c)
    (cn_stream c ++ b).
Definition left_to_read (b : bytes) (c : Connection) : Connection :=
  MkConn (cn_owner c) (cn_known c) (cn_other c) (cn_stage c) (cn_writing c) (cn_replaced c) b.
Definition set_replaced (q : list Message) (c : Connection) : Connection :=
  MkConn (cn_owner c) (cn_known c) (cn_other c) (cn_stage c) (cn_writing c) q (cn_stream c).
(** The writer starts, and ends (which drops its channel). *)
Definition start_writer (c : Connection) : Connection :=
  MkConn (cn_owner c) (cn_known c) (cn_other c) (cn_stage c) true (cn_replaced c) (cn_stream c).
Definition stop_writer (c : Connection) : Connection :=
  MkConn (cn_owner c) (cn_known c) (cn_other c) (cn_stage c) false [] (cn_stream c).

(** ** The tasks *)
Section tasks.
Context {Addr : Type} `{!Serde Message}.
Notation Node := (TcpNode Addr).
Notation Net := (TcpNet Addr).
(** The peers each transport was given, and the transport that listens at an
    address. *)
Context (bootstrap : PeerId → gmap PeerId Addr) (listens : Addr → option PeerId).
Implicit Types (nd : Node) (net : Net) (c d : Connection).

Definition set_tcp (s : TcpTransport) nd : Node :=
  MkTcpNode s (tn_dialing nd) (tn_pending nd) (tn_connecting nd).
Definition on_node (a : PeerId) nd net : Net := MkNet (<[a := nd]> (nt_nodes net)) (nt_conns net) (nt_sent net).
Definition on_conns (cs : gmap N Connection) net : Net := MkNet (nt_nodes net) cs (nt_sent net).

(** The retry loop: a turn that lists the peers to dial, a dial, its failure, and
    its success. *)
Definition retry_turn (a : PeerId) nd : Node :=
  MkTcpNode (tn_tcp nd) (tn_dialing nd)
    (pending_dials (bootstrap a) (tn_dialing nd) (tn_tcp nd)) (tn_connecting nd).
Definition spawn_dial (p : PeerId) (addr : Addr) (rest : list (PeerId * Addr)) nd : Node :=
  MkTcpNode (tn_tcp nd) ({[p]} ∪ tn_dialing nd) rest (<[p := addr]> (tn_connecting nd)).
Definition dial_failed (p : PeerId) nd : Node :=
  MkTcpNode (tn_tcp nd) (tn_dialing nd ∖ {[p]}) (tn_pending nd) (delete p (tn_connecting nd)).
Definition dial_connected (p : PeerId) nd : Node :=
  MkTcpNode (tn_tcp nd) (tn_dialing nd) (tn_pending nd) (delete p (tn_connecting nd)).
(** The last statement of a dial: the peer may be dialled again. *)
Definition forget_dial (known : option PeerId) nd : Node :=
  match known with
  | Some p => MkTcpNode (tn_tcp nd) (tn_dialing nd ∖ {[p]}) (tn_pending nd) (tn_connecting nd)
  | None => nd
  end.

(** The tasks once the connection that loses its slot is told: it keeps what is in
    its channel. *)
Definition told (loser : option PeerConnection) (cs : gmap N Connection) : gmap N Connection :=
  match loser with
  | Some l => alter (set_replaced (if conn_open l then conn_queue l else [])) (conn_token l) cs
  | None => cs
  end.
(** The handshake of [run_connection] once the remote identifier [r] has been
    read, [rest] being what follows it: the slot is claimed, or the task returns. *)
Definition handshake (x : N) c nd (r : PeerId) (rest : bytes) net : Net :=
  match (_ ← lift (check_handshake (cn_known c) r);
         claim_slot (bool_decide (is_Some (cn_known c))) r x) (tn_tcp nd) with
  | (Ok loser, tcp) =>
      on_node (cn_owner c) (set_tcp tcp nd)
        (on_conns (<[x := start_writer (staged (Reading r) (left_to_read rest c))]>
           (told loser (nt_conns net))) net)
  | _ => on_conns (<[x := staged Returned c]> (nt_conns net)) net
  end.

(** What the writer of [x] gets from its channel, which is its slot's as long as
    it has the slot. *)
Definition take_message (r : PeerId) (x : N) (s : TcpTransport) c
    : option (Message * TcpTransport * Connection) :=
  match tcp_peers s !! r with
  | Some (MkConnection (m :: q) open token) =>
      if bool_decide (token = x) then Some (m, set_peers (<[r := MkConnection q open token]> (tcp_peers s)) s, c)
      else match cn_replaced c with m :: q => Some (m, s, set_replaced q c) | [] => None end
  | _ => match cn_replaced c with m :: q => Some (m, s, set_replaced q c) | [] => None end
  end.

Inductive tcp_step : Net → Net → Prop :=
| st_retry net a nd : nt_nodes net !! a = Some nd → tn_pending nd = [] →
    tcp_step net (on_node a (retry_turn a nd) net)
| st_spawn net a nd p addr rest : nt_nodes net !! a = Some nd → tn_pending nd = (p, addr) :: rest →
    tcp_step net (on_node a (spawn_dial p addr rest nd) net)
| st_dial_failed net a nd p addr : nt_nodes net !! a = Some nd → tn_connecting nd !! p = Some addr →
    tcp_step net (on_node a (dial_failed p nd) net)
| st_connected net a nd p addr b x y : nt_nodes net !! a = Some nd →
    tn_connecting nd !! p = Some addr → listens addr = Some b → is_Some (nt_nodes net !! b) →
    nt_conns net !! x = None → nt_conns net !! y = None → x ≠ y →
    tcp_step net (on_node a (dial_connected p nd) (on_conns
      (<[x := new_conn a (Some p) y]> (<[y := new_conn b None x]> (nt_conns net))) net))
| st_greet net x c : nt_conns net !! x = Some c → cn_stage c = Fresh →
    tcp_step net (on_conns (alter (received (peer_bytes (cn_owner c))) (cn_other c)
      (<[x := staged Greeting c]> (nt_conns net))) net)
| st_handshake net x c nd b rest r : nt_conns net !! x = Some c →
    nt_nodes net !! cn_owner c = Some nd → cn_stage c = Greeting →
    read_exact 32 (cn_stream c) = Some (b, rest) → array32_try_from b = Some r →
    tcp_step net (handshake x c nd (MkPeerId r) rest net)
| st_handshake_failed net x c : nt_conns net !! x = Some c → cn_stage c = Fresh ∨ cn_stage c = Greeting →
    tcp_step net (on_conns (<[x := staged Returned c]> (nt_conns net)) net)
| st_write net x c nd r m tcp c' : nt_conns net !! x = Some c → nt_nodes net !! cn_owner c = Some nd →
    cn_stage c = Reading r → cn_writing c = true → take_message r x (tn_tcp nd) c = Some (m, tcp, c') →
    tcp_step net (on_node (cn_owner c) (set_tcp tcp nd) (on_conns
      (alter (received (write_message m)) (cn_other c) (<[x := c']> (nt_conns net))) net))
| st_write_failed net x c nd r m tcp c' k : nt_conns net !! x = Some c →
    nt_nodes net !! cn_owner c = Some nd → cn_stage c = Reading r → cn_writing c = true →
    take_message r x (tn_tcp nd) c = Some (m, tcp, c') → (k < length (write_message m))%nat →
    tcp_step net (on_node (cn_owner c) (set_tcp (abort_outbound r x tcp) nd) (on_conns
      (alter (received (take k (write_message m))) (cn_other c) (<[x := stop_writer c']> (nt_conns net))) net))
| st_read net x c nd r m rest : nt_conns net !! x = Some c → nt_nodes net !! cn_owner c = Some nd →
    cn_stage c = Reading r → read_message (cn_stream c) = Ok (m, rest) →
    tcp_step net (on_node (cn_owner c) (set_tcp (emit (MessageReceived r m) (tn_tcp nd)) nd) (on_conns
      (<[x := left_to_read rest c]> (nt_conns net)) net))
| st_read_failed net x c nd r : nt_conns net !! x = Some c → nt_nodes net !! cn_owner c = Some nd →
    cn_stage c = Reading r →
    tcp_step net (on_node (cn_owner c) (set_tcp (abort_outbound r x (tn_tcp nd)) nd) (on_conns
      (<[x := stop_writer (staged (Closing r) c)]> (nt_conns net)) net))
| st_release net x c nd r : nt_conns net !! x = Some c → nt_nodes net !! cn_owner c = Some nd →
    cn_stage c = Closing r →
    tcp_step net (on_node (cn_owner c) (set_tcp (release_slot r x (tn_tcp nd)) nd) (on_conns
      (<[x := staged Returned c]> (nt_conns net)) net))
| st_forget net x c nd : nt_conns net !! x = Some c → nt_nodes net !! cn_owner c = Some nd →
    cn_stage c = Returned →
    tcp_step net (on_node (cn_owner c) (forget_dial (cn_known c) nd) (on_conns
      (<[x := staged Over c]> (nt_conns net)) net))
| st_broadcast net a nd m : nt_nodes net !! a = Some nd → N.of_nat (length (encode m)) ≤ U32 →
    tcp_step net (MkNet (<[a := set_tcp (broadcast m (tn_tcp nd)).2 nd]> (nt_nodes net)) (nt_conns net)
      (nt_sent net ++ [(a, m)]))
| st_send_to net a nd p m : nt_nodes net !! a = Some nd → N.of_nat (length (encode m)) ≤ U32 →
    tcp_step net (MkNet (<[a := set_tcp (send_to p m (tn_tcp nd)).2 nd]> (nt_nodes net)) (nt_conns net)
      (nt_sent net ++ [(a, m)]))
| st_next_event net a nd : nt_nodes net !! a = Some nd →
    tcp_step net (on_node a (set_tcp (next_event (tn_tcp nd)).2 nd) net).

(** The network at the start: every transport just created. *)
Definition tcp_node_new (a : PeerId) : Node := MkTcpNode (tcp_new a) ∅ [] ∅.
Definition tcp_net_new (ids : list PeerId) : Net :=
  MkNet (list_to_map ((λ a, (a, tcp_node_new a)) <$> ids)) ∅ [].

(** ** The books a transport keeps *)

(** The task [x] of [a] is a dial of [p] that is not over; it has claimed a slot
    for [r]. *)
Definition live_dial (cs : gmap N Connection) (a p : PeerId) (x : N) : Prop :=
  ∃ c, cs !! x = Some c ∧ cn_owner c = a ∧ cn_known c = Some p ∧ cn_stage c ≠ Over.
Definition engaged (cs : gmap N Connection) (a r : PeerId) (x : N) : Prop :=
  ∃ c, cs !! x = Some c ∧ cn_owner c = a ∧ (cn_stage c = Reading r ∨ cn_stage c = Closing r).

Record node_inv (cs : gmap N Connection) (a : PeerId) nd : Prop := {
  ti_id : tcp_local_id (tn_tcp nd) = a;
  ti_slots r sl : tcp_peers (tn_tcp nd) !! r = Some sl → engaged cs a r (conn_token sl);
  ti_live p x : live_dial cs a p x → p ≠ a ∧ is_Some (bootstrap a !! p) ∧ p ∈ tn_dialing nd ∧
    tn_connecting nd !! p = None ∧ ∀ y, live_dial cs a p y → y = x;
  ti_connecting p addr : tn_connecting nd !! p = Some addr →
    p ≠ a ∧ bootstrap a !! p = Some addr ∧ p ∈ tn_dialing nd;
  ti_dialing p : p ∈ tn_dialing nd → is_Some (tn_connecting nd !! p) ∨ ∃ x, live_dial cs a p x;
  ti_pending_unique : NoDup (fst <$> tn_pending nd);
  ti_pending p addr : (p, addr) ∈ tn_pending nd → p ≠ a ∧ bootstrap a !! p = Some addr ∧ p ∉ tn_dialing nd;
}.
Definition books_ok net : Prop := ∀ a nd, nt_nodes net !! a = Some nd → node_inv (nt_conns net) a nd.

(** A change of the tasks that keeps live dials and claimed slots. *)
Definition tasks_kept (cs cs' : gmap N Connection) : Prop :=
  (∀ a p x, live_dial cs a p x ↔ live_dial cs' a p x) ∧ (∀ a r x, engaged cs a r x → engaged cs' a r x).
(** A change of a transport that adds no slot. *)
Definition no_new_slot (s s' : TcpTransport) : Prop :=
  tcp_local_id s' = tcp_local_id s ∧
  ∀ r sl', tcp_peers s' !! r = Some sl' → ∃ sl, tcp_peers s !! r = Some sl ∧ conn_token sl' = conn_token sl.

#[local] Instance tasks_kept_preorder : PreOrder tasks_kept.
Proof.
  split; [by split; auto|]. intros cs1 cs2 cs3 [H1 H2] [H3 H4]. split; [|auto].
  intros a p x. by rewrite H1.
Qed.
#[local] Instance no_new_slot_preorder : PreOrder no_new_slot.
Proof.
  split; [by split; eauto|]. intros s1 s2 s3 [H1 H2] [H3 H4]. split; [congruence|].
  intros r sl3 (sl2 & Hsl2 & ->)%H4. destruct (H2 r sl2 Hsl2) as (sl1 & ? & ->). eauto.
Qed.

Lemma node_inv_kept cs cs' a nd s :
  tasks_kept cs cs' → no_new_slot (tn_tcp nd) s → node_inv cs a nd → node_inv cs' a (set_tcp s nd).
Proof.
  intros [Hlive Heng] [Hid Hslots] [Hi Hs Hl Hc Hd Hnd Hp]. split; simpl; [congruence|..| |done|done].
  - intros r sl' (sl & Hsl & ->)%Hslots. eauto.
  - intros p x Hx%Hlive. destruct (Hl p x Hx) as (? & ? & ? & ? & Hu). split_and!; [done..|].
    intros y Hy%Hlive. eauto.
  - done.
  - intros p [?|[x Hx]]%Hd; [by left|right]. exists x. by apply Hlive.
Qed.
Lemma set_tcp_id nd : set_tcp (tn_tcp nd) nd = nd.
Proof. by destruct nd. Qed.
(** A task changes without ending or giving up its slot, its transport without
    gaining one. *)
Lemma books_kept a nd s cs net :
  nt_nodes net !! a = Some nd → tasks_kept (nt_conns net) cs → no_new_slot (tn_tcp nd) s →
  books_ok net → books_ok (on_node a (set_tcp s nd) (on_conns cs net)).
Proof.
  intros Ha Hcs Hs Hnet b nd'. simpl. intros [[<- <-]|[_ Hb]]%lookup_insert_Some.
  - by eapply node_inv_kept, Hnet.
  - rewrite <-(set_tcp_id nd'). by eapply node_inv_kept, Hnet.
Qed.
Lemma books_tasks cs net : tasks_kept (nt_conns net) cs → books_ok net → books_ok (on_conns cs net).
Proof. intros Hcs Hnet a nd Ha. rewrite <-(set_tcp_id nd). by eapply node_inv_kept, Hnet. Qed.

Lemma tasks_kept_update cs x c c' :
  cs !! x = Some c → cn_owner c' = cn_owner c → cn_known c' = cn_known c →
  (cn_stage c' = Over ↔ cn_stage c = Over) →
  (∀ r, cn_stage c = Reading r ∨ cn_stage c = Closing r → cn_stage c' = Reading r ∨ cn_stage c' = Closing r) →
  tasks_kept cs (<[x := c']> cs).
Proof.
  intros Hx Ho Hk Hover Hst. unfold tasks_kept, live_dial, engaged. split.
  - intros a p y. destruct (decide (y = x)) as [->|]; [|by rewrite lookup_insert_ne].
    rewrite lookup_insert_eq, Hx. split; intros (? & [= <-] & ? & ? & Hno); eexists;
      (split_and!; [done|congruence|congruence|]); by intros Hnow%Hover.
  - intros a r y (d & Hy & Hd & Hstage). destruct (decide (y = x)) as [->|].
    + simplify_eq. exists c'. rewrite lookup_insert_eq, Ho. eauto.
    + exists d. by rewrite lookup_insert_ne.
Qed.
Lemma tasks_kept_alter f cs x :
  (∀ c, cn_owner (f c) = cn_owner c ∧ cn_known (f c) = cn_known c ∧ cn_stage (f c) = cn_stage c) →
  tasks_kept cs (alter f x cs).
Proof.
  intros Hf. destruct (cs !! x) as [c|] eqn:Hx.
  - assert (alter f x cs = <[x := f c]> cs) as ->.
    { apply map_eq. intros y. destruct (decide (y = x)) as [->|].
      - by rewrite lookup_alter_eq, lookup_insert_eq, Hx.
      - by rewrite lookup_alter_ne, lookup_insert_ne. }
    destruct (Hf c) as (Ho & Hk & Hs). eapply tasks_kept_update; [done..| |]; rewrite Hs; done.
  - rewrite alter_id; [done|]. intros c Hc. congruence.
Qed.

(** Every operation of a transport but the claim of a slot adds none. *)
Lemma no_new_slot_insert s r sl sl' :
  tcp_peers s !! r = Some sl → conn_token sl' = conn_token sl →
  no_new_slot s (set_peers (<[r := sl']> (tcp_peers s)) s).
Proof.
  intros Hsl Htok. split; [done|]. intros q y. simpl. intros [[<- <-]|[_ Hq]]%lookup_insert_Some; eauto.
Qed.
Lemma no_new_slot_emit e s : no_new_slot s (emit e s).
Proof. split; [done|]. simpl. eauto. Qed.
Lemma no_new_slot_next s : no_new_slot s (next_event s).2.
Proof. simpl. destruct (tcp_events s); [done|]. split; [done|]. simpl. eauto. Qed.
Lemma no_new_slot_broadcast m s : no_new_slot s (broadcast m s).2.
Proof.
  simpl. case_bool_decide; [done|]. split; [done|]. simpl. intros r sl'.
  rewrite lookup_fmap, fmap_Some. intros (sl & Hsl & ->). exists sl. split; [done|].
  unfold channel_send. by destruct (conn_open sl).
Qed.
Lemma no_new_slot_send p m s : no_new_slot s (send_to p m s).2.
Proof.
  simpl. destruct (tcp_peers s !! p) as [sl|] eqn:Hp; [|done]. unfold channel_send.
  destruct (conn_open sl); [|done]. by eapply no_new_slot_insert.
Qed.
Lemma no_new_slot_abort r x s : no_new_slot s (abort_outbound r x s).
Proof.
  unfold abort_outbound. destruct (tcp_peers s !! r) as [sl|] eqn:Hr; [|done]. case_bool_decide; [|done].
  by eapply no_new_slot_insert.
Qed.
Lemma no_new_slot_release r x s : no_new_slot s (release_slot r x s).
Proof.
  unfold release_slot. destruct (tcp_peers s !! r) as [sl|] eqn:Hr; [|done]. case_bool_decide; [|done].
  split; [done|]. simpl. intros q y [_ Hq]%lookup_delete_Some. eauto.
Qed.
(** The message comes from the task's own channel. *)
Lemma take_message_inv r x s c m s' c' :
  take_message r x s c = Some (m, s', c') →
  (∃ q open, tcp_peers s !! r = Some (MkConnection (m :: q) open x) ∧
     s' = set_peers (<[r := MkConnection q open x]> (tcp_peers s)) s ∧ c' = c) ∨
  (∃ q, cn_replaced c = m :: q ∧ s' = s ∧ c' = set_replaced q c).
Proof.
  unfold take_message. intros Htake.
  assert ((match cn_replaced c with m :: q => Some (m, s, set_replaced q c) | [] => None end) = Some (m, s', c') →
    ∃ q, cn_replaced c = m :: q ∧ s' = s ∧ c' = set_replaced q c) as Hleft.
  { destruct (cn_replaced c) as [|m0 q0]; [done|]. intros [= <- <- <-]. by exists q0. }
  destruct (tcp_peers s !! r) as [[[|m0 q] open token]|] eqn:Hr; [by right; apply Hleft| |by right; apply Hleft].
  case_bool_decide as Htok; [|by right; apply Hleft]. subst. injection Htake as <- <- <-. left. by exists q, open.
Qed.
Lemma no_new_slot_take r x s c m s' c' : take_message r x s c = Some (m, s', c') → no_new_slot s s'.
Proof.
  intros [(q & open & Hr & -> & ->)|(q & _ & -> & ->)]%take_message_inv; [|done].
  by eapply no_new_slot_insert.
Qed.
Lemma take_message_task r x s c m s' c' : take_message r x s c = Some (m, s', c') →
  cn_owner c' = cn_owner c ∧ cn_known c' = cn_known c ∧ cn_other c' = cn_other c ∧ cn_stage c' = cn_stage c ∧
  cn_stream c' = cn_stream c ∧ cn_writing c' = cn_writing c.
Proof. by intros [(q & open & _ & _ & ->)|(q & _ & _ & ->)]%take_message_inv. Qed.

(** The slot is claimed for the new connection, and another loses it. *)
Lemma claim_slot_Ok out r x s loser s' :
  claim_slot out r x s = (Ok loser, s') →
  s' = emit (PeerConnected r) (set_peers (<[r := MkConnection [] true x]> (tcp_peers s)) s) ∧
  match loser with
  | Some l => ∃ sl, tcp_peers s !! r = Some sl ∧ conn_token l = conn_token sl ∧
      conn_queue l = conn_queue sl ++ (if conn_open sl then [Ping] else [])
  | None => True
  end.
Proof.
  unfold claim_slot. destruct (tcp_peers s !! r) as [sl|] eqn:Hr; [|by intros [= <- <-]].
  destruct (negb _); [done|]. intros [= <- <-]. split; [done|]. exists sl. unfold channel_send.
  split; [done|]. destruct (conn_open sl); simpl; [done|by rewrite app_nil_r].
Qed.
Lemma claim_slot_refused out r x s o s' :
  claim_slot out r x s = (o, s') → is_ok o = false → s' = s.
Proof.
  unfold claim_slot. destruct (tcp_peers s !! r) as [sl|]; [|by intros [= <- <-]].
  destruct (negb _); by intros [= <- <-].
Qed.
Lemma register_inv known out r x s o s' :
  (_ ← lift (check_handshake known r); claim_slot out r x) s = (o, s') →
  match o with
  | Ok loser => claim_slot out r x s = (Ok loser, s') ∧ ∀ p, known = Some p → p = r
  | _ => s' = s
  end.
Proof.
  intros Hrun.
  assert (check_handshake known r = Ok tt ∧ claim_slot out r x s = (o, s') ∨ o = Err "peer id mismatch" ∧ s' = s)
    as [[Hcheck Hclaim]|[-> ->]]; [|destruct o as [loser|e|]|done].
  - unfold check_handshake in *. destruct known as [p|]; [|by left]. case_bool_decide; [|by left].
    injection Hrun as <- <-. by right.
  - split; [done|]. intros p ->. unfold check_handshake in Hcheck. case_bool_decide; [done|].
    by destruct (decide (p = r)).
  - by eapply claim_slot_refused.
  - by eapply claim_slot_refused.
Qed.

(** *** The retry loop *)
Lemma pending_dials_elem a nd p addr :
  (p, addr) ∈ pending_dials (bootstrap a) (tn_dialing nd) (tn_tcp nd) →
  p ≠ tcp_local_id (tn_tcp nd) ∧ bootstrap a !! p = Some addr ∧ p ∉ tn_dialing nd.
Proof.
  unfold pending_dials. rewrite list_elem_of_filter, elem_of_btree_iter. simpl. tauto.
Qed.
Lemma pending_dials_unique a nd : NoDup (fst <$> pending_dials (bootstrap a) (tn_dialing nd) (tn_tcp nd)).
Proof.
  unfold pending_dials. eapply sublist_NoDup; [apply (btree_keys_NoDup (bootstrap a))|].
  apply fmap_sublist, sublist_filter.
Qed.
Lemma node_inv_retry cs a nd : node_inv cs a nd → node_inv cs a (retry_turn a nd).
Proof.
  intros [Hi Hs Hl Hc Hd _ _]. split; simpl; [done..|apply pending_dials_unique|].
  intros p addr Hp%pending_dials_elem. by rewrite Hi in Hp.
Qed.
Lemma node_inv_spawn cs a nd p addr rest :
  tn_pending nd = (p, addr) :: rest → node_inv cs a nd → node_inv cs a (spawn_dial p addr rest nd).
Proof.
  intros Hpend [Hi Hs Hl Hc Hd Hnd Hp]. rewrite Hpend in Hnd, Hp. simpl in Hnd.
  apply NoDup_cons in Hnd as [Hfresh Hnd]. destruct (Hp p addr) as (Hne & Hb & Hnot); [by left|].
  split; simpl; [done|done|..|done|].
  - intros q x Hx. destruct (Hl q x Hx) as (? & ? & Hq & ? & ?). assert (q ≠ p) by congruence.
    split_and!; [done|done|set_solver|by rewrite lookup_insert_ne|done].
  - intros q addr' [[<- <-]|[_ Hq]]%lookup_insert_Some; [set_solver|].
    destruct (Hc q addr' Hq) as (? & ? & ?). set_solver.
  - intros q [->%elem_of_singleton|Hq]%elem_of_union; [left; by rewrite lookup_insert_eq|].
    destruct (Hd q Hq) as [[addr' Hq']|?]; [left|by right]. rewrite lookup_insert_is_Some. destruct (decide (p = q)); eauto.
  - intros q addr' Hq. destruct (Hp q addr') as (? & ? & ?); [by right|]. split_and!; [done..|].
    intros [->%elem_of_singleton|?]%elem_of_union; [|done]. apply Hfresh, list_elem_of_fmap. by exists (p, addr').
Qed.
Lemma node_inv_dial_failed cs a nd p addr :
  tn_connecting nd !! p = Some addr → node_inv cs a nd → node_inv cs a (dial_failed p nd).
Proof.
  intros Hpend [Hi Hs Hl Hc Hd Hnd Hp]. split; simpl; [done|done|..|done|].
  - intros q x Hx. destruct (Hl q x Hx) as (? & ? & Hq & Hnone & ?). assert (q ≠ p) by congruence.
    split_and!; [done|done|set_solver|by rewrite lookup_delete_ne|done].
  - intros q addr' [Hne Hq]%lookup_delete_Some. destruct (Hc q addr' Hq) as (? & ? & ?). set_solver.
  - intros q [Hq Hne]%elem_of_difference. rewrite lookup_delete_ne by set_solver. auto.
  - intros q addr' Hq. destruct (Hp q addr' Hq) as (? & ? & ?). set_solver.
Qed.

(** *** Connections that begin *)
Lemma live_dial_connected cs a p b x y a' p' z :
  cs !! x = None → cs !! y = None → x ≠ y →
  live_dial (<[x := new_conn a (Some p) y]> (<[y := new_conn b None x]> cs)) a' p' z ↔
  live_dial cs a' p' z ∨ z = x ∧ a' = a ∧ p' = p.
Proof.
  intros Hx Hy Hne. unfold live_dial. destruct (decide (z = x)) as [->|].
  - rewrite lookup_insert_eq, Hx. split.
    + intros (? & [= <-] & ? & ? & _). simpl in *. naive_solver.
    + intros [(? & ? & _)|(_ & -> & ->)]; [done|]. by eexists.
  - rewrite lookup_insert_ne by done. destruct (decide (z = y)) as [->|].
    + rewrite lookup_insert_eq, Hy. naive_solver.
    + rewrite lookup_insert_ne by done. naive_solver.
Qed.
Lemma engaged_connected cs x y c d a r z :
  cs !! x = None → cs !! y = None → engaged cs a r z → engaged (<[x := c]> (<[y := d]> cs)) a r z.
Proof.
  intros Hx Hy (e & Hz & He). exists e. split; [|done]. rewrite !lookup_insert_ne by congruence. done.
Qed.
Lemma books_connected net a nd p addr b x y :
  nt_nodes net !! a = Some nd → tn_connecting nd !! p = Some addr →
  nt_conns net !! x = None → nt_conns net !! y = None → x ≠ y → books_ok net →
  books_ok (on_node a (dial_connected p nd) (on_conns
    (<[x := new_conn a (Some p) y]> (<[y := new_conn b None x]> (nt_conns net))) net)).
Proof.
  intros Ha Hp Hx Hy Hne Hnet a' nd'. simpl. intros [[<- <-]|[Hother Ha']]%lookup_insert_Some.
  - destruct (Hnet a nd Ha) as [Hi Hs Hl Hc Hd Hnd Hpend]. destruct (Hc p addr Hp) as (Hpa & Hb & Hdial).
    split; simpl; [done|..|done|done].
    + intros r sl Hr. apply engaged_connected; eauto.
    + intros q z. rewrite live_dial_connected by done. intros [Hz|(-> & _ & ->)].
      * destruct (Hl q z Hz) as (? & ? & ? & Hnone & Hu). split_and!; [done..|by rewrite lookup_delete_None; right|].
        intros z'. rewrite live_dial_connected by done. intros [?|(-> & _ & ->)]; [by apply Hu|congruence].
      * split_and!; [done|by eexists|done|by rewrite lookup_delete_eq|]. intros z.
        rewrite live_dial_connected by done. intros [Hz|(-> & _)]; [|done].
        destruct (Hl p z Hz) as (_ & _ & _ & ? & _). congruence.
    + intros q addr' [_ Hq]%lookup_delete_Some. eauto.
    + intros q Hq. destruct (decide (q = p)) as [->|].
      * right. exists x. apply live_dial_connected; auto.
      * rewrite lookup_delete_ne by done. destruct (Hd q Hq) as [?|[z ?]]; [by left|right].
        exists z. apply live_dial_connected; auto.
  - destruct (Hnet a' nd' Ha') as [Hi Hs Hl Hc Hd Hnd Hpend]. split; [done|..|done| |done|done].
    + intros r sl Hr. apply engaged_connected; eauto.
    + intros q z. rewrite live_dial_connected by done. intros [Hz|(_ & ? & _)]; [|congruence].
      destruct (Hl q z Hz) as (? & ? & ? & ? & Hu). split_and!; [done..|]. intros z'.
      rewrite live_dial_connected by done. intros [?|(_ & ? & _)]; [by apply Hu|congruence].
    + intros q Hq. destruct (Hd q Hq) as [?|[z ?]]; [by left|right]. exists z. apply live_dial_connected; auto.
Qed.

(** *** Connections that end *)

(** A task that has given up its slot: no slot may carry its token. *)
Definition unslotted (x : N) (s : TcpTransport) : Prop :=
  ∀ r sl, tcp_peers s !! r = Some sl → conn_token sl ≠ x.
Lemma engaged_other cs x c a r y : y ≠ x → engaged cs a r y → engaged (<[x := c]> cs) a r y.
Proof. intros Hne (d & Hy & Hd). exists d. by rewrite lookup_insert_ne. Qed.
Lemma engaged_stage cs a r x c :
  cs !! x = Some c → engaged cs a r x → cn_owner c = a ∧ (cn_stage c = Reading r ∨ cn_stage c = Closing r).
Proof. intros Hx (d & ? & Hd). by simplify_eq. Qed.
Lemma release_unslotted cs a nd r x c :
  cs !! x = Some c → cn_stage c = Closing r → node_inv cs a nd →
  unslotted x (release_slot r x (tn_tcp nd)).
Proof.
  intros Hx Hst Hnd q sl Hq <-.
  destruct (proj2 (no_new_slot_release r (conn_token sl) (tn_tcp nd)) q sl Hq) as (sl0 & Hsl0 & Htok).
  pose proof (ti_slots _ _ _ Hnd q sl0 Hsl0) as Heng. rewrite <-Htok in Heng.
  destruct (engaged_stage _ _ _ _ _ Hx Heng) as [_ [?|?]]; [congruence|]. simplify_eq.
  assert (q = r) as -> by congruence. unfold release_slot in Hq. rewrite Hsl0, <-Htok in Hq.
  rewrite bool_decide_true in Hq by done. simpl in Hq. by rewrite lookup_delete_eq in Hq.
Qed.
Lemma not_engaged_unslotted cs a nd x c :
  cs !! x = Some c → (cn_owner c = a → ∀ r, cn_stage c ≠ Reading r ∧ cn_stage c ≠ Closing r) →
  node_inv cs a nd → unslotted x (tn_tcp nd).
Proof.
  intros Hx Hno Hnd r sl Hr <-. pose proof (ti_slots _ _ _ Hnd r sl Hr) as Heng.
  destruct (engaged_stage _ _ _ _ _ Hx Heng) as [Ho [Hs|Hs]]; destruct (Hno Ho r); congruence.
Qed.
Lemma node_inv_unslotted cs a nd s x c c' :
  cs !! x = Some c → cn_owner c' = cn_owner c → cn_known c' = cn_known c →
  (cn_stage c' = Over ↔ cn_stage c = Over) →
  no_new_slot (tn_tcp nd) s → unslotted x s → node_inv cs a nd →
  node_inv (<[x := c']> cs) a (set_tcp s nd).
Proof.
  intros Hx Ho Hk Hover [Hid Hslots] Hun [Hi Hs Hl Hc Hd Hnd Hp].
  assert (∀ a p y, live_dial cs a p y ↔ live_dial (<[x := c']> cs) a p y) as Hlive.
  { intros b p y. unfold live_dial. destruct (decide (y = x)) as [->|]; [|by rewrite lookup_insert_ne].
    rewrite lookup_insert_eq, Hx. split; intros (? & [= <-] & ? & ? & Hno); eexists;
      (split_and!; [done|congruence|congruence|]); by intros Hnow%Hover. }
  split; simpl; [congruence|..|done|done].
  - intros r sl' Hr. pose proof (Hun r sl' Hr). destruct (Hslots r sl' Hr) as (sl & Hsl & Htok).
    rewrite Htok in *. apply engaged_other; [done|eauto].
  - intros p y Hy%Hlive. destruct (Hl p y Hy) as (? & ? & ? & ? & Hu). split_and!; [done..|].
    intros z Hz%Hlive. eauto.
  - done.
  - intros p [?|[y Hy]]%Hd; [by left|right]. exists y. by apply Hlive.
Qed.
Lemma books_unslotted net a nd s x c c' :
  nt_nodes net !! a = Some nd → nt_conns net !! x = Some c → cn_owner c = a →
  cn_owner c' = cn_owner c → cn_known c' = cn_known c → (cn_stage c' = Over ↔ cn_stage c = Over) →
  no_new_slot (tn_tcp nd) s → unslotted x s → books_ok net →
  books_ok (on_node a (set_tcp s nd) (on_conns (<[x := c']> (nt_conns net)) net)).
Proof.
  intros Ha Hx Howner Ho Hk Hover Hs Hun Hnet b nd'. simpl. intros [[<- <-]|[Hne Hb]]%lookup_insert_Some.
  - eapply node_inv_unslotted; [done..|by apply Hnet].
  - rewrite <-(set_tcp_id nd'). eapply node_inv_unslotted; [done..| |by apply Hnet].
    eapply not_engaged_unslotted; [done| |by apply Hnet]. congruence.
Qed.
Lemma books_forget net x c nd :
  nt_conns net !! x = Some c → nt_nodes net !! cn_owner c = Some nd → cn_stage c = Returned →
  books_ok net →
  books_ok (on_node (cn_owner c) (forget_dial (cn_known c) nd)
    (on_conns (<[x := staged Over c]> (nt_conns net)) net)).
Proof.
  intros Hx Hc Hst Hnet. set (cs' := <[x := staged Over c]> (nt_conns net)).
  assert (∀ a p y, live_dial cs' a p y ↔ y ≠ x ∧ live_dial (nt_conns net) a p y) as Hlive.
  { intros a p y. unfold live_dial, cs'. destruct (decide (y = x)) as [->|].
    - rewrite lookup_insert_eq. naive_solver.
    - rewrite lookup_insert_ne by done. naive_solver. }
  assert (∀ a nd r sl, nt_nodes net !! a = Some nd → tcp_peers (tn_tcp nd) !! r = Some sl →
    engaged cs' a r (conn_token sl)) as Hslots.
  { intros a n r sl Ha Hr. apply engaged_other; [|by eapply ti_slots; [apply Hnet|]].
    revert Hr. eapply not_engaged_unslotted; [exact Hx| |by apply Hnet]. intros _ r'. by rewrite Hst. }
  assert (∀ p, cn_known c = Some p → live_dial (nt_conns net) (cn_owner c) p x) as Hmine.
  { intros p Hp. exists c. by rewrite Hst. }
  intros a nd'. simpl. intros [[<- <-]|[Hne Ha]]%lookup_insert_Some.
  - pose proof (Hslots (cn_owner c) nd) as Hsl. destruct (Hnet _ _ Hc) as [Hi Hs Hl Hco Hd Hnd Hp].
    unfold forget_dial. destruct (cn_known c) as [p|] eqn:Hk.
    + specialize (Hmine p eq_refl). destruct (Hl p x Hmine) as (_ & _ & _ & Hnone & Hu).
      split; simpl; [done|eauto|..|done|].
      * intros q y [Hyx Hy]%Hlive. destruct (Hl q y Hy) as (? & ? & ? & ? & Huq).
        assert (q ≠ p) by (intros ->; by apply Hyx, Hu).
        split_and!; [done..|set_solver|done|]. intros z [_ Hz]%Hlive. eauto.
      * intros q addr Hq. destruct (Hco q addr Hq) as (? & ? & ?). assert (q ≠ p) by congruence. set_solver.
      * intros q [Hq Hqp]%elem_of_difference. destruct (Hd q Hq) as [?|[y Hy]]; [by left|right].
        exists y. apply Hlive. split; [|done]. intros ->. destruct Hy as (? & ? & _ & ? & _). set_solver.
      * intros q addr Hq. destruct (Hp q addr Hq) as (? & ? & ?). set_solver.
    + split; [done|eauto| |done| |done|done].
      * intros q y [Hyx Hy]%Hlive. destruct (Hl q y Hy) as (? & ? & ? & ? & Huq).
        split_and!; [done..|]. intros z [_ Hz]%Hlive. eauto.
      * intros q Hq. destruct (Hd q Hq) as [?|[y Hy]]; [by left|right]. exists y. apply Hlive. split; [|done].
        intros ->. destruct Hy as (? & ? & _ & ? & _). congruence.
  - pose proof (Hslots a nd') as Hsl. destruct (Hnet _ _ Ha) as [Hi Hs Hl Hco Hd Hnd Hp].
    split; [done|eauto| |done| |done|done].
    + intros q y [Hyx Hy]%Hlive. destruct (Hl q y Hy) as (? & ? & ? & ? & Huq).
      split_and!; [done..|]. intros z [_ Hz]%Hlive. eauto.
    + intros q Hq. destruct (Hd q Hq) as [?|[y Hy]]; [by left|right]. exists y. apply Hlive. split; [|done].
      intros ->. destruct Hy as (? & ? & Ho & _). congruence.
Qed.

(** *** The handshake *)

Lemma told_lookup loser cs x c :
  cs !! x = Some c → ∃ q, told loser cs !! x = Some (set_replaced q c).
Proof.
  intros Hx. destruct loser as [l|]; simpl; [|exists (cn_replaced c); rewrite Hx; by destruct c].
  destruct (decide (conn_token l = x)) as [->|].
  - rewrite lookup_alter_eq, Hx. by eexists.
  - rewrite lookup_alter_ne, Hx by done. exists (cn_replaced c). by destruct c.
Qed.
Lemma told_kept loser cs : tasks_kept cs (told loser cs).
Proof. destruct loser; [by apply tasks_kept_alter|reflexivity]. Qed.

Lemma handshake_cases x c nd r rest net :
  (∃ loser, claim_slot (bool_decide (is_Some (cn_known c))) r x (tn_tcp nd) =
       (Ok loser, emit (PeerConnected r)
          (set_peers (<[r := MkConnection [] true x]> (tcp_peers (tn_tcp nd))) (tn_tcp nd))) ∧
     (∀ p, cn_known c = Some p → p = r) ∧
     handshake x c nd r rest net =
       on_node (cn_owner c) (set_tcp (emit (PeerConnected r)
          (set_peers (<[r := MkConnection [] true x]> (tcp_peers (tn_tcp nd))) (tn_tcp nd))) nd)
         (on_conns (<[x := start_writer (staged (Reading r) (left_to_read rest c))]>
            (told loser (nt_conns net))) net)) ∨
  handshake x c nd r rest net = on_conns (<[x := staged Returned c]> (nt_conns net)) net.
Proof.
  unfold handshake.
  destruct ((_ ← lift (check_handshake (cn_known c) r);
             claim_slot (bool_decide (is_Some (cn_known c))) r x) (tn_tcp nd)) as [[loser|e|] s'] eqn:Hreg;
    [|by right..].
  apply register_inv in Hreg as [Hclaim Hp]. destruct (claim_slot_Ok _ _ _ _ _ _ Hclaim) as [-> _].
  left. exists loser. by split_and!.
Qed.
Lemma books_handshake net x c nd r rest :
  nt_conns net !! x = Some c → nt_nodes net !! cn_owner c = Some nd → cn_stage c = Greeting →
  books_ok net → books_ok (handshake x c nd r rest net).
Proof.
  intros Hx Hc Hst Hnet.
  destruct (handshake_cases x c nd r rest net) as [(loser & _ & _ & ->)| ->].
  - set (c' := start_writer _). destruct (told_lookup loser _ _ _ Hx) as [q Hq].
    assert (tasks_kept (nt_conns net) (<[x := c']> (told loser (nt_conns net)))) as Hkept.
    { etransitivity; [apply (told_kept loser)|]. eapply tasks_kept_update; [exact Hq|done..| |];
        simpl; rewrite Hst; naive_solver. }
    intros a nd'. simpl. intros [[<- <-]|[_ Ha]]%lookup_insert_Some.
    + assert (node_inv (<[x := c']> (told loser (nt_conns net))) (cn_owner c) (set_tcp (tn_tcp nd) nd))
        as [Hi Hs Hl Hco Hd Hnd Hp] by (eapply node_inv_kept; [done|done|by apply Hnet]).
      split; [done| |done..]. intros q' sl. simpl. intros [[<- <-]|[_ Hsl]]%lookup_insert_Some; [|eauto].
      exists c'. rewrite lookup_insert_eq. simpl. eauto.
    + rewrite <-(set_tcp_id nd'). eapply node_inv_kept; [done|done|by apply Hnet].
  - apply books_tasks; [|done]. eapply tasks_kept_update; [done..| |]; simpl; rewrite Hst; naive_solver.
Qed.

(** *** Every step keeps the books *)
Lemma tasks_kept_write cs x c c' f :
  cs !! x = Some c → cn_owner c' = cn_owner c → cn_known c' = cn_known c → cn_stage c' = cn_stage c →
  (∀ c, cn_owner (f c) = cn_owner c ∧ cn_known (f c) = cn_known c ∧ cn_stage (f c) = cn_stage c) →
  tasks_kept cs (alter f (cn_other c) (<[x := c']> cs)).
Proof.
  intros Hx Ho Hk Hs Hf. etransitivity; [|by apply tasks_kept_alter].
  eapply tasks_kept_update; [done..| |]; by rewrite Hs.
Qed.
Lemma books_transport net a nd s cs sent :
  nt_nodes net !! a = Some nd → tasks_kept (nt_conns net) cs → no_new_slot (tn_tcp nd) s → books_ok net →
  books_ok (MkNet (<[a := set_tcp s nd]> (nt_nodes net)) cs sent).
Proof. intros Ha Hcs Hs Hnet. by apply (books_kept a nd s cs net). Qed.
Lemma books_node net a nd nd' :
  nt_nodes net !! a = Some nd → (node_inv (nt_conns net) a nd → node_inv (nt_conns net) a nd') →
  books_ok net → books_ok (on_node a nd' net).
Proof.
  intros Ha Hnd Hnet b n. simpl. intros [[<- <-]|[_ Hb]]%lookup_insert_Some; [by apply Hnd, Hnet|by apply Hnet].
Qed.
#[local] Hint Resolve no_new_slot_emit no_new_slot_next no_new_slot_broadcast no_new_slot_send
  no_new_slot_abort no_new_slot_release no_new_slot_take : core.

Lemma books_step net net' : tcp_step net net' → books_ok net → books_ok net'.
Proof.
  intros Hstep Hnet. destruct Hstep as
    [net a nd Ha _|net a nd p addr rest Ha Hp|net a nd p addr Ha Hp|net a nd p addr b x y Ha Hp _ _ Hx Hy Hne
    |net x c Hx Hst|net x c nd b rest r Hx Hc Hst _ _|net x c Hx Hst|net x c nd r m tcp c' Hx Hc Hst _ Htake
    |net x c nd r m tcp c' k Hx Hc Hst _ Htake _|net x c nd r m rest Hx Hc Hst _|net x c nd r Hx Hc Hst
    |net x c nd r Hx Hc Hst|net x c nd Hx Hc Hst|net a nd m Ha _|net a nd p m Ha _|net a nd Ha].
  - eapply books_node; [done|apply node_inv_retry|done].
  - eapply books_node; [done|by apply node_inv_spawn|done].
  - eapply books_node; [done|by eapply node_inv_dial_failed|done].
  - by eapply books_connected.
  - apply books_tasks; [|done]. etransitivity; [|by apply tasks_kept_alter].
    eapply tasks_kept_update; [done..| |]; simpl; rewrite Hst; naive_solver.
  - by apply books_handshake.
  - apply books_tasks; [|done]. eapply tasks_kept_update; [done..| |]; simpl; destruct Hst as [-> | ->]; naive_solver.
  - destruct (take_message_task _ _ _ _ _ _ _ Htake) as (? & ? & ? & ? & _).
    apply books_kept; [done|by apply tasks_kept_write|eauto|done].
  - destruct (take_message_task _ _ _ _ _ _ _ Htake) as (? & ? & ? & ? & _).
    apply books_kept; [done|by apply tasks_kept_write| |done].
    etransitivity; [by eapply no_new_slot_take|apply no_new_slot_abort].
  - apply books_kept; [done| |auto|done]. by eapply tasks_kept_update.
  - apply books_kept; [done| |auto|done]. eapply tasks_kept_update; [done..| |]; simpl; rewrite Hst; naive_solver.
  - eapply books_unslotted; [done..| |auto|by eapply release_unslotted, Hnet|done].
    simpl. by rewrite Hst.
  - by apply books_forget.
  - apply books_transport; [done|reflexivity|auto|done].
  - apply books_transport; [done|reflexivity|auto|done].
  - apply (books_kept a nd _ (nt_conns net)); [done|reflexivity|auto|done].
Qed.

Lemma net_new_lookup ids a nd : nt_nodes (tcp_net_new ids) !! a = Some nd → nd = tcp_node_new a.
Proof. intros (? & [= -> ->] & _)%elem_of_list_to_map_2%list_elem_of_fmap. done. Qed.
Lemma books_new ids : books_ok (tcp_net_new ids).
Proof.
  intros a nd ->%net_new_lookup. split; simpl; try done.
  - intros p x (? & ? & _). done.
  - by apply NoDup_nil.
  - intros p addr Hp. by apply elem_of_nil in Hp.
Qed.
Lemma books_steps net net' : rtc tcp_step net net' → books_ok net → books_ok net'.
Proof. induction 1; eauto using books_step. Qed.

(** C30: A transport always knows what its connections are doing: however the
    dials, handshakes, reads, writes, failures and exits of a network of
    transports interleave, each slot belongs to a connection task that has not
    returned and speaks to that peer; a peer is marked as being dialled exactly
    while one dial of it is under way, there are never two dials of one peer, and
    a transport dials only its bootstrap peers and never itself. *)
Theorem tcp_books_exact (ids : list PeerId) net (a : PeerId) nd :
  rtc tcp_step (tcp_net_new ids) net → nt_nodes net !! a = Some nd →
  (∀ r sl, tcp_peers (tn_tcp nd) !! r = Some sl → ∃ c, nt_conns net !! conn_token sl = Some c ∧
     cn_owner c = a ∧ (cn_stage c = Reading r ∨ cn_stage c = Closing r)) ∧
  (∀ p, p ∈ tn_dialing nd ↔ is_Some (tn_connecting nd !! p) ∨ ∃ x, live_dial (nt_conns net) a p x) ∧
  (∀ p x, live_dial (nt_conns net) a p x → tn_connecting nd !! p = None ∧
     ∀ y, live_dial (nt_conns net) a p y → y = x) ∧
  (∀ p, p ∈ tn_dialing nd → p ≠ a ∧ is_Some (bootstrap a !! p)).
Proof.
  intros Hsteps Ha. destruct (books_steps _ _ Hsteps (books_new ids) a nd Ha) as [Hi Hs Hl Hc Hd _ _].
  split_and!; [exact Hs|..].
  - intros p. split; [auto|]. intros [[addr Hp]|[x Hx]]; [by apply (Hc p addr)|by apply (Hl p x)].
  - intros p x Hx. destruct (Hl p x Hx) as (_ & _ & _ & ? & ?). done.
  - intros p [[addr Hp]|[x Hx]]%Hd; [by destruct (Hc p addr Hp) as (? & ? & _)|].
    by destruct (Hl p x Hx) as (? & ? & _).
Qed.
End tasks.
