(* ===== verification/TcpWire.v ===== *)
(** * What a network of TCP transports carries

    The bytes on every socket, the messages in every channel and the events of
    every transport, related to what the transports were asked to send. *)

From Stdlib Require Import Strings.Byte.
From S2P Require Import Prelude.
From S2P Require Import Externals.
From S2P Require Import Primitives.
From S2P Require Import Network.
From S2P Require Import Tcp.
From S2P Require Import TcpNetwork.
Local Open Scope N_scope.

Section wire.
Context {Addr : Type} `{!Serde Message}.
Context (bootstrap : PeerId → gmap PeerId Addr) (listens : Addr → option PeerId).
Notation Node := (TcpNode Addr).
Notation Net := (TcpNet Addr).
Notation tcp_step := (tcp_step bootstrap listens).
Notation books_ok := (books_ok bootstrap).
Implicit Types (nd : Node) (net : Net) (c d : Connection).

(** ** What travels *)

(** One transport was given an address the other listens at. *)
Definition dialled (a b : PeerId) : Prop := ∃ p addr, bootstrap a !! p = Some addr ∧ listens addr = Some b.
Definition tcp_linked (a b : PeerId) : Prop := dialled a b ∨ dialled b a.
Definition fits (m : Message) : Prop := N.of_nat (length (encode m)) ≤ U32.
(** Messages of [a]: what it was asked to send, and the last ping of a connection
    that loses its slot. *)
Definition said (sent : list (PeerId * Message)) (a : PeerId) (m : Message) : Prop :=
  m = Ping ∨ (a, m) ∈ sent.
(** A stream of the task [d]: whole frames of its messages, and a cut one if its
    writer broke; nothing before its own handshake. *)
Definition content (sent : list (PeerId * Message)) d (s : bytes) : Prop :=
  cn_stage d ≠ Fresh ∧ (cn_stage d = Greeting → s = []) ∧
  ∃ ms tail, s = concat (write_message <$> ms) ++ tail ∧ Forall (said sent (cn_owner d)) ms ∧
    (tail = [] ∨ cn_writing d = false ∧
       ∃ m k, fits m ∧ (k < length (write_message m))%nat ∧ tail = take k (write_message m)).
(** What the task [c] has still to read is what [d], at the other end, wrote. *)
Record hears (sent : list (PeerId * Message)) c d : Prop := {
  hr_linked : tcp_linked (cn_owner c) (cn_owner d);
  hr_remote r : cn_stage c = Reading r → r = cn_owner d;
  hr_waiting : cn_stage c = Fresh ∨ cn_stage c = Greeting →
    (cn_stream c = [] ∧ (cn_stage d = Fresh ∨ cn_stage d = Returned ∨ cn_stage d = Over)) ∨
    ∃ s, cn_stream c = peer_bytes (cn_owner d) ++ s ∧ content sent d s;
  hr_reading r : cn_stage c = Reading r → content sent d (cn_stream c);
}.
Definition conns_ok (sent : list (PeerId * Message)) (cs : gmap N Connection) : Prop :=
  ∀ x c, cs !! x = Some c → Forall (said sent (cn_owner c)) (cn_replaced c) ∧
    ∃ d, cs !! cn_other c = Some d ∧ cn_other d = x ∧ cn_other c ≠ x ∧ hears sent c d.
Record node_says (sent : list (PeerId * Message)) (a : PeerId) nd : Prop := {
  ns_slots r sl : tcp_peers (tn_tcp nd) !! r = Some sl → tcp_linked a r ∧ Forall (said sent a) (conn_queue sl);
  ns_events r m : MessageReceived r m ∈ tcp_events (tn_tcp nd) → tcp_linked a r ∧ said sent r m;
}.
Record wire_ok net : Prop := {
  wr_fits a m : (a, m) ∈ nt_sent net → fits m;
  wr_conns : conns_ok (nt_sent net) (nt_conns net);
  wr_nodes a nd : nt_nodes net !! a = Some nd → node_says (nt_sent net) a nd;
}.

Lemma said_mono sent sent' a ms :
  sent ⊆ sent' → Forall (said sent a) ms → Forall (said sent' a) ms.
Proof.
  intros Hsub Hms. eapply Forall_impl; [exact Hms|]. intros m [?|?]; [by left|right; by apply Hsub].
Qed.
Lemma content_mono sent sent' d d' s :
  content sent d s → sent ⊆ sent' → cn_owner d' = cn_owner d →
  (cn_writing d = false → cn_writing d' = false) → cn_stage d' ≠ Fresh →
  (cn_stage d' = Greeting → cn_stage d = Greeting) → content sent' d' s.
Proof.
  intros (Hf & Hg & ms & tail & -> & Hms & Htail) Hsub Ho Hw Hf' Hg'. split_and!; [done|by intros ?%Hg'%Hg|].
  exists ms, tail. split_and!; [done|rewrite Ho; by eapply said_mono|]. destruct Htail as [?|[? ?]]; auto.
Qed.
Lemma content_same sent d d' s :
  content sent d s → cn_owner d' = cn_owner d → cn_writing d' = cn_writing d → cn_stage d' = cn_stage d →
  content sent d' s.
Proof.
  intros Hs Ho Hw Hst. apply (content_mono sent sent d); [done|done|done|congruence| |congruence].
  rewrite Hst. apply Hs.
Qed.
Lemma content_empty sent d : cn_stage d ≠ Fresh → content sent d [].
Proof. intros Hd. split_and!; [done|done|]. exists [], []. split_and!; [done|by apply Forall_nil|by left]. Qed.
(** The writer writes a frame, or breaks after some of its bytes. *)
Lemma content_write sent d s r m :
  content sent d s → cn_stage d = Reading r → cn_writing d = true → said sent (cn_owner d) m →
  content sent d (s ++ write_message m).
Proof.
  intros (Hf & _ & ms & tail & -> & Hms & [->|[? _]]) Hst Hw Hm; [|congruence].
  split_and!; [done|congruence|]. exists (ms ++ [m]), []. rewrite fmap_app, concat_app. simpl. rewrite !app_nil_r.
  split_and!; [done|apply Forall_app; split; [done|by apply Forall_singleton]|by left].
Qed.
Lemma content_break sent d d' s r m k :
  content sent d s → cn_stage d = Reading r → cn_writing d = true → fits m →
  (k < length (write_message m))%nat → cn_owner d' = cn_owner d → cn_stage d' = Reading r →
  cn_writing d' = false → content sent d' (s ++ take k (write_message m)).
Proof.
  intros (Hf & _ & ms & tail & -> & Hms & [->|[? _]]) Hst Hw Hm Hk Ho Hst' Hw'; [|congruence].
  split_and!; [congruence|congruence|]. exists ms, (take k (write_message m)).
  rewrite app_nil_r, Ho. split; [done|]. split; [done|]. right. split; [done|]. by exists m, k.
Qed.

(** *** The two ends of a socket *)

(** One end changes, and with it perhaps the other's stream. *)
Lemma conns_update sent cs x c c' d d' :
  conns_ok sent cs → cs !! x = Some c → cs !! cn_other c = Some d →
  cn_other c' = cn_other c → cn_other d' = cn_other d →
  cn_owner d' = cn_owner d → cn_replaced d' = cn_replaced d →
  Forall (said sent (cn_owner c')) (cn_replaced c') → hears sent c' d' → hears sent d' c' →
  conns_ok sent (<[cn_other c := d']> (<[x := c']> cs)).
Proof.
  intros Hcs Hx Hd Hoc Hod Hown Hrep Hq Hcd Hdc. destruct (Hcs x c Hx) as (_ & d0 & Hd0 & Hback & Hne & _).
  assert (d0 = d) as -> by congruence. set (y := cn_other c) in *.
  destruct (Hcs y d Hd) as (Hrepd & _).
  intros z e [[<- <-]|[Hzy [[<- <-]|[Hzx Hz]]%lookup_insert_Some]]%lookup_insert_Some.
  - rewrite Hown, Hrep. split; [done|]. exists c'. rewrite Hod, Hback, lookup_insert_ne, lookup_insert_eq by done.
    by split_and!.
  - split; [done|]. exists d'. rewrite Hoc. fold y. rewrite lookup_insert_eq. split_and!; [done|congruence|congruence|done].
  - destruct (Hcs z e Hz) as (? & f & Hf & Hfz & Hnz & Hears). split; [done|]. exists f.
    assert (cn_other e ≠ y) by (intros Heq; rewrite Heq, Hd in Hf; congruence).
    assert (cn_other e ≠ x) by (intros Heq; rewrite Heq, Hx in Hf; injection Hf as <-; done).
    rewrite !lookup_insert_ne by done. done.
Qed.
Lemma conns_update_one sent cs x c c' d :
  conns_ok sent cs → cs !! x = Some c → cs !! cn_other c = Some d → cn_other c' = cn_other c →
  Forall (said sent (cn_owner c')) (cn_replaced c') → hears sent c' d → hears sent d c' →
  conns_ok sent (<[x := c']> cs).
Proof.
  intros Hcs Hx Hd Hoc Hq Hcd Hdc.
  replace (<[x := c']> cs) with (<[cn_other c := d]> (<[x := c']> cs)); [by eapply conns_update|].
  apply insert_id. destruct (Hcs x c Hx) as (_ & _ & _ & _ & Hne & _). by rewrite lookup_insert_ne.
Qed.
Lemma alter_insert_other (cs : gmap N Connection) x c c' d f :
  cs !! cn_other c = Some d → x ≠ cn_other c →
  alter f (cn_other c) (<[x := c']> cs) = <[cn_other c := f d]> (<[x := c']> cs).
Proof.
  intros Hd Hne. apply map_eq. intros z. destruct (decide (z = cn_other c)) as [->|].
  - by rewrite lookup_alter_eq, lookup_insert_ne, Hd, lookup_insert_eq.
  - by rewrite lookup_alter_ne, (lookup_insert_ne (<[x:=c']> cs) (cn_other c)).
Qed.
Lemma conns_mono sent sent' cs : sent ⊆ sent' → conns_ok sent cs → conns_ok sent' cs.
Proof.
  intros Hsub Hcs x c Hx. destruct (Hcs x c Hx) as (Hq & d & Hd & Hb & Hne & [Hl Hr Hw Hs]).
  split; [by eapply said_mono|]. exists d. split_and!; [done..|].
  assert (∀ s, content sent d s → content sent' d s) as Hc.
  { intros s Hs'. apply (content_mono sent sent' d d s); [done|done|done|done|apply Hs'|done]. }
  split; [done|done| |by eauto]. intros Hst. destruct (Hw Hst) as [?|(s & ? & ?)]; [by left|right]. eauto.
Qed.
Lemma node_says_mono sent sent' a nd : sent ⊆ sent' → node_says sent a nd → node_says sent' a nd.
Proof.
  intros Hsub [Hs He]. split.
  - intros r sl Hr. destruct (Hs r sl Hr). split; [done|by eapply said_mono].
  - intros r m Hr. destruct (He r m Hr) as [? [?|?]]; [by split; [|left]|by split; [|right; apply Hsub]].
Qed.

(** *** What a reader makes of it *)
Lemma read_exact_short n stream : (length stream < n)%nat → read_exact n stream = None.
Proof. intros Hlt. unfold read_exact. by rewrite (proj2 (Nat.leb_gt _ _)). Qed.
Lemma read_message_cut m k :
  fits m → (k < length (write_message m))%nat → is_ok (read_message (take k (write_message m))) = false.
Proof.
  intros Hm Hk. unfold read_message. destruct (decide (k < 4)%nat) as [Hlt|Hge].
  { rewrite read_exact_short; [done|]. rewrite length_take. lia. }
  unfold write_message in *. set (len := as_uint U32 (N.of_nat (length (encode m)))) in *.
  assert (len = N.of_nat (length (encode m))) as Hlen by (apply N.mod_small; unfold fits, U32 in *; lia).
  rewrite length_app in Hk. rewrite take_app_ge by (simpl; lia).
  change 4%nat with (length (to_be_bytes len)) at 1. rewrite read_exact_app. cbn [ok_or mbind outcome_bind].
  rewrite from_to_be_bytes by (unfold fits in Hm; lia). case_match; [done|].
  rewrite read_exact_short; [done|]. rewrite length_take. simpl in *. lia.
Qed.

Section readers.
Context `{!SerdeLaws Message} (ping_fits : fits Ping).

Lemma said_fits sent a m : (∀ a m, (a, m) ∈ sent → fits m) → said sent a m → fits m.
Proof. intros Hsent [->|?]; [done|by eapply Hsent]. Qed.
Lemma content_read sent d s m rest :
  (∀ a m, (a, m) ∈ sent → fits m) → content sent d s → read_message s = Ok (m, rest) →
  said sent (cn_owner d) m ∧ content sent d rest.
Proof.
  intros Hsent (Hf & Hg & ms & tail & -> & Hms & Htail) Hread. destruct ms as [|m0 ms].
  { exfalso. simpl in Hread. destruct Htail as [->|(_ & m' & k & Hm' & Hk & ->)]; [done|].
    pose proof (read_message_cut m' k Hm' Hk) as Hcut. by rewrite Hread in Hcut. }
  apply Forall_cons in Hms as [Hm0 Hms]. rewrite fmap_cons in Hread. cbn [concat] in Hread.
  rewrite <-(assoc_L (++)), read_message_frame in Hread by by eapply said_fits.
  case_match; [done|]. injection Hread as <- <-. split; [done|]. split_and!; [done| |by exists ms, tail].
  intros Hgr. specialize (Hg Hgr). rewrite fmap_cons in Hg. by destruct (write_message m0) eqn:Hw.
Qed.
(** The identifier read in the handshake is that of the transport at the other
    end, which has written nothing else if it has not read ours. *)
Lemma hears_identifier sent c d b rest r :
  hears sent c d → cn_stage c = Greeting → read_exact 32 (cn_stream c) = Some (b, rest) →
  array32_try_from b = Some r → MkPeerId r = cn_owner d ∧ content sent d rest.
Proof.
  intros Hcd Hst Hread Hr. destruct (hr_waiting _ _ _ Hcd) as [[Hs _]|(s & Hs & Hc)]; [by right|..].
  - by rewrite Hs in Hread.
  - rewrite Hs in Hread. rewrite <-(array32_length (peer_array (cn_owner d))) in Hread.
    unfold peer_bytes in Hread. rewrite read_exact_app in Hread. injection Hread as <- <-.
    rewrite (proj2 (array32_try_from_Some _ (peer_array (cn_owner d))) eq_refl) in Hr. injection Hr as <-.
    by destruct (cn_owner d).
Qed.

(** *** One end changes *)
Lemma hears_same sent c c' d d' :
  hears sent c d → cn_owner c' = cn_owner c → cn_stage c' = cn_stage c → cn_stream c' = cn_stream c →
  cn_owner d' = cn_owner d → cn_stage d' = cn_stage d → cn_writing d' = cn_writing d → hears sent c' d'.
Proof.
  intros [Hl Hr Hw Hs] Ho Hst Hstr Hod Hstd Hwd.
  assert (∀ s, content sent d s → content sent d' s) as Hc by (intros s Hcs; by eapply content_same).
  split; rewrite ?Ho, ?Hst, ?Hstr, ?Hod, ?Hstd; [done|done| |eauto].
  intros [?|(s & ? & ?)]%Hw; [by left|right]. eauto.
Qed.
(** The other end changes its state and writes nothing. *)
Lemma hears_peer sent c d d' :
  hears sent c d → cn_owner d' = cn_owner d → (∀ s, content sent d s → content sent d' s) →
  (cn_stage d = Fresh ∨ cn_stage d = Returned ∨ cn_stage d = Over →
   cn_stage d' = Fresh ∨ cn_stage d' = Returned ∨ cn_stage d' = Over) →
  hears sent c d'.
Proof.
  intros [Hl Hr Hw Hs] Ho Hc Hmute. split; rewrite ?Ho; [done|done| |eauto].
  intros [[? ?]|(s & ? & ?)]%Hw; [left; auto|right]. eauto.
Qed.
Lemma hears_receive sent d c c' b r :
  hears sent d c → cn_stage c = Reading r → cn_owner c' = cn_owner c →
  (∀ s, content sent c s → content sent c' (s ++ b)) → hears sent (received b d) c'.
Proof.
  intros [Hl Hr Hw Hs] Hst Ho Hc. split; simpl; rewrite ?Ho; [done|done| |eauto].
  intros [[_ [?|[?|?]]]|(s & -> & ?)]%Hw; [congruence..|right]. exists (s ++ b).
  split; [by rewrite (assoc_L (++))|auto].
Qed.
(** An end that no longer reads. *)
Lemma hears_deaf sent c c' d :
  hears sent c d → cn_owner c' = cn_owner c → (∀ r, cn_stage c' ≠ Reading r) → cn_stage c' ≠ Fresh →
  cn_stage c' ≠ Greeting → hears sent c' d.
Proof.
  intros [Hl _ _ _] Ho Hr Hf Hg. split; [by rewrite Ho|by intros r ?%Hr|by intros [?|?]|by intros r ?%Hr].
Qed.

Lemma conns_partner sent cs x c : conns_ok sent cs → cs !! x = Some c →
  Forall (said sent (cn_owner c)) (cn_replaced c) ∧ ∃ d, cs !! cn_other c = Some d ∧ cn_other d = x ∧
    cn_other c ≠ x ∧ hears sent c d ∧ hears sent d c.
Proof.
  intros Hcs Hx. destruct (Hcs x c Hx) as (Hq & d & Hd & Hb & Hne & Hcd). split; [done|].
  destruct (Hcs _ d Hd) as (_ & c0 & Hc0 & _ & _ & Hdc). rewrite Hb in Hc0. assert (c0 = c) as -> by congruence.
  exists d. by split_and!.
Qed.
(** A task moves on to a stage in which it does not read. *)
Lemma conns_staged sent cs x c c' :
  conns_ok sent cs → cs !! x = Some c → cn_owner c' = cn_owner c → cn_other c' = cn_other c →
  (cn_replaced c' = cn_replaced c ∨ cn_replaced c' = []) → (cn_writing c = false → cn_writing c' = false) →
  (∀ r, cn_stage c' ≠ Reading r) → cn_stage c' ≠ Fresh → cn_stage c' ≠ Greeting →
  (cn_stage c = Fresh ∨ cn_stage c = Returned ∨ cn_stage c = Over →
   cn_stage c' = Returned ∨ cn_stage c' = Over) →
  conns_ok sent (<[x := c']> cs).
Proof.
  intros Hcs Hx Ho Hoth Hrep Hw Hr Hf Hg Hmute.
  destruct (conns_partner _ _ _ _ Hcs Hx) as (Hq & d & Hd & Hb & Hne & Hcd & Hdc).
  eapply conns_update_one; [done..| | |].
  - rewrite Ho. destruct Hrep as [-> | ->]; [done|by apply Forall_nil].
  - by eapply hears_deaf.
  - eapply hears_peer; [done|done| |intros ?%Hmute; by right].
    intros s Hs. by eapply content_mono.
Qed.
Lemma conns_greet sent cs x c :
  conns_ok sent cs → cs !! x = Some c → cn_stage c = Fresh →
  conns_ok sent (alter (received (peer_bytes (cn_owner c))) (cn_other c) (<[x := staged Greeting c]> cs)).
Proof.
  intros Hcs Hx Hst. destruct (conns_partner _ _ _ _ Hcs Hx) as (Hq & d & Hd & Hb & Hne & Hcd & Hdc).
  rewrite (alter_insert_other _ _ _ _ d) by done. eapply conns_update; [done..| |].
  - split; [apply Hcd|done| |done]. intros _.
    destruct (hr_waiting _ _ _ Hcd) as [[? ?]|(s & ? & ?)]; [by left|by left|right]. exists s. split; [done|].
    by eapply content_same.
  - split; [apply Hdc|simpl; apply Hdc| |].
    + intros Hwait. right. destruct (hr_waiting _ _ _ Hdc Hwait) as [[Hs _]|(s & _ & Hs)].
      * exists []. simpl. rewrite Hs, app_nil_r. split; [done|]. by apply content_empty.
      * by destruct Hs.
    + intros r Hr. destruct (hr_reading _ _ _ Hdc r Hr). done.
Qed.
Lemma conns_write sent cs x c c' b r :
  conns_ok sent cs → cs !! x = Some c → cn_stage c = Reading r →
  cn_owner c' = cn_owner c → cn_other c' = cn_other c → cn_stage c' = cn_stage c → cn_stream c' = cn_stream c →
  Forall (said sent (cn_owner c)) (cn_replaced c') → (∀ s, content sent c s → content sent c' (s ++ b)) →
  conns_ok sent (alter (received b) (cn_other c) (<[x := c']> cs)).
Proof.
  intros Hcs Hx Hst Ho Hoth Hst' Hstr Hrep Hc.
  destruct (conns_partner _ _ _ _ Hcs Hx) as (Hq & d & Hd & Hb & Hne & Hcd & Hdc).
  rewrite (alter_insert_other _ _ _ _ d) by done.
  eapply conns_update; [done..|by rewrite Ho|by apply (hears_same sent c c' d)|by eapply (hears_receive sent d c)].
Qed.
Lemma conns_told sent cs loser :
  conns_ok sent cs →
  (∀ l c, loser = Some l → cs !! conn_token l = Some c → Forall (said sent (cn_owner c)) (conn_queue l)) →
  conns_ok sent (told loser cs).
Proof.
  intros Hcs Hq. destruct loser as [l|]; [|done]. simpl.
  destruct (cs !! conn_token l) as [c|] eqn:Hc; [|by rewrite alter_id by congruence].
  replace (alter _ _ cs) with (<[conn_token l := set_replaced (if conn_open l then conn_queue l else []) c]> cs).
  - destruct (conns_partner _ _ _ _ Hcs Hc) as (_ & d & Hd & Hb & Hne & Hcd & Hdc).
    eapply conns_update_one; [done..| |by apply (hears_same sent c _ d)|by apply (hears_same sent d _ c)].
    simpl. destruct (conn_open l); [by apply Hq|by apply Forall_nil].
  - apply map_eq. intros z. destruct (decide (z = conn_token l)) as [->|].
    + by rewrite lookup_insert_eq, lookup_alter_eq, Hc.
    + by rewrite lookup_insert_ne, lookup_alter_ne.
Qed.
Lemma conns_connected sent cs a b p x y :
  conns_ok sent cs → cs !! x = None → cs !! y = None → x ≠ y → tcp_linked a b →
  conns_ok sent (<[x := new_conn a (Some p) y]> (<[y := new_conn b None x]> cs)).
Proof.
  intros Hcs Hx Hy Hne Hab.
  assert (∀ a b k k' z z', tcp_linked a b → hears sent (new_conn a k z) (new_conn b k' z')) as Hnew.
  { intros a' b' k k' z z' Hl. split; [done|done| |done]. left. auto. }
  assert (tcp_linked b a) as Hba by (destruct Hab; [by right|by left]).
  intros z c [[<- <-]|[Hzx [[<- <-]|[Hzy Hz]]%lookup_insert_Some]]%lookup_insert_Some.
  - split; [by apply Forall_nil|]. exists (new_conn b None x). simpl.
    rewrite lookup_insert_ne, lookup_insert_eq by done. by auto.
  - split; [by apply Forall_nil|]. exists (new_conn a (Some p) y). simpl. rewrite lookup_insert_eq. by auto.
  - destruct (Hcs z c Hz) as (? & d & Hd & ? & ? & ?). split; [done|]. exists d.
    rewrite !lookup_insert_ne by congruence. by split_and!.
Qed.
Lemma conns_handshake sent cs x c q d r rest :
  conns_ok sent cs → cs !! x = Some (set_replaced q c) → cn_stage c = Greeting →
  Forall (said sent (cn_owner c)) (cn_replaced c) → cs !! cn_other c = Some d →
  r = cn_owner d → content sent d rest →
  conns_ok sent (<[x := start_writer (staged (Reading r) (left_to_read rest c))]> cs).
Proof.
  intros Hcs Hx Hst Hq Hd -> Hrest.
  destruct (conns_partner _ _ _ _ Hcs Hx) as (_ & d' & Hd' & Hb & Hne & Hcd & Hdc). simpl in Hd', Hne.
  assert (d' = d) as -> by congruence.
  eapply conns_update_one; [exact Hcs|exact Hx|exact Hd|done|exact Hq|..].
  - split; simpl; [apply Hcd|congruence|by intros [?|?]|done].
  - split; simpl; [apply Hdc|apply Hdc| |].
    + intros [[_ Hm]|(s & Hs & _ & Hg & _)]%(hr_waiting _ _ _ Hdc); [simpl in Hm; rewrite Hst in Hm; naive_solver|].
      right. exists []. split; [by rewrite Hs, Hg|]. by apply content_empty.
    + intros r' Hr'. destruct (hr_reading _ _ _ Hdc r' Hr') as (_ & Hg & _).
      rewrite Hg by done. by apply content_empty.
Qed.

(** *** What a transport holds *)
Definition says_kept (sent : list (PeerId * Message)) (a : PeerId) (s s' : TcpTransport) : Prop :=
  (∀ r sl', tcp_peers s' !! r = Some sl' → ∃ sl, tcp_peers s !! r = Some sl ∧
     ∀ m, m ∈ conn_queue sl' → m ∈ conn_queue sl ∨ said sent a m) ∧
  (∀ r m, MessageReceived r m ∈ tcp_events s' →
     MessageReceived r m ∈ tcp_events s ∨ tcp_linked a r ∧ said sent r m).
Lemma node_says_kept sent a nd s :
  says_kept sent a (tn_tcp nd) s → node_says sent a nd → node_says sent a (set_tcp s nd).
Proof.
  intros [Hslots Hev] [Hs He]. split; simpl.
  - intros r sl' (sl & Hsl & Hq)%Hslots. destruct (Hs r sl Hsl) as [? Hall]. split; [done|].
    rewrite Forall_forall in *. intros m [?|?]%Hq; eauto.
  - intros r m [?|?]%Hev; eauto.
Qed.
Lemma says_kept_refl sent a s : says_kept sent a s s.
Proof. split; eauto. Qed.
Lemma says_kept_insert sent a s r sl sl' :
  tcp_peers s !! r = Some sl → (∀ m, m ∈ conn_queue sl' → m ∈ conn_queue sl ∨ said sent a m) →
  says_kept sent a s (set_peers (<[r := sl']> (tcp_peers s)) s).
Proof.
  intros Hsl Hq. split; [|simpl; eauto]. intros q y. simpl.
  intros [[<- <-]|[_ Hy]]%lookup_insert_Some; [by exists sl|]. exists y. auto.
Qed.
Lemma says_kept_abort sent a r x s : says_kept sent a s (abort_outbound r x s).
Proof.
  unfold abort_outbound. destruct (tcp_peers s !! r) as [sl|] eqn:Hr; [|apply says_kept_refl].
  case_bool_decide; [|apply says_kept_refl]. eapply says_kept_insert; [done|auto].
Qed.
Lemma says_kept_release sent a r x s : says_kept sent a s (release_slot r x s).
Proof.
  unfold release_slot. destruct (tcp_peers s !! r) as [sl|] eqn:Hr; [|apply says_kept_refl].
  case_bool_decide; [|apply says_kept_refl]. split; [|simpl; eauto]. simpl.
  intros q y [_ Hq]%lookup_delete_Some. eauto.
Qed.
Lemma says_kept_take sent a r x s c m s' c' : take_message r x s c = Some (m, s', c') → says_kept sent a s s'.
Proof.
  intros [(q & open & Hr & -> & ->)|(q & _ & -> & ->)]%take_message_inv; [|apply says_kept_refl].
  eapply says_kept_insert; [done|]. simpl. intros m' ?. left. by right.
Qed.
Lemma says_kept_broadcast sent a m s : said sent a m → says_kept sent a s (broadcast m s).2.
Proof.
  intros Hm. simpl. case_bool_decide; [apply says_kept_refl|]. split; [|simpl; eauto]. simpl. intros r sl'.
  rewrite lookup_fmap, fmap_Some. intros (sl & Hsl & ->). exists sl. split; [done|]. unfold channel_send.
  destruct (conn_open sl); [|auto]. simpl. intros m' [?| ->%list_elem_of_singleton]%elem_of_app; auto.
Qed.
Lemma says_kept_send sent a p m s : said sent a m → says_kept sent a s (send_to p m s).2.
Proof.
  intros Hm. simpl. destruct (tcp_peers s !! p) as [sl|] eqn:Hp; [|apply says_kept_refl].
  unfold channel_send. destruct (conn_open sl); [|apply says_kept_refl].
  eapply says_kept_insert; [done|]. simpl. intros m' [?| ->%list_elem_of_singleton]%elem_of_app; auto.
Qed.
Lemma says_kept_next sent a s : says_kept sent a s (next_event s).2.
Proof.
  simpl. destruct (tcp_events s) as [|e es] eqn:He; [apply says_kept_refl|]. split; [simpl; eauto|].
  simpl. intros r m Hin. left. rewrite He. by right.
Qed.
Lemma says_kept_emit sent a r m s :
  tcp_linked a r → said sent r m → says_kept sent a s (emit (MessageReceived r m) s).
Proof.
  intros Hl Hm. split; [simpl; eauto|]. simpl.
  intros r' m' [?|[= <- <-]%list_elem_of_singleton]%elem_of_app; auto.
Qed.
(** The message a writer takes is its transport's. *)
Lemma take_message_said sent a r x nd c m s' c' :
  take_message r x (tn_tcp nd) c = Some (m, s', c') → node_says sent a nd →
  Forall (said sent a) (cn_replaced c) → said sent a m ∧ Forall (said sent a) (cn_replaced c').
Proof.
  intros Htake Hnd Hq.
  apply take_message_inv in Htake as [(q & open & Hr & -> & ->)|(q & Hq' & -> & ->)].
  - destruct (ns_slots _ _ _ Hnd r _ Hr) as [_ Hall]. simpl in Hall. apply Forall_cons in Hall. tauto.
  - rewrite Hq' in Hq. by apply Forall_cons in Hq.
Qed.

(** *** Every step carries only what was said *)
Lemma wire_transport net a nd s cs :
  wire_ok net → nt_nodes net !! a = Some nd → says_kept (nt_sent net) a (tn_tcp nd) s →
  conns_ok (nt_sent net) cs → wire_ok (on_node a (set_tcp s nd) (on_conns cs net)).
Proof.
  intros [Hf Hc Hn] Ha Hs Hcs. split; simpl; [done|done|].
  intros b nd' [[<- <-]|[_ Hb]]%lookup_insert_Some; [|by apply Hn]. apply node_says_kept; auto.
Qed.
Lemma wire_tasks net cs : wire_ok net → conns_ok (nt_sent net) cs → wire_ok (on_conns cs net).
Proof. intros [Hf Hc Hn] Hcs. by split. Qed.
Lemma wire_retry net a nd nd' :
  wire_ok net → nt_nodes net !! a = Some nd → tn_tcp nd' = tn_tcp nd → wire_ok (on_node a nd' net).
Proof.
  intros [Hf Hc Hn] Ha Htcp. split; simpl; [done|done|].
  intros b n [[<- <-]|[_ Hb]]%lookup_insert_Some; [|by apply Hn]. destruct (Hn a nd Ha). by split; rewrite Htcp.
Qed.
Lemma wire_sent net a nd m s :
  wire_ok net → nt_nodes net !! a = Some nd → fits m →
  says_kept (nt_sent net ++ [(a, m)]) a (tn_tcp nd) s →
  wire_ok (MkNet (<[a := set_tcp s nd]> (nt_nodes net)) (nt_conns net) (nt_sent net ++ [(a, m)])).
Proof.
  intros [Hf Hc Hn] Ha Hm Hs.
  assert (nt_sent net ⊆ nt_sent net ++ [(a, m)]) as Hsub by set_solver.
  split; simpl.
  - intros b m' [?|[= -> ->]%list_elem_of_singleton]%elem_of_app; [by eapply Hf|done].
  - by eapply conns_mono.
  - intros b n [[<- <-]|[_ Hb]]%lookup_insert_Some; [|by eapply node_says_mono, Hn].
    apply node_says_kept; [done|]. by eapply node_says_mono, Hn.
Qed.
Lemma wire_handshake net x c nd b rest r :
  nt_conns net !! x = Some c → nt_nodes net !! cn_owner c = Some nd → cn_stage c = Greeting →
  read_exact 32 (cn_stream c) = Some (b, rest) → array32_try_from b = Some r →
  books_ok net → wire_ok net → wire_ok (handshake x c nd (MkPeerId r) rest net).
Proof.
  intros Hx Hc Hst Hread Hr Hbooks Hnet.
  destruct (conns_partner _ _ _ _ (wr_conns _ Hnet) Hx) as (Hq & d & Hd & Hb & Hne & Hcd & Hdc).
  destruct (hears_identifier _ _ _ _ _ _ Hcd Hst Hread Hr) as [Hid Hrest]. rewrite Hid.
  destruct (handshake_cases x c nd (cn_owner d) rest net) as [(loser & Hclaim & _ & ->)| ->].
  - destruct (claim_slot_Ok _ _ _ _ _ _ Hclaim) as [_ Hloser].
    assert (conns_ok (nt_sent net) (told loser (nt_conns net))) as Htold.
    { apply conns_told; [apply Hnet|]. intros l e -> He. destruct Hloser as (sl & Hsl & Htok & ->).
      pose proof (ti_slots _ _ _ _ (Hbooks _ _ Hc) _ _ Hsl) as Heng. rewrite <-Htok in Heng.
      destruct (engaged_stage _ _ _ _ _ He Heng) as [-> _]. apply Forall_app. split.
      - by apply (ns_slots _ _ _ (wr_nodes _ Hnet _ _ Hc) (cn_owner d)).
      - destruct (conn_open sl); [apply Forall_singleton; by left|by apply Forall_nil]. }
    destruct (told_lookup loser _ _ _ Hx) as [q Hxq], (told_lookup loser _ _ _ Hd) as [q' Hdq].
    destruct Hnet as [Hf Hcs Hn]. split; simpl; [done| |].
    + eapply conns_handshake; [done..|].
      by eapply content_same.
    + intros a n [[<- <-]|[_ Ha]]%lookup_insert_Some; [|by apply Hn]. destruct (Hn _ _ Hc) as [Hs He].
      split; simpl.
      * intros r' sl [[<- <-]|[_ Hsl]]%lookup_insert_Some; [|by apply Hs].
        split; [apply Hcd|by apply Forall_nil].
      * intros r' m [?|?%list_elem_of_singleton]%elem_of_app; [auto|done].
  - apply wire_tasks; [done|]. eapply conns_staged; [apply Hnet|done..|by left|done|done|done|done|].
    rewrite Hst. naive_solver.
Qed.
Lemma wire_connected net a nd p addr b x y :
  nt_nodes net !! a = Some nd → tn_connecting nd !! p = Some addr → listens addr = Some b →
  nt_conns net !! x = None → nt_conns net !! y = None → x ≠ y → books_ok net → wire_ok net →
  wire_ok (on_node a (dial_connected p nd) (on_conns
    (<[x := new_conn a (Some p) y]> (<[y := new_conn b None x]> (nt_conns net))) net)).
Proof.
  intros Ha Hp Hb Hx Hy Hne Hbooks Hnet. eapply wire_retry; [|done|done]. apply wire_tasks; [done|].
  apply conns_connected; [apply Hnet|done..|]. left. exists p, addr. split; [|done].
  by apply (ti_connecting _ _ _ _ (Hbooks a nd Ha)).
Qed.

(** The other end of the task, with what each has said. *)
Lemma wire_partner net x c :
  wire_ok net → nt_conns net !! x = Some c →
  Forall (said (nt_sent net) (cn_owner c)) (cn_replaced c) ∧ ∃ d, nt_conns net !! cn_other c = Some d ∧
    hears (nt_sent net) c d ∧ hears (nt_sent net) d c.
Proof.
  intros Hnet Hx. destruct (conns_partner _ _ _ _ (wr_conns _ Hnet) Hx) as (Hq & d & Hd & _ & _ & ? & ?). eauto.
Qed.
Lemma wire_write net x c nd r m tcp c' s e b :
  nt_conns net !! x = Some c → nt_nodes net !! cn_owner c = Some nd → cn_stage c = Reading r →
  take_message r x (tn_tcp nd) c = Some (m, tcp, c') → wire_ok net →
  says_kept (nt_sent net) (cn_owner c) (tn_tcp nd) s →
  cn_owner e = cn_owner c → cn_other e = cn_other c → cn_stage e = cn_stage c → cn_stream e = cn_stream c →
  (cn_replaced e = cn_replaced c' ∨ cn_replaced e = []) →
  (∀ s, fits m → said (nt_sent net) (cn_owner c) m → content (nt_sent net) c s → content (nt_sent net) e (s ++ b)) →
  wire_ok (on_node (cn_owner c) (set_tcp s nd) (on_conns
    (alter (received b) (cn_other c) (<[x := e]> (nt_conns net))) net)).
Proof.
  intros Hx Hc Hst Htake Hnet Hs Ho Hoth Hst' Hstr Hrep Hb.
  destruct (wire_partner _ _ _ Hnet Hx) as (Hq & _).
  destruct (take_message_said _ _ _ _ _ _ _ _ _ Htake (wr_nodes _ Hnet _ _ Hc) Hq) as [Hm Hq'].
  apply wire_transport; [done..|]. eapply conns_write; [apply Hnet|done..| |].
  - destruct Hrep as [-> | ->]; [done|by apply Forall_nil].
  - intros s' Hs'. apply Hb; [|done..]. eapply said_fits; [apply Hnet|done].
Qed.
Lemma wire_step net net' : tcp_step net net' → books_ok net → wire_ok net → wire_ok net'.
Proof.
  intros Hstep Hbooks Hnet. destruct Hstep as
    [net a nd Ha _|net a nd p addr rest Ha Hp|net a nd p addr Ha Hp|net a nd p addr b x y Ha Hp Hb _ Hx Hy Hne
    |net x c Hx Hst|net x c nd b rest r Hx Hc Hst Hread Hr|net x c Hx Hst|net x c nd r m tcp c' Hx Hc Hst Hw Htake
    |net x c nd r m tcp c' k Hx Hc Hst Hw Htake Hk|net x c nd r m rest Hx Hc Hst Hread|net x c nd r Hx Hc Hst
    |net x c nd r Hx Hc Hst|net x c nd Hx Hc Hst|net a nd m Ha Hm|net a nd p m Ha Hm|net a nd Ha].
  - by eapply wire_retry.
  - by eapply wire_retry.
  - by eapply wire_retry.
  - by eapply wire_connected.
  - apply wire_tasks; [done|]. apply conns_greet; [apply Hnet|done..].
  - by eapply wire_handshake.
  - apply wire_tasks; [done|]. eapply conns_staged; [apply Hnet|done..|by left|done|done|done|done|].
    destruct Hst as [-> | ->]; naive_solver.
  - destruct (take_message_task _ _ _ _ _ _ _ Htake) as (? & ? & ? & ? & ? & ?).
    eapply wire_write; [done..|by eapply says_kept_take|done|done|done|done|by left|].
    intros s _ Hm Hs. eapply content_same; [by eapply content_write|done..].
  - destruct (take_message_task _ _ _ _ _ _ _ Htake) as (? & ? & ? & ? & ? & ?).
    eapply wire_write; [done..| |done|done|done|done|by right|].
    + destruct (says_kept_take (nt_sent net) (cn_owner c) _ _ _ _ _ _ _ Htake) as [Hs1 He1].
      destruct (says_kept_abort (nt_sent net) (cn_owner c) r x tcp) as [Hs2 He2]. split.
      * intros q sl2 (sl1 & Hsl1 & Hq1)%Hs2. destruct (Hs1 q sl1 Hsl1) as (sl & ? & Hq). exists sl. split; [done|].
        intros m' [?%Hq|?]%Hq1; auto.
      * intros q m' [?%He1|?]%He2; auto.
    + intros s Hm _ Hs. eapply content_break; [done..|simpl; congruence|done].
  - destruct (wire_partner _ _ _ Hnet Hx) as (Hq & d & Hd & Hcd & Hdc).
    destruct (content_read _ _ _ _ _ (wr_fits _ Hnet) (hr_reading _ _ _ Hcd r Hst) Hread) as [Hm Hrest].
    pose proof (hr_remote _ _ _ Hcd r Hst) as ->.
    apply wire_transport; [done..|apply says_kept_emit; [apply Hcd|done]|].
    eapply conns_update_one; [apply Hnet|done|done|done|done| |by apply (hears_same (nt_sent net) d _ c)].
    split; simpl; [apply Hcd|apply Hcd|by rewrite Hst; intros [?|?]|done].
  - apply wire_transport; [done..|apply says_kept_abort|].
    eapply conns_staged; [apply Hnet|done..|by right|done|done|done|done|]. rewrite Hst. naive_solver.
  - apply wire_transport; [done..|apply says_kept_release|].
    eapply conns_staged; [apply Hnet|done..|by left|done|done|done|done|]. rewrite Hst. naive_solver.
  - eapply wire_retry; [apply wire_tasks; [done|]|exact Hc|by destruct (cn_known c)].
    eapply conns_staged; [apply Hnet|done..|by left|done|done|done|done|]. by right.
  - apply wire_sent; [done..|]. apply says_kept_broadcast. right. set_solver.
  - apply wire_sent; [done..|]. apply says_kept_send. right. set_solver.
  - apply (wire_transport net a nd _ (nt_conns net)); [done..|apply says_kept_next|apply Hnet].
Qed.
Lemma wire_new ids : wire_ok (tcp_net_new ids).
Proof.
  split; simpl; [by intros a m ?%elem_of_nil|done|]. intros a nd ->%net_new_lookup.
  split; simpl; [done|by intros r m ?%elem_of_nil].
Qed.
Lemma wire_steps net net' : rtc tcp_step net net' → books_ok net → wire_ok net → wire_ok net'.
Proof. induction 1; eauto using wire_step, books_step. Qed.

Lemma wire_events ids net a nd r m :
  rtc tcp_step (tcp_net_new ids) net → nt_nodes net !! a = Some nd →
  MessageReceived r m ∈ tcp_events (tn_tcp nd) → tcp_linked a r ∧ (m = Ping ∨ (r, m) ∈ nt_sent net).
Proof.
  intros Hsteps Ha. pose proof (wire_steps _ _ Hsteps (books_new bootstrap ids) (wire_new ids)) as Hnet.
  apply (ns_events _ _ _ (wr_nodes _ Hnet a nd Ha)).
Qed.

(** C29: A network of transports carries only what was sent, and only along its
    links: however their tasks interleave, and wherever connections break, a
    message received from a peer is one that the transport with that identifier
    was asked to send (or the ping that closes a connection replaced by another),
    whole, and both the peer of any slot and the sender of any message are
    transports that dialled, or were dialled by, the one that holds it. *)
Theorem tcp_network_faithful (ids : list PeerId) net (a : PeerId) nd :
  rtc tcp_step (tcp_net_new ids) net → nt_nodes net !! a = Some nd →
  (∀ r m, MessageReceived r m ∈ tcp_events (tn_tcp nd) →
     tcp_linked a r ∧ (m = Ping ∨ (r, m) ∈ nt_sent net)) ∧
  (∀ r sl, tcp_peers (tn_tcp nd) !! r = Some sl → tcp_linked a r).
Proof.
  intros Hsteps Ha. split; [intros r m; by apply (wire_events ids)|].
  pose proof (wire_steps _ _ Hsteps (books_new bootstrap ids) (wire_new ids)) as Hnet.
  intros r sl Hr. by apply (ns_slots _ _ _ (wr_nodes _ Hnet a nd Ha) r sl).
Qed.
End readers.

(** When every address is that of the peer it is given for, the links are the
    pairs of which one names the other. *)
Lemma tcp_linked_named a b :
  (∀ a p addr, bootstrap a !! p = Some addr → listens addr = Some p) →
  tcp_linked a b ↔ is_Some (bootstrap a !! b) ∨ is_Some (bootstrap b !! a).
Proof.
  intros Hnamed.
  assert (∀ a b, dialled a b ↔ is_Some (bootstrap a !! b)) as Hd.
  { intros x y. split.
    - intros (p & addr & Hp & Ha). pose proof (Hnamed x p addr Hp). exists addr. congruence.
    - intros [addr Hy]. exists y, addr. eauto. }
  unfold tcp_linked. by rewrite !Hd.
Qed.
End wire.
