(* ===== verification/NodeConfig.v ===== *)
(** * Crate [pemrix-node]: genesis, configuration, keys and bootstrap

    [genesis.rs], [config.rs], [keys.rs], [bootstrap.rs], [error.rs] and the
    start-up of [node.rs].  The file system is a finite map from
    paths to contents in which directories exist and writes succeed; JSON texts,
    socket addresses, environment variables and the clock are parameters or
    arguments. *)

From Stdlib Require Import Strings.Byte.
From stdpp Require Import pretty.
From S2P Require Import Prelude.
From S2P Require Import Externals.
From S2P Require Import Primitives.
From S2P Require Import Storage.
From S2P Require Import StateStore.
From S2P Require Import Crypto.
From S2P Require Import Vm.
From S2P Require Import VmTheorems.
From S2P Require Import ValidatorSet.
From S2P Require Import Protocol.
From S2P Require Import Bft.
From S2P Require Import Network.
Local Open Scope N_scope.

(** ** [error.rs] *)
Inductive NodeError :=
| NodeConfigError (msg : string) | NodeStorage (e : StorageError) | NodeConsensus | NodeRpc
| NodeNetwork | NodeCrypto | NodeIo (msg : string).

(** ** Files and texts *)
Notation FileSystem := (gmap string string).
(** [serde_json::to_string_pretty] and [serde_json::from_str] at one type. *)
Class JsonText (A : Type) := {
  to_string_pretty : A → string;
  from_json : string → outcome string A;
}.
Class JsonTextLaws (A : Type) `{JsonText A} : Prop :=
  from_json_to_string x : from_json (to_string_pretty x) = Ok x.
(** [<SocketAddr as FromStr>::from_str] *)
Class SocketAddrs := { SocketAddr : Type; parse_socket : string → option SocketAddr }.

(** [Path::join] with a relative file name. *)
Fixpoint ends_with_slash (s : string) : bool :=
  match s with
  | EmptyString => false
  | String c EmptyString => bool_decide (c = Ascii.ascii_of_nat 47)
  | String _ s => ends_with_slash s
  end.
Definition path_join (dir name : string) : string :=
  if bool_decide (dir = "") || ends_with_slash dir then dir +:+ name else dir +:+ "/" +:+ name.

Section files.
Context {A : Type} `{JsonText A}.
(** [create_dir_all], [to_string_pretty], [fs::write] *)
Definition write_json (path : string) (x : A) : M FileSystem NodeError unit :=
  modify (λ fs, <[path := to_string_pretty x]> fs).
(** [fs::read_to_string], [from_str] with the error's text wrapped by [wrap]. *)
Definition read_json (wrap : string → string) (path : string) : M FileSystem NodeError A :=
  o ← gets (λ fs : FileSystem, fs !! path);
  contents ← lift (ok_or o (NodeIo "No such file or directory (os error 2)"));
  lift (map_err (λ e, NodeConfigError (wrap e)) (from_json contents)).
End files.

(** ** [genesis.rs] *)
Record GenesisConfig := MkGenesis {
  gn_chain_id : string;
  gn_timestamp : N;
  gn_allocations : gmap Address Account;
  gn_validators : list Address;
}.
Definition GenesisConfig_default : GenesisConfig := MkGenesis "pemrix-local" 0 ∅ [].
(** [GenesisConfig::local_development] *)
Definition local_development (funded : list (Address * N)) (now : N) : GenesisConfig :=
  MkGenesis "pemrix-local" now (foldl (λ m e, <[e.1 := MkAccount e.2 0]> m) ∅ funded) [].
Definition genesis_save `{JsonText GenesisConfig} (data_dir : string) (g : GenesisConfig)
    : M FileSystem NodeError unit := write_json (path_join data_dir "genesis.json") g.
Definition genesis_load `{JsonText GenesisConfig} (data_dir : string)
    : M FileSystem NodeError GenesisConfig := read_json id (path_join data_dir "genesis.json").

(** [for (address, account) in &genesis.allocations { set_account(..)?; }] *)
Definition seed_allocations {S} `{Store S} (allocations : gmap Address Account) : M S NodeError unit :=
  forM (λ e, map_errM NodeStorage (store_set_account e.1 e.2)) (btree_iter allocations).

Section genesis.
Context `{Profile, Hex, Blake3, Dalek, !Serde Account, !Serde (gmap string bytes)}.
Context `{!Serde ValidatorRecord, !Serde Delegation, !Serde Transaction, !Serde StakingOperation}.
Context `{!Serde BlockHeader, !Serde (list Transaction)}.

(** [GenesisConfig::genesis_block] *)
Definition genesis_block (g : GenesisConfig) : outcome NodeError Block :=
  match seed_allocations (gn_allocations g) new_in_memory with
  | (Ok _, state) =>
      state_root ← map_err NodeStorage (store_state_root state);
      let proposer := default Address_default (head (gn_validators g)) in
      Ok (MkBlock
        (MkBlockHeader 0 (gn_timestamp g) Hash_default state_root (hash_bytes [])
           (address_array proposer))
        (MkBlockBody []))
  | (Err e, _) => Err e
  | (Panic, _) => Panic
  end.

(** ** [keys.rs] *)
Record ValidatorKeyFile := MkKeyFile { kf_address : string; kf_public_key : string; kf_secret_key : string }.
Definition FILE_NAME : string := "validator_key.json".
Definition keyfile_from_keypair (kp : KeyPair) : ValidatorKeyFile :=
  MkKeyFile (Address_to_string (from_public_key_hash (hash_bytes (public_bytes (kp_public kp)))))
    (hex_encode (public_bytes (kp_public kp))) (hex_encode (secret_bytes (kp_secret kp))).
(** The text of a [hex::FromHexError] is [hex]'s own. *)
Definition keyfile_to_keypair (f : ValidatorKeyFile) : outcome NodeError KeyPair :=
  public ← ok_or (hex_decode (kf_public_key f)) (NodeConfigError "invalid public key hex");
  secret ← ok_or (hex_decode (kf_secret_key f)) (NodeConfigError "invalid secret key hex");
  Ok (MkKeyPair (MkPublicKey public) (MkSecretKey secret)).
Definition keyfile_address (f : ValidatorKeyFile) : outcome NodeError Address :=
  map_err (λ e, NodeConfigError ("invalid validator address: " +:+ e)) (Address_from_str (kf_address f)).
Definition node_generate_keypair (random : array32) : outcome NodeError KeyPair :=
  map_err (λ _, NodeCrypto) (generate_keypair Ed25519Scheme random).
Definition generate_and_save `{JsonText ValidatorKeyFile} (data_dir : string) (random : array32)
    : M FileSystem NodeError ValidatorKeyFile :=
  kp ← lift (node_generate_keypair random);
  let f := keyfile_from_keypair kp in
  _ ← write_json (path_join data_dir FILE_NAME) f;
  mret f.
Definition keys_load `{JsonText ValidatorKeyFile} (data_dir : string)
    : M FileSystem NodeError ValidatorKeyFile :=
  read_json (λ e, "failed to parse validator key file: " +:+ e) (path_join data_dir FILE_NAME).
(** A line break of a format string. *)
Definition nl : string := String (Ascii.ascii_of_nat 10) "".
(** [keys::status] *)
Definition keys_status `{JsonText ValidatorKeyFile} (data_dir : string) : M FileSystem NodeError string :=
  let path := path_join data_dir FILE_NAME in
  exists_ ← gets (λ fs : FileSystem, bool_decide (is_Some (fs !! path)));
  if exists_ : bool then
    f ← keys_load data_dir;
    mret ("Validator key found at " +:+ path +:+ nl +:+ "Address: " +:+ kf_address f +:+ nl +:+
          "Public key: " +:+ kf_public_key f +:+ nl +:+ "Secret key: [stored in file - protect it]")
  else
    mret ("No validator key found at " +:+ path +:+ ". Run `pemrix init --validator` to create one.").

(** [start_solo]: seed a solo engine and propose three empty blocks; [clock] is
    the time at each height. *)
Definition start_solo (g : GenesisConfig) (clock : N → N)
    : outcome NodeError (SoloConsensus (StateStore InMemoryBackend)) :=
  genesis ← genesis_block g;
  let proposer := default Address_default (head (gn_validators g)) in
  let body :=
    _ ← zoom solo_state (λ st c, MkSolo st (solo_height c) (solo_proposer c) (solo_previous_hash c))
          (seed_allocations (gn_allocations g));
    forM (λ h, _ ← map_errM (λ _, NodeConsensus) (solo_propose h [] (clock h)); mret tt) [1; 2; 3] in
  match body (solo_new new_in_memory proposer (block_hash genesis)) with
  | (Ok _, engine) => Ok engine
  | (Err e, _) => Err e
  | (Panic, _) => Panic
  end.
End genesis.

(** ** [config.rs] *)
Section config.
Context `{SocketAddrs}.

Record NodeConfig := MkNodeConfig {
  nc_data_dir : string;
  nc_rpc_listen : string;
  nc_p2p_listen : string;
  nc_validator : bool;
  nc_bootstrap_nodes : gmap PeerId SocketAddr;
  nc_validator_set : option ValidatorSet;
  nc_local_validator_address : option Address;
}.
Definition single_validator_set (a : Address) : ValidatorSet := from_validators [MkValidator a 1].
Definition NodeConfig_default : NodeConfig :=
  MkNodeConfig "./pemrix-data" ports.rpc_local ports.p2p_default false ∅ None None.
Definition for_data_dir (data_dir : string) : NodeConfig :=
  MkNodeConfig data_dir ports.rpc_local ports.p2p_default false ∅ None None.
Definition config_load `{JsonText NodeConfig} (data_dir : string) : M FileSystem NodeError NodeConfig :=
  let path := path_join data_dir "node.json" in
  exists_ ← gets (λ fs : FileSystem, bool_decide (is_Some (fs !! path)));
  if exists_ : bool then read_json id path else mret (for_data_dir data_dir).
Definition config_save `{JsonText NodeConfig} (c : NodeConfig) : M FileSystem NodeError unit :=
  write_json (path_join (nc_data_dir c) "node.json") c.

(** ** [node.rs]: start-up *)
Section start.
Context `{!JsonText NodeConfig, !JsonText GenesisConfig, !JsonText ValidatorKeyFile, Hex}.

Definition set_validator_mode (v : bool) (c : NodeConfig) : NodeConfig :=
  MkNodeConfig (nc_data_dir c) (nc_rpc_listen c) (nc_p2p_listen c) v (nc_bootstrap_nodes c)
    (nc_validator_set c) (nc_local_validator_address c).
Definition set_committee (vs : ValidatorSet) (local : Address) (c : NodeConfig) : NodeConfig :=
  MkNodeConfig (nc_data_dir c) (nc_rpc_listen c) (nc_p2p_listen c) (nc_validator c)
    (nc_bootstrap_nodes c) (Some vs) (Some local).
(** [init] *)
Definition init (data_dir : string) (validator : bool) (now : N) : M FileSystem NodeError unit :=
  _ ← config_save (set_validator_mode validator (for_data_dir data_dir));
  genesis_save data_dir (local_development [] now).
(** What [start] runs: [start_bft] or [start_solo]. *)
Inductive NodeMode := StartBft (c : NodeConfig) (g : GenesisConfig) | StartSolo (c : NodeConfig) (g : GenesisConfig).
Definition start (data_dir : string) : M FileSystem NodeError NodeMode :=
  config ← config_load data_dir;
  genesis ← genesis_load data_dir;
  config ← (if nc_validator config then
              key_file ← keys_load data_dir;
              local_address ← lift (keyfile_address key_file);
              let vs := default (single_validator_set local_address) (nc_validator_set config) in
              mret (set_committee vs local_address config)
            else mret config);
  mret (if bool_decide (is_Some (nc_validator_set config) ∧ is_Some (nc_local_validator_address config))
        then StartBft config genesis else StartSolo config genesis).
Definition start_validator (data_dir : string) : M FileSystem NodeError NodeMode :=
  config ← config_load data_dir;
  _ ← config_save (set_validator_mode true config);
  start data_dir.
(** [node.rs]: [status] *)
Definition bool_to_string (b : bool) : string := if b then "true" else "false".
Definition node_status (data_dir : string) : M FileSystem NodeError string :=
  config ← config_load data_dir;
  genesis ← genesis_load data_dir;
  mret ("PEMRIX Node Status" +:+ nl +:+ "Chain ID: " +:+ gn_chain_id genesis +:+ nl +:+
        "Data Directory: " +:+ nc_data_dir config +:+ nl +:+
        "Validator: " +:+ bool_to_string (nc_validator config) +:+ nl +:+
        "RPC: " +:+ nc_rpc_listen config +:+ nl +:+ "P2P: " +:+ nc_p2p_listen config).
End start.

(** The consensus engine [run_bft_validator] builds before any network activity:
    committee and address from the configuration, the store it opened, and the
    genesis allocations written into it. *)
Definition bft_engine {S} `{Store S, Profile, Hex, Blake3, Dalek, !Serde Account, !Serde (gmap string bytes)}
    `{!Serde ValidatorRecord, !Serde Delegation, !Serde BlockHeader}
    (c : NodeConfig) (g : GenesisConfig) (store : S) : outcome NodeError (BftConsensus S) :=
  vs ← ok_or (nc_validator_set c) (NodeConfigError "validator_set required for BFT validator");
  local ← ok_or (nc_local_validator_address c)
            (NodeConfigError "local_validator_address required for BFT validator");
  genesis ← genesis_block g;
  _ ← ok_or (parse_socket (nc_p2p_listen c)) (NodeConfigError "invalid p2p_listen address");
  match new_with_store local vs store (block_hash genesis) with
  | Ok engine =>
      match zoom state set_state (seed_allocations (gn_allocations g)) engine with
      | (Ok _, engine) => Ok engine
      | (Err e, _) => Err e
      | (Panic, _) => Panic
      end
  | _ => Panic
  end.
(** [let local_id = PeerId::from_public_key_hash(..)] *)
Definition node_peer_id `{Blake3} (a : Address) : PeerId :=
  peer_from_public_key_hash (hash_bytes (address_as_bytes a)).

(** ** [bootstrap.rs] *)
Record BootstrapValidator := MkBootstrapValidator {
  bv_address : Address; bv_p2p : string; bv_name : option string;
}.
Definition bootstrap_genesis (chain_id : string) (vs : list BootstrapValidator)
    (allocations : list (Address * N)) (now : N) : GenesisConfig :=
  let funded := foldl (λ m e, <[e.1 := MkAccount e.2 0]> m) ∅ allocations in
  MkGenesis chain_id now
    (foldl (λ m v, <[bv_address v := default (MkAccount 1000000 0) (m !! bv_address v)]> m) funded vs)
    (bv_address <$> vs).
Fixpoint p2p_addresses (vs : list BootstrapValidator) (m : gmap Address SocketAddr)
    : outcome NodeError (gmap Address SocketAddr) :=
  match vs with
  | [] => Ok m
  | v :: vs =>
      addr ← ok_or (parse_socket (bv_p2p v)) (NodeConfigError ("invalid p2p address: " +:+ bv_p2p v));
      p2p_addresses vs (<[bv_address v := addr]> m)
  end.
(** The configuration of the validator at position [i]; an absent address would
    be a panic of the index expression. *)
Definition bootstrap_config `{Blake3} (output_dir : string) (set : ValidatorSet)
    (addrs : gmap Address SocketAddr) (vs : list BootstrapValidator) (i : nat)
    (local : BootstrapValidator) : outcome NodeError NodeConfig :=
  let dir := path_join output_dir ("validator-" +:+ pretty i) in
  let config nodes := MkNodeConfig dir ports.rpc_public (bv_p2p local) true nodes (Some set)
                        (Some (bv_address local)) in
  match i with
  | O => Ok (config ∅)
  | Datatypes.S j =>
      match vs !! j with
      | Some peer =>
          match addrs !! bv_address peer with
          | Some addr => Ok (config {[node_peer_id (bv_address peer) := addr]})
          | None => Panic
          end
      | None => Panic
      end
  end.
Fixpoint save_configs `{Blake3, !JsonText NodeConfig} (output_dir : string) (set : ValidatorSet)
    (addrs : gmap Address SocketAddr) (all : list BootstrapValidator) (i : nat)
    (vs : list BootstrapValidator) : M FileSystem NodeError unit :=
  match vs with
  | [] => mret tt
  | local :: vs =>
      config ← lift (bootstrap_config output_dir set addrs all i local);
      _ ← config_save config;
      save_configs output_dir set addrs all (Datatypes.S i) vs
  end.
Definition bootstrap_bft_network `{Blake3, !JsonText NodeConfig, !JsonText GenesisConfig}
    (chain_id : string) (vs : list BootstrapValidator) (allocations : list (Address * N))
    (output_dir : string) (now : N) : M FileSystem NodeError unit :=
  if (length vs <? 2)%nat then fail (NodeConfigError "BFT network requires at least 2 validators")
  else
    let set := from_validators ((λ v, MkValidator (bv_address v) 1) <$> vs) in
    _ ← genesis_save output_dir (bootstrap_genesis chain_id vs allocations now);
    addrs ← lift (p2p_addresses vs ∅);
    save_configs output_dir set addrs vs 0 vs.
(** One entry of [manifest_from_key_files]. *)
Definition manifest_entry `{!JsonText ValidatorKeyFile, Hex} (e : string * string)
    : M FileSystem NodeError BootstrapValidator :=
  o ← gets (λ fs : FileSystem, fs !! e.1);
  contents ← lift (ok_or o (NodeConfigError ("failed to read " +:+ e.1 +:+ ": No such file or directory (os error 2)")));
  key_file ← lift (map_err (λ m, NodeConfigError ("failed to parse " +:+ e.1 +:+ ": " +:+ m))
                     (from_json contents));
  address ← lift (keyfile_address key_file);
  mret (MkBootstrapValidator address e.2 None).
Fixpoint manifest_from_key_files `{!JsonText ValidatorKeyFile, Hex} (entries : list (string * string))
    : M FileSystem NodeError (list BootstrapValidator) :=
  match entries with
  | [] => mret []
  | e :: entries => v ← manifest_entry e; vs ← manifest_from_key_files entries; mret (v :: vs)
  end.
End config.
