(* ===== verification/Http.v ===== *)
(** * HTTP between the services and their clients

    The vocabulary the servers and clients share: requests, responses, routers
    and JSON bodies.  Dispatching ([axum]) and transport ([reqwest]) are
    parameters; what the code relies on of the dispatcher is a law, stated with
    the pattern syntax of its routes.  Bodies are encoded by [Serde], as JSON. *)

From Stdlib Require Import Strings.Byte Strings.Ascii.
From S2P Require Import Prelude.
From S2P Require Import Externals.
From S2P Require Import Primitives.
From S2P Require Import Web.
Local Open Scope N_scope.

(** ** Requests and responses *)
Inductive Method := GET | POST | DELETE.
#[export] Instance Method_eq_dec : EqDecision Method.
Proof. solve_decision. Defined.
(** The target is a URL for a client and the path of it for a server. *)
Record HttpRequest := MkRequest { hq_method : Method; hq_target : string; hq_body : bytes }.
Record HttpResponse := MkResponse { hs_status : N; hs_body : bytes }.
(** [StatusCode::as_u16] *)
Definition status_u16 (c : StatusCode) : N :=
  match c with
  | STATUS_OK => 200 | CREATED => 201 | NO_CONTENT => 204 | BAD_REQUEST => 400
  | PAYMENT_REQUIRED => 402 | NOT_FOUND => 404 | CONFLICT => 409 | TOO_MANY_REQUESTS => 429
  | INTERNAL_SERVER_ERROR => 500
  end.
(** [StatusCode::is_success] *)
Definition is_success (r : HttpResponse) : bool := (200 <=? hs_status r) && (hs_status r <? 300).

(** ** Strings *)

(** [str::split] on a character. *)
Fixpoint split_on (c : ascii) (s : string) : list string :=
  match s with
  | EmptyString => [""]
  | String x s =>
      if Ascii.eqb x c then "" :: split_on c s
      else match split_on c s with
           | [] => [String x ""]
           | w :: ws => String x w :: ws
           end
  end.
(** A string without the character. *)
Definition free_of (c : ascii) (s : string) : Prop := c ∉ String.list_ascii_of_string s.
Lemma split_on_free c s : free_of c s → split_on c s = [s].
Proof.
  unfold free_of. induction s as [|x s IH]; simpl; [done|].
  rewrite not_elem_of_cons. intros [Hx Hs]. rewrite (proj2 (Ascii.eqb_neq x c)) by congruence. by rewrite IH.
Qed.
Lemma split_on_app c s r : free_of c s → split_on c (s +:+ String c r) = s :: split_on c r.
Proof.
  unfold free_of. induction s as [|x s IH]; simpl; [by rewrite Ascii.eqb_refl|].
  rewrite not_elem_of_cons. intros [Hx Hs].
  change (String.append s (String c r)) with (s +:+ String c r).
  rewrite (proj2 (Ascii.eqb_neq x c)) by congruence. by rewrite IH.
Qed.

(** ** Routes *)

(** The parameters of a path that is an instance of a pattern. *)
Fixpoint match_segments (pattern path : list string) : option (list string) :=
  match pattern, path with
  | [], [] => Some []
  | p :: ps, s :: ss =>
      match p with
      | String ":"%char _ => if String.eqb s "" then None else cons s <$> match_segments ps ss
      | _ => if String.eqb p s then match_segments ps ss else None
      end
  | _, _ => None
  end.
Definition captures (pattern path : string) : option (list string) :=
  match_segments (split_on "/"%char pattern) (split_on "/"%char path).

(** [axum::Router]: the position of the route a path belongs to with its decoded
    parameters, and the answer to a request no handler sees (no such route, other
    method, arguments that do not parse); the text [reqwest] gives for a server
    task that panicked. *)
Class Axum := {
  axum_route : list string → string → option (nat * list string);
  axum_refuse : HttpRequest → HttpResponse;
  connection_closed : string;
}.
(** A path that is an instance of one pattern only, with nothing to
    percent-decode, goes to that route. *)
Class AxumLaws `{Axum} : Prop :=
  axum_route_only patterns path i p args :
    patterns !! i = Some p → captures p path = Some args → Forall (free_of "%"%char) args →
    (∀ j q, patterns !! j = Some q → j ≠ i → captures q path = None) →
    axum_route patterns path = Some (i, args).

(** A route: the endpoint takes the parameters and the body, and is [None] when
    an extractor refuses them. *)
Record Route (W : Type) := MkRoute {
  rt_pattern : string;
  rt_method : Method;
  rt_endpoint : list string → bytes → option (M W StatusCode HttpResponse);
}.
Arguments MkRoute {W} _ _ _.
Arguments rt_pattern {W} _.
Arguments rt_method {W} _.
Arguments rt_endpoint {W} _ _ _.

Section serving.
Context {W : Type}.
Notation Handler A := (M W StatusCode A).
Notation Endpoint := (list string → bytes → option (M W StatusCode HttpResponse)).

(** [Json] as a response, alone or with a status. *)
Definition json {A} `{Serde A} (m : Handler A) : Handler HttpResponse :=
  x ← m; mret (MkResponse 200 (to_vec x)).
Definition json_with {A} `{Serde A} (m : Handler (StatusCode * A)) : Handler HttpResponse :=
  x ← m; mret (MkResponse (status_u16 x.1) (to_vec x.2)).
Definition status_only (m : Handler StatusCode) : Handler HttpResponse :=
  c ← m; mret (MkResponse (status_u16 c) []).
(** The extractors [Path<String>], [Path<u64>], [Path<(String, String)>], [Json]. *)
Definition no_args (m : Handler HttpResponse) : Endpoint := λ args _, 
  match args with [] => Some m | _ => None end.
Definition path_string (f : string → Handler HttpResponse) : Endpoint := λ args _,
  match args with [a] => Some (f a) | _ => None end.
Definition path_u64 (f : N → Handler HttpResponse) : Endpoint := λ args _,
  match args with
  | [a] => match parse_uint U64 a with Ok n => Some (f n) | _ => None end
  | _ => None
  end.
Definition path_strings (f : string → string → Handler HttpResponse) : Endpoint := λ args _,
  match args with [a; b] => Some (f a b) | _ => None end.
Definition json_body {A} `{Serde A} (f : A → Handler HttpResponse) : Endpoint := λ args body,
  match args with [] => f <$> from_slice body | _ => None end.

(** What a handler's result is on the wire; an error status has no body. *)
Definition answer `{Axum} (m : Handler HttpResponse) : M W string HttpResponse := λ w,
  match m w with
  | (Ok response, w) => (Ok response, w)
  | (Err code, w) => (Ok (MkResponse (status_u16 code) []), w)
  | (Panic, w) => (Err connection_closed, w)
  end.
(** A router with its state answers a request. *)
Definition serve `{Axum} (routes : list (Route W)) (r : HttpRequest) : M W string HttpResponse := λ w,
  let refused := (Ok (axum_refuse r), w) in
  match axum_route (rt_pattern <$> routes) (hq_target r) with
  | Some (i, args) =>
      match routes !! i with
      | Some route =>
          if bool_decide (rt_method route = hq_method r) then
            match rt_endpoint route args (hq_body r) with
            | Some m => answer m w
            | None => refused
            end
          else refused
      | None => refused
      end
  | None => refused
  end.

(** A request that belongs to the [i]-th route. *)
Lemma serve_route `{AxumLaws} (routes : list (Route W)) r i route args m w :
  routes !! i = Some route → captures (rt_pattern route) (hq_target r) = Some args →
  Forall (free_of "%"%char) args →
  (∀ j q, (rt_pattern <$> routes) !! j = Some q → j ≠ i → captures q (hq_target r) = None) →
  rt_method route = hq_method r → rt_endpoint route args (hq_body r) = Some m →
  serve routes r w = answer m w.
Proof.
  intros Hi Hcap Hplain Honly Hm He. unfold serve.
  rewrite (axum_route_only _ _ i (rt_pattern route) args);
    [|by rewrite list_lookup_fmap, Hi|done..|exact Honly].
  rewrite Hi, bool_decide_true by done. by rewrite He.
Qed.
End serving.

(** ** Clients *)

(** [reqwest::Client]: what sending a request gives, in a world it changes; the
    text of the error when a body does not decode, and of a status. *)
Class Reqwest (W : Type) := {
  reqwest_send : HttpRequest → M W string HttpResponse;
  json_error : string;
  status_display : N → string;
}.
(** A network whose only server answers at [base]. *)
Definition server_at {W} `{Axum} (base : string) (routes : list (Route W)) (unreachable error : string)
    (display : N → string) : Reqwest W := {|
  reqwest_send r :=
    match strip_prefix base (hq_target r) with
    | Some path => serve routes (MkRequest (hq_method r) path (hq_body r))
    | None => fail unreachable
    end;
  json_error := error;
  status_display := display;
|}.

(** A concrete dispatcher: the first pattern that fits. *)
Module ReferenceHttp.
Definition first_route (patterns : list string) (path : string) : option (nat * list string) :=
  '(i, p) ← list_find (λ p, is_Some (captures p path)) patterns;
  args ← captures p path; Some (i, args).
#[export] Instance ref_axum : Axum := {|
  axum_route := first_route;
  axum_refuse _ := MkResponse 400 [];
  connection_closed := "connection closed before message completed";
|}.
#[export] Instance ref_axum_laws : AxumLaws.
Proof.
  intros patterns path i p args Hi Hcap _ Honly. simpl. unfold first_route.
  assert (list_find (λ p, is_Some (captures p path)) patterns = Some (i, p)) as ->.
  { apply list_find_Some. split_and!; [done|by eexists|]. intros j q Hj Hlt [x Hx].
    by rewrite (Honly j q Hj ltac:(lia)) in Hx. }
  simpl. by rewrite Hcap.
Qed.
End ReferenceHttp.
