(* ===== verification/Servers.v ===== *)
(** * The routers of the services and the clients of the SDK

    The routes each server builds over its handlers ([router] of [pemrix-rpc],
    [pemrix-explorer], [pemrix-faucet] and [pemrix-webhooks]), the HTTP clients of
    [pemrix-sdk], and the theorem that the RPC client over the RPC server reads
    and changes the server's state as its trait says. *)

From Stdlib Require Import Strings.Byte Strings.Ascii.
From stdpp Require Import pretty.
From S2P Require Import Prelude.
From S2P Require Import Externals.
From S2P Require Import Primitives.
From S2P Require Import Crypto.
From S2P Require Import StateStore.
From S2P Require Import Vm.
From S2P Require Import Web.
From S2P Require Import Rpc.
From S2P Require Import Explorer.
From S2P Require Import Webhooks.
From S2P Require Import Sdk.
From S2P Require Import Faucet.
From S2P Require Import Http.
From S2P Require Import NodeConfig.
Local Open Scope N_scope.

(** ** Routers *)

(** [start] of the four servers: whether the address binds, and whether serving
    ends without an error, come from outside. *)
Definition server_start `{SocketAddrs} (listen : string) (bind : SocketAddr → bool) (served : bool)
    : outcome string unit :=
  addr ← ok_or (parse_socket listen) "invalid listen address";
  if negb (bind addr) then Err "failed to bind" else if served then Ok tt else Err "server error".

Section rpc_router.
Context `{Json, !ToValue Block, !ToValue Transaction}.
Context `{Hex, Blake3, Dalek, !Serde Transaction, !Serde BlockHeader}.
Context `{!Serde StatusBody, !Serde Block, !Serde BlockResponse, !Serde TransactionResponse}.
Context `{!Serde BalanceResponse, !Serde NonceResponse, !Serde ValidatorResponse}.
Context `{!Serde DelegationResponse, !Serde SendTransactionRequest}.

(** [RpcServer::router] *)
Definition rpc_routes (version : string) : list (Route RpcStateInner) := [
  MkRoute "/v1/status" GET (no_args (json (Rpc.status_handler version)));
  MkRoute "/v1/blocks/raw/:height" GET (path_u64 (λ h, json (Rpc.block_raw_handler h)));
  MkRoute "/v1/blocks/:height" GET (path_u64 (λ h, json (Rpc.block_by_height_handler h)));
  MkRoute "/v1/blocks/hash/:hash" GET (path_string (λ s, json (Rpc.block_by_hash_handler s)));
  MkRoute "/v1/transactions/:hash" GET (path_string (λ s, json (Rpc.transaction_handler s)));
  MkRoute "/v1/accounts/:address/balance" GET (path_string (λ s, json (Rpc.balance_handler s)));
  MkRoute "/v1/accounts/:address/nonce" GET (path_string (λ s, json (Rpc.nonce_handler s)));
  MkRoute "/v1/validators/:address" GET (path_string (λ s, json (Rpc.validator_handler s)));
  MkRoute "/v1/delegations/:delegator/:validator" GET
    (path_strings (λ d v, json (Rpc.delegation_handler d v)));
  MkRoute "/v1/transactions" POST (json_body (λ r, json (Rpc.send_transaction_handler r)))
].
End rpc_router.

Section other_routers.
Context `{Hex, HashOrder, Blake3, Dalek, !Serde Transaction}.
Context `{!Serde ExplorerStatus, !Serde (list Block), !Serde Block, !Serde AccountInfo}.
Context `{!Serde FaucetRequest, !Serde FaucetResponse}.
Context `{!Serde Webhooks.SubscribeRequest, !Serde Webhooks.SubscriptionResponse}.
Context `{!Serde (list Webhooks.SubscriptionResponse)}.

(** [ExplorerService::router] *)
Definition explorer_routes : list (Route ExplorerStateInner) := [
  MkRoute "/explorer/status" GET (no_args (json ExplorerHandlers.status_handler));
  MkRoute "/explorer/blocks" GET (no_args (json ExplorerHandlers.blocks_handler));
  MkRoute "/explorer/blocks/:height" GET
    (path_u64 (λ h, json (ExplorerHandlers.block_by_height_handler h)));
  MkRoute "/explorer/blocks/hash/:hash" GET
    (path_string (λ s, json (ExplorerHandlers.block_by_hash_handler s)));
  MkRoute "/explorer/transactions/:hash" GET
    (path_string (λ s, json (ExplorerHandlers.transaction_handler s)));
  MkRoute "/explorer/accounts/:address" GET
    (path_string (λ s, json (ExplorerHandlers.account_handler s)))
].
(** [FaucetService::router]; [now] and [after] are the handler's instants. *)
Definition faucet_routes {T} (f : FaucetState T) (now after : N) : list (Route (T * Cooldowns)) := [
  MkRoute "/faucet/request" POST (json_body (λ r, json_with (request_handler f r now after)))
].
(** [WebhookService::router]; the identifiers are those [uuid] draws. *)
Definition webhook_routes (fresh_id fresh_secret : string) : list (Route WebhookStateInner) := [
  MkRoute "/webhooks/subscribe" POST
    (json_body (λ r, json_with (Webhooks.subscribe_handler fresh_id fresh_secret r)));
  MkRoute "/webhooks/:id" DELETE
    (path_string (λ id, status_only (λ s, let '(c, s) := unsubscribe_handler id s in (Ok c, s))));
  MkRoute "/webhooks" POST (no_args (json (gets Webhooks.list_handler)))
].
End other_routers.

(** ** Clients *)

(** [str::trim_end_matches] with a character. *)
Fixpoint trim_end (c : ascii) (s : string) : string :=
  match s with
  | EmptyString => ""
  | String x s =>
      match trim_end c s with
      | EmptyString => if decide (x = c) then "" else String x ""
      | s => String x s
      end
  end.
(** [serde_json::from_value] with the text of its error, and what the code relies
    on: it reads back what [to_value] wrote, and [null] is no struct. *)
Class FromValue `{Json} (A : Type) := from_value : Value → outcome string A.
Class FromValueLaws `{Json} (A : Type) `{!ToValue A, !FromValue A} : Prop := {
  from_to_value (x : A) v : to_value x = Some v → from_value v = Ok x;
  from_null (x : A) : from_value Null ≠ Ok x;
}.

Section clients.
Context {W : Type} `{Reqwest W, Json, Hex}.
Notation Client A := (M W SdkError A).

(** [.send().await.map_err(..)?] and [.json().await.map_err(..)?] *)
Definition http_send (r : HttpRequest) : Client HttpResponse := map_errM SdkRpc (reqwest_send r).
Definition http_json {A} `{Serde A} (r : HttpResponse) : Client A :=
  lift (ok_or (from_slice (hs_body r)) (SdkRpc json_error)).

(** *** [client.rs]: [HttpClient] *)
Record HttpClient := MkHttpClient { hc_base_url : string }.
Definition HttpClient_new (base_url : string) : HttpClient := MkHttpClient (trim_end "/"%char base_url).
Definition http_url (c : HttpClient) (path : string) : string := hc_base_url c +:+ path.
Definition http_get (c : HttpClient) (path : string) : Client HttpResponse :=
  http_send (MkRequest GET (http_url c path) []).

Context `{!FromValue Block, !FromValue Transaction}.
Context `{!Serde BlockResponse, !Serde TransactionResponse, !Serde BalanceResponse}.
Context `{!Serde NonceResponse, !Serde SendTransactionRequest}.

Definition http_balance (c : HttpClient) (a : Address) : Client N :=
  response ← http_get c ("/v1/accounts/" +:+ Address_to_string a +:+ "/balance");
  body ← http_json response;
  mret (bal_balance body).
Definition http_nonce (c : HttpClient) (a : Address) : Client N :=
  response ← http_get c ("/v1/accounts/" +:+ Address_to_string a +:+ "/nonce");
  body ← http_json response;
  mret (non_nonce body).
Definition http_block_by_height (c : HttpClient) (h : N) : Client Block :=
  response ← http_get c ("/v1/blocks/" +:+ pretty h);
  if is_success response then
    body ← http_json (A:=BlockResponse) response;
    lift (map_err SdkRpc (from_value (br_payload body)))
  else fail (SdkRpc ("block not found or server error: " +:+ status_display (hs_status response))).
Definition http_transaction (c : HttpClient) (x : Hash) : Client (option Transaction) :=
  response ← http_get c ("/v1/transactions/" +:+ Hash_to_string x);
  if is_success response then
    body ← http_json (A:=TransactionResponse) response;
    lift (t ← map_err SdkRpc (from_value (tr_payload body)); Ok (Some t))
  else if hs_status response =? status_u16 NOT_FOUND then mret None
  else fail (SdkRpc ("transaction query failed: " +:+ status_display (hs_status response))).
Definition http_send_transaction (c : HttpClient) (t : Transaction) : Client Hash :=
  response ← http_send (MkRequest POST (http_url c "/v1/transactions")
                          (to_vec (MkSendTransactionRequest t)));
  body ← http_json (A:=TransactionResponse) response;
  mret (tr_hash body).

(** *** [faucet_client.rs]; the SDK's structs have the faucet's fields. *)
Record FaucetClient := MkFaucetClient { fcl_base_url : string }.
Definition FaucetClient_new (base_url : string) : FaucetClient :=
  MkFaucetClient (trim_end "/"%char base_url).
Definition faucet_client_request `{!Serde FaucetRequest, !Serde FaucetResponse} (c : FaucetClient)
    (a : Address) (amount : N) : Client FaucetResponse :=
  let request := MkFaucetRequest (Address_to_string a) (pretty amount) in
  response ← http_send (MkRequest POST (fcl_base_url c +:+ "/faucet/request") (to_vec request));
  http_json response.

(** *** [webhook_client.rs] and [explorer_client.rs]: placeholders, with types of
    their own *)
Record WebhookClient := MkWebhookClient { wcl_base_url : string }.
Definition WebhookClient_new (base_url : string) : WebhookClient := MkWebhookClient base_url.
Inductive WebhookEventType := WeBlock | WeTransaction | WeTransactionConfirmed.
Record WebhookSubscribeRequest := MkWebhookSubscribeRequest {
  wq_url : string; wq_events : list WebhookEventType;
}.
Record WebhookSubscriptionResponse := MkWebhookSubscriptionResponse {
  wr_id : string; wr_url : string; wr_events : list WebhookEventType; wr_secret : string;
}.
Definition webhook_client_subscribe (c : WebhookClient) (url : string) (events : list WebhookEventType)
    : Client WebhookSubscriptionResponse :=
  mret (MkWebhookSubscriptionResponse "mock-id" url events "mock-secret").
Record ExplorerClient := MkExplorerClient { ecl_base_url : string }.
Definition ExplorerClient_new (base_url : string) : ExplorerClient := MkExplorerClient base_url.
(** [ExplorerStatus] of the client. *)
Record SdkExplorerStatus := MkSdkExplorerStatus {
  xs_height : N; xs_transaction_count : N; xs_account_count : N;
}.
Record ExplorerAccount := MkExplorerAccount { xa_address : Address; xa_balance : N; xa_nonce : N }.
Definition explorer_client_status (c : ExplorerClient) : Client SdkExplorerStatus :=
  mret (MkSdkExplorerStatus 0 0 0).
Definition explorer_client_block_by_height (c : ExplorerClient) (h : N) : Client Value := mret Null.
Definition explorer_client_transaction (c : ExplorerClient) (x : Hash) : Client Value := mret Null.
Definition explorer_client_account (c : ExplorerClient) (a : Address) : Client ExplorerAccount :=
  fail (SdkRpc "mock explorer client").
End clients.

(** ** The RPC client over the RPC server *)

(** *** Texts in paths *)
Lemma digits_plain c s :
  Forall (λ x, x ∈ hex_digits) (String.list_ascii_of_string s) → c ∉ hex_digits → free_of c s.
Proof. intros Hall Hc Hin. rewrite Forall_forall in Hall. by apply Hc, Hall. Qed.
Lemma pretty_digits (n : N) : pretty n ≠ "" ∧ Forall (λ x, x ∈ hex_digits) (String.list_ascii_of_string (pretty n)).
Proof.
  assert (∀ x, pretty_N_char x ∈ hex_digits) as Hchar.
  { intros x. unfold pretty_N_char. by repeat case_match; apply (bool_decide_unpack _). }
  unfold pretty, pretty_N. case_decide as Hn.
  { split; [done|]. apply Forall_singleton. apply (bool_decide_unpack _). exact I. }
  split; [destruct (pretty_go_head n "") as (c & s & -> & _); [lia|done]|].
  assert (∀ x s, Forall (λ x, x ∈ hex_digits) (String.list_ascii_of_string s) →
    Forall (λ x, x ∈ hex_digits) (String.list_ascii_of_string (pretty_N_go x s))) as Hgo; [|by apply Hgo].
  intros x. induction (N.lt_wf_0 x) as [x _ IH]. intros s Hs.
  destruct (decide (x = 0)) as [->|Hne]; [by rewrite pretty_N_go_0|].
  rewrite pretty_N_go_step by lia. apply IH; [by apply N.div_lt; lia|]. by apply Forall_cons.
Qed.
(** A path parameter: not empty, no slash, nothing to decode. *)
Definition plain (s : string) : Prop := s ≠ "" ∧ free_of "/"%char s ∧ free_of "%"%char s.
Lemma plain_digits s :
  s ≠ "" → Forall (λ x, x ∈ hex_digits) (String.list_ascii_of_string s) → plain s.
Proof. intros Hne Hs. split_and!; [done|..]; (apply digits_plain; [done|by apply (bool_decide_unpack _)]). Qed.
Lemma plain_pretty (n : N) : plain (pretty n).
Proof. destruct (pretty_digits n). by apply plain_digits. Qed.
Section plain_hex.
Context `{HexLaws}.
Lemma plain_hash (x : Hash) : plain (Hash_to_string x).
Proof.
  apply plain_digits; [|apply hex_encode_digits]. intros He.
  pose proof (hex_encode_length (hash_as_bytes x)) as Hl. unfold Hash_to_string in He. rewrite He in Hl.
  unfold hash_as_bytes in Hl. rewrite array32_length in Hl. done.
Qed.
Lemma plain_address (a : Address) : plain (Address_to_string a).
Proof.
  pose proof (hex_encode_digits (address_as_bytes a)) as Hd. unfold Address_to_string.
  split_and!; [done|..]; intros Hin; simpl in Hin;
    rewrite !elem_of_cons in Hin; destruct Hin as [?|[?|Hin]]; try done;
    (eapply digits_plain; [exact Hd| |exact Hin]; by apply (bool_decide_unpack _)).
Qed.
End plain_hex.

(** *** Paths and patterns *)
Lemma split_tail (segments : list string) pre s :
  (∀ r, split_on "/"%char (pre +:+ r) = segments ++ split_on "/"%char r) → plain s →
  split_on "/"%char (pre +:+ s) = segments ++ [s].
Proof. intros Hpre (_ & Hs & _). by rewrite Hpre, split_on_free. Qed.
Lemma split_middle (segments : list string) pre s post :
  (∀ r, split_on "/"%char (pre +:+ r) = segments ++ split_on "/"%char r) → plain s →
  split_on "/"%char (pre +:+ s +:+ String "/"%char post) = segments ++ s :: split_on "/"%char post.
Proof. intros Hpre (_ & Hs & _). by rewrite Hpre, split_on_app. Qed.
(** Match the path that [Hsplit] splits against a pattern. *)
Ltac match_path Hsplit :=
  unfold captures; cbn [hq_target rt_pattern]; rewrite Hsplit;
  try match goal with |- context[split_on ?c ?p] =>
    let v := eval vm_compute in (split_on c p) in change (split_on c p) with v end;
  cbn [match_segments];
  repeat (match goal with
    | |- context[String.eqb ?x ?y] =>
        let v := eval vm_compute in (String.eqb x y) in
        first [constr_eq v true|constr_eq v false]; change (String.eqb x y) with v
    | |- context[String.eqb ?x ?y] => destruct (String.eqb_spec x y)
    end; cbn [match_segments fmap option_fmap option_map]);
  try done.
(** No other route of a router takes it. *)
Ltac other_routes Hsplit :=
  let j := fresh "j" in let q := fresh "q" in let Hj := fresh "Hj" in let Hne := fresh "Hne" in
  intros j q Hj Hne; cbn [fmap list_fmap rt_pattern] in Hj;
  repeat (destruct j as [|j];
    [lazymatch type of Hne with
     | ?n ≠ ?n => destruct (Hne eq_refl)
     | _ => cbn in Hj; injection Hj as <-; match_path Hsplit
     end|]); discriminate Hj.

Section rpc_client.
Context `{Json, !ToValue Block, !ToValue Transaction, !FromValue Block, !FromValue Transaction}.
Context `{!FromValueLaws Block, !FromValueLaws Transaction}.
Context `{HexLaws, Blake3, Dalek, !Serde Transaction, !Serde BlockHeader}.
Context `{!Serde StatusBody, !Serde Block, !Serde BlockResponse, !Serde TransactionResponse}.
Context `{!Serde BalanceResponse, !Serde NonceResponse, !Serde ValidatorResponse}.
Context `{!Serde DelegationResponse, !Serde SendTransactionRequest}.
Context `{!SerdeLaws BlockResponse, !SerdeLaws TransactionResponse, !SerdeLaws BalanceResponse}.
Context `{!SerdeLaws NonceResponse, !SerdeLaws SendTransactionRequest, AxumLaws}.
Context (url version unreachable error : string) (display : N → string).
Implicit Types (s : RpcStateInner).

(** The network of one RPC server, at the URL the client is given. *)
#[local] Instance rpc_network : Reqwest RpcStateInner :=
  server_at (trim_end "/"%char url) (rpc_routes version) unreachable error display.
Notation client := (HttpClient_new url).

Lemma http_send_rpc m path body s :
  http_send (MkRequest m (http_url client path) body) s =
    map_errM SdkRpc (serve (rpc_routes version) (MkRequest m path body)) s.
Proof. unfold http_send, http_url. simpl. unfold map_errM. by rewrite strip_prefix_app. Qed.
Ltac routed i Hsplit :=
  eapply (serve_route _ _ i);
    [reflexivity|match_path Hsplit|auto|unfold rpc_routes; other_routes Hsplit|reflexivity|].
Lemma rpc_balance_route a s :
  plain a → serve (rpc_routes version) (MkRequest GET ("/v1/accounts/" +:+ a +:+ "/balance") []) s =
    answer (json (Rpc.balance_handler a)) s.
Proof.
  intros Ha. assert (split_on "/"%char ("/v1/accounts/" +:+ a +:+ "/balance") = ["";"v1";"accounts";a;"balance"]) as Hs
    by by apply (split_middle ["";"v1";"accounts"]).
  destruct Ha as (Hne & _ & Hp). by routed 5%nat Hs.
Qed.
Lemma rpc_nonce_route a s :
  plain a → serve (rpc_routes version) (MkRequest GET ("/v1/accounts/" +:+ a +:+ "/nonce") []) s =
    answer (json (Rpc.nonce_handler a)) s.
Proof.
  intros Ha. assert (split_on "/"%char ("/v1/accounts/" +:+ a +:+ "/nonce") = ["";"v1";"accounts";a;"nonce"]) as Hs
    by by apply (split_middle ["";"v1";"accounts"]).
  destruct Ha as (Hne & _ & Hp). by routed 6%nat Hs.
Qed.
Lemma rpc_block_route h s :
  h ≤ U64 → serve (rpc_routes version) (MkRequest GET ("/v1/blocks/" +:+ pretty h) []) s =
    answer (json (Rpc.block_by_height_handler h)) s.
Proof.
  intros Hh. pose proof (plain_pretty h) as Ha.
  assert (split_on "/"%char ("/v1/blocks/" +:+ pretty h) = ["";"v1";"blocks";pretty h]) as Hs
    by by apply (split_tail ["";"v1";"blocks"]).
  destruct Ha as (Hne & _ & Hp). routed 2%nat Hs.
  cbn [rt_endpoint path_u64 hq_body]. unfold path_u64. by rewrite parse_uint_pretty.
Qed.
Lemma rpc_transaction_route x s :
  plain x → serve (rpc_routes version) (MkRequest GET ("/v1/transactions/" +:+ x) []) s =
    answer (json (Rpc.transaction_handler x)) s.
Proof.
  intros Ha. assert (split_on "/"%char ("/v1/transactions/" +:+ x) = ["";"v1";"transactions";x]) as Hs
    by by apply (split_tail ["";"v1";"transactions"]).
  destruct Ha as (Hne & _ & Hp). by routed 4%nat Hs.
Qed.
Lemma rpc_send_route r s :
  serve (rpc_routes version) (MkRequest POST "/v1/transactions" (to_vec r)) s =
    answer (json (Rpc.send_transaction_handler r)) s.
Proof.
  assert (split_on "/"%char "/v1/transactions" = ["";"v1";"transactions"]) as Hs by done.
  routed 9%nat Hs. cbn [rt_endpoint json_body hq_body]. unfold json_body. by rewrite from_slice_to_vec.
Qed.

(** *** Handlers that read *)
Lemma answer_json {A} `{Serde A} (m : M RpcStateInner StatusCode A) (x : A) s s' :
  m s = (Ok x, s') → answer (json m) s = (Ok (MkResponse 200 (to_vec x)), s').
Proof. intros Hm. unfold answer, json. by rewrite (bind_Ok x _ s s' m Hm). Qed.
Lemma answer_error {A} `{Serde A} (m : M RpcStateInner StatusCode A) code s s' :
  m s = (Err code, s') → answer (json m) s = (Ok (MkResponse (status_u16 code) []), s').
Proof. intros Hm. unfold answer, json. by rewrite (bind_Err code _ s s' m Hm). Qed.
Lemma http_get_run path response s s' :
  serve (rpc_routes version) (MkRequest GET path []) s = (Ok response, s') →
  http_get client path s = (Ok response, s').
Proof. intros Hs. unfold http_get. rewrite http_send_rpc. unfold map_errM. by rewrite Hs. Qed.
Lemma http_json_Ok {A} `{SerdeLaws A} (x : A) code s :
  http_json (MkResponse code (to_vec x)) s = (Ok x, s).
Proof. unfold http_json, lift. simpl. by rewrite from_slice_to_vec. Qed.
Lemma success_200 body : is_success (MkResponse 200 body) = true.
Proof. done. Qed.
Lemma rpc_balance_run a s :
  Rpc.balance_handler (Address_to_string a) s =
    (Ok (MkBalanceResponse a (from_option acc_balance 0 (RpcState.get_account a s))), s).
Proof. unfold Rpc.balance_handler, Rpc.bad_request. by rewrite Address_from_to_string, bind_lift. Qed.
Lemma rpc_nonce_run a s :
  Rpc.nonce_handler (Address_to_string a) s =
    (Ok (MkNonceResponse a (from_option acc_nonce 0 (RpcState.get_account a s))), s).
Proof. unfold Rpc.nonce_handler, Rpc.bad_request. by rewrite Address_from_to_string, bind_lift. Qed.
Lemma rpc_block_run h s :
  Rpc.block_by_height_handler h s =
    (match RpcState.get_block_by_height h s with
     | Some b => Ok (MkBlockResponse _ (block_hash b) h (value_or_null b))
     | None => Err NOT_FOUND
     end, s).
Proof.
  unfold Rpc.block_by_height_handler, mbind, M_bind, gets, Rpc.or_not_found.
  by destruct (RpcState.get_block_by_height h s).
Qed.
Lemma rpc_transaction_run x s :
  Rpc.transaction_handler (Hash_to_string x) s =
    (match RpcState.get_transaction x s with
     | Some t => Ok (MkTransactionResponse _ x "confirmed" (value_or_null t))
     | None => Err NOT_FOUND
     end, s).
Proof.
  unfold Rpc.transaction_handler, Rpc.bad_request. rewrite Hash_from_to_string, bind_lift. cbn [map_err].
  unfold mbind, M_bind, gets, Rpc.or_not_found. by destruct (RpcState.get_transaction x s).
Qed.

(** *** What each call of the client gives *)
Lemma http_balance_run a s :
  http_balance client a s = (Ok (from_option acc_balance 0 (RpcState.get_account a s)), s).
Proof.
  unfold http_balance. erewrite bind_Ok.
  2: { apply http_get_run. rewrite rpc_balance_route by apply plain_address.
       apply answer_json, rpc_balance_run. }
  erewrite bind_Ok by apply http_json_Ok. done.
Qed.
Lemma http_nonce_run a s :
  http_nonce client a s = (Ok (from_option acc_nonce 0 (RpcState.get_account a s)), s).
Proof.
  unfold http_nonce. erewrite bind_Ok.
  2: { apply http_get_run. rewrite rpc_nonce_route by apply plain_address.
       apply answer_json, rpc_nonce_run. }
  erewrite bind_Ok by apply http_json_Ok. done.
Qed.
Lemma http_block_run h s :
  h ≤ U64 →
  http_block_by_height client h s =
    (match RpcState.get_block_by_height h s with
     | Some b => map_err SdkRpc (from_value (value_or_null b))
     | None => Err (SdkRpc ("block not found or server error: " +:+ display 404))
     end, s).
Proof.
  intros Hh. unfold http_block_by_height. pose proof (rpc_block_run h s) as Hrun.
  destruct (RpcState.get_block_by_height h s) as [b|].
  - erewrite bind_Ok.
    2: { apply http_get_run. rewrite rpc_block_route by done. apply answer_json, Hrun. }
    rewrite success_200. erewrite bind_Ok by apply http_json_Ok. done.
  - erewrite bind_Ok; [|apply http_get_run; rewrite rpc_block_route by done; apply answer_error, Hrun].
    done.
Qed.
Lemma http_transaction_run x s :
  http_transaction client x s =
    (match RpcState.get_transaction x s with
     | Some t => (t ← map_err SdkRpc (from_value (value_or_null t)); Ok (Some t))
     | None => Ok None
     end, s).
Proof.
  unfold http_transaction. pose proof (rpc_transaction_run x s) as Hrun.
  destruct (RpcState.get_transaction x s) as [t|].
  - erewrite bind_Ok.
    2: { apply http_get_run. rewrite rpc_transaction_route by apply plain_hash. apply answer_json, Hrun. }
    rewrite success_200. erewrite bind_Ok by apply http_json_Ok. done.
  - erewrite bind_Ok; [|apply http_get_run; rewrite rpc_transaction_route by apply plain_hash;
      apply answer_error, Hrun]. done.
Qed.
Lemma http_send_run t s :
  from_slice (A:=TransactionResponse) [] = None →
  http_send_transaction client t s =
    match validate_transaction t s with
    | (Ok h, _) => (Ok h, RpcState.submit_transaction t (RpcState.store_transaction h t s))
    | (Err _, _) => (Err (SdkRpc error), s)
    | (Panic, _) => (Err (SdkRpc connection_closed), s)
    end.
Proof.
  intros Hempty. unfold http_send_transaction.
  pose proof (send_transaction_run (MkSendTransactionRequest t) s) as Hrun. cbn [st_transaction] in Hrun.
  assert (http_send (MkRequest POST (http_url client "/v1/transactions") (to_vec (MkSendTransactionRequest t))) s =
    map_errM SdkRpc (answer (json (Rpc.send_transaction_handler (MkSendTransactionRequest t)))) s) as Hsend.
  { rewrite http_send_rpc. unfold map_errM. by rewrite rpc_send_route. }
  unfold mbind at 1, M_bind at 1. rewrite Hsend. unfold map_errM.
  destruct (validate_transaction t s) as [[h|e|] s1].
  - rewrite (answer_json _ _ _ _ Hrun). cbn [map_err]. erewrite bind_Ok by apply http_json_Ok. done.
  - rewrite (answer_error _ _ _ _ Hrun). cbn [map_err]. unfold http_json, mbind, M_bind, lift. simpl.
    by rewrite Hempty.
  - unfold answer, json, mbind, M_bind. by rewrite Hrun.
Qed.

(** C21: The HTTP client over the RPC server is the client its trait promises,
    whatever the URL is written like: balances and nonces are those of the
    server's state (zero for an unknown account), a block or a transaction that
    [to_value] can represent comes back as it is stored and an absent one as an
    error or [None], and a transaction is queued under the hash the client returns
    exactly when the server's validation accepts it; nothing else changes. *)
Theorem http_client_refines_rpc s :
  (∀ a, http_balance client a s = (Ok (from_option acc_balance 0 (RpcState.get_account a s)), s)) ∧
  (∀ a, http_nonce client a s = (Ok (from_option acc_nonce 0 (RpcState.get_account a s)), s)) ∧
  (∀ h b, h ≤ U64 → RpcState.get_block_by_height h s = Some b → is_Some (to_value b) →
     http_block_by_height client h s = (Ok b, s)) ∧
  (∀ h, h ≤ U64 → RpcState.get_block_by_height h s = None →
     is_ok (http_block_by_height client h s).1 = false) ∧
  (∀ x t, RpcState.get_transaction x s = Some t → is_Some (to_value t) →
     http_transaction client x s = (Ok (Some t), s)) ∧
  (∀ x, RpcState.get_transaction x s = None → http_transaction client x s = (Ok None, s)) ∧
  (∀ t, from_slice (A:=TransactionResponse) [] = None →
     match validate_transaction t s with
     | (Ok h, _) => http_send_transaction client t s =
         (Ok h, RpcState.submit_transaction t (RpcState.store_transaction h t s))
     | _ => ∃ e, http_send_transaction client t s = (Err e, s)
     end).
Proof.
  split; [intros a; apply http_balance_run|]. split; [intros a; apply http_nonce_run|].
  split; [|split; [|split; [|split]]].
  - intros h b Hh Hb [v Hv]. rewrite http_block_run, Hb by done. unfold value_or_null. rewrite Hv. simpl.
    by rewrite (from_to_value b v Hv).
  - intros h Hh Hb. by rewrite http_block_run, Hb by done.
  - intros x t Ht [v Hv]. rewrite http_transaction_run, Ht. unfold value_or_null. rewrite Hv. simpl.
    by rewrite (from_to_value t v Hv).
  - intros x Hx. by rewrite http_transaction_run, Hx.
  - intros t Hempty. rewrite http_send_run by done.
    destruct (validate_transaction t s) as [[h|e|] s']; [done|by eexists..].
Qed.

(** A block with a number [to_value] cannot represent (an amount beyond 64 bits)
    is stored but unreadable: the server sends [null] for it, and the client
    reports an error. *)
Lemma http_block_unrepresentable h b s :
  h ≤ U64 → RpcState.get_block_by_height h s = Some b → to_value b = None →
  is_ok (http_block_by_height client h s).1 = false.
Proof.
  intros Hh Hb Hv. rewrite http_block_run, Hb by done. unfold value_or_null. rewrite Hv. simpl.
  destruct (from_value Null) as [b'|e|] eqn:Hn; [|done..]. by apply from_null in Hn.
Qed.
End rpc_client.
