(* ===== verification/ServerObjects.v ===== *)
(** * The server objects

    [RpcServer], [ExplorerService], [WebhookService], [FaucetService] and
    [GrpcService] with the [serve] function of [grpc.rs]: a listen address and a
    handle on the state.  Handles share one state, so a request answered by one
    server changes what every other holder of the handle sees; the state a
    process threads through is the value behind the handle. *)

From Stdlib Require Import Strings.Byte.
From S2P Require Import Prelude.
From S2P Require Import Externals.
From S2P Require Import Primitives.
From S2P Require Import Crypto.
From S2P Require Import StateStore.
From S2P Require Import Vm.
From S2P Require Import Web.
From S2P Require Import Rpc.
From S2P Require Import Grpc.
From S2P Require Import Explorer.
From S2P Require Import Webhooks.
From S2P Require Import Sdk.
From S2P Require Import Faucet.
From S2P Require Import NodeConfig.
From S2P Require Import Http.
From S2P Require Import Servers.
Local Open Scope N_scope.

(** ** Objects with a listen address *)

(** The struct of the three services that differ in their state only. *)
Record Service (S : Type) := MkService { svc_state : S; svc_listen : string }.
Arguments MkService {S} _ _.
Arguments svc_state {S} _.
Arguments svc_listen {S} _.
Notation RpcServer := (Service RpcStateInner).
Notation ExplorerService := (Service ExplorerStateInner).
Notation WebhookService := (Service WebhookStateInner).

Definition RpcServer_new_with_state (listen : string) (s : RpcStateInner) : RpcServer := MkService s listen.
Definition RpcServer_new (listen : string) : RpcServer := RpcServer_new_with_state listen RpcState.new.
Definition ExplorerService_new (listen : string) : ExplorerService := MkService ExplorerState.new listen.
Definition WebhookService_new (listen : string) : WebhookService := MkService WebhookState.new listen.

(** [GrpcService] of [grpc.rs]. *)
Record GrpcServiceObject := MkGrpcService { gs_state : RpcStateInner }.
Definition GrpcService_new (state : RpcStateInner) : GrpcServiceObject := MkGrpcService state.

(** [FaucetService] and the [FaucetState] its router is given: the same fields, the
    cooldowns shared. *)
Record FaucetService (T : Type) := MkFaucetService { fsv_faucet : FaucetState T; fsv_cooldowns : Cooldowns }.
Arguments MkFaucetService {T} _ _.
Arguments fsv_faucet {T} _.
Arguments fsv_cooldowns {T} _.
Definition FaucetService_new {T} (config : FaucetConfig) (keypair : KeyPair) (address : Address)
    (submitter : TransactionSubmitter T) : FaucetService T :=
  MkFaucetService (MkFaucetState config keypair address submitter) ∅.
Definition clone_state {T} (s : FaucetService T) : FaucetState T :=
  MkFaucetState (fs_config (fsv_faucet s)) (fs_keypair (fsv_faucet s)) (fs_address (fsv_faucet s))
    (fs_submitter (fsv_faucet s)).

Section serving.
Context `{SocketAddrs}.
(** [start]: parse the address, bind it, serve the router. *)
Definition service_start {S} (s : Service S) (bind : SocketAddr → bool) (served : bool) : outcome string unit :=
  server_start (svc_listen s) bind served.
Definition ExplorerService_start (s : ExplorerService) := service_start s.
Definition WebhookService_start (s : WebhookService) := service_start s.
Definition faucet_start {T} (s : FaucetService T) (bind : SocketAddr → bool) (served : bool)
    : outcome string unit := server_start (fc_listen (fs_config (fsv_faucet s))) bind served.
(** [grpc::serve]; tonic binds and serves in one call. *)
Definition grpc_serve (state : RpcStateInner) (listen : string) (syntax_error : string)
    (serve : SocketAddr → outcome string unit) : outcome string unit :=
  addr ← ok_or (parse_socket listen) syntax_error;
  serve addr.

(** A server gets as far as its listener exactly when its address parses and binds. *)
Lemma service_start_Ok {S} (s : Service S) bind served :
  service_start s bind served = Ok tt ↔
    ∃ addr, parse_socket (svc_listen s) = Some addr ∧ bind addr = true ∧ served = true.
Proof.
  unfold service_start, server_start. destruct (parse_socket (svc_listen s)) as [addr|]; simpl.
  - destruct (bind addr) eqn:Hb, served; simpl; split; try done; try (intros (? & [= <-] & ? & ?); congruence).
    intros _. by exists addr.
  - by split; [|intros (? & ? & ?)].
Qed.
End serving.
