(* ===== verification/Binaries.v ===== *)
(** * The service binaries

    [main.rs] of [pemrix-explorer], [pemrix-webhooks] and [pemrix-faucet]: each
    starts its server from an environment variable. *)

From Stdlib Require Import Strings.Byte.
From S2P Require Import Prelude.
From S2P Require Import Externals.
From S2P Require Import Primitives.
From S2P Require Import Crypto.
From S2P Require Import Vm.
From S2P Require Import Protocol.
From S2P Require Import Web.
From S2P Require Import Rpc.
From S2P Require Import Explorer.
From S2P Require Import Webhooks.
From S2P Require Import Sdk.
From S2P Require Import Faucet.
From S2P Require Import NodeConfig.
From S2P Require Import Http.
From S2P Require Import Servers.
Local Open Scope N_scope.

Section binaries.
Context `{SocketAddrs, Blake3, Dalek, HexLaws, !Serde Transaction}.

(** The state each server starts with, and how it ends; [env] is
    [EXPLORER_LISTEN], [WEBHOOK_LISTEN] or [FAUCET_LISTEN]. *)
Definition explorer_main (env : option string) (bind : SocketAddr → bool) (served : bool)
    : ExplorerStateInner * outcome string unit :=
  (ExplorerState.new, server_start (default ports.explorer_local env) bind served).
Definition webhook_main (env : option string) (bind : SocketAddr → bool) (served : bool)
    : WebhookStateInner * outcome string unit :=
  (WebhookState.new, server_start (default ports.webhooks_local env) bind served).
Definition faucet_main_config (env : option string) : FaucetConfig :=
  let c := FaucetConfig_default in
  MkFaucetConfig (default (fc_listen c) env) (fc_faucet_address c) (fc_max_amount c)
    (fc_cooldown_seconds c) (fc_rpc_url c).
(** The faucet's key is new at every start, its state its own. *)
Definition faucet_main (env : option string) (random : array32)
    : outcome FaucetError (FaucetState RpcStateInner * RpcStateInner) :=
  let config := faucet_main_config env in
  let address := match Address_from_str (fc_faucet_address config) with
                 | Ok a => a
                 | _ => Address_default
                 end in
  keypair ← faucet_generate_keypair random;
  Ok (MkFaucetState config keypair address (LocalSubmitter address), RpcState.new).

(** The default faucet address does not parse, so the binary pays from the zero
    address with a key that is not its own: whatever is requested, the payment it
    signs and queues (with success reported) fails the signature check, unless
    the fresh public key happens to hash to zero. *)
Lemma faucet_binary_payments_invalid env random f s recipient amount nonce t :
  faucet_main env random = Ok (f, s) →
  hash_as_bytes (hash_bytes (public_bytes (kp_public (fs_keypair f)))) ≠ address_as_bytes Address_default →
  faucet_tx f recipient amount nonce = Ok t →
  verify_signature t = Err InvalidSignature.
Proof.
  unfold faucet_main.
  assert (Address_from_str (fc_faucet_address (faucet_main_config env)) = Err "address must be 32 bytes") as ->.
  { assert (hex_encode [] = "") as He.
    { pose proof (hex_encode_length []) as Hl. by destruct (hex_encode []). }
    unfold Address_from_str. simpl. by rewrite <-He, hex_decode_encode. }
  unfold faucet_generate_keypair. simpl. intros [= <- <-]. simpl. intros Hhash.
  unfold faucet_tx. simpl. rewrite ed_sign_key. simpl. intros [= <-]. unfold verify_signature. simpl.
  by repeat case_decide.
Qed.
End binaries.
