(* ===== verification/NodeLoops.v ===== *)
(** * Crate [pemrix-node], [node.rs]: the loops of a BFT validator

    The block production loop and the network event loop share the engine behind
    a mutex.  Each loop body is given as the code has it; the interleaving of the
    two loops is a step relation whose steps are the sections under one lock, and
    the two channels a finalized block is sent on are one list, with the blocks
    finalized under a lock that is released before the send in flight. *)

From Stdlib Require Import Strings.Byte.
From S2P Require Import Prelude.
From S2P Require Import Externals.
From S2P Require Import Primitives.
From S2P Require Import Storage.
From S2P Require Import StateStore.

From S2P Require Import Crypto.
From S2P Require Import Vm.
From S2P Require Import ValidatorSet.
From S2P Require Import Bft.
From S2P Require Import BftTheorems.
From S2P Require Import BftProperties.
From S2P Require Import Network.
Local Open Scope N_scope.

(** The engine, the messages handed to [broadcast], the blocks on the channels
    and those in flight, and the local variables of the production loop. *)
Record NodeState (S : Type) := MkNode {
  nd_engine : BftConsensus S;
  nd_broadcast : list Message;
  nd_channel : list Block;
  nd_inflight : list Block;
  nd_height : N;
  nd_last_proposed : option N;
}.
Arguments MkNode {S} _ _ _ _ _ _.
Arguments nd_engine {S} _.
Arguments nd_broadcast {S} _.
Arguments nd_channel {S} _.
Arguments nd_inflight {S} _.
Arguments nd_height {S} _.
Arguments nd_last_proposed {S} _.

Section loops.
Context {S : Type} `{Store S, Profile, Blake3, Dalek, !Serde Transaction, !Serde StakingOperation}.
Context `{!Serde BlockHeader, !Serde (list Transaction), !Serde Vote}.
Notation Node := (NodeState S).
Implicit Types (n : Node).

Definition set_engine (c : BftConsensus S) n : Node :=
  MkNode c (nd_broadcast n) (nd_channel n) (nd_inflight n) (nd_height n) (nd_last_proposed n).
Definition say (m : Message) n : Node :=
  MkNode (nd_engine n) (nd_broadcast n ++ [m]) (nd_channel n) (nd_inflight n) (nd_height n)
    (nd_last_proposed n).
(** [finalized_tx.send(block)] and [rpc_finalized_tx.send(block)]. *)
Definition report (b : Block) n : Node :=
  MkNode (nd_engine n) (nd_broadcast n) (nd_channel n ++ [b]) (nd_inflight n) (nd_height n)
    (nd_last_proposed n).
Definition node_new (c : BftConsensus S) : Node := MkNode c [] [] [] 1 None.

(** *** Sections of the loops *)

(** [if let Some(block) = consensus.lock().await.finalize_pending().await]: the
    guard lives until the end of the body, so the sends are under the lock. *)
Definition finalize_and_report (now : N) n : Node :=
  let '(r, c) := finalize_pending now (nd_engine n) in
  match r with
  | Ok (Some block) => report block (set_engine c n)
  | _ => set_engine c n
  end.
(** The block section of the event loop, with the broadcast of the vote. *)
Definition receive_block (b : Block) n : Node :=
  let '(r, c) := handle_block b (nd_engine n) in
  match r with
  | Ok vote => say (MsgVote (encode vote)) (set_engine c n)
  | _ => set_engine c n
  end.
(** The vote section: the lock is released before the block is sent. *)
Definition receive_vote (v : Vote) (now : N) n : Node :=
  let '(_, c) := handle_vote v (nd_engine n) in
  let '(r, c) := finalize_pending now c in
  let n := set_engine c n in
  match r with
  | Ok (Some block) =>
      MkNode (nd_engine n) (nd_broadcast n) (nd_channel n) (nd_inflight n ++ [block]) (nd_height n)
        (nd_last_proposed n)
  | _ => n
  end.
(** Send the [i]-th block in flight. *)
Definition send_inflight (i : nat) n : Node :=
  match nd_inflight n !! i with
  | Some block =>
      MkNode (nd_engine n) (nd_broadcast n) (nd_channel n ++ [block]) (delete i (nd_inflight n))
        (nd_height n) (nd_last_proposed n)
  | None => n
  end.

(** [c.validator_set().proposer(height, 0) == Some(local_address)]; a panic of
    the selection ends the loop, so that no proposal follows either. *)
Definition is_proposer n : bool :=
  match proposer (E:=ConsensusError) (validator_set (nd_engine n)) (nd_height n) 0 with
  | Ok o => bool_decide (o = Some (local_address (nd_engine n)))
  | _ => false
  end.
(** The first section of a production turn: the proposal, once per height; the
    boolean says whether the turn goes on ([continue] otherwise). *)
Definition produce_proposal (now : N) n : bool * Node :=
  if bool_decide (nd_last_proposed n ≠ Some (nd_height n)) then
    let '(r, c) := propose (nd_height n) [] now (nd_engine n) in
    match r with
    | Ok _ => (true, MkNode c (nd_broadcast n) (nd_channel n) (nd_inflight n) (nd_height n)
                       (Some (nd_height n)))
    | _ => (false, set_engine c n)
    end
  else (true, n).
Definition broadcast_proposal n : Node :=
  match own_proposal (nd_height n) (nd_engine n) with Some b => say (MsgBlock b) n | None => n end.
Definition broadcast_vote n : Node :=
  match own_vote (nd_height n) (nd_engine n) with Some v => say (MsgVote (encode v)) n | None => n end.
Definition advance_height n : Node :=
  let current := height (nd_engine n) in
  if nd_height n <=? current then
    MkNode (nd_engine n) (nd_broadcast n) (nd_channel n) (nd_inflight n) (current + 1) None
  else n.

(** *** The loop bodies *)

(** One turn of [run_block_production_loop] with a peer connected. *)
Definition production_turn (now : N) n : Node :=
  if is_proposer n then
    let '(go, n) := produce_proposal now n in
    if go then advance_height (finalize_and_report now (broadcast_vote (broadcast_proposal n)))
    else n
  else advance_height n.
(** [run_block_production_loop]: each pass starts with the peer count, and waits
    while there is none. *)
Fixpoint production_loop (passes : list (nat * N)) n : Node :=
  match passes with
  | [] => n
  | (peers, now) :: passes =>
      production_loop passes (if (peers =? 0)%nat then n else production_turn now n)
  end.
(** One turn of [run_network_event_loop]. *)
Definition event_turn (now : N) (e : NetworkEvent) n : Node :=
  match e with
  | MessageReceived _ (MsgBlock b) => finalize_and_report now (receive_block b n)
  | MessageReceived _ (MsgVote bs) =>
      match decode bs with
      | Ok v => let n := receive_vote v now n in send_inflight (pred (length (nd_inflight n))) n
      | _ => n
      end
  | _ => n
  end.

(** *** Interleaving

    The heights stay below the end of their type and the voting powers fit. *)
Definition finalize_room (c : BftConsensus S) : Prop :=
  height c + N.of_nat (size (rounds c)) < U64 ∧ power_fits (validator_set c).
Inductive node_step : Node → Node → Prop :=
| nd_finalize n now : finalize_room (nd_engine n) → node_step n (finalize_and_report now n)
| nd_receive_block n b : node_step n (receive_block b n)
| nd_receive_vote n v now :
    finalize_room (handle_vote v (nd_engine n)).2 → node_step n (receive_vote v now n)
| nd_send n i : node_step n (send_inflight i n)
| nd_propose n now : is_proposer n = true → node_step n (produce_proposal now n).2
| nd_broadcast_proposal n : node_step n (broadcast_proposal n)
| nd_broadcast_vote n : node_step n (broadcast_vote n)
| nd_advance n : node_step n (advance_height n).

(** *** The invariant of the engine under the node's calls

    The node never handles a bare proposal, so a round with a proposal has its
    block, and only decided heights are marked finalized. *)
Definition rounds_complete (c : BftConsensus S) : Prop :=
  ∀ h r, rounds c !! h = Some r →
    (is_Some (rd_proposal r) → is_Some (rd_block r)) ∧ (rd_finalized r = true → h ≤ height c).
Definition complete_at (c : BftConsensus S) (h : N) (r : RoundState) : Prop :=
  (is_Some (rd_proposal r) → is_Some (rd_block r)) ∧ (rd_finalized r = true → h ≤ height c).

Lemma round_of_complete h (c : BftConsensus S) : rounds_complete c → complete_at c h (round_of h c).
Proof.
  intros Hc. unfold round_of. destruct (rounds c !! h) as [r|] eqn:Hr; simpl; [by apply (Hc h r)|].
  split; [by intros []|done].
Qed.
Lemma complete_set_round h r (c : BftConsensus S) :
  complete_at c h r → rounds_complete c → rounds_complete (set_round h r c).
Proof.
  intros Hr Hc h' r'. simpl. rewrite lookup_insert. case_decide; [|apply Hc].
  intros [= <-]. by subst.
Qed.
(** A round that gains a block or a vote. *)
Lemma complete_block h (c : BftConsensus S) p b votes :
  rounds_complete c → rounds_complete (set_round h (MkRound p (Some b) votes (rd_finalized (round_of h c))) c).
Proof.
  intros Hc. apply complete_set_round; [|done]. destruct (round_of_complete h c Hc). by split.
Qed.
Lemma complete_vote h (c : BftConsensus S) votes :
  rounds_complete c →
  rounds_complete (set_round h (MkRound (rd_proposal (round_of h c)) (rd_block (round_of h c)) votes
    (rd_finalized (round_of h c))) c).
Proof. intros Hc. apply complete_set_round; [by apply round_of_complete|done]. Qed.

(** The calls that finalize nothing keep the height. *)
Definition quiet (h0 : N) (c : BftConsensus S) : Prop := rounds_complete c ∧ height c = h0.
Lemma keeps_quiet_propose h0 h txs now : keeps (quiet h0) (propose h txs now) (λ _, True).
Proof.
  unfold propose. eapply keeps_bind; [apply keeps_reads|intros o _].
  eapply keeps_bind; [apply keeps_lift|intros p _].
  eapply keeps_bind; [apply keeps_gets|intros l _]. apply keeps_if; intros _; [apply keeps_fail|].
  eapply (keeps_bind _ _ _ (λ _, True)); [|intros b _].
  { unfold build_block. eapply keeps_bind; [by apply keeps_zoom|intros _ _].
    eapply (keeps_bind _ _ _ (λ _, True)); [|intros _ _].
    { intros c Hc. unfold update_validator_set. by repeat case_match. }
    eapply keeps_bind; [apply keeps_gets|intros prev _].
    eapply keeps_bind; [apply keeps_gets|intros loc _].
    eapply keeps_bind; [apply keeps_reads|intros root _]. by apply keeps_ret. }
  eapply keeps_bind; [apply keeps_modify; intros ? []; split; [by apply complete_block|done]|intros _ _].
  eapply keeps_bind; [by apply keeps_modify|intros _ _]. by apply keeps_ret.
Qed.
Lemma keeps_quiet_handle_block h0 b : keeps (quiet h0) (handle_block b) (λ _, True).
Proof.
  unfold handle_block. eapply keeps_bind; [apply keeps_reads|intros _ _].
  eapply keeps_bind; [apply keeps_gets|intros l _].
  eapply keeps_bind; [apply keeps_modify; intros ? []; split; [by apply complete_block|done]|intros _ _].
  eapply keeps_bind; [apply keeps_gets|intros voted _].
  apply keeps_if; intros _; [|apply keeps_fail].
  eapply keeps_bind; [apply keeps_modify; intros ? []; split; [by apply complete_vote|done]|intros _ _].
  eapply keeps_bind; [by apply keeps_modify|intros _ _]. by apply keeps_ret.
Qed.
Lemma keeps_quiet_handle_vote h0 v : keeps (quiet h0) (handle_vote v) (λ _, True).
Proof.
  unfold handle_vote. eapply keeps_bind; [apply keeps_reads|intros _ _].
  apply keeps_modify. intros ? []. split; [by apply complete_vote|done].
Qed.

(** *** What finalization does under the invariant *)
Lemma finalize_complete hash now (c : BftConsensus S) :
  rounds_complete c → height c < U64 → power_fits (validator_set c) →
  let '(r, c') := finalize hash now c in
  match r with
  | Ok f => height c' = height c + 1 ∧ finalized c' = <[height c + 1 := fin_block f]> (finalized c) ∧
      rounds_complete c' ∧ validator_set c' = validator_set c
  | Err _ => c' = c
  | Panic => False
  end.
Proof.
  intros Hc Hh Hfit. rewrite finalize_eq by done.
  destruct (rounds c !! (height c + 1)) as [r|] eqn:Hr; [|done].
  case_bool_decide as Hp; [|done].
  destruct (Hc _ _ Hr) as [Hblk Hfin].
  destruct (try_finalize_cases (height c + 1) c) as [(o & Ht & Hb)|(r' & Hr' & Hf & Hq & Ht)].
  - rewrite Ht. destruct o as [[b|]|e|]; [|done..|].
    + destruct (Hb b eq_refl) as (_ & r' & Hr' & Hf & _). exfalso.
      assert (height c + 1 ≤ height c); [|lia]. apply Hfin. congruence.
    + revert Ht. unfold try_finalize. rewrite has_quorum_eq, Hr by done.
      by repeat case_match.
  - assert (r' = r) as -> by congruence.
    apply fmap_Some in Hp as (p & Hp & _). destruct Hblk as [b Hb]; [by rewrite Hp|].
    rewrite Hb in Ht. rewrite Ht. simpl. split_and!; [done..| |done].
    intros h x. simpl. rewrite lookup_insert. case_decide as Hh'.
    + intros [= <-]. simpl. rewrite Hb. split; [done|]. intros _. lia.
    + intros Hx. destruct (Hc _ _ Hx) as [Hxb Hxf]. split; [done|]. intros Hx'. specialize (Hxf Hx'). lia.
Qed.
(** A run of candidates never panics; the value returned is the last block it
    finalized. *)
Lemma finalize_candidates_complete now hs found (c : BftConsensus S) :
  rounds_complete c → height c + N.of_nat (length hs) ≤ U64 → power_fits (validator_set c) →
  ∃ found' c', finalize_candidates now found hs c = (Ok found', c') ∧ rounds_complete c' ∧
    ((found' = found ∧ c' = c) ∨
     (height c < height c' ∧ ∃ b, found' = Some b ∧ finalized c' !! height c' = Some b)).
Proof.
  revert found c. induction hs as [|h hs IH]; intros found c Hc Hle Hfit; cbn [length] in Hle.
  { exists found, c. split_and!; [done..|by left]. }
  cbn [finalize_candidates]. unfold mbind, M_bind, finalize_candidate.
  destruct (rounds c !! h ≫= rd_proposal) as [p|]; [|apply IH; [done|lia|done]].
  pose proof (finalize_complete (pr_block_hash p) now c Hc ltac:(lia) Hfit) as Hf.
  destruct (finalize (pr_block_hash p) now c) as [[f|e|] c1]; [|subst c1|done].
  - destruct Hf as (Hh1 & Hfin1 & Hc1 & Hvs1).
    destruct (IH (Some (fin_block f)) c1) as (found' & c' & -> & Hc' & Hcase); [done|lia|by rewrite Hvs1|].
    exists found', c'. split_and!; [done..|]. right.
    destruct Hcase as [[-> ->]|(Hlt & b & -> & Hb)].
    + split; [lia|]. exists (fin_block f). by rewrite Hh1, Hfin1, lookup_insert_eq.
    + split; [lia|]. by exists b.
  - apply IH; [done|lia|done].
Qed.
Lemma candidates_length (c : BftConsensus S) :
  N.of_nat (length (filter (λ e, (height c < e.1)%N ∧ is_Some (rd_proposal e.2)) (btree_iter (rounds c))).*1)
    ≤ N.of_nat (size (rounds c)).
Proof.
  rewrite length_fmap. pose proof (length_filter (λ e, (height c < e.1)%N ∧ is_Some (rd_proposal e.2))
    (btree_iter (rounds c))) as Hle.
  assert (length (btree_iter (rounds c)) = size (rounds c)) as Hs.
  { rewrite <-length_btree_keys. unfold btree_keys. by rewrite length_fmap. }
  lia.
Qed.
Lemma finalize_pending_complete now (c : BftConsensus S) :
  rounds_complete c → finalize_room c →
  ∃ found c', finalize_pending now c = (Ok found, c') ∧ rounds_complete c' ∧
    ((found = None ∧ c' = c) ∨
     (height c < height c' ∧ ∃ b, found = Some b ∧ finalized c' !! height c' = Some b)).
Proof.
  intros Hc [Hroom Hfit]. unfold finalize_pending, mbind, M_bind, gets.
  pose proof (candidates_length c). apply finalize_candidates_complete; [done|lia|done].
Qed.

(** ** The invariant of the node *)
Record node_inv (genesis : Hash) (l : list Block) n : Prop := {
  ni_bft : bft_inv genesis (nd_engine n);
  ni_complete : rounds_complete (nd_engine n);
  ni_announced : nd_channel n ++ nd_inflight n ≡ₚ l;
  ni_final b : b ∈ l → finalized (nd_engine n) !! bh_height (header b) = Some b;
  ni_sorted : StronglySorted (λ x y, bh_height (header x) < bh_height (header y)) l;
  ni_tip : height (nd_engine n) = from_option (λ b, bh_height (header b)) 0 (last l);
}.

Lemma node_inv_quiet g l n c :
  node_inv g l n → chain g (nd_engine n) c → quiet (height (nd_engine n)) c →
  node_inv g l (set_engine c n).
Proof.
  intros [Hb Hr Ha Hf Hs Ht] [Hinv []] [Hc Hh]. split; simpl; [done|done|done| |done|by rewrite Hh].
  intros b Hin. eapply lookup_weaken; [by apply Hf|done].
Qed.
(** The calls that finalize nothing. *)
Lemma node_inv_keeps g l n {A} (m : M (BftConsensus S) ConsensusError A) Q Q' :
  node_inv g l n → keeps (chain g (nd_engine n)) m Q → keeps (quiet (height (nd_engine n))) m Q' →
  node_inv g l (set_engine (m (nd_engine n)).2 n).
Proof.
  intros Hn Hm Hq. apply node_inv_quiet; [done| |].
  - apply Hm. split; [apply Hn|apply continues_refl].
  - apply Hq. split; [apply Hn|done].
Qed.
(** Announcing the tip. *)
Lemma node_inv_tip g l n c b :
  node_inv g l n → chain g (nd_engine n) c → rounds_complete c → height (nd_engine n) < height c →
  finalized c !! height c = Some b →
  node_inv g (l ++ [b]) (report b (set_engine c n)).
Proof.
  intros [Hb Hr Ha Hf Hs Ht] [Hinv []] Hc Hlt Htip.
  pose proof (inv_height g c Hinv _ _ Htip) as Hbh.
  split; simpl; [done|done| | | |by rewrite last_snoc].
  - rewrite <-Ha, <-!(assoc_L (++)). f_equiv. apply Permutation_app_comm.
  - intros x [Hin| ->%list_elem_of_singleton]%elem_of_app; [|by rewrite Hbh].
    eapply lookup_weaken; [by apply Hf|done].
  - apply StronglySorted_app. split_and!; [|done|by repeat constructor].
    intros x y Hx ->%list_elem_of_singleton. rewrite Hbh.
    assert (is_Some (finalized (nd_engine n) !! bh_height (header x))) as Hsome by (by rewrite Hf).
    apply (inv_dom g _ Hb) in Hsome. lia.
Qed.
(** Blocks on the channels and in flight are one multiset. *)
Lemma node_inv_outputs g l n bc ch fl h lp :
  node_inv g l n → ch ++ fl ≡ₚ nd_channel n ++ nd_inflight n →
  node_inv g l (MkNode (nd_engine n) bc ch fl h lp).
Proof. intros [] Hp. split; simpl; try done. by rewrite Hp. Qed.

Lemma finalize_inv g l n now :
  node_inv g l n → finalize_room (nd_engine n) →
  ∃ found c, finalize_pending now (nd_engine n) = (Ok found, c) ∧
    ((found = None ∧ c = nd_engine n) ∨
     (∃ b, found = Some b ∧ height (nd_engine n) < height c ∧ finalized c !! height c = Some b ∧
        node_inv g (l ++ [b]) (report b (set_engine c n)))).
Proof.
  intros Hn Hroom. pose proof Hroom as [Hr _].
  destruct (finalize_pending_complete now (nd_engine n) (ni_complete _ _ _ Hn) Hroom)
    as (found & c & Hrun & Hc & Hcase).
  exists found, c. split; [done|]. destruct Hcase as [?|(Hlt & b & -> & Hb)]; [by left|right].
  exists b. split_and!; [done..|]. apply node_inv_tip; [done| |done|done|done].
  pose proof (finalize_pending_chain g (nd_engine n) now (nd_engine n) ltac:(lia)) as Hch.
  rewrite Hrun in Hch. apply Hch. split; [apply Hn|apply continues_refl].
Qed.
(** A step announces at most one block. *)
Lemma node_step_inv g l n n' :
  node_step n n' → node_inv g l n → ∃ l', (length l' ≤ 1)%nat ∧ node_inv g (l ++ l') n'.
Proof.
  intros Hstep Hn. destruct Hstep as [n now Hroom|n b|n v now Hroom|n i|n now _|n|n|n].
  - unfold finalize_and_report. destruct (finalize_inv g l n now Hn Hroom)
      as (found & c & -> & [[-> ->]|(b & -> & _ & _ & Hb)]); [|by exists [b]].
    exists []. split; [simpl; lia|]. rewrite (right_id_L [] (++)). by destruct n.
  - exists []. split; [simpl; lia|]. rewrite (right_id_L [] (++)). unfold receive_block.
    pose proof (node_inv_keeps g l n _ _ _ Hn (keeps_handle_block g (nd_engine n) b)
      (keeps_quiet_handle_block _ b)) as Hk.
    destruct (handle_block b (nd_engine n)) as [[vote|e|] c]; [|done..].
    by apply (node_inv_outputs g l (set_engine c n)).
  - unfold receive_vote.
    pose proof (node_inv_keeps g l n _ _ _ Hn (keeps_handle_vote g (nd_engine n) v)
      (keeps_quiet_handle_vote _ v)) as Hk.
    destruct (handle_vote v (nd_engine n)) as [o c]. simpl in Hk, Hroom.
    destruct (finalize_inv g l (set_engine c n) now Hk Hroom)
      as (found & c' & Hrun & [[-> ->]|(b & -> & _ & _ & Hb)]); simpl in Hrun; rewrite Hrun.
    + exists []. split; [simpl; lia|]. by rewrite (right_id_L [] (++)).
    + exists [b]. split; [done|]. apply (node_inv_outputs g _ _ (nd_broadcast n) (nd_channel n)
        (nd_inflight n ++ [b]) (nd_height n) (nd_last_proposed n)) in Hb; [done|].
      simpl. rewrite <-(assoc_L (++)). f_equiv. apply Permutation_app_comm.
  - exists []. split; [simpl; lia|]. rewrite (right_id_L [] (++)). unfold send_inflight.
    destruct (nd_inflight n !! i) as [b|] eqn:Hi; [|done].
    apply node_inv_outputs; [done|]. rewrite <-(assoc_L (++)). f_equiv.
    symmetry. by apply delete_Permutation.
  - exists []. split; [simpl; lia|]. rewrite (right_id_L [] (++)). unfold produce_proposal. case_bool_decide; [|done].
    pose proof (node_inv_keeps g l n _ _ _ Hn (keeps_propose g (nd_engine n) (nd_height n) [] now)
      (keeps_quiet_propose _ (nd_height n) [] now)) as Hk.
    destruct (propose _ _ _ _) as [[b|e|] c]; [|done..].
    by apply (node_inv_outputs g l (set_engine c n)).
  - exists []. split; [simpl; lia|]. rewrite (right_id_L [] (++)). unfold broadcast_proposal.
    destruct (own_proposal _ _); [|done]. by apply node_inv_outputs.
  - exists []. split; [simpl; lia|]. rewrite (right_id_L [] (++)). unfold broadcast_vote.
    destruct (own_vote _ _); [|done]. by apply node_inv_outputs.
  - exists []. split; [simpl; lia|]. rewrite (right_id_L [] (++)). unfold advance_height.
    destruct (_ <=? _); [|done]. by apply node_inv_outputs.
Qed.
Lemma node_steps_inv g l n n' : rtc node_step n n' → node_inv g l n → ∃ l', node_inv g (l ++ l') n'.
Proof.
  intros Hsteps. revert l. induction Hsteps as [n|n1 n2 n3 Hstep _ IH]; intros l Hn.
  - exists []. by rewrite (right_id_L [] (++)).
  - destruct (node_step_inv g l n1 n2 Hstep Hn) as (l1 & _ & Hn1).
    destruct (IH _ Hn1) as [l2 Hn2]. exists (l1 ++ l2). by rewrite (assoc_L (++)).
Qed.
Lemma node_new_inv local vs st genesis c :
  new_with_store local vs st genesis = Ok c → node_inv genesis [] (node_new c).
Proof.
  intros Hnew. pose proof (new_with_store_inv _ _ _ _ _ Hnew) as Hinv. unfold new_with_store in Hnew.
  destruct (is_validator vs local); [|done]. simplify_eq. split; simpl; [done| |done| |constructor|done].
  - intros h r Hr. simpl in Hr. by rewrite lookup_empty in Hr.
  - intros b Hb. by apply elem_of_nil in Hb.
Qed.

(** The loop bodies are runs of these steps. *)
Lemma turns_are_steps now e n :
  (∀ n', rtc node_step n n' → finalize_room (nd_engine n')) →
  (∀ v, finalize_room (handle_vote v (nd_engine n)).2) →
  rtc node_step n (production_turn now n) ∧ rtc node_step n (event_turn now e n).
Proof.
  intros Hroom Hvote. split.
  - unfold production_turn. destruct (is_proposer n) eqn:Hp; [|apply rtc_once, nd_advance].
    pose proof (nd_propose n now Hp) as Hs. destruct (produce_proposal now n) as [go n1]. simpl in Hs.
    destruct go; [|by apply rtc_once].
    assert (rtc node_step n (broadcast_vote (broadcast_proposal n1))) as Hs3.
    { eapply rtc_l; [exact Hs|]. eapply rtc_l; [apply nd_broadcast_proposal|].
      apply rtc_once, nd_broadcast_vote. }
    etransitivity; [exact Hs3|]. eapply rtc_l; [by apply nd_finalize, Hroom|].
    apply rtc_once, nd_advance.
  - unfold event_turn. destruct e as [p|p|p m]; [done..|]. destruct m as [t|b|h|o|bs|bs| |]; try done.
    + assert (rtc node_step n (receive_block b n)) as Hs by apply rtc_once, nd_receive_block.
      etransitivity; [exact Hs|]. by apply rtc_once, nd_finalize, Hroom.
    + destruct (decode bs) as [v|e|]; [|done..].
      eapply rtc_l; [apply nd_receive_vote, Hvote|]. apply rtc_once, nd_send.
Qed.

(** A validator without peers never proposes. *)
Lemma lone_validator_waits passes n : Forall (λ p, p.1 = 0%nat) passes → production_loop passes n = n.
Proof. intros Hp. revert n. by induction Hp as [|[peers now] passes Hz _ IH]; intros n; simpl in *; subst. Qed.

(** C19: What a validator tells its services is its chain: however its two loops
    interleave and whatever arrives, the blocks sent on the channels or about to
    be are, in some order, blocks it finalized, of strictly increasing heights
    (so none twice), the last of them the tip. *)
Theorem node_reports_finalized_blocks local vs st genesis c n :
  new_with_store local vs st genesis = Ok c → rtc node_step (node_new c) n →
  ∃ l, nd_channel n ++ nd_inflight n ≡ₚ l ∧
    StronglySorted (λ x y, bh_height (header x) < bh_height (header y)) l ∧
    (∀ b, b ∈ l → finalized (nd_engine n) !! bh_height (header b) = Some b) ∧
    height (nd_engine n) = from_option (λ b, bh_height (header b)) 0 (last l).
Proof.
  intros Hnew Hsteps. destruct (node_steps_inv genesis [] _ n Hsteps) as [l [_ _ Ha Hf Hs Ht]];
    [by eapply node_new_inv|]. by exists l.
Qed.

(** A validator that finalizes two heights in one step reports only the
    second: the block of the first is final, but is never sent on the channels,
    then or later, so its services never see it. *)
Lemma node_skips_finalized_block local vs st genesis c n n1 :
  new_with_store local vs st genesis = Ok c → rtc node_step (node_new c) n → node_step n n1 →
  height (nd_engine n) + 2 ≤ height (nd_engine n1) →
  ∃ b, finalized (nd_engine n1) !! (height (nd_engine n) + 1) = Some b ∧
    ∀ n2, rtc node_step n1 n2 → b ∉ nd_channel n2 ++ nd_inflight n2.
Proof.
  intros Hnew Hsteps Hstep Hjump.
  destruct (node_steps_inv genesis [] _ n Hsteps) as [l Hn]; [by eapply node_new_inv|]. simpl in Hn.
  destruct (node_step_inv genesis l n n1 Hstep Hn) as (l1 & Hlen & Hn1).
  destruct l1 as [|tip [|? ?]]; [|clear Hlen|simpl in Hlen; lia].
  { exfalso. rewrite (right_id_L [] (++)) in Hn1.
    rewrite (ni_tip _ _ _ Hn1), (ni_tip _ _ _ Hn) in Hjump. lia. }
  pose proof (ni_tip _ _ _ Hn1) as Htip. rewrite last_snoc in Htip. simpl in Htip.
  pose proof (inv_dom genesis _ (ni_bft _ _ _ Hn1)) as Hdom.
  destruct (proj2 (Hdom (height (nd_engine n) + 1))) as [b Hb]; [lia|]. exists b. split; [done|].
  pose proof (inv_height genesis _ (ni_bft _ _ _ Hn1) _ _ Hb) as Hbh.
  intros n2 Hsteps2. destruct (node_steps_inv genesis _ _ n2 Hsteps2 Hn1) as [l2 Hn2].
  rewrite (ni_announced _ _ _ Hn2), !elem_of_app, list_elem_of_singleton. intros [[Hin| ->]|Hin]; [|lia|].
  - assert (is_Some (finalized (nd_engine n) !! bh_height (header b))) as Hsome
      by (rewrite (ni_final _ _ _ Hn) by done; by eexists).
    apply (inv_dom genesis _ (ni_bft _ _ _ Hn)) in Hsome. lia.
  - pose proof (ni_sorted _ _ _ Hn2) as Hs. apply StronglySorted_app in Hs as (Hcross & _).
    specialize (Hcross tip b ltac:(set_solver) Hin). lia.
Qed.
End loops.

(** ** A validator of the committee of four *)
Module NodeScenario.
Import Reference BftScenario.

Notation Node := (NodeState (StateStore InMemoryBackend)).
Definition vote_at (b : Block) (a : Address) : Vote :=
  MkVote (block_hash b) (bh_height (header b)) 0 (address_array a).
Definition vote_a3 := vote_at block_a v3.
Definition vote_a4 := vote_at block_a v4.
Definition vote_23 := vote_at block_2 v3.
Definition vote_24 := vote_at block_2 v4.
Definition node0 : Node := node_new engine0.
Definition node0a : Node := receive_block block_a node0.
Definition node1 : Node := receive_vote vote_a3 5 node0a.
Definition node1a : Node := receive_block block_2 node1.
Definition node1b : Node := receive_vote vote_23 5 node1a.
(** Height 1 lacks one vote when height 2 has all of its own. *)
Definition node2 : Node := receive_vote vote_24 5 node1b.
Definition node3 : Node := receive_vote vote_a4 6 node2.

Definition roomy (c : BftConsensus (StateStore InMemoryBackend)) : bool :=
  (height c + N.of_nat (size (rounds c)) <? U64) && (2 * set_power (validator_set c) <=? U64).
Lemma roomy_room c : roomy c = true → finalize_room c.
Proof. unfold roomy. intros [? ?]%andb_true_iff. split; [by apply N.ltb_lt|by apply N.leb_le]. Qed.

Lemma room_1 : finalize_room (handle_vote vote_a3 (nd_engine node0a)).2.
Proof. apply roomy_room. vm_compute. reflexivity. Qed.
Lemma room_1b : finalize_room (handle_vote vote_23 (nd_engine node1a)).2.
Proof. apply roomy_room. vm_compute. reflexivity. Qed.
Lemma room_2 : finalize_room (handle_vote vote_24 (nd_engine node1b)).2.
Proof. apply roomy_room. vm_compute. reflexivity. Qed.
Lemma room_3 : finalize_room (handle_vote vote_a4 (nd_engine node2)).2.
Proof. apply roomy_room. vm_compute. reflexivity. Qed.
Lemma steps_to_node2 : rtc node_step node0 node2.
Proof.
  exact (rtc_l _ _ _ _ (nd_receive_block node0 block_a)
    (rtc_l _ _ _ _ (nd_receive_vote node0a vote_a3 5 room_1)
    (rtc_l _ _ _ _ (nd_receive_block node1 block_2)
    (rtc_l _ _ _ _ (nd_receive_vote node1a vote_23 5 room_1b)
    (rtc_once _ _ (nd_receive_vote node1b vote_24 5 room_2)))))).
Qed.
Lemma step_node3 : node_step node2 node3.
Proof. exact (nd_receive_vote node2 vote_a4 6 room_3). Qed.

Lemma node_reports_finalized_blocks_witness :
  nd_inflight node3 = [block_2] ∧ ∃ l, nd_channel node3 ++ nd_inflight node3 ≡ₚ l.
Proof.
  split; [vm_compute; reflexivity|].
  destruct (node_reports_finalized_blocks v1 committee new_in_memory Hash_default engine0 node3
    engine0_new (rtc_r _ _ _ steps_to_node2 step_node3)) as (l & Hl & _).
  exists l. exact Hl.
Defined.
Lemma node_skips_finalized_block_witness :
  ∃ b, finalized (nd_engine node3) !! 1 = Some b ∧
    ∀ n2, rtc node_step node3 n2 → b ∉ nd_channel n2 ++ nd_inflight n2.
Proof.
  exact (node_skips_finalized_block v1 committee new_in_memory Hash_default engine0 node2 node3
    engine0_new steps_to_node2 step_node3 ltac:(vm_compute; discriminate)).
Defined.
End NodeScenario.
