(* ===== verification/Cluster.v ===== *)
(** * A network of BFT validators

    Several nodes of [NodeLoops] exchanging what they broadcast: a message that
    a node has handed to [broadcast] may reach, any number of times and in any
    order or never, the nodes its transport is connected to.  [node.rs] does not
    relay what it receives, so a message travels over one link only. *)

From Stdlib Require Import Strings.Byte.
From S2P Require Import Prelude.
From S2P Require Import Externals.
From S2P Require Import Primitives.
From S2P Require Import Storage.
From S2P Require Import StateStore.
From S2P Require Import Crypto.
From S2P Require Import Vm.
From S2P Require Import ValidatorSet.
From S2P Require Import Bft.
From S2P Require Import BftTheorems.
From S2P Require Import BftProperties.
From S2P Require Import Network.
From S2P Require Import NodeLoops.
Local Open Scope N_scope.

(** ** What the calls of the engine do to its rounds *)
Section effects.
Context {S : Type} `{Store S, Profile, Blake3, Dalek, !Serde Transaction, !Serde StakingOperation}.
Context `{!Serde BlockHeader, !Serde (list Transaction)}.
Implicit Types (c : BftConsensus S).

(** A block enters its round; a vote enters its round. *)
Definition take_block (b : Block) c : BftConsensus S :=
  let h := bh_height (header b) in
  set_round h (MkRound (Some (proposal_of_block b)) (Some b) (rd_votes (round_of h c))
    (rd_finalized (round_of h c))) c.
Definition take_vote (v : Vote) c : BftConsensus S :=
  let r := round_of (vt_height v) c in
  set_round (vt_height v) (MkRound (rd_proposal r) (rd_block r)
    (<[MkAddress (vt_voter v) := v]> (rd_votes r)) (rd_finalized r)) c.
(** The engine's own vote for a block. *)
Definition ballot (b : Block) c : Vote :=
  MkVote (block_hash b) (bh_height (header b)) 0 (address_array (local_address c)).
Definition cast (v : Vote) c : BftConsensus S :=
  let c' := take_vote v c in
  set_voted ({[(vt_height v, local_address c)]} ∪ voted_this_height c') c'.

Lemma handle_block_run b c :
  handle_block b c =
    match validate_proposal (proposal_of_block b) c with
    | Ok _ =>
        if bool_decide ((bh_height (header b), local_address c) ∉ voted_this_height c)
        then (Ok (ballot b c), cast (ballot b c) (take_block b c))
        else (Err InvalidVote, take_block b c)
    | Err e => (Err e, c)
    | Panic => (Panic, c)
    end.
Proof.
  unfold handle_block, mbind at 1, M_bind at 1, reads.
  destruct (validate_proposal _ c) as [[]|e|]; [|done..].
  unfold mbind, M_bind, gets, modify. simpl. case_bool_decide as Hv; [|done].
  unfold cast, take_vote, ballot. simpl.
  by rewrite address_eta.
Qed.
Lemma handle_vote_run v c :
  handle_vote v c =
    match validate_vote v c with
    | Ok _ => (Ok tt, take_vote v c)
    | Err e => (Err e, c)
    | Panic => (Panic, c)
    end.
Proof.
  unfold handle_vote, mbind, M_bind, reads, modify. by destruct (validate_vote v c) as [[]|e|].
Qed.

(** The committee does not change when it is recomputed from the store. *)
Definition steady c : Prop := update_validator_set c = (Ok tt, c).
(** The engine after proposing [b]. *)
Definition proposed (b : Block) c : BftConsensus S :=
  cast (ballot b c) (take_block b c).
(** The empty block an engine builds. *)
Definition empty_block (h now : N) (root : Hash) c : Block :=
  MkBlock (MkBlockHeader h now (previous_hash c) root (hash_bytes (encode (@nil Transaction)))
             (address_array (local_address c))) (MkBlockBody []).
(** An empty block of a steady engine changes nothing but its own round. *)
Lemma propose_empty_run h now c :
  steady c →
  propose h [] now c =
    match proposer (E:=ConsensusError) (validator_set c) h 0 with
    | Ok (Some p) =>
        if bool_decide (p ≠ local_address c) then (Err NotProposer, c)
        else match store_state_root (state c) with
             | Ok root => (Ok (empty_block h now root c), proposed (empty_block h now root c) c)
             | Err _ => (Err ConsensusStorage, c)
             | Panic => (Panic, c)
             end
    | Ok None => (Err NotProposer, c)
    | Err e => (Err e, c)
    | Panic => (Panic, c)
    end.
Proof.
  intros Hs.
  assert (build_block h [] now c =
    match store_state_root (state c) with
    | Ok root => (Ok (empty_block h now root c), c)
    | Err _ => (Err ConsensusStorage, c)
    | Panic => (Panic, c)
    end) as Hb.
  { unfold build_block, zoom, run_block. simpl. unfold mbind at 1, M_bind at 1. simpl.
    unfold mbind at 1, M_bind at 1. replace (set_state (state c) c) with c by by destruct c.
    rewrite Hs. unfold mbind, M_bind, gets, reads. simpl.
    by destruct (store_state_root (state c)). }
  unfold propose, mbind at 1, M_bind at 1, reads.
  destruct (proposer (validator_set c) h 0) as [[p|]|e|]; [|done..].
  rewrite bind_lift. simpl. unfold mbind at 1, M_bind at 1, gets at 1.
  case_bool_decide as Hl; [done|].
  destruct (store_state_root (state c)) as [root|e|].
  - erewrite bind_Ok by exact Hb. unfold mbind, M_bind, gets, modify. simpl.
    unfold proposed, cast, take_vote, take_block, ballot, set_voted, set_round. simpl.
    unfold round_of. simpl. rewrite !lookup_insert_eq. simpl.
    by rewrite insert_insert_eq, address_eta.
  - unfold mbind, M_bind. by rewrite Hb.
  - unfold mbind, M_bind. by rewrite Hb.
Qed.

(** [finalize] either changes nothing or makes the next block final. *)
Lemma finalize_advance hash now c :
  rounds_complete c → height c < U64 →
  (finalize hash now c).2 = c ∨
  ∃ r b, rounds c !! (height c + 1) = Some r ∧ rd_block r = Some b ∧
    has_quorum (height c + 1) c = Ok true ∧ (finalize hash now c).2 = advanced (height c + 1) r b c.
Proof.
  intros Hc Hh. rewrite finalize_eq by done.
  destruct (rounds c !! (height c + 1)) as [r|] eqn:Hr; [|by left].
  case_bool_decide as Hp; [|by left]. destruct (Hc _ _ Hr) as [Hblk _].
  destruct (try_finalize_cases (height c + 1) c) as [(o & Ht & _)|(r' & Hr' & _ & Hq & Ht)].
  - left. rewrite Ht. by destruct o as [[b|]|e|].
  - right. rewrite Hr in Hr'. injection Hr' as <-.
    apply fmap_Some in Hp as (p & Hp & _). destruct Hblk as [b Hb]; [by rewrite Hp|].
    exists r, b. rewrite Hb in Ht. by rewrite Ht.
Qed.
(** [finalize_pending] keeps whatever making the next block final keeps. *)
Definition keeps_advance (I : BftConsensus S → Prop) : Prop :=
  ∀ c r b, I c → rounds c !! (height c + 1) = Some r → rd_block r = Some b →
    has_quorum (height c + 1) c = Ok true → I (advanced (height c + 1) r b c).
Lemma finalize_candidates_keeps I now found hs c :
  (∀ c, I c → rounds_complete c) → keeps_advance I → height c + N.of_nat (length hs) ≤ U64 →
  I c → I (finalize_candidates now found hs c).2.
Proof.
  intros Hcomp Hadv. revert found c. induction hs as [|h hs IH]; intros found c Hle HI; [done|].
  cbn [finalize_candidates length] in *. unfold mbind, M_bind, finalize_candidate.
  destruct (rounds c !! h ≫= rd_proposal) as [p|]; [|apply IH; [lia|done]].
  assert (I (finalize (pr_block_hash p) now c).2 ∧
    height (finalize (pr_block_hash p) now c).2 ≤ height c + 1) as [HI' Hh'].
  { destruct (finalize_advance (pr_block_hash p) now c) as [->|(r & b & Hr & Hb & Hq & ->)];
      [by apply Hcomp|lia|split; [done|lia]|]. split; [by apply Hadv|done]. }
  destruct (finalize (pr_block_hash p) now c) as [[f|e|] c']; simpl in *; [|apply IH; [lia|done]|done].
  apply IH; [lia|done].
Qed.
Lemma finalize_pending_keeps I now c :
  (∀ c, I c → rounds_complete c) → keeps_advance I → height c + N.of_nat (size (rounds c)) ≤ U64 →
  I c → I (finalize_pending now c).2.
Proof.
  intros Hcomp Hadv Hle HI. unfold finalize_pending, mbind, M_bind, gets.
  pose proof (candidates_length c). apply finalize_candidates_keeps; [done..|lia|done].
Qed.
End effects.

(** ** The network *)
Section cluster.
Context {S : Type} `{Store S, Profile, Blake3, Dalek, !Serde Transaction, !Serde StakingOperation}.
Context `{!Serde BlockHeader, !Serde (list Transaction), !Serde Vote}.
Notation Node := (NodeState S).
(** Whether the first node's transport has a connection to the second. *)
Context (linked : Address → Address → Prop).

(** The validators by address. *)
Notation Cluster := (gmap Address Node).

(** The sections of a node's own loops, each under the condition the production
    loop checks at the start of a turn. *)
Inductive local_step : Node → Node → Prop :=
| ls_finalize n now : finalize_room (nd_engine n) → local_step n (finalize_and_report now n)
| ls_send n i : local_step n (send_inflight i n)
| ls_propose n now : is_proposer n = true → local_step n (produce_proposal now n).2
| ls_broadcast_proposal n : is_proposer n = true → local_step n (broadcast_proposal n)
| ls_broadcast_vote n : is_proposer n = true → local_step n (broadcast_vote n)
| ls_advance n : local_step n (advance_height n).
(** The event loop takes a message; the two loops ignore every other message. *)
Inductive receives : Message → Node → Node → Prop :=
| rc_block n b : receives (MsgBlock b) n (receive_block b n)
| rc_vote n bs v now :
    decode bs = Ok v → finalize_room (handle_vote v (nd_engine n)).2 →
    receives (MsgVote bs) n (receive_vote v now n).
(** A step of the node at [b]. *)
Inductive steps_at (cl : Cluster) (b : Address) : Node → Node → Prop :=
| sa_local n n' : local_step n n' → steps_at cl b n n'
| sa_deliver a na m n n' :
    cl !! a = Some na → linked a b → m ∈ nd_broadcast na → receives m n n' → steps_at cl b n n'.
Inductive cluster_step : Cluster → Cluster → Prop :=
| cl_step cl b n n' : cl !! b = Some n → steps_at cl b n n' → cluster_step cl (<[b := n']> cl).

Lemma steps_at_node_step cl b n n' : steps_at cl b n n' → node_step n n'.
Proof.
  intros [? ? []|? ? ? ? ? _ _ _ []]; by constructor.
Qed.

(** ** The invariant of the network *)
Context (vs : ValidatorSet) (genesis : Hash).

(** The proposer of a height, the same for every node of the committee [vs]. *)
Definition turn_of (h : N) : option Address :=
  match proposer (E:=ConsensusError) vs h 0 with Ok o => o | _ => None end.
Definition near (v a : Address) : Prop := v = a ∨ linked v a.
(** The block of height [h] can have reached [v]. *)
Definition reached (v : Address) (h : N) : Prop := ∃ p, turn_of h = Some p ∧ near p v.
Definition quorum : N := set_power vs * 2 / 3 + 1.

(** [G] holds the block proposed at each height. *)
Record engine_ok (G : gmap N Block) (a : Address) (c : BftConsensus S) : Prop := {
  eo_local : local_address c = a;
  eo_set : validator_set c = vs;
  eo_steady : steady c;
  eo_inv : bft_inv genesis c;
  eo_complete : rounds_complete c;
  eo_block h r b : rounds c !! h = Some r → rd_block r = Some b → G !! h = Some b ∧ reached a h;
  eo_vote h r v : rounds c !! h = Some r → is_Some (rd_votes r !! v) → near v a ∧ reached v h;
  eo_final h b : finalized c !! h = Some b → G !! h = Some b;
  eo_quorum h : is_Some (finalized c !! h) →
    ∃ r, rounds c !! h = Some r ∧ quorum ≤ power_in vs (dom (rd_votes r));
}.
Record node_ok (G : gmap N Block) (a : Address) (n : Node) : Prop := {
  no_engine : engine_ok G a (nd_engine n);
  no_say_block b : MsgBlock b ∈ nd_broadcast n →
    G !! bh_height (header b) = Some b ∧ turn_of (bh_height (header b)) = Some a;
  no_say_vote bs : MsgVote bs ∈ nd_broadcast n →
    ∃ v, bs = encode v ∧ MkAddress (vt_voter v) = a ∧ reached a (vt_height v);
  no_turn h : turn_of h = Some a → is_Some (G !! h) →
    h < nd_height n ∨ (h = nd_height n ∧ nd_last_proposed n = Some h);
  no_height : nd_height n ≤ height (nd_engine n) + 1;
}.
Record net_ok (G : gmap N Block) (cl : Cluster) : Prop := {
  net_node a n : cl !! a = Some n → node_ok G a n;
  net_owner h b : G !! h = Some b → (bh_height (header b) = h ∧ transactions (body b) = []) ∧
    ∃ p n, turn_of h = Some p ∧ cl !! p = Some n ∧ h ≤ nd_height n;
}.

Lemma steady_same (c c' : BftConsensus S) :
  state c' = state c → validator_set c' = validator_set c → steady c → steady c'.
Proof.
  unfold steady, update_validator_set. intros -> Hvs.
  destruct (store_validator_records (state c)) as [l|e|]; [|done..].
  destruct (vs_is_empty _); [done|]. intros [= Heq]. f_equal.
  apply (f_equal validator_set) in Heq. simpl in Heq. rewrite Heq, <-Hvs. by destruct c'.
Qed.

Section engine.
Context (G : gmap N Block) (a : Address).
Notation OK := (engine_ok G a).

Lemma engine_set_round h r (c : BftConsensus S) :
  OK c → round_ok h r → complete_at c h r →
  (∀ b, rd_block r = Some b → G !! h = Some b ∧ reached a h) →
  (∀ v, is_Some (rd_votes r !! v) → near v a ∧ reached v h) →
  dom (rd_votes (round_of h c)) ⊆ dom (rd_votes r) →
  OK (set_round h r c).
Proof.
  intros [] Hr Hcomp Hb Hv Hdom. split; simpl; try done.
  - by apply (steady_same c).
  - apply (chain_set_round genesis c); [done|]. split; [done|apply continues_refl].
  - by apply complete_set_round.
  - intros h' r' b. rewrite lookup_insert. case_decide as Hh; [|by eauto]. intros [= <-]. subst. apply Hb.
  - intros h' r' v. rewrite lookup_insert. case_decide as Hh; [|by eauto]. intros [= <-]. subst. apply Hv.
  - intros h' Hf. destruct (eo_quorum0 h' Hf) as (r' & Hr' & Hq). rewrite lookup_insert.
    case_decide as Hh; [|by eauto]. subst. exists r. split; [done|].
    etransitivity; [exact Hq|]. apply map_sum_mono. intros k p _.
    unfold round_of in Hdom. rewrite Hr' in Hdom. simpl in Hdom. repeat case_decide; set_solver by lia.
Qed.
Lemma engine_round (c : BftConsensus S) h :
  OK c → (∀ b, rd_block (round_of h c) = Some b → G !! h = Some b ∧ reached a h) ∧
    (∀ v, is_Some (rd_votes (round_of h c) !! v) → near v a ∧ reached v h).
Proof.
  intros Hc. unfold round_of. destruct (rounds c !! h) as [r|] eqn:Hr; simpl.
  - split; intros ?; [by apply (eo_block _ _ _ Hc)|by apply (eo_vote _ _ _ Hc)].
  - split; [done|]. intros v. rewrite lookup_empty. by intros [].
Qed.
Lemma engine_take_block b (c : BftConsensus S) :
  G !! bh_height (header b) = Some b → reached a (bh_height (header b)) → OK c → OK (take_block b c).
Proof.
  intros HG Hreach Hc. destruct (engine_round c (bh_height (header b)) Hc) as [_ Hv].
  apply engine_set_round; simpl; [done| | | |done|done].
  - apply round_ok_block; [by apply (round_of_ok genesis), Hc|done].
  - destruct (round_of_complete (bh_height (header b)) c) as [_ ?]; [apply Hc|]. by split; [eexists|].
  - by intros ? [= <-].
Qed.
Lemma engine_take_vote v (c : BftConsensus S) :
  near (MkAddress (vt_voter v)) a → reached (MkAddress (vt_voter v)) (vt_height v) →
  OK c → OK (take_vote v c).
Proof.
  intros Hnear Hreach Hc. destruct (engine_round c (vt_height v) Hc) as [Hb Hv].
  apply engine_set_round; simpl; [done| | |done| |set_solver].
  - apply round_ok_vote; [by apply (round_of_ok genesis), Hc|done..].
  - apply round_of_complete, Hc.
  - intros x. rewrite lookup_insert. case_decide; [by intros _; subst|apply Hv].
Qed.
Lemma engine_set_voted V (c : BftConsensus S) : OK c → OK (set_voted V c).
Proof. intros []. split; try done; [by apply (steady_same c)|]. by destruct eo_inv0. Qed.
Lemma engine_cast b (c : BftConsensus S) :
  reached a (bh_height (header b)) → OK c → OK (cast (ballot b c) c).
Proof.
  intros Hreach Hc. unfold cast. apply engine_set_voted, engine_take_vote; [| |done]; simpl.
  - rewrite address_eta, (eo_local _ _ _ Hc). by left.
  - by rewrite address_eta, (eo_local _ _ _ Hc).
Qed.
Lemma engine_advance : power_fits vs → keeps_advance OK.
Proof.
  intros Hfit c r b Hc Hr Hb Hq. destruct (chain_advance genesis c c r b) as [Hinv _]; [|done..|].
  { split; [apply Hc|apply continues_refl]. }
  pose proof Hc as []. split; simpl; try done.
  - by apply (steady_same c).
  - intros h r'. simpl. rewrite lookup_insert. case_decide as Hh.
    + intros [= <-]. subst. simpl. rewrite Hb. split; [by eexists|lia].
    + intros Hr'. destruct (eo_complete0 _ _ Hr') as [? Hf]. split; [done|]. intros Hx. specialize (Hf Hx). lia.
  - intros h r' b'. rewrite lookup_insert. case_decide; [|by eauto]. intros [= <-]. subst. simpl. by apply (eo_block0 _ _ _ Hr).
  - intros h r' v. rewrite lookup_insert. case_decide; [|by eauto]. intros [= <-]. subst. simpl. by apply (eo_vote0 _ _ _ Hr).
  - intros h b'. rewrite lookup_insert. case_decide; [|by eauto]. intros [= <-]. subst.
    by apply (eo_block0 _ _ _ Hr Hb).
  - intros h. rewrite !lookup_insert. case_decide as Hh; [|by apply eo_quorum0]. intros _.
    eexists. split; [done|]. simpl. revert Hq. rewrite has_quorum_eq, Hr by by rewrite eo_set0.
    rewrite eo_set0. intros [= Hq%N.leb_le]. done.
Qed.
Lemma engine_finalize_pending now (c : BftConsensus S) :
  finalize_room c → OK c → OK (finalize_pending now c).2.
Proof.
  intros [Hroom Hfit] Hc. rewrite (eo_set _ _ _ Hc) in Hfit.
  apply finalize_pending_keeps; [by intros ? []|by apply engine_advance|lia|done].
Qed.
End engine.

(** *** A step of one node *)
Lemma node_ok_engine G a n c ch fl :
  node_ok G a n → engine_ok G a c → height (nd_engine n) ≤ height c →
  node_ok G a (MkNode c (nd_broadcast n) ch fl (nd_height n) (nd_last_proposed n)).
Proof. intros [] Hc Hle. split; simpl; [done..|lia]. Qed.
Lemma node_ok_say G a n m :
  node_ok G a n →
  (∀ b, m = MsgBlock b → G !! bh_height (header b) = Some b ∧ turn_of (bh_height (header b)) = Some a) →
  (∀ bs, m = MsgVote bs → ∃ v, bs = encode v ∧ MkAddress (vt_voter v) = a ∧ reached a (vt_height v)) →
  node_ok G a (say m n).
Proof.
  intros [] Hb Hv. split; simpl; [done| | |done..].
  - intros b [?|?%list_elem_of_singleton]%elem_of_app; by auto.
  - intros b [?|?%list_elem_of_singleton]%elem_of_app; by auto.
Qed.
Lemma is_proposer_turn G a n :
  engine_ok G a (nd_engine n) → is_proposer n = true → turn_of (nd_height n) = Some a.
Proof.
  intros Hc. unfold is_proposer, turn_of. rewrite (eo_set _ _ _ Hc), (eo_local _ _ _ Hc).
  destruct (proposer vs (nd_height n) 0) as [o|e|]; [|done..]. by intros ?%bool_decide_eq_true.
Qed.
Lemma finalize_pending_height G a now c :
  finalize_room c → engine_ok G a c → height c ≤ height (finalize_pending now c).2.
Proof.
  intros [Hroom _] Hc. destruct (finalize_pending_chain genesis c now c) as [_ []]; [lia| |done].
  split; [apply Hc|apply continues_refl].
Qed.

Context `{!SerdeLaws Vote}.
Definition sent_ok (G : gmap N Block) (cl : Cluster) : Prop :=
  ∀ x nx, cl !! x = Some nx → node_ok G x nx.

(** Sections that propose nothing keep the invariant of their node. *)
Lemma local_step_ok G a n n' :
  local_step n n' → node_ok G a n →
  node_ok G a n' ∨ is_proposer n = true ∧ ∃ now, n' = (produce_proposal now n).2.
Proof.
  intros Hstep Hn. destruct Hstep as [n now Hroom|n i|n now Hp|n Hp|n Hp|n]; [left|left|right|left|left|left].
  - unfold finalize_and_report.
    pose proof (engine_finalize_pending G a now _ Hroom (no_engine _ _ _ Hn)) as Hc.
    pose proof (finalize_pending_height G a now _ Hroom (no_engine _ _ _ Hn)) as Hh.
    destruct (finalize_pending now (nd_engine n)) as [[[b|]|e|] c]; unfold report, set_engine; simpl in *;
      by apply node_ok_engine.
  - unfold send_inflight. destruct (nd_inflight n !! i); [|done]. apply node_ok_engine; [done|apply Hn|done].
  - split; [done|by eexists].
  - unfold broadcast_proposal, own_proposal. destruct (rounds (nd_engine n) !! nd_height n) as [r|] eqn:Hr; [|done].
    simpl. destruct (rd_block r) as [b|] eqn:Hb; [|done]. apply node_ok_say; [done| |done].
    intros b' [= <-]. pose proof (no_engine _ _ _ Hn) as Hc.
    destruct (inv_rounds genesis _ (eo_inv _ _ _ Hc) _ _ Hr) as [Hbh _]. rewrite (Hbh b Hb).
    split; [by apply (eo_block _ _ _ Hc _ _ _ Hr)|by eapply is_proposer_turn].
  - unfold broadcast_vote, own_vote. pose proof (no_engine _ _ _ Hn) as Hc.
    destruct (rounds (nd_engine n) !! nd_height n) as [r|] eqn:Hr; [|done].
    simpl. destruct (rd_votes r !! local_address (nd_engine n)) as [v|] eqn:Hv; [|done].
    apply node_ok_say; [done|done|]. intros bs [= <-]. exists v. split; [done|].
    destruct (inv_rounds genesis _ (eo_inv _ _ _ Hc) _ _ Hr) as [_ Hvo].
    destruct (Hvo _ _ Hv) as [-> ->]. rewrite (eo_local _ _ _ Hc) in Hv |- *. split; [done|].
    by destruct (eo_vote _ _ _ Hc _ _ a Hr).
  - unfold advance_height. destruct (N.leb_spec (nd_height n) (height (nd_engine n))); [|done].
    destruct Hn as [Hc Hb Hv Ht Hh]. split; simpl; [done..| |lia].
    intros h Hturn HG. destruct (Ht h Hturn HG) as [?|[-> _]]; left; lia.
Qed.
(** So do the messages of the other nodes. *)
Lemma receives_ok G cl a x nx m n n' :
  sent_ok G cl → cl !! x = Some nx → linked x a → m ∈ nd_broadcast nx → receives m n n' →
  node_ok G a n → node_ok G a n'.
Proof.
  intros Hsent Hx Hl Hm Hr Hn. pose proof (Hsent _ _ Hx) as Hnx. pose proof (no_engine _ _ _ Hn) as Hc.
  destruct Hr as [n b|n bs v now Hdec Hroom].
  - destruct (no_say_block _ _ _ Hnx b Hm) as [HG Hturn].
    assert (reached a (bh_height (header b))) as Hreach by (exists x; split; [done|by right]).
    pose proof (engine_take_block G a b _ HG Hreach Hc) as Hc'. unfold receive_block.
    rewrite handle_block_run. destruct (validate_proposal _ _) as [[]|e|]; simpl;
      [case_bool_decide| |]; [|by apply node_ok_engine..].
    apply node_ok_say; [apply node_ok_engine; [done|by apply (engine_cast G a b (take_block b (nd_engine n)))|done]|done|].
    intros bs [= <-]. eexists. split; [done|]. simpl. rewrite address_eta, (eo_local _ _ _ Hc). done.
  - destruct (no_say_vote _ _ _ Hnx bs Hm) as (v' & -> & Hv & Hreach).
    rewrite decode_encode in Hdec. injection Hdec as ->. revert Hroom. unfold receive_vote.
    rewrite handle_vote_run. intros Hroom.
    assert (engine_ok G a (take_vote v (nd_engine n))) as Hc'.
    { apply engine_take_vote; [|by rewrite Hv|done]. rewrite Hv. by right. }
    assert (∀ c, finalize_room c → engine_ok G a c → height c = height (nd_engine n) →
      let '(r, c') := finalize_pending now c in engine_ok G a c' ∧ height (nd_engine n) ≤ height c') as Hfin.
    { intros c Hrm Hc0 Hh. pose proof (engine_finalize_pending G a now _ Hrm Hc0).
      pose proof (finalize_pending_height G a now _ Hrm Hc0).
      destruct (finalize_pending now c). simpl in *. split; [done|lia]. }
    destruct (validate_vote v (nd_engine n)) as [[]|e|]; simpl in Hroom |- *.
    all: match type of Hroom with finalize_room ?c => specialize (Hfin c Hroom ltac:(done) eq_refl);
      destruct (finalize_pending now c) as [[[b|]|?|] c'] end.
    all: destruct Hfin; by apply node_ok_engine.
Qed.

(** *** A proposal *)
Lemma engine_ok_mono (G G' : gmap N Block) a c : G ⊆ G' → engine_ok G a c → engine_ok G' a c.
Proof.
  intros Hsub []. split; try done.
  - intros h r b Hr Hb. destruct (eo_block0 h r b Hr Hb). split; [by eapply lookup_weaken|done].
  - intros h b Hb. eapply lookup_weaken; [by apply eo_final0|done].
Qed.
Lemma node_ok_mono (G G' : gmap N Block) a n :
  G ⊆ G' → (∀ h, turn_of h = Some a → is_Some (G' !! h) → is_Some (G !! h)) →
  node_ok G a n → node_ok G' a n.
Proof.
  intros Hsub Hnew []. split; [by eapply engine_ok_mono| |done|by eauto|done].
  intros b Hb. destruct (no_say_block0 b Hb). split; [by eapply lookup_weaken|done].
Qed.
Lemma net_ok_node G cl a n n' :
  net_ok G cl → cl !! a = Some n → node_ok G a n' → nd_height n ≤ nd_height n' →
  net_ok G (<[a := n']> cl).
Proof.
  intros [Hnode Hown] Ha Hn' Hle. split.
  - intros x nx. rewrite lookup_insert. case_decide; [intros [= <-]; by subst|apply Hnode].
  - intros h b HG. destruct (Hown h b HG) as (Hb & p & np & Hturn & Hp & Hh).
    split; [done|]. exists p. destruct (decide (p = a)) as [->|Hne].
    + exists n'. rewrite lookup_insert_eq. simplify_eq. split_and!; [done..|lia].
    + exists np. by rewrite lookup_insert_ne.
Qed.
Lemma produce_ok G cl a n now :
  net_ok G cl → cl !! a = Some n → is_proposer n = true →
  ∃ G', G ⊆ G' ∧ net_ok G' (<[a := (produce_proposal now n).2]> cl).
Proof.
  intros Hnet Ha Hp. pose proof (net_node _ _ Hnet _ _ Ha) as Hn. pose proof (no_engine _ _ _ Hn) as Hc.
  assert (∃ G', G ⊆ G' ∧ net_ok G' (<[a := n]> cl)) as Hsame by (exists G; by rewrite insert_id).
  unfold produce_proposal. case_bool_decide as Hlast; [|done].
  rewrite propose_empty_run by apply Hc. destruct (proposer _ _ _) as [[p|]|e|] eqn:Hprop; [|by destruct n..].
  case_bool_decide as Hl; [by destruct n|]. subst p.
  destruct (store_state_root _) as [root|e|]; [|by destruct n..]. simpl.
  set (b := empty_block (nd_height n) now root (nd_engine n)).
  pose proof (is_proposer_turn _ _ _ Hc Hp) as Hturn.
  assert (G !! nd_height n = None) as Hfresh.
  { destruct (G !! nd_height n) eqn:HG; [|done]. exfalso.
    destruct (no_turn _ _ _ Hn (nd_height n) Hturn) as [?|[_ ?]]; [by rewrite HG; eexists|lia|done]. }
  set (G' := <[nd_height n := b]> G). assert (G ⊆ G') as Hsub by by apply insert_subseteq.
  exists G'. split; [done|]. assert (reached a (nd_height n)) as Hreach by (exists a; split; [done|by left]).
  assert (engine_ok G' a (proposed b (nd_engine n))) as Hc'.
  { apply (engine_cast G' a b (take_block b (nd_engine n))); [done|].
    apply engine_take_block; [by apply lookup_insert_eq|done|by eapply engine_ok_mono]. }
  split.
  - intros x nx. rewrite lookup_insert. case_decide as Hx; [intros [= <-]; subst x|].
    + destruct Hn as [_ Hb Hv Ht Hh]. split; simpl; [done| |done| |done].
      * intros b' Hb'. destruct (Hb b' Hb'). split; [by eapply lookup_weaken|done].
      * intros h Hth. unfold G'. rewrite lookup_insert. case_decide as Hhn; [by subst; right|].
        intros HG. destruct (Ht h Hth HG) as [?|[-> _]]; [by left|done].
    + intros Hnx. apply (node_ok_mono G); [done| |by eapply net_node].
      intros h Hth. unfold G'. rewrite lookup_insert. case_decide as Hhn; [|done].
      subst h. rewrite Hturn in Hth. by injection Hth as ->.
  - intros h b'. unfold G'. rewrite lookup_insert. case_decide as Hhn.
    + intros [= <-]. subst h. split; [done|]. eexists a, _. rewrite lookup_insert_eq. split_and!; done.
    + intros HG. destruct (net_owner _ _ Hnet h b' HG) as (Hb & p & np & Hth & Hp' & Hh).
      split; [done|]. exists p. destruct (decide (p = a)) as [->|Hne].
      * eexists. rewrite lookup_insert_eq. simplify_eq. done.
      * exists np. by rewrite lookup_insert_ne.
Qed.

(** *** Every run *)
Lemma steps_at_height cl a n n' : steps_at cl a n n' → nd_height n ≤ nd_height n'.
Proof.
  intros [? ? []|? ? ? ? ? _ _ _ []].
  - unfold finalize_and_report. by destruct (finalize_pending _ _) as [[[]| |]].
  - unfold send_inflight. by destruct (_ !! _).
  - unfold produce_proposal. case_bool_decide; [|done]. by destruct (propose _ _ _ _) as [[]].
  - unfold broadcast_proposal. by destruct (own_proposal _ _).
  - unfold broadcast_vote. by destruct (own_vote _ _).
  - unfold advance_height. case_match eqn:Hle; simpl; [apply N.leb_le in Hle|]; lia.
  - unfold receive_block. by destruct (handle_block _ _) as [[]].
  - unfold receive_vote. destruct (handle_vote _ _) as [? c]. by destruct (finalize_pending _ c) as [[[]| |]].
Qed.
Lemma cluster_step_ok G cl cl' :
  cluster_step cl cl' → net_ok G cl → ∃ G', G ⊆ G' ∧ net_ok G' cl'.
Proof.
  intros [cl0 a n n' Ha Hstep] Hnet. pose proof (steps_at_height _ _ _ _ Hstep) as Hle.
  pose proof (net_node _ _ Hnet _ _ Ha) as Hn.
  destruct Hstep as [n n' Hl|x nx m n n' Hx Hlink Hm Hr].
  - destruct (local_step_ok G a n n' Hl Hn) as [Hn'|[Hp [now ->]]]; [|by apply produce_ok].
    exists G. split; [done|by eapply net_ok_node].
  - exists G. split; [done|]. eapply net_ok_node; [done..| |done].
    eapply receives_ok; [|done..]. exact (net_node _ _ Hnet).
Qed.
Lemma cluster_steps_ok G cl cl' :
  rtc cluster_step cl cl' → net_ok G cl → ∃ G', G ⊆ G' ∧ net_ok G' cl'.
Proof.
  intros Hsteps. revert G. induction Hsteps as [cl|cl cl1 cl2 Hstep _ IH]; intros G HG; [by exists G|].
  destruct (cluster_step_ok G cl cl1 Hstep HG) as (G1 & Hsub & HG1).
  destruct (IH G1 HG1) as (G2 & ? & ?). exists G2. split; [by etransitivity|done].
Qed.

(** ** Start *)

(** A node before its first step: an engine with the committee and the genesis
    hash, whose store was filled afterwards, and whose committee does not change
    when it is recomputed from that store. *)
Definition launched (a : Address) (n : Node) : Prop :=
  ∃ st st' c, new_with_store a vs st genesis = Ok c ∧ n = node_new (set_state st' c) ∧
    steady (set_state st' c).
Definition launched_net (cl : Cluster) : Prop := ∀ a n, cl !! a = Some n → launched a n.

Lemma launched_ok cl : launched_net cl → net_ok ∅ cl.
Proof.
  intros Hcl. split; [|done]. intros a n Hn. destruct (Hcl a n Hn) as (st & st' & c & Hnew & -> & Hs).
  pose proof (new_with_store_inv _ _ _ _ _ Hnew) as Hinv. unfold new_with_store in Hnew.
  destruct (is_validator vs a); [|done]. injection Hnew as <-.
  split; simpl; [|by intros ? ?%elem_of_nil..| |lia].
  - split; simpl; try done.
    + by apply (chain_set_state genesis _ st' _ (conj Hinv (continues_refl _))).
    + intros h. rewrite lookup_empty. by intros [].
  - intros h _ [? Hh]. by rewrite lookup_empty in Hh.
Qed.

Lemma nodes_agree cl cl' a b na nb h :
  launched_net cl → rtc cluster_step cl cl' → cl' !! a = Some na → cl' !! b = Some nb →
  1 ≤ h → h ≤ height (nd_engine na) → h ≤ height (nd_engine nb) →
  ∃ block, bh_height (header block) = h ∧
    finalized (nd_engine na) !! h = Some block ∧ finalized (nd_engine nb) !! h = Some block.
Proof.
  intros Hcl Hsteps Ha Hb Hh Hha Hhb.
  destruct (cluster_steps_ok ∅ cl cl' Hsteps (launched_ok cl Hcl)) as (G & _ & Hnet).
  pose proof (no_engine _ _ _ (net_node _ _ Hnet _ _ Ha)) as Hca.
  pose proof (no_engine _ _ _ (net_node _ _ Hnet _ _ Hb)) as Hcb.
  destruct (proj2 (inv_dom _ _ (eo_inv _ _ _ Hca) h)) as [x Hx]; [lia|].
  destruct (proj2 (inv_dom _ _ (eo_inv _ _ _ Hcb) h)) as [y Hy]; [lia|].
  pose proof (eo_final _ _ _ Hca h x Hx). pose proof (eo_final _ _ _ Hcb h y Hy). simplify_eq.
  eexists. split_and!; [|done..]. by apply (inv_height _ _ (eo_inv _ _ _ Hca)).
Qed.

(** C9: Validators that run the code agree: however the messages they broadcast
    are delivered (late, twice, out of order or never, over any set of links),
    two validators hold the same block at every height both have finalized. *)
Theorem cluster_agreement cl cl' a b na nb h :
  launched_net cl → rtc cluster_step cl cl' → cl' !! a = Some na → cl' !! b = Some nb →
  1 ≤ h → h ≤ height (nd_engine na) → h ≤ height (nd_engine nb) →
  ∃ block, bh_height (header block) = h ∧
    finalized (nd_engine na) !! h = Some block ∧ finalized (nd_engine nb) !! h = Some block.
Proof. apply nodes_agree. Qed.

(** Validators never put a transaction in a block: whatever was submitted to
    their RPC servers, every block the network finalizes is empty. *)
Lemma cluster_blocks_empty cl cl' a n h b :
  launched_net cl → rtc cluster_step cl cl' → cl' !! a = Some n →
  finalized (nd_engine n) !! h = Some b → transactions (body b) = [].
Proof.
  intros Hcl Hsteps Ha Hb.
  destruct (cluster_steps_ok ∅ cl cl' Hsteps (launched_ok cl Hcl)) as (G & _ & Hnet).
  destruct (net_owner _ _ Hnet h b) as ([_ ?] & _); [|done].
  by apply (eo_final _ _ _ (no_engine _ _ _ (net_node _ _ Hnet _ _ Ha))).
Qed.

(** *** Who can finalize

    Votes travel over one link: a node that finalizes a height has, among its
    neighbours and itself, a quorum of validators that the block of the height
    could reach. *)
Lemma finalized_needs_neighbours G cl a n h :
  net_ok G cl → cl !! a = Some n → 1 ≤ h → h ≤ height (nd_engine n) →
  ∃ X, quorum ≤ power_in vs X ∧ ∀ v, v ∈ X → near v a ∧ reached v h.
Proof.
  intros Hnet Ha Hh1 Hh. pose proof (no_engine _ _ _ (net_node _ _ Hnet _ _ Ha)) as Hc.
  destruct (eo_quorum _ _ _ Hc h) as (r & Hr & Hq).
  { by apply (inv_dom _ _ (eo_inv _ _ _ Hc)). }
  exists (dom (rd_votes r)). split; [done|]. intros v Hv%elem_of_dom.
  by apply (eo_vote _ _ _ Hc h r).
Qed.
(** A height is only proposed after its proposer finalized the one before. *)
Lemma finalized_needs_proposer G cl a n h :
  net_ok G cl → cl !! a = Some n → 1 ≤ h → h ≤ height (nd_engine n) →
  ∃ p np, turn_of h = Some p ∧ cl !! p = Some np ∧ h ≤ height (nd_engine np) + 1.
Proof.
  intros Hnet Ha Hh1 Hh. pose proof (no_engine _ _ _ (net_node _ _ Hnet _ _ Ha)) as Hc.
  destruct (proj2 (inv_dom _ _ (eo_inv _ _ _ Hc) h)) as [b Hb]; [lia|].
  destruct (net_owner _ _ Hnet h b) as (_ & p & np & Hturn & Hp & Hle); [by apply (eo_final _ _ _ Hc)|].
  exists p, np. split_and!; [done..|]. pose proof (no_height _ _ _ (net_node _ _ Hnet _ _ Hp)). lia.
Qed.
End cluster.

(** ** Validators in a line *)
Section line.
Context {S : Type} `{Store S, Profile, Blake3, Dalek, !Serde Transaction, !Serde StakingOperation}.
Context `{!Serde BlockHeader, !Serde (list Transaction), !Serde Vote, !SerdeLaws Vote}.
Implicit Types (vs : ValidatorSet).

(** Connections between consecutive validators of [l] only. *)
Definition line (l : list Address) (a b : Address) : Prop :=
  ∃ i, (l !! i = Some a ∧ l !! Datatypes.S i = Some b) ∨ (l !! i = Some b ∧ l !! Datatypes.S i = Some a).
(** The committee that gives each validator of [l] one vote. *)
Definition one_vote_each (l : list Address) vs : Prop :=
  ∀ a, validators vs !! a = if decide (a ∈ l) then Some 1 else None.

Lemma one_vote_power l vs a : one_vote_each l vs → power_of vs a = if decide (a ∈ l) then 1 else 0.
Proof. intros Hone. unfold power_of. rewrite Hone. by case_decide. Qed.
Lemma power_in_mono vs X Y : X ⊆ Y → power_in vs X ≤ power_in vs Y.
Proof. intros HXY. apply map_sum_mono. intros k p _. repeat case_decide; set_solver by lia. Qed.
Lemma power_in_empty vs : power_in vs ∅ = 0.
Proof.
  unfold power_in. rewrite (map_sum_ext _ (λ _ _, 0)), map_sum_zero; [done|].
  intros k v _. by rewrite decide_False by set_solver.
Qed.
Lemma power_of_two l vs u w : one_vote_each l vs → power_in vs {[u; w]} ≤ 2.
Proof.
  intros Hone. destruct (decide (u = w)) as [->|Hne].
  - replace ({[w; w]} : gset Address) with ({[w]} ∪ ∅ : gset Address) by set_solver.
    rewrite power_in_singleton, power_in_empty, (one_vote_power l) by (done || set_solver). case_decide; lia.
  - replace ({[u; w]} : gset Address) with ({[u]} ∪ ({[w]} ∪ ∅) : gset Address) by set_solver.
    rewrite !power_in_singleton, power_in_empty, !(one_vote_power l) by (done || set_solver).
    repeat case_decide; lia.
Qed.
Lemma line_set_power l vs : NoDup l → one_vote_each l vs → set_power vs = N.of_nat (length l).
Proof.
  intros Hnd Hone. assert (validators vs = list_to_map (M:=gmap Address N) ((λ a, (a, 1)) <$> l)) as Heq.
  { apply map_eq. intros a. rewrite Hone. symmetry. case_decide as Ha.
    - apply elem_of_list_to_map_1; [|by apply list_elem_of_fmap; eauto].
      by rewrite <-list_fmap_compose, list_fmap_id.
    - apply not_elem_of_list_to_map_1. rewrite <-list_fmap_compose. by rewrite list_fmap_id. }
  unfold set_power. rewrite Heq. clear Heq Hone. induction Hnd as [|a l Ha Hnd IH]; [done|].
  rewrite fmap_cons, list_to_map_cons, map_sum_insert_new, IH; [simpl length; lia|].
  apply not_elem_of_list_to_map_1. rewrite <-list_fmap_compose. by rewrite list_fmap_id.
Qed.
Lemma line_size l vs : NoDup l → one_vote_each l vs → size (validators vs) = length l.
Proof.
  intros Hnd Hone. rewrite <-size_dom, <-(size_list_to_set (C:=gset Address) l) by done. f_equal.
  apply set_eq. intros a. rewrite elem_of_dom, elem_of_list_to_set, Hone. case_decide as Ha.
  - by split; [intros _|intros _; eexists].
  - split; [by intros []|done].
Qed.
(** Two different validators and what is next to both: at most two addresses. *)
Lemma near_both l p q :
  NoDup l → p ∈ l → q ∈ l → p ≠ q → ∃ u, ∀ v, near (line l) v q → near (line l) p v → v = q ∨ v = u.
Proof.
  intros Hnd [i Hi]%list_elem_of_lookup [j Hj]%list_elem_of_lookup Hne.
  assert (∀ k k' x, l !! k = Some x → l !! k' = Some x → k = k') as Hinj
    by (intros k k' x Hk Hk'; by eapply NoDup_lookup).
  assert (i ≠ j) as Hij by (intros ->; congruence).
  set (k := if decide (i < j)%nat then pred j else Datatypes.S j).
  exists (default q (l !! k)). intros v [->|[m Hm]] Hp; [by left|].
  destruct Hp as [->|[m' Hm']].
  - right. destruct Hm as [[Hv Hq]|[Hq Hv]].
    + pose proof (Hinj _ _ _ Hj Hq) as ->. pose proof (Hinj _ _ _ Hi Hv) as ->.
      unfold k. rewrite decide_True by lia. simpl. by rewrite Hv.
    + pose proof (Hinj _ _ _ Hj Hq) as ->. pose proof (Hinj _ _ _ Hi Hv) as ->.
      unfold k. rewrite decide_False by lia. by rewrite Hv.
  - right. destruct Hm as [[Hv Hq]|[Hq Hv]], Hm' as [[Hp Hv']|[Hv' Hp]];
      pose proof (Hinj _ _ _ Hj Hq) as ->; pose proof (Hinj _ _ _ Hi Hp) as ->;
      pose proof (Hinj _ _ _ Hv Hv') as Hvv; unfold k; case_decide; try lia; simpl; by rewrite Hv.
Qed.

(** A line of three or more validators with one vote each, the topology of
    the local testnet and of [bootstrap_bft_network], never gets past height 1,
    whatever the schedule: messages are not relayed, so no two validators have a
    quorum among their common neighbours. *)
Lemma line_stalls (l : list Address) vs genesis (cl cl' : gmap Address (NodeState S)) a n :
  NoDup l → (3 ≤ length l)%nat → one_vote_each l vs →
  launched_net vs genesis cl → rtc (cluster_step (line l)) cl cl' → cl' !! a = Some n →
  height (nd_engine n) ≤ 1.
Proof.
  intros Hnd Hlen Hone Hcl Hsteps Ha.
  destruct (cluster_steps_ok (line l) vs genesis ∅ cl cl' Hsteps) as (G & _ & Hnet);
    [by apply launched_ok|]. clear Hsteps.
  destruct (N.le_gt_cases (height (nd_engine n)) 1) as [|Hh]; [done|exfalso].
  destruct (finalized_needs_proposer _ _ _ G cl' a n 2 Hnet Ha) as (p2 & n2 & Hturn2 & Hp2 & Hh2); [lia..|].
  destruct (finalized_needs_neighbours _ _ _ G cl' p2 n2 1 Hnet Hp2) as (X & Hq & HX); [lia..|].
  assert (validators vs ≠ ∅) as Hne.
  { intros He. pose proof (line_size l vs Hnd Hone) as Hs. rewrite He, map_size_empty in Hs. lia. }
  assert (∀ h, h ≤ U64 → turn_of vs h = btree_keys (validators vs) !! N.to_nat (h mod N.of_nat (length l))) as Hturn.
  { intros h Hhu. unfold turn_of. rewrite proposer_eq by (done || lia).
    unfold vs_len. by rewrite (line_size l), N.add_0_r. }
  assert (∀ h p, turn_of vs h = Some p → p ∈ l) as Hin.
  { intros h p. unfold turn_of. destruct (proposer vs h 0) as [o|e|] eqn:Hp; [|done..]. intros ->.
    apply proposer_is_validator in Hp. unfold is_validator in Hp. rewrite Hone in Hp.
    by case_decide. }
  assert (∃ u, ∀ v, v ∈ X → v = p2 ∨ v = u) as [u Hu].
  { destruct (turn_of vs 1) as [p1|] eqn:Hturn1.
    2:{ exists p2. intros v Hv. destruct (HX v Hv) as [_ (p & Hp & _)]. congruence. }
    assert (p1 ≠ p2) as Hp12.
    { intros ->. rewrite Hturn, N.mod_small in Hturn1, Hturn2 by (unfold U64; lia).
      pose proof (NoDup_lookup _ _ _ _ (btree_keys_NoDup _) Hturn1 Hturn2). lia. }
    destruct (near_both l p1 p2) as [u Hu]; [done|by eapply Hin..|done|].
    exists u. intros v Hv. destruct (HX v Hv) as [Hnear (p & Hp & Hpv)]. apply Hu; [done|congruence]. }
  assert (power_in vs X ≤ 2) as Hle.
  { etransitivity; [|apply (power_of_two l vs p2 u Hone)]. apply power_in_mono. set_solver. }
  unfold quorum in Hq. rewrite (line_set_power l) in Hq by done.
  assert (2 ≤ N.of_nat (length l) * 2 / 3) by (apply N.div_le_lower_bound; lia). lia.
Qed.
End line.
