(* ===== verification/ClusterLiveness.v ===== *)
(** * Progress of a network of validators

    When every validator is connected to every other, a round of whole turns of the
    loops of [NodeLoops] (the proposer's production turn, the delivery of its
    block, of all votes, and a last production turn) takes a network at rest from
    one height to the next.  A network keeps, for each node, which messages were
    delivered to it, so that none is delivered twice ([turn_step]); each turn is
    also a run of the sections of [Cluster] ([sound_turn]). *)

From Stdlib Require Import Strings.Byte.
From S2P Require Import Prelude.
From S2P Require Import Externals.
From S2P Require Import Primitives.
From S2P Require Import Storage.
From S2P Require Import StateStore.
From S2P Require Import Crypto.
From S2P Require Import Vm.
From S2P Require Import ValidatorSet.
From S2P Require Import Bft.
From S2P Require Import BftTheorems.
From S2P Require Import BftProperties.
From S2P Require Import Network.
From S2P Require Import NodeConfig.
From S2P Require Import NodeLoops.
From S2P Require Import Cluster.
Local Open Scope N_scope.

Lemma singleton_list {A} (l : list A) (y : A) : NoDup l → (∀ x, x ∈ l ↔ x = y) → l = [y].
Proof.
  intros Hnd Hl. destruct l as [|x l]; [by pose proof (proj2 (Hl y) eq_refl) as []%elem_of_nil|].
  pose proof (proj1 (Hl x) ltac:(set_solver)) as ->. destruct l as [|z l]; [done|].
  pose proof (proj1 (Hl z) ltac:(set_solver)) as ->. apply NoDup_cons in Hnd as [Hnot _]. set_solver.
Qed.
(** As many keys as numbers up to the bound. *)
Lemma bounded_size {A} (m : gmap N A) (k : N) :
  (∀ h x, m !! h = Some x → h ≤ k) → N.of_nat (size m) ≤ k + 1.
Proof.
  intros Hm. assert (dom m ⊆ list_to_set (C:=gset N) (N.of_nat <$> seq 0 (N.to_nat (k + 1)))) as Hsub.
  { intros h [x Hx]%elem_of_dom. apply elem_of_list_to_set, list_elem_of_fmap. exists (N.to_nat h).
    split; [lia|]. apply elem_of_seq. specialize (Hm h x Hx). lia. }
  apply subseteq_size in Hsub. rewrite size_dom in Hsub.
  rewrite size_list_to_set in Hsub; [rewrite length_fmap, length_seq in Hsub; lia|].
  apply NoDup_fmap; [intros ???; lia|apply NoDup_seq].
Qed.

Section runs.
Context {S : Type} `{Store S, Profile, Blake3, Dalek, !Serde Transaction, !Serde StakingOperation}.
Context `{!Serde BlockHeader, !Serde (list Transaction), !Serde Vote}.
Context (linked : Address → Address → Prop).
Notation Node := (NodeState S).
Notation Cluster := (gmap Address Node).
Notation steps_at := (steps_at linked).
Notation cluster_step := (cluster_step linked).

(** ** Whole turns

    A network with, for each node, what has been delivered to it: the sender of a
    message and its place among all that the sender said.  A production turn takes
    place with a peer connected, and no message is delivered twice to a node. *)
Notation Log := (gset (Address * nat)).
Notation Tracked := (gmap Address (Node * Log)).
Inductive turn_at (cl : Cluster) (b : Address) : Node * Log → Node * Log → Prop :=
| ta_produce n D c now :
    is_Some (cl !! c) → linked b c → turn_at cl b (n, D) (production_turn now n, D)
| ta_event n D a na i m now :
    cl !! a = Some na → linked a b → nd_broadcast na !! i = Some m → (a, i) ∉ D →
    turn_at cl b (n, D) (event_turn now (MessageReceived (node_peer_id a) m) n, {[(a, i)]} ∪ D).
Inductive turn_step : Tracked → Tracked → Prop :=
| tn_step t b x y : t !! b = Some x → turn_at (fst <$> t) b x y → turn_step t (<[b := y]> t).
Definition untouched (cl : Cluster) : Tracked := (λ n, (n, ∅)) <$> cl.

(** *** Turns that are runs of the sections *)
Definition sound_turn (cl : Cluster) (b : Address) (x y : Node * Log) : Prop :=
  turn_at cl b x y ∧ rtc (steps_at cl b) x.1 y.1.
Inductive sound_step : Tracked → Tracked → Prop :=
| sd_step t b x y : t !! b = Some x → sound_turn (fst <$> t) b x y → sound_step t (<[b := y]> t).
Lemma sound_turns t t' : rtc sound_step t t' → rtc turn_step t t'.
Proof.
  induction 1 as [|t t1 t' Hs _ IH]; [done|]. eapply rtc_l; [|exact IH].
  destruct Hs as [t b x y Hx [Hturn _]]. by eapply tn_step.
Qed.

(** The nodes of [cl1] have said all that those of [cl] have, in the same places. *)
Definition said_more (cl cl1 : Cluster) : Prop :=
  ∀ a n, cl !! a = Some n → ∃ n1, cl1 !! a = Some n1 ∧ nd_broadcast n `prefix_of` nd_broadcast n1.
Lemma said_more_refl cl : said_more cl cl.
Proof. intros a n Hn. by exists n. Qed.
Lemma said_more_insert cl a n n' :
  cl !! a = Some n → nd_broadcast n `prefix_of` nd_broadcast n' → said_more cl (<[a := n']> cl).
Proof.
  intros Ha Hpre b nb Hb. rewrite lookup_insert. case_decide as Hab; [|by exists nb].
  subst b. simplify_eq. by exists n'.
Qed.
Lemma said_more_trans cl cl1 cl2 : said_more cl cl1 → said_more cl1 cl2 → said_more cl cl2.
Proof.
  intros Hm1 Hm2 a n Ha. destruct (Hm1 a n Ha) as (n1 & Ha1 & Hp1).
  destruct (Hm2 a n1 Ha1) as (n2 & Ha2 & Hp2).
  exists n2. split; [done|]. by etransitivity.
Qed.
Lemma steps_at_more cl cl1 a n n' : said_more cl cl1 → steps_at cl a n n' → steps_at cl1 a n n'.
Proof.
  intros Hmore [|b nb m n0 n0' Hb Hl Hm Hr]; [by apply sa_local|].
  destruct (Hmore b nb Hb) as (n1 & Hn1 & [l Hpre]).
  eapply sa_deliver; [done..| |done]. rewrite Hpre. apply elem_of_app. by left.
Qed.
Lemma sound_turn_more cl cl1 a x y : said_more cl cl1 → sound_turn cl a x y → sound_turn cl1 a x y.
Proof.
  intros Hmore [Hturn Hrun]. split.
  - destruct Hturn as [n D c now [nc Hc] Hl|n D b nb i m now Hb Hl Hm Hfresh].
    + destruct (Hmore c nc Hc) as (nc1 & Hc1 & _). by eapply ta_produce.
    + destruct (Hmore b nb Hb) as (nb1 & Hb1 & Hpre). eapply ta_event; [done..| |done].
      by eapply prefix_lookup_Some.
  - clear Hturn. induction Hrun as [|n1 n2 n3 Hs _ IH]; [done|].
    eapply rtc_l; [by eapply steps_at_more|done].
Qed.
Lemma node_step_says n n' : node_step n n' → nd_broadcast n `prefix_of` nd_broadcast n'.
Proof.
  intros [].
  - unfold finalize_and_report. by destruct (finalize_pending _ _) as [[[]| |]].
  - unfold receive_block. destruct (handle_block _ _) as [[]]; [by eexists|done..].
  - unfold receive_vote. destruct (handle_vote _ _) as [? c]. by destruct (finalize_pending _ c) as [[[]| |]].
  - unfold send_inflight. by destruct (_ !! _).
  - unfold produce_proposal. case_bool_decide; [|done]. by destruct (propose _ _ _ _) as [[]].
  - unfold broadcast_proposal. destruct (own_proposal _ _); [by eexists|done].
  - unfold broadcast_vote. destruct (own_vote _ _); [by eexists|done].
  - unfold advance_height. by destruct (_ <=? _).
Qed.
Lemma sound_turn_says cl a x y : sound_turn cl a x y → nd_broadcast x.1 `prefix_of` nd_broadcast y.1.
Proof.
  intros [_ Hrun]. induction Hrun as [|n1 n2 n3 Hs _ IH]; [done|].
  etransitivity; [by eapply node_step_says, steps_at_node_step|done].
Qed.
Lemma sound_cluster t t' :
  rtc sound_step t t' → rtc cluster_step (fst <$> t) (fst <$> t') ∧ said_more (fst <$> t) (fst <$> t').
Proof.
  induction 1 as [t|t t1 t' Hs _ [Hrun Hmore]]; [split; [done|apply said_more_refl]|].
  destruct Hs as [t b x y Hx Hturn]. rewrite fmap_insert in Hrun, Hmore.
  assert ((fst <$> t) !! b = Some x.1) as Hb by by rewrite lookup_fmap, Hx.
  pose proof (sound_turn_says _ _ _ _ Hturn) as Hpre.
  pose proof (said_more_insert _ _ _ _ Hb Hpre) as Hins.
  split; [|by eapply said_more_trans]. etransitivity; [|exact Hrun]. clear Hrun Hmore Hins Hpre.
  destruct Hturn as [_ Hrun]. destruct x as [n D], y as [n' D']. cbn [fst] in *.
  assert (∀ cl0, said_more (fst <$> t) cl0 → cl0 !! b = Some n → rtc cluster_step cl0 (<[b := n']> cl0)) as Hgo;
    [|by apply Hgo, Hb; apply said_more_refl].
  clear Hx Hb. induction Hrun as [n|n n1 n2 Hstep _ IH]; intros cl0 Hmore Hn; [by rewrite insert_id|].
  eapply rtc_l; [by eapply cl_step, steps_at_more|].
  rewrite <-(insert_insert_eq cl0 b n2 n1). apply IH; [|apply lookup_insert_eq].
  eapply said_more_trans; [exact Hmore|]. apply (said_more_insert _ _ n); [done|].
  eapply node_step_says, steps_at_node_step, Hstep.
Qed.
(** Broadcasting changes neither the engine nor the turn. *)
Lemma broadcast_proposal_same (n : Node) :
  nd_engine (broadcast_proposal n) = nd_engine n ∧ nd_height (broadcast_proposal n) = nd_height n ∧
  is_proposer (broadcast_proposal n) = is_proposer n.
Proof. unfold broadcast_proposal. by destruct (own_proposal _ _). Qed.
Lemma broadcast_vote_same (n : Node) :
  nd_engine (broadcast_vote n) = nd_engine n ∧ nd_height (broadcast_vote n) = nd_height n.
Proof. unfold broadcast_vote. by destruct (own_vote _ _). Qed.
(** Every node makes turns of its own from what had been said at the start. *)
Definition each (f : Address → Node * Log → Node * Log) (t : Tracked) : Tracked :=
  map_imap (λ a x, Some (f a x)) t.
Lemma lookup_each f t a : each f t !! a = f a <$> t !! a.
Proof. unfold each. rewrite map_lookup_imap. by destruct (t !! a). Qed.
Lemma run_at cl t a x y :
  said_more cl (fst <$> t) → t !! a = Some x → rtc (sound_turn cl a) x y →
  rtc sound_step t (<[a := y]> t).
Proof.
  intros Hmore Ha Hturns. revert t Hmore Ha.
  induction Hturns as [x|x x1 y Hturn _ IH]; intros t Hmore Ha; [by rewrite insert_id|].
  assert (sound_step t (<[a := x1]> t)) as Hs by by eapply sd_step, sound_turn_more.
  eapply rtc_l; [exact Hs|]. rewrite <-(insert_insert_eq t a y x1).
  apply IH; [|apply lookup_insert_eq]. eapply said_more_trans; [exact Hmore|].
  by apply sound_cluster, rtc_once.
Qed.
Lemma phase t f :
  (∀ a x, t !! a = Some x → rtc (sound_turn (fst <$> t) a) x (f a x)) → rtc sound_step t (each f t).
Proof.
  intros Hf.
  assert (∀ ks : list Address, NoDup ks →
    rtc sound_step t (each (λ a x, if decide (a ∈ ks) then f a x else x) t)) as Hks.
  { intros ks. induction 1 as [|k ks Hk Hnd IH].
    - assert (each (λ a x, if decide (a ∈ []) then f a x else x) t = t) as ->; [|done].
      apply map_eq. intros a. rewrite lookup_each. by destruct (t !! a).
    - destruct (t !! k) as [x|] eqn:Hx.
      + set (t1 := each (λ a x, if decide (a ∈ ks) then f a x else x) t) in *.
        assert (t1 !! k = Some x) as Hk1.
        { unfold t1. rewrite lookup_each, Hx. simpl. by rewrite decide_False. }
        assert (each (λ a x, if decide (a ∈ k :: ks) then f a x else x) t = <[k := f k x]> t1) as ->.
        { apply map_eq. intros a. rewrite lookup_insert. case_decide as Ha.
          - subst a. rewrite lookup_each, Hx. simpl. by rewrite decide_True by set_solver.
          - unfold t1. rewrite !lookup_each. destruct (t !! a); simpl; [|done].
            f_equal. by apply decide_ext; set_solver. }
        etransitivity; [exact IH|]. eapply run_at; [by apply sound_cluster|done|by apply Hf].
      + assert (each (λ a x, if decide (a ∈ k :: ks) then f a x else x) t =
          each (λ a x, if decide (a ∈ ks) then f a x else x) t) as ->; [|done].
        apply map_eq. intros a. rewrite !lookup_each. destruct (t !! a) as [x|] eqn:Ha; simpl; [|done].
        f_equal. apply decide_ext. assert (a ≠ k) by congruence. set_solver. }
  specialize (Hks (elements (dom t)) (NoDup_elements _)).
  assert (each (λ a x, if decide (a ∈ elements (dom t)) then f a x else x) t = each f t) as <-; [|done].
  apply map_eq. intros a. rewrite !lookup_each. destruct (t !! a) as [x|] eqn:Hx; simpl; [|done].
  by rewrite decide_True by by apply elem_of_elements, elem_of_dom.
Qed.
(** Only what was said has been delivered. *)
Definition logged (t : Tracked) : Prop :=
  ∀ a x v i, t !! a = Some x → (v, i) ∈ x.2 →
    ∃ y, t !! v = Some y ∧ (i < length (nd_broadcast y.1))%nat.
Lemma logged_steps t t' : rtc sound_step t t' → logged t → logged t'.
Proof.
  induction 1 as [|t t1 t' Hs _ IH]; [done|]. intros Hlog. apply IH. clear IH t'.
  destruct Hs as [t b x y Hx Hat]. pose proof (sound_turn_says _ _ _ _ Hat) as Hpre%prefix_length.
  assert (∀ v i, (∃ z, t !! v = Some z ∧ (i < length (nd_broadcast z.1))%nat) →
    ∃ z, <[b:=y]> t !! v = Some z ∧ (i < length (nd_broadcast z.1))%nat) as Hkeep.
  { intros v i (z & Hz & Hi). rewrite lookup_insert. case_decide as Hv; [|by exists z].
    subst v. simplify_eq. exists y. split; [done|]. lia. }
  intros a z v i. rewrite lookup_insert. case_decide as Ha; [|intros Hz Hin; by eapply Hkeep, Hlog].
  subst a. intros [= <-] Hin. apply Hkeep. destruct Hat as [Hat _].
  destruct Hat as [n D c now _ _|n D a na j m now Hna _ Hm _]; cbn [snd] in *; [by eapply (Hlog b)|].
  apply elem_of_union in Hin as [[= -> ->]%elem_of_singleton|Hin]; [|by eapply (Hlog b)].
  rewrite lookup_fmap in Hna. destruct (t !! a) as [w|]; [|done]. injection Hna as <-.
  exists w. split; [done|]. by eapply lookup_lt_Some.
Qed.
End runs.

(** A vote that arrives before its block leaves no trace. *)
Lemma early_vote_dropped {S : Type} `{Store S} (v : Vote) (c : BftConsensus S) :
  rounds c !! vt_height v ≫= rd_proposal = None → handle_vote v c = (Err InvalidVote, c).
Proof.
  intros Hnone. rewrite handle_vote_run.
  assert (validate_vote v c = Err InvalidVote) as ->; [|done].
  unfold validate_vote. destruct (vt_height v <=? height c); [done|].
  destruct (negb (is_validator (validator_set c) (MkAddress (vt_voter v)))); [done|].
  destruct (rounds c !! vt_height v) as [r|]; [|done]. simpl in Hnone |- *. by rewrite Hnone.
Qed.

(** ** One round at one validator *)
Section round.
Context {S : Type} `{Store S, Profile, Blake3, Dalek, !Serde Transaction, !Serde StakingOperation}.
Context `{!Serde BlockHeader, !Serde (list Transaction), !Serde Vote, !SerdeLaws Vote}.
Context (linked : Address → Address → Prop) (vs : ValidatorSet) (k : N).
Notation Node := (NodeState S).
Notation Cluster := (gmap Address Node).
Notation Log := (gset (Address * nat)).
Notation Tracked := (gmap Address (Node * Log)).
Implicit Types (c : BftConsensus S) (n : Node) (a : Address) (b : Block) (X : gset Address).
Hypothesis (Hfits : power_fits vs) (Hpower : 0 < set_power vs) (Hroom : 2 * k + 4 ≤ U64).

(** The engine of validator [a], nothing above height [top] in its tables. *)
Record engine_at (a : Address) (top : N) c : Prop := {
  ea_local : local_address c = a;
  ea_set : validator_set c = vs;
  ea_steady : steady c;
  ea_root : is_ok (store_state_root (state c)) = true;
  ea_rounds h r : rounds c !! h = Some r → h ≤ top;
  ea_voted h : (h, a) ∈ voted_this_height c → h ≤ top;
}.
(** Height [k + 1] has the block [b] and votes of [X] at least, and no quorum was
    looked for; or it is decided. *)
Definition counting b X c : Prop :=
  height c = k ∧ ∃ r, rounds c !! (k + 1) = Some r ∧ rd_proposal r = Some (proposal_of_block b) ∧
    rd_block r = Some b ∧ rd_finalized r = false ∧ X ⊆ dom (rd_votes r).
Definition decided b c : Prop := height c = k + 1 ∧ finalized c !! (k + 1) = Some b.

Lemma engine_at_same a top c c' :
  engine_at a top c → local_address c' = local_address c → validator_set c' = validator_set c →
  state c' = state c → (∀ h r, rounds c' !! h = Some r → h ≤ top) →
  (∀ h, (h, a) ∈ voted_this_height c' → h ≤ top) → engine_at a top c'.
Proof.
  intros [] Hl Hv Hs Hr Hvt. split; [congruence|congruence| |by rewrite Hs|done|done].
  by apply (steady_same c).
Qed.
Lemma engine_at_size a top c : engine_at a top c → N.of_nat (size (rounds c)) ≤ top + 1.
Proof. intros Hc. apply bounded_size. intros h r. apply (ea_rounds _ _ _ Hc). Qed.

(** The only candidate is the next height. *)
Lemma pending_counting now a b X c :
  engine_at a (k + 1) c → counting b X c →
  finalize_pending now c = finalize_candidates now None [k + 1] c.
Proof.
  intros Hc (Hh & r & Hr & Hp & _). unfold finalize_pending, mbind, M_bind, gets. f_equal.
  assert (filter (λ e, (height c < e.1)%N ∧ is_Some (rd_proposal e.2)) (btree_iter (rounds c)) = [(k + 1, r)])
    as ->; [|done].
  apply singleton_list.
  - apply list.NoDup_filter, (NoDup_fmap_1 fst), (btree_keys_NoDup (rounds c)).
  - intros [h x]. rewrite list_elem_of_filter, elem_of_btree_iter, Hh. simpl. split.
    + intros [[Hlt _] Hx]. pose proof (ea_rounds _ _ _ Hc _ _ Hx). assert (h = k + 1) as -> by lia. congruence.
    + intros [= -> ->]. split_and!; [lia|by rewrite Hp; eexists|done].
Qed.
Lemma finalize_counting now a b X c :
  bh_height (header b) = k + 1 → engine_at a (k + 1) c → counting b X c →
  (finalize_pending now c = (Ok None, c) ∧ power_in vs X < quorum vs) ∨
  ∃ c', finalize_pending now c = (Ok (Some b), c') ∧ engine_at a (k + 1) c' ∧ decided b c'.
Proof.
  intros Hb Hc Hcount. rewrite (pending_counting now a b X) by done.
  destruct Hcount as (Hh & r & Hr & Hp & Hblk & Hf & HX).
  cbn [finalize_candidates]. unfold mbind, M_bind, finalize_candidate. rewrite Hr. simpl. rewrite Hp. simpl.
  rewrite finalize_eq, Hh, Hr by lia. rewrite bool_decide_true by by rewrite Hp.
  unfold try_finalize. rewrite has_quorum_eq, Hr, Hf, (ea_set _ _ _ Hc) by by rewrite (ea_set _ _ _ Hc).
  fold (quorum vs). destruct (N.leb_spec (quorum vs) (power_in vs (dom (rd_votes r)))) as [Hq|Hq].
  - right. rewrite Hblk. simpl. eexists. split; [done|]. split.
    + apply (engine_at_same a _ c); [done..| |]; simpl.
      * intros h x. rewrite !lookup_insert. case_decide; [intros _; lia|apply Hc].
      * intros h [_ ?]%elem_of_filter. by apply Hc.
    + split; [done|]. apply lookup_insert_eq.
  - left. split; [done|]. eapply N.le_lt_trans; [by apply power_in_mono|done].
Qed.
Lemma finalize_decided now a b c :
  engine_at a (k + 1) c → decided b c → finalize_pending now c = (Ok None, c).
Proof.
  intros Hc [Hh _]. unfold finalize_pending, mbind, M_bind, gets.
  assert (filter (λ e, (height c < e.1)%N ∧ is_Some (rd_proposal e.2)) (btree_iter (rounds c)) = []) as ->; [|done].
  apply elem_of_nil_inv. intros [h x]. rewrite list_elem_of_filter, elem_of_btree_iter, Hh. simpl.
  intros [[Hlt _] Hx]. pose proof (ea_rounds _ _ _ Hc _ _ Hx). lia.
Qed.
Lemma room_at a top c : engine_at a top c → height c ≤ k + 1 → top ≤ k + 1 → finalize_room c.
Proof.
  intros Hc Hh Ht. pose proof (engine_at_size _ _ _ Hc). split; [lia|by rewrite (ea_set _ _ _ Hc)].
Qed.

(** The block arrives at rest; a vote arrives while counting. *)
Lemma take_block_counting a b c :
  engine_at a k c → height c = k → bh_height (header b) = k + 1 →
  let c' := cast (ballot b c) (take_block b c) in
  engine_at a (k + 1) c' ∧ counting b {[a]} c'.
Proof.
  intros Hc Hh Hb c'. assert (rounds c !! (k + 1) = None) as Hnone.
  { destruct (rounds c !! (k + 1)) as [r|] eqn:Hr; [|done]. pose proof (ea_rounds _ _ _ Hc _ _ Hr). lia. }
  assert (rounds c' = <[k + 1 := MkRound (Some (proposal_of_block b)) (Some b)
      {[a := ballot b c]} false]> (rounds c)) as Hr'.
  { unfold c', cast, take_vote, take_block, ballot, round_of. simpl. rewrite Hb, Hnone, lookup_insert_eq.
    simpl. by rewrite insert_insert_eq, address_eta, (ea_local _ _ _ Hc). }
  split.
  - apply (engine_at_same a _ c); [|done..| |].
    + destruct Hc. split; [done..| |]; intros h; [intros r ?%ea_rounds0|intros ?%ea_voted0]; lia.
    + intros h r. rewrite Hr', lookup_insert. case_decide; [intros _; lia|].
      intros ?%(ea_rounds _ _ _ Hc). lia.
    + intros h. unfold c'. simpl. rewrite Hb. intros [[= ->]%elem_of_singleton|?%(ea_voted _ _ _ Hc)]%elem_of_union; lia.
  - split; [done|]. rewrite Hr', lookup_insert_eq. eexists. split; [done|]. split_and!; [done..|].
    simpl. rewrite dom_singleton_L. done.
Qed.
Lemma take_vote_counting a b X v c :
  engine_at a (k + 1) c → counting b X c → vt_height v = k + 1 →
  let c' := take_vote v c in
  engine_at a (k + 1) c' ∧ counting b ({[MkAddress (vt_voter v)]} ∪ X) c'.
Proof.
  intros Hc (Hh & r & Hr & Hp & Hblk & Hf & HX) Hv c'. split.
  - apply (engine_at_same a _ c); [done..| |apply Hc]. intros h x. unfold c', take_vote. simpl.
    rewrite Hv, lookup_insert. case_decide; [intros _; lia|apply Hc].
  - split; [done|]. unfold c', take_vote, round_of. simpl. rewrite Hv, lookup_insert_eq, Hr. simpl.
    eexists. split; [done|]. split_and!; [done..|]. simpl. rewrite dom_insert_L. set_solver.
Qed.

(** *** The state of a node during the round *)
Definition tallied a b X n : Prop :=
  engine_at a (k + 1) (nd_engine n) ∧
  ((counting b X (nd_engine n) ∧ power_in vs X < quorum vs) ∨ decided b (nd_engine n)).
Lemma tallied_all a b X n : tallied a b X n → dom (validators vs) ⊆ X → decided b (nd_engine n).
Proof.
  intros [_ [[_ Hq]|?]] HX; [exfalso|done].
  assert (power_in vs X = set_power vs) as Hall.
  { apply map_sum_ext. intros x p Hx. apply elem_of_dom_2 in Hx. by rewrite decide_True by set_solver. }
  pose proof (quorum_reachable vs Hpower). unfold quorum in Hq. lia.
Qed.
(** The vote of [v] for [b]. *)
Definition vote_for b (v : Address) : Vote := MkVote (block_hash b) (bh_height (header b)) 0 (address_array v).

(** After a call that left the engine counting, the loops look for a quorum. *)
Lemma tallied_finalize now a b X n :
  bh_height (header b) = k + 1 → engine_at a (k + 1) (nd_engine n) → counting b X (nd_engine n) →
  tallied a b X (finalize_and_report now n).
Proof.
  intros Hb Hc Hcount. unfold finalize_and_report.
  destruct (finalize_counting now a b X _ Hb Hc Hcount) as [[-> Hq]|(c' & -> & Hc' & Hd)].
  - split; [done|]. by left.
  - split; [done|]. by right.
Qed.

(** ** The turns of a round *)
Context (p : Address) (Hturn : proposer (E:=ConsensusError) vs (k + 1) 0 = Ok (Some p)).

Definition is_resting (top : N) a n : Prop :=
  engine_at a top (nd_engine n) ∧ height (nd_engine n) = top ∧ nd_height n = top + 1 ∧
  nd_last_proposed n = None.
(** A proper block of the proposer. *)
Definition block_of_turn b : Prop := bh_height (header b) = k + 1 ∧ bh_proposer (header b) = address_array p.

Lemma is_proposer_at a top n :
  engine_at a top (nd_engine n) → nd_height n = k + 1 → is_proposer n = bool_decide (a = p).
Proof.
  intros Hc Hn. unfold is_proposer. rewrite Hn, (ea_set _ _ _ Hc), Hturn, (ea_local _ _ _ Hc).
  apply bool_decide_ext. split; [by intros [= ->]|by intros ->].
Qed.
(** *** The proposer's production turn *)
Lemma produce_proposal_resting now n :
  is_resting k p n → ∃ b, block_of_turn b ∧
    produce_proposal now n =
      (true, MkNode (proposed b (nd_engine n)) (nd_broadcast n) (nd_channel n) (nd_inflight n) (k + 1)
               (Some (k + 1))) ∧
    own_proposal (k + 1) (proposed b (nd_engine n)) = Some b ∧
    own_vote (k + 1) (proposed b (nd_engine n)) = Some (vote_for b p).
Proof.
  intros (Hc & Hh & Hn & Hl). unfold produce_proposal. rewrite Hn, Hl, bool_decide_true by done.
  rewrite propose_empty_run, (ea_set _ _ _ Hc), Hturn, (ea_local _ _ _ Hc) by apply Hc.
  rewrite bool_decide_false by naive_solver. pose proof (ea_root _ _ _ Hc) as Hroot.
  destruct (store_state_root _) as [root|e|]; [|done..].
  set (b := empty_block (k + 1) now root (nd_engine n)). exists b.
  assert (bh_height (header b) = k + 1) as Hb by done. split_and!; [split; [done|]|done|..].
  - unfold b, empty_block. simpl. by rewrite (ea_local _ _ _ Hc).
  - unfold own_proposal, proposed, cast, take_vote, take_block, ballot, round_of. simpl.
    rewrite !lookup_insert_eq. done.
  - unfold own_vote, proposed, cast, take_vote, take_block, ballot, round_of, vote_for. simpl.
    rewrite !lookup_insert_eq. simpl. rewrite address_eta, (ea_local _ _ _ Hc). apply lookup_insert_eq.
Qed.
Lemma production_turn_resting cl now n :
  is_resting k p n → ∃ b, let n' := production_turn now n in
    block_of_turn b ∧ rtc (steps_at linked cl p) n n' ∧ tallied p b {[p]} n' ∧
    nd_broadcast n' = nd_broadcast n ++ [MsgBlock b; MsgVote (encode (vote_for b p))] ∧
    (nd_height n' = k + 1 ∧ nd_last_proposed n' = Some (k + 1) ∨
     decided b (nd_engine n') ∧ nd_height n' = k + 2 ∧ nd_last_proposed n' = None).
Proof.
  intros Hn. pose proof Hn as (Hc & Hh & Hnd & Hl).
  destruct (produce_proposal_resting now n Hn) as (b & Hb & Hprod & Hown & Hvote).
  exists b. cbn zeta. split; [done|].
  assert (is_proposer n = true) as Hp by by rewrite (is_proposer_at p k), bool_decide_true.
  set (n1 := (produce_proposal now n).2). assert (n1 = (produce_proposal now n).2) as Hn1 by done.
  rewrite Hprod in Hn1. simpl in Hn1.
  destruct (take_block_counting p b (nd_engine n)) as [Hc1 Hcount]; [done..|apply Hb|].
  fold (proposed b (nd_engine n)) in Hc1, Hcount.
  assert (is_proposer n1 = true) as Hp1.
  { rewrite Hn1, (is_proposer_at p (k + 1)), bool_decide_true; done. }
  set (n3 := broadcast_vote (broadcast_proposal n1)).
  assert (n3 = MkNode (proposed b (nd_engine n))
    ((nd_broadcast n ++ [MsgBlock b]) ++ [MsgVote (encode (vote_for b p))]) (nd_channel n)
    (nd_inflight n) (k + 1) (Some (k + 1))) as Hn3.
  { unfold n3, broadcast_vote, broadcast_proposal. rewrite Hn1. cbn [nd_height nd_engine].
    rewrite Hown. unfold say. cbn [nd_height nd_engine nd_broadcast]. by rewrite Hvote. }
  pose proof (tallied_finalize now p b {[p]} n3) as Htal. rewrite Hn3 in Htal. cbn [nd_engine] in Htal.
  specialize (Htal (proj1 Hb) Hc1 Hcount). rewrite <-Hn3 in Htal.
  set (n4 := finalize_and_report now n3) in *.
  assert (nd_broadcast n4 = nd_broadcast n3 ∧ nd_height n4 = k + 1 ∧ nd_last_proposed n4 = Some (k + 1))
    as (Hbc & Hh4 & Hl4).
  { unfold n4, finalize_and_report. rewrite Hn3. by destruct (finalize_pending _ _) as [[[]| |]]. }
  assert (production_turn now n = advance_height n4) as ->.
  { unfold production_turn. rewrite Hp, (surjective_pairing (produce_proposal now n)). fold n1.
    by rewrite Hprod. }
  assert (nd_engine (advance_height n4) = nd_engine n4 ∧ nd_broadcast (advance_height n4) = nd_broadcast n3)
    as [Hea Hba].
  { unfold advance_height. by destruct (_ <=? _). }
  split_and!.
  - eapply rtc_l; [apply sa_local, (ls_propose n now Hp)|]. fold n1.
    assert (local_step n1 (broadcast_proposal n1)) as Hs by by apply ls_broadcast_proposal.
    eapply rtc_l; [apply sa_local, Hs|]. clear Hs.
    eapply rtc_l; [apply sa_local, ls_broadcast_vote|]. 
    { by rewrite (proj2 (proj2 (broadcast_proposal_same n1))). }
    fold n3. eapply rtc_l; [apply sa_local, (ls_finalize n3 now)|fold n4; apply rtc_once, sa_local, ls_advance].
    rewrite Hn3. apply (room_at p (k + 1)); [done| |lia]. simpl. destruct Hcount as [Hk _]. revert Hk. simpl. lia.
  - unfold tallied. by rewrite Hea.
  - rewrite Hba, Hn3. cbn [nd_broadcast]. by rewrite <-(assoc_L (++)).
  - rewrite Hea. unfold advance_height. rewrite Hh4.
    destruct Htal as [_ [[[-> _] _]|Hd]].
    + rewrite (proj2 (N.leb_gt _ _)) by lia. by left.
    + right. destruct Hd as [Hd1 Hd2]. rewrite Hd1, (proj2 (N.leb_le _ _)) by lia.
      split_and!; [done..|cbn [nd_height]; lia|done].
Qed.

(** *** A follower's event turn with the block *)
Lemma block_turn cl a np now b n pid :
  is_resting k a n → block_of_turn b → cl !! p = Some np → linked p a → MsgBlock b ∈ nd_broadcast np →
  let n' := event_turn now (MessageReceived pid (MsgBlock b)) n in
  rtc (steps_at linked cl a) n n' ∧ tallied a b {[a]} n' ∧
  nd_broadcast n' = nd_broadcast n ++ [MsgVote (encode (vote_for b a))] ∧
  nd_height n' = k + 1 ∧ nd_last_proposed n' = None.
Proof.
  intros (Hc & Hh & Hn & Hl) [Hbh Hbp] Hnp Hlink Hsaid n'.
  destruct (take_block_counting a b (nd_engine n)) as [Hc1 Hcount]; [done..|].
  assert (receive_block b n = say (MsgVote (encode (vote_for b a)))
    (set_engine (cast (ballot b (nd_engine n)) (take_block b (nd_engine n))) n)) as Hrb.
  { unfold receive_block. rewrite handle_block_run.
    assert (validate_proposal (proposal_of_block b) (nd_engine n) = Ok tt) as ->.
    { unfold validate_proposal. simpl. rewrite Hbh, (ea_set _ _ _ Hc), Hturn. simpl.
      rewrite (proj2 (N.leb_gt _ _)), Hbp, address_eta by lia. by rewrite bool_decide_false by naive_solver. }
    rewrite bool_decide_true.
    - unfold ballot, vote_for. by rewrite (ea_local _ _ _ Hc).
    - rewrite Hbh, (ea_local _ _ _ Hc). intros Hv%(ea_voted _ _ _ Hc). lia. }
  unfold n', event_turn. set (n1 := receive_block b n) in *.
  assert (nd_broadcast (finalize_and_report now n1) = nd_broadcast n1 ∧
    nd_height (finalize_and_report now n1) = nd_height n1 ∧
    nd_last_proposed (finalize_and_report now n1) = nd_last_proposed n1) as (-> & -> & ->).
  { unfold finalize_and_report. by destruct (finalize_pending _ _) as [[[]| |]]. }
  split_and!.
  - eapply rtc_l; [by eapply sa_deliver, rc_block|]. apply rtc_once, sa_local, ls_finalize.
    fold n1. rewrite Hrb. apply (room_at a (k + 1)); [done| |lia]. simpl. destruct Hcount as [Hk _]. revert Hk. simpl. lia.
  - apply tallied_finalize; [done|by rewrite Hrb..].
  - by rewrite Hrb.
  - by rewrite Hrb.
  - by rewrite Hrb.
Qed.

(** *** An event turn with a vote *)
Lemma vote_turn cl a v nv now b X n pid :
  tallied a b X n → bh_height (header b) = k + 1 → is_validator vs v = true →
  cl !! v = Some nv → linked v a → MsgVote (encode (vote_for b v)) ∈ nd_broadcast nv →
  let n' := event_turn now (MessageReceived pid (MsgVote (encode (vote_for b v)))) n in
  rtc (steps_at linked cl a) n n' ∧ tallied a b ({[v]} ∪ X) n' ∧
  nd_height n' = nd_height n ∧ nd_last_proposed n' = nd_last_proposed n ∧
  nd_broadcast n' = nd_broadcast n.
Proof.
  intros [Hc Hcase] Hb Hval Hv Hlink Hsaid n'. unfold n', event_turn. rewrite decode_encode.
  assert (finalize_room (handle_vote (vote_for b v) (nd_engine n)).2 ∧
    engine_at a (k + 1) (nd_engine (receive_vote (vote_for b v) now n)) ∧
    (counting b ({[v]} ∪ X) (nd_engine (receive_vote (vote_for b v) now n)) ∧
       power_in vs ({[v]} ∪ X) < quorum vs ∨ decided b (nd_engine (receive_vote (vote_for b v) now n))))
    as (Hroom' & Hc' & Hcase').
  { unfold receive_vote. rewrite handle_vote_run. destruct Hcase as [[Hcount Hq]|Hd].
    - assert (validate_vote (vote_for b v) (nd_engine n) = Ok tt) as ->.
      { destruct Hcount as (Hh & r & Hr & Hp & _). unfold validate_vote. simpl. rewrite Hb, Hh, Hr.
        rewrite (proj2 (N.leb_gt _ _)), (ea_set _ _ _ Hc), address_eta, Hval by lia. simpl. rewrite Hp. simpl.
        by rewrite bool_decide_false by naive_solver. }
      destruct (take_vote_counting a b X (vote_for b v) (nd_engine n)) as [Hc1 Hcount1]; [done..|].
      simpl vt_voter in Hcount1. rewrite address_eta in Hcount1.
      assert (finalize_room (take_vote (vote_for b v) (nd_engine n))) as Hrm.
      { apply (room_at a (k + 1)); [done| |lia]. destruct Hcount1 as [-> _]. lia. }
      simpl. destruct (finalize_counting now a b _ _ Hb Hc1 Hcount1) as [[-> Hq1]|(c' & -> & Hc2 & Hd)].
      + split_and!; [done|done|by left].
      + split_and!; [done|done|by right].
    - assert (validate_vote (vote_for b v) (nd_engine n) = Err InvalidVote) as ->.
      { unfold validate_vote. simpl. destruct Hd as [-> _]. by rewrite Hb, N.leb_refl. }
      simpl. rewrite (finalize_decided now a b _ Hc Hd). split_and!; [|done|by right].
      apply (room_at a (k + 1)); [done| |lia]. destruct Hd as [-> _]. lia. }
  set (n1 := receive_vote (vote_for b v) now n) in *.
  assert (nd_engine (send_inflight (pred (length (nd_inflight n1))) n1) = nd_engine n1 ∧
    nd_height (send_inflight (pred (length (nd_inflight n1))) n1) = nd_height n1 ∧
    nd_last_proposed (send_inflight (pred (length (nd_inflight n1))) n1) = nd_last_proposed n1 ∧
    nd_broadcast (send_inflight (pred (length (nd_inflight n1))) n1) = nd_broadcast n1)
    as (He & -> & -> & ->).
  { unfold send_inflight. by destruct (nd_inflight n1 !! _). }
  assert (nd_height n1 = nd_height n ∧ nd_last_proposed n1 = nd_last_proposed n ∧
    nd_broadcast n1 = nd_broadcast n) as (-> & -> & ->).
  { unfold n1, receive_vote. destruct (handle_vote _ _) as [? c]. by destruct (finalize_pending _ c) as [[[]| |]]. }
  split_and!; [|unfold tallied; by rewrite He|done..].
  eapply rtc_l; [eapply sa_deliver; [done..|]; apply rc_vote; [by rewrite decode_encode|done]|].
  fold n1. apply rtc_once, sa_local, ls_send.
Qed.
(** Event turns with the votes of the validators [l], which are the messages [idx]
    of those. *)
Definition vote_turns (now : N) b (idx : Address → nat) (l : list Address) (x : Node * Log) : Node * Log :=
  foldl (λ x v, (event_turn now (MessageReceived (node_peer_id v) (MsgVote (encode (vote_for b v)))) x.1,
                 {[(v, idx v)]} ∪ x.2)) x l.
Lemma vote_turns_run (cl : Cluster) a (now : N) b (idx : Address → nat) X (l : list Address) (x : Node * Log) :
  tallied a b X x.1 → bh_height (header b) = k + 1 → NoDup l →
  (∀ v, v ∈ l → is_validator vs v = true ∧ linked v a ∧ (v, idx v) ∉ x.2 ∧
     ∃ nv, cl !! v = Some nv ∧ nd_broadcast nv !! idx v = Some (MsgVote (encode (vote_for b v)))) →
  let x' := vote_turns now b idx l x in
  rtc (sound_turn linked cl a) x x' ∧ tallied a b (list_to_set l ∪ X) x'.1 ∧
  nd_height x'.1 = nd_height x.1 ∧ nd_last_proposed x'.1 = nd_last_proposed x.1 ∧
  nd_broadcast x'.1 = nd_broadcast x.1 ∧
  (∀ v i, (v, i) ∈ x'.2 → (v ∈ l ∧ i = idx v) ∨ (v, i) ∈ x.2).
Proof.
  intros Htal Hb Hnd. revert X x Htal. induction Hnd as [|v l Hv Hnd IH]; intros X x Htal Hl x'; subst x'; simpl.
  { rewrite (left_id_L ∅ (∪)). split_and!; try done. by right. }
  destruct (Hl v) as (Hval & Hlink & Hfresh & nv & Hnv & Hsaid); [by left|].
  destruct (vote_turn cl a v nv now b X x.1 (node_peer_id v)) as (Hrun & Htal1 & Hh1 & Hl1 & Hb1);
    [done..|by eapply list_elem_of_lookup_2|].
  edestruct (IH ({[v]} ∪ X) (event_turn now (MessageReceived (node_peer_id v) (MsgVote (encode (vote_for b v)))) x.1,
    {[(v, idx v)]} ∪ x.2)) as (Hrun' & Htal' & Hh' & Hl' & Hb' & Hlog'); [done| |].
  { intros w Hw. destruct (Hl w) as (? & ? & ? & ?); [by right|]. split_and!; [done..| |done].
    cbn [snd]. assert (w ≠ v) by set_solver. rewrite not_elem_of_union, not_elem_of_singleton. naive_solver. }
  cbn [fst snd] in *. split_and!.
  - eapply rtc_l; [|exact Hrun']. split; [|done]. destruct x as [n D]. by eapply ta_event.
  - by rewrite (comm_L (∪) {[v]}), <-(assoc_L (∪)).
  - by rewrite <-Hh1.
  - by rewrite <-Hl1.
  - by rewrite <-Hb1.
  - intros w i [[Hw ->]|[[= -> ->]%elem_of_singleton|?]%elem_of_union]%Hlog'; [left|left|by right];
      by split; [constructor|].
Qed.

(** *** The production turn that closes the round *)
Lemma closing_turn cl a now b n :
  engine_at a (k + 1) (nd_engine n) → decided b (nd_engine n) → nd_height n = k + 1 →
  (a = p → nd_last_proposed n = Some (k + 1)) →
  let n' := production_turn now n in
  rtc (steps_at linked cl a) n n' ∧ is_resting (k + 1) a n' ∧ finalized (nd_engine n') !! (k + 1) = Some b.
Proof.
  intros Hc Hd Hn Hl n'. pose proof Hd as [Hh Hfin].
  assert (∀ n1, nd_engine n1 = nd_engine n → nd_height n1 = k + 1 →
    is_resting (k + 1) a (advance_height n1) ∧ nd_engine (advance_height n1) = nd_engine n) as Hadv.
  { intros n1 He1 Hn1. unfold advance_height. rewrite He1, Hn1, Hh, (proj2 (N.leb_le _ _)) by lia.
    split; [|done]. split_and!; simpl; done. }
  unfold n', production_turn. rewrite (is_proposer_at a (k + 1)) by done. case_bool_decide as Hap.
  - unfold produce_proposal. rewrite Hn, (Hl Hap), bool_decide_false by (intros Hx; by apply Hx).
    assert (is_proposer n = true) as Hp by by rewrite (is_proposer_at a (k + 1)), bool_decide_true.
    set (n3 := broadcast_vote (broadcast_proposal n)).
    destruct (broadcast_proposal_same n) as (He1 & Hn1 & Hp1).
    assert (nd_engine n3 = nd_engine n ∧ nd_height n3 = k + 1) as [He3 Hn3].
    { unfold n3. destruct (broadcast_vote_same (broadcast_proposal n)) as [-> ->]. split; congruence. }
    assert (finalize_and_report now n3 = set_engine (nd_engine n) n3) as Hfr.
    { unfold finalize_and_report. by rewrite He3, (finalize_decided now a b _ Hc Hd). }
    rewrite Hfr. destruct (Hadv (set_engine (nd_engine n) n3)) as [Hr He]; [done..|].
    split_and!; [|done|by rewrite He].
    eapply rtc_l; [apply sa_local, ls_broadcast_proposal, Hp|].
    eapply rtc_l; [apply sa_local, ls_broadcast_vote; by rewrite Hp1|].
    fold n3. eapply rtc_l; [apply sa_local, (ls_finalize n3 now)|rewrite Hfr; apply rtc_once, sa_local, ls_advance].
    rewrite He3. apply (room_at a (k + 1)); [done|lia|lia].
  - destruct (Hadv n) as [Hr He]; [done..|]. split_and!; [apply rtc_once, sa_local, ls_advance|done|by rewrite He].
Qed.

(** ** The round *)
Definition all_resting (top : N) (cl : Cluster) : Prop :=
  (∀ a, is_Some (cl !! a) ↔ is_validator vs a = true) ∧
  ∀ a n, cl !! a = Some n → is_resting top a n.
Definition others a : list Address := filter (λ v, v ≠ a) (btree_keys (validators vs)).
Definition proposing (now : N) a (x : Node * Log) : Node * Log :=
  if decide (a = p) then (production_turn now x.1, x.2) else x.
Definition following (now : N) b (i : nat) a (x : Node * Log) : Node * Log :=
  if decide (a = p) then x
  else (event_turn now (MessageReceived (node_peer_id p) (MsgBlock b)) x.1, {[(p, i)]} ∪ x.2).
Definition voting (now : N) b (idx : Address → nat) a (x : Node * Log) : Node * Log :=
  vote_turns now b idx (others a) x.
Definition closing (now : N) (a : Address) (x : Node * Log) : Node * Log :=
  if nd_height x.1 =? k + 1 then (production_turn now x.1, x.2) else x.

(** After its own turn, what a node has for the others. *)
Definition voted_in b (idx : Address → nat) a (x : Node * Log) : Prop :=
  tallied a b {[a]} x.1 ∧ nd_broadcast x.1 !! idx a = Some (MsgVote (encode (vote_for b a))) ∧
  (∀ v, (v, idx v) ∉ x.2) ∧
  (nd_height x.1 = k + 1 ∧ (a = p → nd_last_proposed x.1 = Some (k + 1)) ∨
   decided b (nd_engine x.1) ∧ nd_height x.1 = k + 2 ∧ nd_last_proposed x.1 = None).

Definition full_links : Prop :=
  ∀ v w, is_validator vs v = true → is_validator vs w = true → v ≠ w → linked v w.
Definition company : Prop :=
  ∀ v, is_validator vs v = true → ∃ w, is_validator vs w = true ∧ v ≠ w.
Context (Hlinks : full_links) (Hcompany : company).

Lemma turn_with_peer (t : Tracked) a (x : Node * Log) (now : N) :
  (∀ v, is_Some ((fst <$> t) !! v) ↔ is_validator vs v = true) → t !! a = Some x →
  rtc (steps_at linked (fst <$> t) a) x.1 (production_turn now x.1) →
  rtc (sound_turn linked (fst <$> t) a) x (production_turn now x.1, x.2).
Proof.
  intros Hdom Ha Hrun. apply rtc_once. split; [|done].
  assert (is_validator vs a = true) as Hval by (apply Hdom; rewrite lookup_fmap, Ha; by eexists).
  destruct (Hcompany a Hval) as (w & Hw & Hne). destruct x as [n D].
  apply (ta_produce linked _ _ n D w); [by apply Hdom|by apply Hlinks].
Qed.
Lemma voting_phase (t : Tracked) a (x : Node * Log) (now : N) b idx :
  block_of_turn b → (∀ v, is_Some (t !! v) ↔ is_validator vs v = true) →
  (∀ v y, t !! v = Some y → voted_in b idx v y) → t !! a = Some x →
  let x' := voting now b idx a x in
  rtc (sound_turn linked (fst <$> t) a) x x' ∧ engine_at a (k + 1) (nd_engine x'.1) ∧
  decided b (nd_engine x'.1) ∧
  nd_height x'.1 = nd_height x.1 ∧ nd_last_proposed x'.1 = nd_last_proposed x.1.
Proof.
  intros [Hb _] Hdom Hall Ha x'. destruct (Hall a x Ha) as (Htal & _ & Hfresh & _).
  assert (is_validator vs a = true) as Hval by (apply Hdom; by eexists).
  destruct (vote_turns_run (fst <$> t) a now b idx {[a]} (others a) x) as (Hrun & Htal' & Hh & Hl & _ & _);
    [done..| | |].
  { apply list.NoDup_filter, btree_keys_NoDup. }
  { intros v [Hne Hv%elem_of_btree_keys]%list_elem_of_filter.
    assert (is_validator vs v = true) as Hvv by by apply bool_decide_eq_true.
    split_and!; [done|by apply Hlinks|apply Hfresh|]. apply Hdom in Hvv as [y Hy]. exists y.1.
    rewrite lookup_fmap, Hy. split; [done|]. by destruct (Hall v y Hy) as (_ & ? & _). }
  split_and!; [done|apply Htal'| |done..]. eapply tallied_all; [exact Htal'|].
  intros v Hv%elem_of_dom. apply elem_of_union. destruct (decide (v = a)) as [->|Hne]; [right; by apply elem_of_singleton|left].
  apply elem_of_list_to_set, list_elem_of_filter. split; [done|]. by apply elem_of_btree_keys.
Qed.

(** A follower takes the block, the message [i] of the proposer, and votes. *)
Lemma following_turn (cl : Cluster) a (np : Node) (x : Node * Log) (now : N) b (idx : Address → nat) (i : nat) :
  a ≠ p → is_validator vs a = true → is_resting k a x.1 → block_of_turn b →
  cl !! p = Some np → nd_broadcast np !! i = Some (MsgBlock b) → (p, i) ∉ x.2 → idx p ≠ i →
  idx a = length (nd_broadcast x.1) → (∀ v, (v, idx v) ∉ x.2) →
  rtc (sound_turn linked cl a) x (following now b i a x) ∧ voted_in b idx a (following now b i a x).
Proof.
  intros Hne Hval Hrest Hb Hp Hsaidp Hfresh Hi Hidx Hlog. unfold following. rewrite decide_False by done.
  assert (linked p a) as Hlink.
  { apply Hlinks; [by eapply proposer_is_validator|done|congruence]. }
  destruct (block_turn cl a np now b x.1 (node_peer_id p)) as (Hrun & Htal & Hsaid & Hnd & Hl);
    [done..|by eapply list_elem_of_lookup_2|]. split.
  - apply rtc_once. split; [|done]. destruct x as [n D]. by eapply ta_event.
  - split_and!; cbn [fst snd]; [done| | |by left].
    + by rewrite Hsaid, Hidx, lookup_app_r, Nat.sub_diag by lia.
    + intros v [[= -> ?]%elem_of_singleton|Hin]%elem_of_union; [done|]. by eapply Hlog.
Qed.
(** The proposer takes its turn, then its block reaches the others. *)
Lemma proposal_phase (t : Tracked) (now : N) :
  all_resting k (fst <$> t) → logged t →
  ∃ t2 b idx, rtc (sound_step linked) t t2 ∧ block_of_turn b ∧
    (∀ a, is_Some (t2 !! a) ↔ is_validator vs a = true) ∧ ∀ a x, t2 !! a = Some x → voted_in b idx a x.
Proof.
  intros [Hdom Hrest] Hlog. pose proof (proposer_is_validator _ _ _ _ Hturn) as Hpval.
  assert (∀ a x, t !! a = Some x → is_resting k a x.1) as Hrest'.
  { intros a x Hx. apply Hrest. by rewrite lookup_fmap, Hx. }
  assert (∃ xp, t !! p = Some xp) as [xp Hp].
  { apply Hdom in Hpval. by rewrite lookup_fmap, fmap_is_Some in Hpval. }
  destruct (production_turn_resting (fst <$> t) now xp.1 (Hrest' p xp Hp)) as (b & Hb & Hrun1 & Htal1 & Hsaid1 & Hnd1).
  set (len v := from_option (λ x : Node * Log, length (nd_broadcast x.1)) 0%nat (t !! v)).
  set (idx v := if decide (v = p) then Datatypes.S (len p) else len v).
  assert (∀ a x v i, t !! a = Some x → (v, i) ∈ x.2 → (i < len v)%nat) as Hold.
  { intros a x v i Hx Hin. destruct (Hlog a x v i Hx Hin) as (y & Hy & Hi). unfold len. by rewrite Hy. }
  set (np1 := production_turn now xp.1) in *.
  set (t1 := each (proposing now) t).
  assert (rtc (sound_step linked) t t1) as Hphase1.
  { apply phase. intros a x Hx. unfold proposing. case_decide; [|done]. subst a. simplify_eq.
    by apply turn_with_peer. }
  assert (t1 !! p = Some (np1, xp.2)) as Hp1.
  { unfold t1. rewrite lookup_each, Hp. simpl. unfold proposing. by rewrite decide_True. }
  assert (∀ a, a ≠ p → t1 !! a = t !! a) as Ht1.
  { intros a Hne. unfold t1. rewrite lookup_each. destruct (t !! a); simpl; [|done].
    unfold proposing. by rewrite decide_False. }
  assert (len p = length (nd_broadcast xp.1)) as Hlenp by (unfold len; by rewrite Hp).
  assert (nd_broadcast np1 !! len p = Some (MsgBlock b)) as Hblock.
  { rewrite Hsaid1, Hlenp, lookup_app_r, Nat.sub_diag by lia. done. }
  assert (∀ a x v, t !! a = Some x → (v, idx v) ∉ x.2) as Hfresh.
  { intros a x v Hx Hin%(Hold a _ _ _ Hx). revert Hin. unfold idx. case_decide; subst; lia. }
  assert (∀ a x, t1 !! a = Some x → a ≠ p →
    rtc (sound_turn linked (fst <$> t1) a) x (following now b (len p) a x) ∧
    voted_in b idx a (following now b (len p) a x)) as Hfollow.
  { intros a x Hx Hne. rewrite Ht1 in Hx by done. apply (following_turn _ a np1); try done.
    - apply Hdom. rewrite lookup_fmap, Hx. by eexists.
    - by apply Hrest'.
    - by rewrite lookup_fmap, Hp1.
    - intros Hin%(Hold a _ _ _ Hx). lia.
    - unfold idx. rewrite decide_True by done. lia.
    - unfold idx, len. by rewrite decide_False, Hx.
    - intros v. by eapply Hfresh. }
  exists (each (following now b (len p)) t1), b, idx. split_and!; [|done| |].
  - etransitivity; [exact Hphase1|]. apply phase. intros a x Hx. destruct (decide (a = p)) as [->|Hne].
    + unfold following. by rewrite decide_True.
    + by apply Hfollow.
  - intros a. rewrite <-Hdom. unfold t1. by rewrite !lookup_each, lookup_fmap, !fmap_is_Some.
  - intros a x. rewrite lookup_each. destruct (t1 !! a) as [y|] eqn:Hy; [|done]. intros [= <-].
    destruct (decide (a = p)) as [->|Hne]; [|by apply Hfollow].
    rewrite Hp1 in Hy. injection Hy as <-. unfold following. rewrite decide_True by done.
    split_and!; cbn [fst snd]; [done| | |].
    + rewrite Hsaid1. unfold idx. rewrite decide_True, Hlenp, lookup_app_r by (done || lia).
      by replace (_ - _)%nat with 1%nat by lia.
    + intros v. by eapply Hfresh.
    + destruct Hnd1 as [[? ?]|?]; [left; by split|by right].
Qed.

(** A round takes the network from rest at height [k] to rest at [k + 1]. *)
Lemma round_progress (t : Tracked) (now : N) :
  all_resting k (fst <$> t) → logged t →
  ∃ t', rtc (sound_step linked) t t' ∧ all_resting (k + 1) (fst <$> t') ∧
    ∃ b, bh_height (header b) = k + 1 ∧
      ∀ a x, t' !! a = Some x → finalized (nd_engine x.1) !! (k + 1) = Some b.
Proof.
  intros Hrest Hlog. destruct (proposal_phase t now Hrest Hlog) as (t2 & b & idx & Hphase2 & Hb & Hdom2 & Hvoted).
  (* all votes reach everyone *)
  set (t3 := each (voting now b idx) t2).
  pose proof (λ a x, voting_phase t2 a x now b idx Hb Hdom2 Hvoted) as Hvoting.
  assert (rtc (sound_step linked) t2 t3) as Hphase3.
  { apply phase. intros a x Ha. by destruct (Hvoting a x Ha) as (Hrun & _). }
  assert (∀ a x, t3 !! a = Some x → engine_at a (k + 1) (nd_engine x.1) ∧ decided b (nd_engine x.1) ∧
    (nd_height x.1 = k + 1 ∧ (a = p → nd_last_proposed x.1 = Some (k + 1)) ∨
     nd_height x.1 = k + 2 ∧ nd_last_proposed x.1 = None)) as Hdecided.
  { intros a x. unfold t3. rewrite lookup_each. destruct (t2 !! a) as [x2|] eqn:Ha; [|done].
    intros [= <-]. destruct (Hvoting a x2 Ha) as (_ & Hc & Hd & -> & ->). split_and!; [done..|].
    destruct (Hvoted a x2 Ha) as (_ & _ & _ & [?|(_ & ?)]); [by left|by right]. }
  assert (∀ v, is_Some ((fst <$> t3) !! v) ↔ is_validator vs v = true) as Hdom3.
  { intros v. rewrite <-Hdom2. unfold t3. by rewrite lookup_fmap, lookup_each, !fmap_is_Some. }
  (* and every production loop moves on *)
  set (t4 := each (closing now) t3). exists t4.
  assert (∀ a x, t3 !! a = Some x → rtc (sound_turn linked (fst <$> t3) a) x (closing now a x) ∧
    is_resting (k + 1) a (closing now a x).1 ∧
    finalized (nd_engine (closing now a x).1) !! (k + 1) = Some b) as Hclose.
  { intros a x Ha. destruct (Hdecided a x Ha) as (Hc & Hd & Hnd). unfold closing.
    destruct Hnd as [[Hn Hl]|[Hn Hl]].
    - rewrite Hn, N.eqb_refl.
      destruct (closing_turn (fst <$> t3) a now b x.1 Hc Hd Hn Hl) as (Hrun & Hr & Hf).
      split_and!; [by apply turn_with_peer|apply Hr..|done].
    - rewrite Hn, (proj2 (N.eqb_neq _ _)) by lia. destruct Hd as [Hh Hf].
      split_and!; [done|split_and!; [done|done|lia|done]|done]. }
  split; [|split; [split|]].
  - etransitivity; [exact Hphase2|]. etransitivity; [exact Hphase3|].
    apply phase. intros a x Ha. by destruct (Hclose a x Ha).
  - intros a. rewrite <-Hdom3. unfold t4. by rewrite !lookup_fmap, lookup_each, !fmap_is_Some.
  - intros a n. unfold t4. rewrite lookup_fmap, lookup_each. destruct (t3 !! a) as [x3|] eqn:Ha; [|done].
    intros [= <-]. by destruct (Hclose a x3 Ha) as (_ & ? & _).
  - exists b. split; [apply Hb|]. intros a x. unfold t4. rewrite lookup_each.
    destruct (t3 !! a) as [x3|] eqn:Ha; [|done]. intros [= <-]. by destruct (Hclose a x3 Ha) as (_ & _ & ?).
Qed.
End round.

(** ** Any height *)
Section progress.
Context {S : Type} `{Store S, Profile, Blake3, Dalek, !Serde Transaction, !Serde StakingOperation}.
Context `{!Serde BlockHeader, !Serde (list Transaction), !Serde Vote, !SerdeLaws Vote}.
Context (linked : Address → Address → Prop) (vs : ValidatorSet) (genesis : Hash).
Notation Cluster := (gmap Address (NodeState S)).
Notation Tracked := (gmap Address (NodeState S * gset (Address * nat))).

Lemma every_height_has_a_turn h :
  0 < set_power vs → h ≤ U64 → ∃ p, proposer (E:=ConsensusError) vs h 0 = Ok (Some p).
Proof.
  intros Hp Hh. assert (validators vs ≠ ∅) as Hne.
  { intros He. unfold set_power in Hp. rewrite He, map_sum_empty in Hp. lia. }
  rewrite proposer_eq by (done || lia). pose proof (vs_len_pos vs Hne) as Hlen.
  destruct (lookup_lt_is_Some_2 (btree_keys (validators vs)) (N.to_nat ((h + 0) mod vs_len vs))) as [p Hkey].
  - rewrite length_btree_keys. pose proof (N.mod_lt (h + 0) (vs_len vs)). unfold vs_len in *. lia.
  - exists p. by rewrite Hkey.
Qed.
Lemma launched_resting (cl : Cluster) :
  (∀ a, is_Some (cl !! a) ↔ is_validator vs a = true) →
  (∀ a n, cl !! a = Some n → launched vs genesis a n ∧ is_ok (store_state_root (state (nd_engine n))) = true) →
  all_resting vs 0 cl.
Proof.
  intros Hdom Hcl. split; [done|]. intros a n Ha.
  destruct (Hcl a n Ha) as [(st & st' & c & Hnew & -> & Hs) Hroot].
  unfold new_with_store in Hnew. destruct (is_validator vs a); [|done]. injection Hnew as <-.
  split_and!; [|done..]. split; simpl; [done..| |].
  - intros h r Hr. by rewrite lookup_empty in Hr.
  - intros h Hv. by apply elem_of_empty in Hv.
Qed.
Lemma rounds_progress (cl : Cluster) (K : nat) :
  power_fits vs → 0 < set_power vs → 2 * N.of_nat K + 2 ≤ U64 →
  full_links linked vs → company vs → all_resting vs 0 cl →
  ∃ t, rtc (sound_step linked) (untouched cl) t ∧ all_resting vs (N.of_nat K) (fst <$> t).
Proof.
  intros Hfit Hp HK Hlinks Hcompany Hrest.
  assert (fst <$> untouched cl = cl) as Hcl.
  { unfold untouched. rewrite <-map_fmap_compose. apply map_fmap_id. }
  assert (∀ t, rtc (sound_step linked) (untouched cl) t → logged t) as Hlogged.
  { intros t Hrun. apply (logged_steps linked _ _ Hrun). intros a x v i. unfold untouched.
    rewrite lookup_fmap. destruct (cl !! a); [|done]. intros [= <-] []%elem_of_empty. }
  induction K as [|K IH]; [exists (untouched cl); by rewrite Hcl|].
  destruct IH as (t1 & Hrun1 & Hrest1); [lia|].
  destruct (every_height_has_a_turn (N.of_nat K + 1)) as [p Hturn]; [done|lia|].
  destruct (round_progress linked vs (N.of_nat K) Hfit Hp ltac:(lia) p Hturn Hlinks Hcompany t1 0 Hrest1
    (Hlogged t1 Hrun1)) as (t2 & Hrun2 & Hrest2 & _).
  exists t2. split; [by etransitivity|]. by replace (N.of_nat (Datatypes.S K)) with (N.of_nat K + 1) by lia.
Qed.

(** From launch to any height, with what each validator then holds. *)
Lemma launched_progress (cl : Cluster) (K : nat) :
  power_fits vs → 0 < set_power vs → 2 * N.of_nat K + 2 ≤ U64 →
  full_links linked vs → company vs →
  (∀ a, is_Some (cl !! a) ↔ is_validator vs a = true) →
  (∀ a n, cl !! a = Some n → launched vs genesis a n ∧ is_ok (store_state_root (state (nd_engine n))) = true) →
  ∃ t (chain : gmap N Block), rtc (sound_step linked) (untouched cl) t ∧
    rtc (cluster_step linked) cl (fst <$> t) ∧
    (∀ a, is_validator vs a = true → ∃ n, (fst <$> t) !! a = Some n ∧ height (nd_engine n) = N.of_nat K ∧
       ∀ h, 1 ≤ h ≤ N.of_nat K → ∃ b, chain !! h = Some b ∧ finalized (nd_engine n) !! h = Some b).
Proof.
  intros Hfit Hp HK Hlinks Hcompany Hdom Hcl.
  destruct (rounds_progress cl K Hfit Hp HK Hlinks Hcompany) as (t & Hturns & Hdom' & Hrest);
    [by apply launched_resting|].
  destruct (sound_cluster linked _ _ Hturns) as [Hrun _].
  unfold untouched in Hrun. rewrite <-map_fmap_compose, map_fmap_id in Hrun.
  destruct (cluster_steps_ok linked vs genesis ∅ cl (fst <$> t) Hrun) as (G & _ & Hnet).
  { apply launched_ok. intros a n Ha. by apply Hcl. }
  exists t, G. split_and!; [done..|]. intros a [n Hn]%Hdom'. exists n.
  destruct (Hrest a n Hn) as (_ & Hh & _). split_and!; [done..|]. intros h Hh'.
  pose proof (no_engine _ _ _ _ _ _ (net_node _ _ _ _ _ Hnet _ _ Hn)) as Hc.
  destruct (proj2 (inv_dom _ _ (eo_inv _ _ _ _ _ _ Hc) h)) as [b Hb]; [lia|].
  exists b. split; [by apply (eo_final _ _ _ _ _ _ Hc)|done].
Qed.

(** C10: A fully connected committee of at least two can always go on: from launch
    there is a schedule of whole turns of the validators' own loops (a production
    turn, or an event turn with a message another validator has said), in which no
    message is delivered twice to a validator, that brings all of them to any height
    [K] below 2^63 with the same finalized block at every height up to it.  It says
    nothing of other schedules: the engine drops a vote that arrives before its
    block. *)
Theorem cluster_progress (cl : Cluster) (K : nat) :
  power_fits vs → 0 < set_power vs → 2 * N.of_nat K + 2 ≤ U64 →
  full_links linked vs → company vs →
  (∀ a, is_Some (cl !! a) ↔ is_validator vs a = true) →
  (∀ a n, cl !! a = Some n → launched vs genesis a n ∧ is_ok (store_state_root (state (nd_engine n))) = true) →
  ∃ (t : Tracked) (chain : gmap N Block), rtc (turn_step linked) (untouched cl) t ∧
    (∀ a, is_validator vs a = true → ∃ n D, t !! a = Some (n, D) ∧ height (nd_engine n) = N.of_nat K ∧
       ∀ h, 1 ≤ h ≤ N.of_nat K → ∃ b, chain !! h = Some b ∧ finalized (nd_engine n) !! h = Some b).
Proof.
  intros Hfit Hp HK Hlinks Hcompany Hdom Hcl.
  destruct (launched_progress cl K Hfit Hp HK Hlinks Hcompany Hdom Hcl) as (t & chain & Hturns & _ & Hreach).
  exists t, chain. split; [by apply sound_turns|]. intros a Ha. destruct (Hreach a Ha) as (n & Hn & Hh & Hf).
  rewrite lookup_fmap in Hn. destruct (t !! a) as [[n' D]|] eqn:Ht; [|done]. injection Hn as <-.
  by exists n', D.
Qed.
End progress.
