(* ===== verification/TcpCluster.v ===== *)
(** * A committee over TCP

    The loops of every validator ([node.rs]) on the TCP transports of
    [pemrix-network]: what a node says is broadcast by its transport, and what its
    event loop takes are its transport's events.  Such a system is a network in
    the sense of [Cluster], whose links are the configured connections. *)

From Stdlib Require Import Strings.Byte.
From S2P Require Import Prelude.
From S2P Require Import Externals.
From S2P Require Import Primitives.
From S2P Require Import Storage.
From S2P Require Import StateStore.
From S2P Require Import Crypto.
From S2P Require Import Vm.
From S2P Require Import VmTheorems.
From S2P Require Import ValidatorSet.
From S2P Require Import Bft.
From S2P Require Import BftTheorems.
From S2P Require Import BftProperties.
From S2P Require Import Network.
From S2P Require Import Tcp.
From S2P Require Import TcpNetwork.
From S2P Require Import TcpWire.
From S2P Require Import NodeConfig.
From S2P Require Import NodeLoops.
From S2P Require Import Cluster.
Local Open Scope N_scope.

Section system.
Context {S : Type} `{Store S, Profile, Blake3, Dalek, !Serde Transaction, !Serde StakingOperation}.
Context `{!Serde BlockHeader, !Serde (list Transaction), !Serde Vote, !Serde Message}.
Context {Addr : Type} (bootstrap : PeerId → gmap PeerId Addr) (listens : Addr → option PeerId).
Notation Node := (NodeState S).
Notation Net := (TcpNet Addr).
Notation tcp_step := (tcp_step bootstrap listens).
Implicit Types (n : Node) (net : Net).

(** The validators, and the network of their transports; the transport of a
    validator goes by [node_peer_id] of its address. *)
Record TcpSystem := MkSystem { sy_nodes : gmap Address Node; sy_net : Net }.

(** [transport.broadcast(m)], whose error is only logged. *)
Definition net_broadcast (p : PeerId) net (m : Message) : Net :=
  match nt_nodes net !! p with
  | Some nd => MkNet (<[p := set_tcp (broadcast m (tn_tcp nd)).2 nd]> (nt_nodes net)) (nt_conns net)
                 (nt_sent net ++ [(p, m)])
  | None => net
  end.
(** What a section of a loop said, from [n] to [n']. *)
Definition said_between n n' : list Message := drop (length (nd_broadcast n)) (nd_broadcast n').
Definition announce (a : Address) n n' net : Net :=
  foldl (net_broadcast (node_peer_id a)) net (said_between n n').
(** Messages stay below the four bytes of a frame's length. *)
Definition short n n' : Prop := Forall fits (said_between n n').

(** A task of a transport (or the event loop ignoring an event), a section of a
    production loop, and the event loop taking a message. *)
Inductive system_step : TcpSystem → TcpSystem → Prop :=
| sy_transport s net' : tcp_step (sy_net s) net' → nt_sent net' = nt_sent (sy_net s) →
    system_step s (MkSystem (sy_nodes s) net')
| sy_local s a n n' : sy_nodes s !! a = Some n → local_step n n' → short n n' →
    system_step s (MkSystem (<[a := n']> (sy_nodes s)) (announce a n n' (sy_net s)))
| sy_deliver s a n n' nd r m es : sy_nodes s !! a = Some n →
    nt_nodes (sy_net s) !! node_peer_id a = Some nd →
    tcp_events (tn_tcp nd) = MessageReceived r m :: es → receives m n n' → short n n' →
    system_step s (MkSystem (<[a := n']> (sy_nodes s))
      (announce a n n' (on_node (node_peer_id a) (set_tcp (next_event (tn_tcp nd)).2 nd) (sy_net s)))).

(** The links of the network in the sense of [Cluster]. *)
Definition tcp_links (a b : Address) : Prop :=
  tcp_linked bootstrap listens (node_peer_id a) (node_peer_id b).

(** ** What nodes say *)
Lemma finalize_and_report_says now n : nd_broadcast (finalize_and_report now n) = nd_broadcast n.
Proof. unfold finalize_and_report. by destruct (finalize_pending now (nd_engine n)) as [[[b|]| |] c]. Qed.
Lemma receive_vote_says v now n : nd_broadcast (receive_vote v now n) = nd_broadcast n.
Proof.
  unfold receive_vote. destruct (handle_vote v (nd_engine n)) as [o c].
  by destruct (finalize_pending now c) as [[[b|]| |] c'].
Qed.
Lemma local_step_says n n' : local_step n n' → nd_broadcast n `prefix_of` nd_broadcast n'.
Proof.
  intros [? ? _|? ?|? ? _|? _|? _|?].
  - by rewrite finalize_and_report_says.
  - unfold send_inflight. by destruct (nd_inflight _ !! _).
  - unfold produce_proposal. case_bool_decide; [|done]. by destruct (propose _ _ _ _) as [[]].
  - unfold broadcast_proposal. destruct (own_proposal _ _); [by eexists|done].
  - unfold broadcast_vote. destruct (own_vote _ _); [by eexists|done].
  - unfold advance_height. by destruct (_ <=? _).
Qed.
Lemma receives_says m n n' : receives m n n' → nd_broadcast n `prefix_of` nd_broadcast n'.
Proof.
  intros [? b|? ? v now _ _].
  - unfold receive_block. destruct (handle_block b _) as [[vote| |] c]; [by eexists|done..].
  - by rewrite receive_vote_says.
Qed.
Lemma said_between_elem n n' m :
  nd_broadcast n `prefix_of` nd_broadcast n' → m ∈ said_between n n' → m ∈ nd_broadcast n'.
Proof.
  unfold said_between. intros [l ->]. rewrite drop_app_length. intros Hm. apply elem_of_app. by right.
Qed.

(** ** The network the validators see *)
Lemma announce_steps a n n' net : short n n' → rtc tcp_step net (announce a n n' net).
Proof.
  unfold short, announce. generalize (said_between n n'). intros ms Hms. revert net.
  induction Hms as [|m ms Hm _ IH]; intros net; simpl; [done|].
  etransitivity; [|apply IH]. unfold net_broadcast.
  destruct (nt_nodes net !! node_peer_id a) as [nd|] eqn:Hnd; [|done]. apply rtc_once. by constructor.
Qed.
Lemma announce_sent a n n' net p m :
  (p, m) ∈ nt_sent (announce a n n' net) → (p, m) ∈ nt_sent net ∨ p = node_peer_id a ∧ m ∈ said_between n n'.
Proof.
  unfold announce. generalize (said_between n n'). intros ms. revert net.
  induction ms as [|m0 ms IH]; intros net; simpl; [by left|]. intros [Hm|[-> Hm]]%IH; [|right; split; [done|by right]].
  unfold net_broadcast in Hm. destruct (nt_nodes net !! node_peer_id a); [|by left]. simpl in Hm.
  apply elem_of_app in Hm as [?|[= -> ->]%list_elem_of_singleton]; [by left|right]. split; [done|by left].
Qed.

(** The transports' log holds only what validators said. *)
Record system_ok (ids : list PeerId) (s : TcpSystem) : Prop := {
  sk_net : rtc tcp_step (tcp_net_new ids) (sy_net s);
  sk_sent p m : (p, m) ∈ nt_sent (sy_net s) → ∃ a n, p = node_peer_id a ∧ sy_nodes s !! a = Some n ∧
    m ∈ nd_broadcast n;
}.
Lemma system_ok_says ids s a n n' net :
  system_ok ids s → sy_nodes s !! a = Some n → nd_broadcast n `prefix_of` nd_broadcast n' → short n n' →
  rtc tcp_step (sy_net s) net → nt_sent net = nt_sent (sy_net s) →
  system_ok ids (MkSystem (<[a := n']> (sy_nodes s)) (announce a n n' net)).
Proof.
  intros [Hnet Hsent] Ha Hpre Hshort Hsteps Hsame. split; simpl.
  - etransitivity; [done|]. etransitivity; [done|]. by apply announce_steps.
  - intros p m [Hm|[-> Hm]]%announce_sent.
    + rewrite Hsame in Hm. destruct (Hsent p m Hm) as (b & nb & -> & Hb & Hin).
      exists b. destruct (decide (b = a)) as [->|].
      * exists n'. rewrite lookup_insert_eq. split_and!; [done..|]. simplify_eq.
        destruct Hpre as [l ->]. apply elem_of_app. by left.
      * exists nb. by rewrite lookup_insert_ne.
    + exists a, n'. rewrite lookup_insert_eq. split_and!; [done..|]. by eapply said_between_elem.
Qed.

Section refinement.
Context `{!SerdeLaws Message, !SerdeLaws Vote} (ping_fits : fits Ping) (ids : list PeerId).

Lemma system_step_refines s s' :
  system_step s s' → system_ok ids s →
  system_ok ids s' ∧ rtc (cluster_step tcp_links) (sy_nodes s) (sy_nodes s').
Proof.
  intros Hstep Hs. destruct Hstep as [s net' Hnet Hsent|s a n n' Ha Hn Hshort|s a n n' nd r m es Ha Hnd Hev Hm Hshort].
  - split; [|done]. destruct Hs as [Hn0 Hs]. split; simpl; [by eapply rtc_r|]. by rewrite Hsent.
  - split; [apply (system_ok_says _ _ _ _ _ (sy_net s)); [done|done|by apply local_step_says|done|done|done]|].
    apply rtc_once. econstructor; [done|]. by constructor.
  - assert (tcp_step (sy_net s) (on_node (node_peer_id a) (set_tcp (next_event (tn_tcp nd)).2 nd) (sy_net s)))
      as Hnext by by constructor.
    split.
    { apply system_ok_says; [done|done|by eapply receives_says|done|by apply rtc_once|done]. }
    destruct (wire_events bootstrap listens ping_fits ids (sy_net s) (node_peer_id a) nd r m (sk_net _ _ Hs) Hnd)
      as [Hlink [->|Hsaid]]; [rewrite Hev; by left|by inversion Hm|].
    destruct (sk_sent _ _ Hs r m Hsaid) as (b & nb & -> & Hb & Hin).
    apply rtc_once. econstructor; [done|]. econstructor; [exact Hb| |done|done].
    destruct Hlink; [by right|by left].
Qed.
Lemma system_steps_refine s s' :
  rtc system_step s s' → system_ok ids s → rtc (cluster_step tcp_links) (sy_nodes s) (sy_nodes s').
Proof.
  induction 1 as [|s s1 s2 Hstep _ IH]; [done|]. intros Hs.
  destruct (system_step_refines s s1 Hstep Hs) as [Hs1 Hrun]. etransitivity; [done|by apply IH].
Qed.
Lemma system_start nodes : system_ok ids (MkSystem nodes (tcp_net_new ids)).
Proof. split; simpl; [done|]. by intros p m ?%elem_of_nil. Qed.

(** C11: A committee over TCP is the network that the theorems about committees
    speak of: whatever the validators' loops and the tasks of their transports do
    from the start (dialling, shaking hands, writing, reading, losing
    connections), in whatever order, the validators go through states that a
    network whose links are the configured connections can go through; so any two
    of them hold the same block at every height both have finalized. *)
Theorem tcp_committee_refines_cluster (nodes nodes' : gmap Address Node) net :
  rtc system_step (MkSystem nodes (tcp_net_new ids)) (MkSystem nodes' net) →
  rtc (cluster_step tcp_links) nodes nodes' ∧
  ∀ vs genesis, launched_net vs genesis nodes →
  ∀ a b na nb h, nodes' !! a = Some na → nodes' !! b = Some nb →
    1 ≤ h → h ≤ height (nd_engine na) → h ≤ height (nd_engine nb) →
    ∃ block, bh_height (header block) = h ∧
      finalized (nd_engine na) !! h = Some block ∧ finalized (nd_engine nb) !! h = Some block.
Proof.
  intros Hrun%system_steps_refine; [|apply system_start]. simpl in Hrun. split; [done|].
  intros vs genesis Hnodes a b na nb h. by apply (nodes_agree tcp_links vs genesis nodes nodes').
Qed.
End refinement.
End system.
