(* ===== verification/NodeStartup.v ===== *)
(** * Properties of the node's start-up

    What the genesis block commits to, what a restart on a persistent store does
    to the accounts, and the configurations that bootstrapping writes. *)

From Stdlib Require Import Strings.Byte.
From stdpp Require Import pretty.
From S2P Require Import Prelude.
From S2P Require Import Externals.
From S2P Require Import Primitives.
From S2P Require Import Storage.
From S2P Require Import StateStore.
From S2P Require Import Crypto.
From S2P Require Import Vm.
From S2P Require Import VmTheorems.
From S2P Require Import ValidatorSet.
From S2P Require Import Bft.
From S2P Require Import Network.
From S2P Require Import Web.
From S2P Require Import NodeConfig.
Local Open Scope N_scope.

(** ** Seeding a store *)
Section seeding.
Context `{Hex, Blake3, !Serde Account, !Serde (gmap string bytes)}.
Context `{!Serde ValidatorRecord, !Serde Delegation}.

Lemma seed_list (l : list (Address * Account)) (L : Ledger) :
  NoDup l.*1 →
  ∃ A, forM (λ e, map_errM NodeStorage (store_set_account e.1 e.2)) l L =
      (Ok tt, MkLedger A (vals L) (dels L)) ∧
    ∀ a x, A !! a = Some x ↔ (a, x) ∈ l ∨ (a ∉ l.*1 ∧ accts L !! a = Some x).
Proof.
  revert L. induction l as [|[a0 x0] l IH]; intros L Hnd.
  - exists (accts L). split; [by destruct L|]. intros a x. set_solver.
  - apply NoDup_cons in Hnd as [Hnot Hnd].
    destruct (IH (MkLedger (<[a0 := x0]> (accts L)) (vals L) (dels L)) Hnd) as (A & Hrun & HA).
    exists A. split; [exact Hrun|]. intros a x. rewrite HA. simpl.
    rewrite elem_of_cons, not_elem_of_cons, lookup_insert_Some. split.
    + intros [Hin|[Hni [[-> ->]|[Hne Hl]]]]; [by left; right|by left; left|]. right. by split_and!.
    + intros [[[= -> ->]|Hin]|[[Hne Hni] Hl]]; [|by left|right].
      * right. split; [done|by left].
      * split; [done|]. right. split; [congruence|done].
Qed.
(** Seeding overlays the allocations on the accounts. *)
Lemma seed_ledger (m : gmap Address Account) (L : Ledger) :
  seed_allocations m L = (Ok tt, MkLedger (m ∪ accts L) (vals L) (dels L)).
Proof.
  unfold seed_allocations. destruct (seed_list (btree_iter m) L) as (A & -> & HA);
    [apply btree_keys_NoDup|]. do 2 f_equal. apply map_eq. intros a. apply option_eq. intros x.
  rewrite HA, lookup_union_Some_raw, elem_of_btree_iter.
  assert (a ∉ (btree_iter m).*1 ↔ m !! a = None) as ->; [|done].
  change (a ∉ btree_keys m ↔ m !! a = None).
  by rewrite elem_of_btree_keys, eq_None_not_Some.
Qed.
Lemma sim_seed {S T} {R : S → T → Prop} `{StoreSim S T R} (m : gmap Address Account) :
  sim R (seed_allocations m) (seed_allocations m).
Proof. unfold seed_allocations. apply sim_forM. intros e. apply sim_map_err. eauto with sim. Qed.
End seeding.

(** ** Genesis *)
Section genesis_properties.
Context {B : Type} `{StateBackend B, Hex, Blake3, Serde Account, Serde (gmap string bytes)}.
Context `{!BackendLaws B, !Serde ValidatorRecord, !SerdeLaws ValidatorRecord}.
Context `{!Serde Delegation, !SerdeLaws Delegation}.
Context `{Profile, Dalek, !Serde Transaction, !Serde StakingOperation, !Serde BlockHeader}.
Context `{SocketAddrs}.
Implicit Types (g : GenesisConfig) (c : NodeConfig) (L : Ledger).

(** The ledger the genesis describes. *)
Definition genesis_ledger g : Ledger := MkLedger (gn_allocations g) ∅ ∅.

Lemma genesis_ledger_inv g :
  map_sum (λ _ x, acc_balance x) (gn_allocations g) ≤ U128 → ledger_inv (genesis_ledger g).
Proof.
  intros Hsum. split.
  - intros v. unfold delegated, delegated_to. simpl. by rewrite lookup_empty, map_sum_empty.
  - unfold supply, total_balance, total_locked. simpl. rewrite map_sum_empty. lia.
Qed.
Lemma genesis_block_root g :
  ∃ root, store_state_root (genesis_ledger g) = Ok root ∧
    genesis_block g = Ok (MkBlock
      (MkBlockHeader 0 (gn_timestamp g) Hash_default root (hash_bytes [])
         (address_array (default Address_default (head (gn_validators g)))))
      (MkBlockBody [])).
Proof.
  unfold genesis_block.
  destruct (sim_seed (gn_allocations g) new_in_memory ledger_empty new_in_memory_rel) as [Hr HR].
  rewrite seed_ledger in Hr, HR. cbn [fst snd] in Hr, HR.
  destruct (seed_allocations (gn_allocations g) new_in_memory) as [r st]. cbn [fst snd] in Hr, HR. subst r.
  cbn [accts vals dels ledger_empty] in HR. rewrite (right_id_L ∅ (∪)) in HR.
  fold (genesis_ledger g) in HR.
  rewrite (sim_state_root st (genesis_ledger g) HR).
  eexists. split; [done|]. done.
Qed.
(** The engine a node builds on a store holding [L]. *)
Lemma bft_engine_Ok c g (store : StateStore B) L e :
  store_rel store L → bft_engine c g store = Ok e →
  ∃ b, genesis_block g = Ok b ∧ height e = 0 ∧ previous_hash e = block_hash b ∧
    store_rel (state e) (MkLedger (gn_allocations g ∪ accts L) (vals L) (dels L)).
Proof.
  intros HR. unfold bft_engine.
  intros (vs & _ & (local & _ & (b & Hb & (sock & _ & Hrun)%outcome_bind_Ok)%outcome_bind_Ok)%outcome_bind_Ok)%outcome_bind_Ok.
  exists b. split; [done|].
  unfold new_with_store in Hrun. destruct (is_validator vs local); [|done].
  unfold zoom in Hrun. cbn [state] in Hrun.
  destruct (sim_seed (gn_allocations g) store L HR) as [Hr HR'].
  rewrite seed_ledger in Hr, HR'. cbn [fst snd] in Hr, HR'.
  destruct (seed_allocations (gn_allocations g) store) as [r st]. cbn [fst snd] in Hr, HR'. subst r.
  injection Hrun as <-. by split_and!.
Qed.

(** C25: A node started on a fresh store begins at the ledger the genesis
    describes: its store holds exactly the allocations, the genesis block carries
    the state root of that store (whatever the backend) and is the block the
    first block must name, and the ledger satisfies the invariant under which
    transaction execution is correct as soon as the allocations fit the balance
    type. *)
Theorem genesis_starts_ledger c g (store : StateStore B) e :
  store_rel store ledger_empty → bft_engine c g store = Ok e →
  map_sum (λ _ x, acc_balance x) (gn_allocations g) ≤ U128 →
  store_rel (state e) (genesis_ledger g) ∧ ledger_inv (genesis_ledger g) ∧ height e = 0 ∧
  ∃ b, genesis_block g = Ok b ∧ previous_hash e = block_hash b ∧
    store_state_root (state e) = Ok (bh_state_root (header b)).
Proof.
  intros HR He Hsum. destruct (bft_engine_Ok c g store ledger_empty e HR He) as (b & Hb & Hh & Hp & HR').
  cbn [accts vals dels ledger_empty] in HR'. rewrite (right_id_L ∅ (∪)) in HR'.
  fold (genesis_ledger g) in HR'.
  split; [done|]. split; [by apply genesis_ledger_inv|]. split; [done|]. exists b. split; [done|]. split; [done|].
  rewrite (sim_state_root (state e) _ HR').
  destruct (genesis_block_root g) as (root & -> & Hb'). rewrite Hb in Hb'. by injection Hb' as ->.
Qed.

(** Restarting a node on a store that survived (the RocksDB build) forgets
    what the genesis accounts did: whatever ledger the store holds, every account
    with an allocation is back at its genesis balance and nonce while the others
    keep theirs, so that a transaction a genesis account already spent is
    accepted again. *)
Lemma restart_forgets_genesis_accounts c g (store : StateStore B) L e t x :
  store_rel store L → bft_engine c g store = Ok e →
  gn_allocations g !! tx_sender t = Some x →
  verify_signature t = Ok tt → acc_nonce x = tx_nonce t → tx_fee t ≤ acc_balance x →
  ∃ L', store_rel (state e) L' ∧ accepted t L' = true ∧
    (∀ a y, gn_allocations g !! a = Some y → acct L' a = y) ∧
    (∀ a, gn_allocations g !! a = None → acct L' a = acct L a) ∧
    vals L' = vals L ∧ dels L' = dels L.
Proof.
  intros HR He Hx Hv Hn Hfee. destruct (bft_engine_Ok c g store L e HR He) as (_ & _ & _ & _ & HR').
  eexists. split; [exact HR'|].
  assert (∀ a y, gn_allocations g !! a = Some y →
    acct (MkLedger (gn_allocations g ∪ accts L) (vals L) (dels L)) a = y) as Halloc.
  { intros a y Hy. unfold acct. simpl. by rewrite lookup_union, Hy, union_Some_l. }
  split_and!; [|done| |done|done].
  - unfold accepted. rewrite Hv, (Halloc _ _ Hx), Hn, N.eqb_refl. by apply N.leb_le.
  - intros a Ha. unfold acct. simpl. by rewrite lookup_union, Ha, (left_id_L None _).
Qed.
End genesis_properties.

(** ** Bootstrap *)

(** *** Paths *)
Lemma list_ascii_app a b :
  String.list_ascii_of_string (a +:+ b) = String.list_ascii_of_string a ++ String.list_ascii_of_string b.
Proof. induction a as [|c a IH]; [done|]. simpl. by f_equal. Qed.
Lemma string_app_assoc (a b c : string) : a +:+ (b +:+ c) = (a +:+ b) +:+ c.
Proof.
  induction a as [|x a IH]; [done|].
  change (String x (a +:+ (b +:+ c)) = String x ((a +:+ b) +:+ c)). by rewrite IH.
Qed.
Lemma string_app_inj_2 a b c d :
  String.length c = String.length d → a +:+ c = b +:+ d → a = b ∧ c = d.
Proof.
  intros Hlen Heq.
  assert (∀ s, length (String.list_ascii_of_string s) = String.length s) as Hl.
  { induction s as [|x s IH]; [done|]. simpl. by f_equal. }
  apply (f_equal String.list_ascii_of_string) in Heq. rewrite !list_ascii_app in Heq.
  apply app_inj_2 in Heq as [Ha Hc]; [|by rewrite !Hl].
  rewrite <-(String.string_of_list_ascii_of_string a), <-(String.string_of_list_ascii_of_string c).
  by rewrite Ha, Hc, !String.string_of_list_ascii_of_string.
Qed.
Lemma ends_with_slash_app a b : b ≠ "" → ends_with_slash (a +:+ b) = ends_with_slash b.
Proof.
  intros Hb. induction a as [|c a IH]; [done|]. simpl. rewrite <-IH.
  by destruct (a +:+ b) eqn:Hab; [destruct a|].
Qed.
Lemma pretty_go_slash x c : ends_with_slash (pretty_N_go x (String c "")) = ends_with_slash (String c "").
Proof.
  assert (∀ s, s ≠ "" → ends_with_slash (pretty_N_go x s) = ends_with_slash s) as Hall; [|by apply Hall].
  induction (N.lt_wf_0 x) as [x _ IH]. intros s Hs.
  destruct (decide (x = 0)) as [->|Hne]; [by rewrite pretty_N_go_0|].
  rewrite pretty_N_go_step by lia. rewrite IH by (done || (apply N.div_lt; lia)).
  by destruct s.
Qed.
Lemma pretty_char_no_slash x : ends_with_slash (String (pretty_N_char x) "") = false.
Proof. unfold pretty_N_char. by repeat case_match. Qed.
Lemma pretty_no_slash (i : nat) : pretty i ≠ "" ∧ ends_with_slash (pretty i) = false.
Proof.
  unfold pretty, pretty_nat, pretty, pretty_N. case_decide as Hz; [done|]. split.
  - destruct (pretty_go_head (N.of_nat i) "") as (c & s & -> & _); [lia|done].
  - rewrite pretty_N_go_step by lia. by rewrite pretty_go_slash, pretty_char_no_slash.
Qed.
(** The directory of the [i]-th validator, and the file in it. *)
Definition validator_dir (out : string) (i : nat) : string := path_join out ("validator-" +:+ pretty i).
Lemma path_join_eq dir name :
  path_join dir name = (if bool_decide (dir = "") || ends_with_slash dir then dir else dir +:+ "/") +:+ name.
Proof.
  unfold path_join. destruct (_ || _); [done|]. apply string_app_assoc.
Qed.
Lemma validator_dir_file out i name : path_join (validator_dir out i) name = (validator_dir out i +:+ "/") +:+ name.
Proof.
  destruct (pretty_no_slash i) as [Hne Hs]. rewrite path_join_eq. unfold validator_dir.
  rewrite (path_join_eq out).
  assert (∀ a, ends_with_slash (a +:+ "validator-" +:+ pretty i) = false) as Hslash.
  { intros a. rewrite !ends_with_slash_app; [done|done|]. by destruct (pretty i). }
  rewrite Hslash, bool_decide_false; [done|]. by destruct (if _ : bool then _ else _).
Qed.
Lemma node_file_inj out i j :
  path_join (validator_dir out i) "node.json" = path_join (validator_dir out j) "node.json" → i = j.
Proof.
  rewrite !validator_dir_file. intros Heq. apply string_app_inj_2 in Heq as [Heq _]; [|done].
  apply string_app_inj_2 in Heq as [Heq _]; [|done]. unfold validator_dir in Heq.
  rewrite !path_join_eq in Heq. generalize dependent (if bool_decide (out = "") || ends_with_slash out
    then out else out +:+ "/"). intros d Hd.
  apply (f_equal String.list_ascii_of_string) in Hd. rewrite !list_ascii_app in Hd.
  apply app_inv_head, app_inv_head in Hd.
  apply (f_equal String.string_of_list_ascii) in Hd. rewrite !String.string_of_list_ascii_of_string in Hd.
  by apply (inj pretty).
Qed.
Lemma genesis_file_ne out i : path_join out "genesis.json" ≠ path_join (validator_dir out i) "node.json".
Proof.
  rewrite validator_dir_file, path_join_eq. intros Heq.
  pose proof (λ a, string_app_assoc a "genesi" "s.json") as Hg.
  pose proof (λ a, string_app_assoc a "nod" "e.json") as Hn.
  change ("genesi" +:+ "s.json") with "genesis.json" in Hg.
  change ("nod" +:+ "e.json") with "node.json" in Hn.
  rewrite Hg, Hn in Heq. by apply string_app_inj_2 in Heq as [_ Heq].
Qed.

Section bootstrap.
Context `{SocketAddrs, Blake3, JsonTextLaws NodeConfig, JsonTextLaws GenesisConfig}.
Implicit Types (vs : list BootstrapValidator) (fs : FileSystem).

(** The peers the [i]-th configuration names: the previous validator. *)
Definition previous_peer vs (i : nat) : gset PeerId :=
  match i with
  | O => ∅
  | Datatypes.S j => match vs !! j with Some v => {[node_peer_id (bv_address v)]} | None => ∅ end
  end.
(** What the file of the [i]-th validator reads back as. *)
Definition configured (out : string) (set : ValidatorSet) vs fs (i : nat) (v : BootstrapValidator) : Prop :=
  ∃ c, (config_load (validator_dir out i) fs).1 = Ok c ∧ nc_data_dir c = validator_dir out i ∧
    nc_validator c = true ∧ nc_validator_set c = Some set ∧
    nc_local_validator_address c = Some (bv_address v) ∧ nc_p2p_listen c = bv_p2p v ∧
    dom (nc_bootstrap_nodes c) = previous_peer vs i.

Lemma bootstrap_config_Ok out set addrs vs i v c :
  bootstrap_config out set addrs vs i v = Ok c →
  nc_data_dir c = validator_dir out i ∧ nc_validator c = true ∧ nc_validator_set c = Some set ∧
  nc_local_validator_address c = Some (bv_address v) ∧ nc_p2p_listen c = bv_p2p v ∧
  dom (nc_bootstrap_nodes c) = previous_peer vs i.
Proof.
  unfold bootstrap_config, previous_peer. destruct i as [|j].
  - intros [= <-]. split_and!; [done..|]. apply dom_empty_L.
  - destruct (vs !! j) as [peer|]; [|done]. destruct (addrs !! _) as [addr|]; [|done].
    intros [= <-]. split_and!; [done..|]. apply dom_singleton_L.
Qed.
Lemma config_load_saved c fs :
  fs !! path_join (nc_data_dir c) "node.json" = Some (to_string_pretty c) →
  (config_load (nc_data_dir c) fs).1 = Ok c.
Proof.
  intros Hfs. unfold config_load, read_json, mbind, M_bind, gets. 
  rewrite bool_decide_true by (rewrite Hfs; by eexists). rewrite Hfs. simpl.
  by rewrite from_json_to_string.
Qed.
(** Saving the configurations from position [i] on leaves other files alone. *)
Lemma save_configs_Ok out set addrs all i vs fs fs' :
  save_configs out set addrs all i vs fs = (Ok tt, fs') →
  (∀ p, (∀ j, (i ≤ j)%nat → p ≠ path_join (validator_dir out j) "node.json") → fs' !! p = fs !! p) ∧
  ∀ k v, vs !! k = Some v → configured out set all fs' (i + k) v.
Proof.
  revert i fs. induction vs as [|v vs IH]; intros i fs; cbn [save_configs].
  { intros [= <-]. split; [done|]. intros k v. by rewrite lookup_nil. }
  rewrite bind_lift. destruct (bootstrap_config _ _ _ _ _ _) as [c|e|] eqn:Hc; [|done..].
  apply bootstrap_config_Ok in Hc as (Hdir & Hv & Hset & Hloc & Hp2p & Hdom).
  intros ([] & fs1 & Hsave & Hrun)%bind_Ok_inv. unfold config_save, write_json, modify in Hsave.
  injection Hsave as <-. apply IH in Hrun as [Hkeep Hall]. split.
  - intros p Hp. rewrite Hkeep by (intros; apply Hp; lia). rewrite Hdir. apply lookup_insert_ne.
    intros <-. by apply (Hp i).
  - intros [|k] v'; simpl.
    + intros [= <-]. rewrite Nat.add_0_r. exists c. split_and!; [|done..].
      rewrite <-Hdir. apply config_load_saved. rewrite Hkeep; rewrite Hdir; [apply lookup_insert_eq|].
      intros j Hj ->%node_file_inj. lia.
    + intros Hk. rewrite Nat.add_succ_r. by apply (Hall k).
Qed.

(** The account of an address in the genesis: its last allocation, and otherwise
    the starting balance if it is a validator. *)
Definition genesis_account vs (allocations : list (Address * N)) (a : Address) : option Account :=
  match last (filter (λ e, e.1 = a) allocations) with
  | Some e => Some (MkAccount e.2 0)
  | None => if decide (a ∈ bv_address <$> vs) then Some (MkAccount 1000000 0) else None
  end.
Lemma allocations_lookup (allocations : list (Address * N)) (m : gmap Address Account) a :
  foldl (λ m e, <[e.1 := MkAccount e.2 0]> m) m allocations !! a =
    match last (filter (λ e, e.1 = a) allocations) with
    | Some e => Some (MkAccount e.2 0)
    | None => m !! a
    end.
Proof.
  induction allocations as [|e l IH] using rev_ind; [done|]. rewrite foldl_app, filter_app. simpl.
  rewrite filter_cons. destruct (decide (e.1 = a)) as [<-|Hne].
  - by rewrite filter_nil, last_snoc, lookup_insert_eq.
  - by rewrite filter_nil, app_nil_r, lookup_insert_ne.
Qed.
(** Funding the validators adds the accounts that are missing. *)
Lemma funded_lookup vs (m : gmap Address Account) a :
  foldl (λ m v, <[bv_address v := default (MkAccount 1000000 0) (m !! bv_address v)]> m) m vs !! a =
    match m !! a with
    | Some account => Some account
    | None => if decide (a ∈ bv_address <$> vs) then Some (MkAccount 1000000 0) else None
    end.
Proof.
  induction vs as [|v vs IH] using rev_ind; [cbn [foldl]; destruct (m !! a); [done|by rewrite decide_False by set_solver]|].
  rewrite foldl_app, fmap_app. simpl.
  destruct (decide (bv_address v = a)) as [<-|Hne].
  - rewrite lookup_insert_eq, IH. destruct (m !! bv_address v); [done|].
    rewrite (decide_True (P:=_ ∈ _ ++ _)) by set_solver. by case_decide.
  - rewrite lookup_insert_ne, IH by done. destruct (m !! a); [done|].
    by rewrite (decide_ext (a ∈ bv_address <$> vs) (a ∈ (bv_address <$> vs) ++ [bv_address v])) by set_solver.
Qed.
Lemma genesis_account_lookup chain_id vs allocations now a :
  gn_allocations (bootstrap_genesis chain_id vs allocations now) !! a = genesis_account vs allocations a.
Proof.
  unfold bootstrap_genesis, genesis_account. cbn [gn_allocations]. rewrite funded_lookup, allocations_lookup.
  by destruct (last _).
Qed.

(** A bootstrap that succeeds has saved the genesis and then the configurations. *)
Lemma bootstrap_run chain_id vs allocations out now fs fs' :
  bootstrap_bft_network chain_id vs allocations out now fs = (Ok tt, fs') →
  (2 ≤ length vs)%nat ∧
  fs' !! path_join out "genesis.json" =
    Some (to_string_pretty (bootstrap_genesis chain_id vs allocations now)) ∧
  ∀ i v, vs !! i = Some v →
    configured out (from_validators ((λ v, MkValidator (bv_address v) 1) <$> vs)) vs fs' i v.
Proof.
  unfold bootstrap_bft_network. destruct (Nat.ltb_spec (length vs) 2) as [|Hlen]; [done|].
  intros ([] & fs1 & Hgen & Hrun)%bind_Ok_inv. unfold genesis_save, write_json, modify in Hgen.
  injection Hgen as <-. rewrite bind_lift in Hrun.
  destruct (p2p_addresses vs ∅) as [addrs|e|]; [|done..].
  apply save_configs_Ok in Hrun as [Hkeep Hall]. split_and!; [done| |exact Hall].
  rewrite Hkeep by (intros j _; apply genesis_file_ne). apply lookup_insert_eq.
Qed.

(** C26: Bootstrapping a network of at least two validators writes a genesis file
    with every validator, in which the account of an address is its last allocation
    (also when that is zero), one million for a validator without one, and absent
    otherwise; and for each validator a configuration that reads back with the
    shared committee, its own address and endpoint, and the previous validator as
    its only peer (none for the first), where the comment on the function promises
    all other validators. *)
Theorem bootstrap_writes_network chain_id vs allocations out now fs fs' :
  bootstrap_bft_network chain_id vs allocations out now fs = (Ok tt, fs') →
  let set := from_validators ((λ v, MkValidator (bv_address v) 1) <$> vs) in
  (2 ≤ length vs)%nat ∧
  (∃ g, (genesis_load out fs').1 = Ok g ∧ gn_chain_id g = chain_id ∧
     gn_validators g = bv_address <$> vs ∧
     ∀ a, gn_allocations g !! a = genesis_account vs allocations a) ∧
  ∀ i v, vs !! i = Some v → configured out set vs fs' i v.
Proof.
  intros (Hlen & Hgen & Hall)%bootstrap_run. split; [done|]. split; [|exact Hall].
  exists (bootstrap_genesis chain_id vs allocations now). split_and!; [|done|done|].
  - unfold genesis_load, read_json, mbind, M_bind, gets. rewrite Hgen. simpl.
    by rewrite from_json_to_string.
  - intros a. apply genesis_account_lookup.
Qed.
End bootstrap.

(** ** [pemrix init --validator], then [pemrix start] *)
Section fresh_validator.
Context `{SocketAddrs, Blake3, Dalek, HexLaws, JsonTextLaws NodeConfig, JsonTextLaws GenesisConfig}.
Context `{JsonTextLaws ValidatorKeyFile}.

Lemma path_join_inj dir x y : path_join dir x = path_join dir y → x = y.
Proof.
  rewrite !path_join_eq. generalize (if bool_decide (dir = "") || ends_with_slash dir then dir else dir +:+ "/").
  intros d. induction d as [|c d IH]; [done|]. by intros [= ?%IH].
Qed.
Lemma generate_and_save_run dir random (fs : FileSystem) :
  let k := keyfile_from_keypair (keypair_of random) in
  generate_and_save dir random fs = (Ok k, <[path_join dir FILE_NAME := to_string_pretty k]> fs).
Proof. done. Qed.
(** A directory [init] made, with its key, starts a committee of that key alone
    and no peer to dial: such a validator waits in its production loop
    ([lone_validator_waits]) until someone connects to it. *)
Lemma fresh_validator_is_alone dir now random (fs : FileSystem) :
  let a := from_public_key_hash (hash_bytes (array32_bytes (verifying_key random))) in
  ∃ c g, ((_ ← init dir true now; _ ← generate_and_save dir random; start dir) fs).1 = Ok (StartBft c g) ∧
    nc_bootstrap_nodes c = ∅ ∧ nc_validator_set c = Some (single_validator_set a) ∧
    nc_local_validator_address c = Some a.
Proof.
  intros a. set (c0 := set_validator_mode true (for_data_dir dir)). set (g := local_development [] now).
  set (k := keyfile_from_keypair (keypair_of random)).
  set (fs3 := <[path_join dir FILE_NAME := to_string_pretty k]>
    (<[path_join dir "genesis.json" := to_string_pretty g]>
       (<[path_join dir "node.json" := to_string_pretty c0]> fs))).
  assert (∀ x y, x ≠ y → path_join dir x ≠ path_join dir y) as Hne.
  { intros x y Hxy Heq. by apply Hxy, (path_join_inj dir). }
  assert (fs3 !! path_join dir "node.json" = Some (to_string_pretty c0)) as Hnode.
  { unfold fs3. rewrite !lookup_insert_ne by by apply Hne. apply lookup_insert_eq. }
  assert (fs3 !! path_join dir "genesis.json" = Some (to_string_pretty g)) as Hgen.
  { unfold fs3. rewrite lookup_insert_ne by by apply Hne. apply lookup_insert_eq. }
  assert (fs3 !! path_join dir FILE_NAME = Some (to_string_pretty k)) as Hkey by apply lookup_insert_eq.
  assert (keyfile_address k = Ok a) as Haddr.
  { unfold keyfile_address, k, keyfile_from_keypair. simpl. by rewrite Address_from_to_string. }
  exists (set_committee (single_validator_set a) a c0), g. split; [|done].
  erewrite bind_Ok by reflexivity. erewrite bind_Ok by apply generate_and_save_run.
  change ((start dir fs3).1 = Ok (StartBft (set_committee (single_validator_set a) a c0) g)).
  unfold start. rewrite (bind_Ok c0 _ fs3 fs3).
  2: { unfold config_load, read_json, mbind, M_bind, gets.
       rewrite bool_decide_true by (rewrite Hnode; by eexists). rewrite Hnode. simpl.
       by rewrite from_json_to_string. }
  rewrite (bind_Ok g _ fs3 fs3).
  2: { unfold genesis_load, read_json, mbind, M_bind, gets. rewrite Hgen. simpl. by rewrite from_json_to_string. }
  cbn [nc_validator c0 set_validator_mode for_data_dir].
  rewrite (bind_Ok (set_committee (single_validator_set a) a c0) _ fs3 fs3); [done|].
  rewrite (bind_Ok k _ fs3 fs3).
  2: { unfold keys_load, read_json, mbind, M_bind, gets. rewrite Hkey. simpl. by rewrite from_json_to_string. }
  by rewrite bind_lift, Haddr.
Qed.
End fresh_validator.
