(* ===== verification/Testnet.v ===== *)
(** * The local testnet: crate [pemrix-testnet] and [testnet.rs], and the polling of
    [services.rs]

    The preset of [crates/pemrix-testnet/src/config.rs]; the configurations and
    the solo block loop of [node/pemrix-node/src/testnet.rs]; the turns of
    [poll_validator] and what the services know after them.  The clock, the environment and what the validator's HTTP
    endpoint answers are arguments; spawning and logging are left out. *)

From Stdlib Require Import Strings.Byte Strings.Ascii.
From stdpp Require Import pretty.
From S2P Require Import Prelude.
From S2P Require Import Externals.
From S2P Require Import Primitives.
From S2P Require Import Storage.
From S2P Require Import StateStore.
From S2P Require Import Crypto.
From S2P Require Import Vm.
From S2P Require Import VmTheorems.
From S2P Require Import ValidatorSet.
From S2P Require Import Protocol.
From S2P Require Import Web.
From S2P Require Import Rpc.
From S2P Require Import Grpc.
From S2P Require Import Explorer.
From S2P Require Import Webhooks.
From S2P Require Import NodeServices.
From S2P Require Import Mempool.
From S2P Require Import Bft.
From S2P Require Import BftTheorems.
From S2P Require Import BftProperties.
From S2P Require Import Network.
From S2P Require Import NodeConfig.
Local Open Scope N_scope.

(** ** [crates/pemrix-testnet/src/config.rs] *)
Inductive TestnetPreset := Local_.
Record TestnetConfig := MkTestnet {
  tc_preset : TestnetPreset;
  tc_chain_name : string;
  tc_chain_id : string;
  tc_allocations : gmap Address Account;
  tc_faucet_accounts : list (Address * Account);
  tc_validators : list Address;
  tc_bootstrap_nodes : list string;
  tc_rpc_listen : string;
  tc_faucet_listen : string;
  tc_explorer_listen : string;
  tc_grpc_listen : string;
}.
Definition LOCAL_FAUCET_SEED : bytes := String.list_byte_of_string "pemrix-local-testnet-faucet-v1".
(** [PEMRIX_BIND_HOST], as both processes read it. *)
Definition bind_host (env : option string) : string :=
  match env with
  | Some s => if bool_decide (s = "") then "127.0.0.1" else s
  | None => "127.0.0.1"
  end.
Definition host_port (host : string) (port : N) : string := host +:+ ":" +:+ pretty port.
(** [str::rsplit_once(':')] *)
Fixpoint rsplit_colon (s : string) : option (string * string) :=
  match s with
  | EmptyString => None
  | String c s =>
      match rsplit_colon s with
      | Some (a, b) => Some (String c a, b)
      | None => if bool_decide (c = ":"%char) then Some (EmptyString, s) else None
      end
  end.

Section preset.
Context `{Blake3, Dalek}.

(** [Address::from_public_key_hash(Hash::hash_bytes(format!(..).as_bytes()))] *)
Definition named_address (name : string) : Address :=
  from_public_key_hash (hash_bytes (String.list_byte_of_string name)).
Definition dev_allocations : gmap Address Account :=
  foldl (λ m i, <[named_address ("dev-" +:+ pretty i) := MkAccount 1000000 0]> m) ∅ (seq 0 10).
(** [TestnetConfig::local]; [env] is the bind host variable. *)
Definition testnet_local {E} (env : option string) : outcome E TestnetConfig :=
  match keypair_from_seed LOCAL_FAUCET_SEED with
  | Ok kp =>
      let faucet_address := from_public_key_hash (hash_bytes (public_bytes (kp_public kp))) in
      let host := bind_host env in
      Ok (MkTestnet Local_ "PEMRIX Local Testnet" "pemrix-local-testnet" dev_allocations
        [(faucet_address, MkAccount 1000000000 0)] [faucet_address]
        [host_port host (ports.P2P_BASE + 3)] (host_port host ports.RPC) (host_port host ports.FAUCET)
        (host_port host ports.EXPLORER) (host_port host ports.GRPC))
  | _ => Panic
  end.
Definition testnet_preset {E} (p : TestnetPreset) (env : option string) : outcome E TestnetConfig :=
  match p with Local_ => testnet_local env end.
Definition testnet_rpc_internal_url (c : TestnetConfig) : string :=
  "http://127.0.0.1:" +:+ from_option snd "61001" (rsplit_colon (tc_rpc_listen c)).
Definition testnet_faucet_address (c : TestnetConfig) : option Address := fst <$> head (tc_faucet_accounts c).
Definition testnet_faucet_account (c : TestnetConfig) : option Account := snd <$> head (tc_faucet_accounts c).
Definition testnet_faucet_keypair (c : TestnetConfig) : outcome string KeyPair :=
  map_err (λ _, "failed to generate faucet keypair") (keypair_from_seed LOCAL_FAUCET_SEED).
Definition combined_allocations (c : TestnetConfig) : gmap Address Account :=
  foldl (λ m e, <[e.1 := e.2]> m) (tc_allocations c) (tc_faucet_accounts c).
End preset.

(** ** [testnet.rs]: configurations *)
Section configurations.
Context `{Profile, Blake3, SocketAddrs}.

Definition solo_testnet_config (data_dir : string) (c : TestnetConfig) : NodeConfig :=
  MkNodeConfig data_dir (tc_rpc_listen c) ports.p2p_default true ∅ None None.
Definition solo_testnet_genesis (c : TestnetConfig) (now : N) : GenesisConfig :=
  MkGenesis (tc_chain_id c) now (combined_allocations c) (tc_validators c).
Definition validator_addresses (count : nat) : list Address :=
  (λ i : nat, named_address ("validator-" +:+ pretty i)) <$> seq 0 count.
Definition bft_testnet_genesis (c : TestnetConfig) (validators : list Address) (now : N) : GenesisConfig :=
  MkGenesis (tc_chain_id c) now
    (foldl (λ m a, <[a := MkAccount 1000000 0]> m) (combined_allocations c) validators) validators.
(** [p2p_base + i as u16] *)
Definition p2p_port (i : nat) : outcome NodeError N :=
  uadd U16 ports.P2P_BASE (as_uint U16 (N.of_nat i)).
Fixpoint validator_addrs (i : nat) (validators : list Address) (m : gmap Address SocketAddr)
    : outcome NodeError (gmap Address SocketAddr) :=
  match validators with
  | [] => Ok m
  | a :: validators =>
      port ← p2p_port i;
      match parse_socket (host_port "127.0.0.1" port) with
      | Some addr => validator_addrs (Datatypes.S i) validators (<[a := addr]> m)
      | None => Panic
      end
  end.
(** The configuration of the [i]-th validator. *)
Definition bft_testnet_config (data_dir : string) (c : TestnetConfig) (set : ValidatorSet)
    (validators : list Address) (addrs : gmap Address SocketAddr) (i : nat) (a : Address)
    : outcome NodeError NodeConfig :=
  port ← p2p_port i;
  let config nodes := MkNodeConfig (data_dir +:+ "/validator-" +:+ pretty i) (tc_rpc_listen c)
    (host_port "127.0.0.1" port) true nodes (Some set) (Some a) in
  match i with
  | O => Ok (config ∅)
  | Datatypes.S j =>
      match validators !! j with
      | Some prev =>
          match addrs !! prev with
          | Some addr => Ok (config {[node_peer_id prev := addr]})
          | None => Panic
          end
      | None => Panic
      end
  end.
End configurations.

(** ** [run_solo_testnet] *)
Record TestnetState := MkTestnetState {
  tn_consensus : SoloConsensus (StateStore InMemoryBackend);
  tn_mempool : SimpleMempool;
  tn_services : Services;
}.
(** A user's action on the shared services between two turns of the loop. *)
Notation Action := (Services → Services).

Section solo_testnet.
Context `{Json, !ValueBytes, Hmac, HashOrder, Profile, Hex, Blake3, Dalek}.
Context `{!Serde Account, !Serde (gmap string bytes), !Serde ValidatorRecord, !Serde Delegation}.
Context `{!Serde Transaction, !Serde StakingOperation, !Serde BlockHeader, !Serde (list Transaction)}.

(** Store the genesis block and seed the RPC state and the explorer. *)
Definition seed_services (g : GenesisConfig) (b : Block) (s : Services) : Services :=
  let s := on_rpc (RpcState.store_block b) s in
  let s := on_explorer (ExplorerState.ingest_block b) s in
  foldl (λ s e, on_explorer (ExplorerState.ingest_account e.1 e.2)
                  (on_rpc (RpcState.set_account e.1 e.2) s)) s (btree_iter (gn_allocations g)).
(** What [spawn_shared_services] writes before the servers run. *)
Definition seed_faucet (c : TestnetConfig) (s : Services) : Services :=
  on_rpc (RpcState.set_account (default Address_default (testnet_faucet_address c))
            (default Account_default (testnet_faucet_account c))) s.
(** Everything before the block loop. *)
Definition solo_testnet_start (c : TestnetConfig) (g : GenesisConfig) : outcome NodeError TestnetState :=
  b ← genesis_block g;
  let services := seed_services g b (MkServices RpcState.new ExplorerState.new WebhookState.new) in
  let services := seed_faucet c services in
  let proposer := default Address_default (head (gn_validators g)) in
  match seed_allocations (gn_allocations g) new_in_memory with
  | (Ok _, st) =>
      Ok (MkTestnetState (solo_new st proposer (block_hash b)) SimpleMempool_new services)
  | (Err e, _) => Err e
  | (Panic, _) => Panic
  end.

Definition set_tn_mempool (m : SimpleMempool) (s : TestnetState) : TestnetState :=
  MkTestnetState (tn_consensus s) m (tn_services s).
Definition set_tn_consensus (c : SoloConsensus (StateStore InMemoryBackend)) (s : TestnetState)
    : TestnetState := MkTestnetState c (tn_mempool s) (tn_services s).
(** One turn of the loop. *)
Definition solo_turn (height now : N) : M TestnetState NodeError unit :=
  pending ← gets (λ s, RpcState.pending_transactions (sv_rpc (tn_services s)));
  _ ← forM (λ t, map_errM (λ _, NodeConsensus) (zoom tn_mempool set_tn_mempool (mempool_add t))) pending;
  txs ← map_errM (λ _, NodeConsensus) (zoom tn_mempool set_tn_mempool (mempool_drain 100));
  block ← map_errM (λ _, NodeConsensus)
            (zoom tn_consensus set_tn_consensus (solo_propose height txs now));
  modify (λ s, MkTestnetState (tn_consensus s) (tn_mempool s) (testnet_ingest_block block (tn_services s))).
(** The loop from [height] on, with the clock and the users' actions before each
    turn; an error ends it.  The code counts to 100000 ([DemoSettles.wd_tick]). *)
Fixpoint solo_testnet_run (height : N) (turns : list (N * Action)) : M TestnetState NodeError unit :=
  match turns with
  | [] => mret tt
  | (now, act) :: turns =>
      _ ← modify (λ s, MkTestnetState (tn_consensus s) (tn_mempool s) (act (tn_services s)));
      _ ← solo_turn height now;
      solo_testnet_run (height + 1) turns
  end.

(** *** One turn *)
Lemma add_pending (pending : list Transaction) s :
  forM (λ t, map_errM (λ _, NodeConsensus) (zoom tn_mempool set_tn_mempool (mempool_add t))) pending s =
    (Ok tt, set_tn_mempool (MkMempool (pool (tn_mempool s) ++ pending)) s).
Proof.
  revert s. induction pending as [|t pending IH]; intros s; cbn [forM].
  - rewrite (right_id_L [] (++)). by destruct s as [c [p] sv].
  - erewrite bind_Ok by done. rewrite IH. simpl. by rewrite <-(assoc_L (++)).
Qed.
(** What a turn does, with [txs] the block's transactions. *)
Lemma solo_turn_run height now s :
  let pending := rpc_pending (sv_rpc (tn_services s)) in
  let all := pool (tn_mempool s) ++ pending in
  solo_turn height now s =
    match solo_propose height (take 100 all) now (tn_consensus s) with
    | (Ok b, c) => (Ok tt, MkTestnetState c (MkMempool (drop 100 all))
                             (testnet_ingest_block b (tn_services s)))
    | (Err _, c) => (Err NodeConsensus, MkTestnetState c (MkMempool (drop 100 all)) (tn_services s))
    | (Panic, c) => (Panic, MkTestnetState c (MkMempool (drop 100 all)) (tn_services s))
    end.
Proof.
  intros pending all. unfold solo_turn. rewrite bind_Ok with (a:=pending) (s':=s) by done.
  rewrite bind_Ok with (a:=tt) (s':=set_tn_mempool (MkMempool all) s) by apply add_pending.
  rewrite bind_Ok with (a:=take 100 all) (s':=set_tn_mempool (MkMempool (drop 100 all)) s).
  2: { unfold map_errM, zoom. by rewrite mempool_drain_run. }
  unfold mbind, M_bind, map_errM, zoom, modify. simpl.
  by destruct (solo_propose _ _ _ _) as [[b|e|] c].
Qed.

(** *** What ingesting keeps *)
Lemma replay_keeps (ts : list Transaction) r :
  rpc_pending (foldl testnet_replay r ts) = rpc_pending r ∧
  rpc_blocks (foldl testnet_replay r ts) = rpc_blocks r.
Proof.
  revert r. induction ts as [|t ts IH]; intros r; [done|]. simpl. rewrite !(proj1 (IH _)), !(proj2 (IH _)).
  unfold testnet_replay, replay_with. by repeat case_match.
Qed.
Lemma ingest_rpc (b : Block) sv :
  let r := sv_rpc (testnet_ingest_block b sv) in
  rpc_pending r = rpc_pending (sv_rpc sv) ∧
  rpc_blocks r = <[bh_height (header b) := b]> (rpc_blocks (sv_rpc sv)).
Proof.
  unfold testnet_ingest_block, ingest_with. cbn zeta.
  announced. simpl.
  by rewrite !(proj1 (replay_keeps _ _)), !(proj2 (replay_keeps _ _)).
Qed.
(** An action that neither submits transactions nor touches the blocks. *)
Definition quiet_action (act : Action) : Prop := ∀ sv,
  rpc_pending (sv_rpc (act sv)) = rpc_pending (sv_rpc sv) ∧
  rpc_blocks (sv_rpc (act sv)) = rpc_blocks (sv_rpc sv).

Notation pending s := (rpc_pending (sv_rpc (tn_services s))).
Notation blocks s := (rpc_blocks (sv_rpc (tn_services s))).
Lemma quiet_turn height now act s s' :
  pool (tn_mempool s) = [] → (length (pending s) ≤ 100)%nat → quiet_action act →
  solo_turn height now (MkTestnetState (tn_consensus s) (tn_mempool s) (act (tn_services s))) =
    (Ok tt, s') →
  pool (tn_mempool s') = [] ∧ pending s' = pending s ∧
  ∃ b, blocks s' = <[height := b]> (blocks s) ∧ transactions (body b) = pending s.
Proof.
  intros Hpool Hlen Hact. destruct (Hact (tn_services s)) as [Hp Hb]. rewrite solo_turn_run.
  cbn [tn_services tn_mempool tn_consensus]. rewrite Hpool, Hp, (left_id_L [] (++)).
  rewrite (take_ge (pending s)), (drop_ge (pending s)) by done.
  destruct (solo_propose _ _ _ _) as [[b|e|] c] eqn:Hprop; [|done..]. intros [= <-].
  apply solo_propose_Ok in Hprop as (_ & _ & _ & _ & Hh & Htx & _). simpl.
  destruct (ingest_rpc b (act (tn_services s))) as [-> ->]. rewrite Hp, Hb, Hh.
  split_and!; [done..|]. by exists b.
Qed.
Lemma quiet_run height turns s s' :
  pool (tn_mempool s) = [] → (length (pending s) ≤ 100)%nat → Forall (λ t, quiet_action t.2) turns →
  solo_testnet_run height turns s = (Ok tt, s') →
  pool (tn_mempool s') = [] ∧ pending s' = pending s ∧
  (∀ h, h < height → blocks s' !! h = blocks s !! h) ∧
  ∀ i, (i < length turns)%nat → ∃ b,
    blocks s' !! (height + N.of_nat i) = Some b ∧ transactions (body b) = pending s.
Proof.
  intros Hpool Hlen Hquiet. revert height s Hpool Hlen.
  induction Hquiet as [|[now act] turns Hact Hquiet IH]; intros height s Hpool Hlen; cbn [solo_testnet_run].
  { intros [= <-]. split_and!; [done..|]. simpl. lia. }
  intros ([] & s0 & Hact0 & Hrun)%bind_Ok_inv. injection Hact0 as <-.
  apply bind_Ok_inv in Hrun as ([] & s1 & Hturn & Hrun).
  apply quiet_turn in Hturn as (Hpool1 & Hp1 & b & Hb1 & Htx); [|done..].
  rewrite <-Hp1 in Hlen.
  destruct (IH (height + 1) s1 Hpool1 Hlen Hrun) as (Hpool' & Hp' & Hlow & Hall).
  rewrite Hp1 in Hp', Hall. split_and!; [done..| |].
  - intros h Hh. rewrite Hlow, Hb1 by lia. apply lookup_insert_ne. lia.
  - intros [|i] Hi.
    + exists b. split; [|done]. rewrite N.add_0_r, Hlow, Hb1 by lia. apply lookup_insert_eq.
    + destruct (Hall i) as (b' & Hb' & Htx'); [simpl in Hi; lia|]. exists b'. split; [|done].
      rewrite <-Hb'. f_equal. lia.
Qed.

(** The solo testnet never takes a submitted transaction off the RPC pending
    list, so every block repeats it: from an empty mempool with at most a hundred
    pending transactions, while nothing new is submitted, each block holds all of
    them again, and they are still pending in the end. *)
Lemma testnet_repeats_pending (height : N) (turns : list (N * Action)) (s s' : TestnetState) :
  pool (tn_mempool s) = [] → (length (pending s) ≤ 100)%nat → Forall (λ t, quiet_action t.2) turns →
  solo_testnet_run height turns s = (Ok tt, s') →
  pending s' = pending s ∧
  ∀ i, (i < length turns)%nat → ∃ b,
    RpcState.get_block_by_height (height + N.of_nat i) (sv_rpc (tn_services s')) = Some b ∧
    transactions (body b) = pending s.
Proof. intros Hpool Hlen Hquiet Hrun. by destruct (quiet_run _ _ _ _ Hpool Hlen Hquiet Hrun) as (_ & ? & _ & ?). Qed.

(** A block that cannot be built ends the loop. *)
Lemma solo_turn_fails height now s (t : Transaction) (e : VmError) :
  (∀ st : StateStore InMemoryBackend, (execute t st).1 = Err e) →
  t ∈ take 100 (pool (tn_mempool s) ++ pending s) → is_ok (solo_turn height now s).1 = false.
Proof.
  intros Hex Hin. rewrite solo_turn_run. unfold solo_propose.
  pose proof (run_block_rejects t e Hex _ (solo_state (tn_consensus s)) Hin) as Hrun.
  unfold zoom at 1, mbind at 1, M_bind at 1.
  by destruct (run_block _ (solo_state (tn_consensus s))) as [[]st].
Qed.
End solo_testnet.

(** ** [services.rs]: [run_services] and [poll_validator] *)
Section polling.
Context `{Json, !ValueBytes, Hmac, HashOrder, Hex, Blake3, Dalek}.
Context `{!Serde Transaction, !Serde BlockHeader, !Serde StakingOperation}.

(** What [run_services] writes before the servers run: the allocations of the
    genesis file, when there is one, and the faucet account. *)
Definition run_services_seed (genesis : option GenesisConfig) (s : RpcStateInner)
    : outcome NodeError RpcStateInner :=
  let s := match genesis with
           | Some g => foldl (λ s e, RpcState.set_account e.1 e.2 s) s (btree_iter (gn_allocations g))
           | None => s
           end in
  kp ← map_err (λ _, NodeConfigError "failed to generate faucet keypair")
         (keypair_from_seed LOCAL_FAUCET_SEED);
  Ok (RpcState.set_account (from_public_key_hash (hash_bytes (public_bytes (kp_public kp))))
        (MkAccount 1000000000 0) s).

(** The height a status request gives: [status] is [None] when the request or the
    parse of its body fails, else the number under ["height"], if there is one. *)
Definition poll_height (last_height : N) (status : option (option N)) : N :=
  default last_height (mjoin status).
(** [(last_height + 1)..=current_height] *)
Definition poll_range (last_height current_height : N) : list N :=
  (λ i, last_height + 1 + N.of_nat i) <$> seq 0 (N.to_nat (current_height - last_height)).
(** One turn of the loop; [fetch] is the raw block endpoint, [None] when the
    request or the parse fails. *)
Definition poll_turn (status : option (option N)) (fetch : N → option Block)
    (s : N * Services) : N * Services :=
  let '(last_height, services) := s in
  let current_height := poll_height last_height status in
  if current_height <=? last_height then s
  else
    (current_height,
     foldl (λ services h, match fetch h with
                          | Some b => services_ingest_block b services
                          | None => services
                          end) services (poll_range last_height current_height)).
(** Turns in sequence, each with its own answers. *)
Definition poll_turns (turns : list (option (option N) * (N → option Block))) (s : N * Services)
    : N * Services := foldl (λ s t, poll_turn t.1 t.2 s) s turns.

(** *** What polling does to the block index *)
Lemma poll_range_spec a b h : h ∈ poll_range a b ↔ a < h ≤ b.
Proof.
  unfold poll_range. rewrite list_elem_of_fmap. setoid_rewrite elem_of_seq. split.
  - intros (i & -> & Hi). lia.
  - intros Hh. exists (N.to_nat (h - a - 1)). lia.
Qed.
Lemma replay_staking_blocks sender op r : rpc_blocks (replay_staking sender op r) = rpc_blocks r.
Proof. unfold replay_staking. by repeat case_match. Qed.
Lemma services_ingest_blocks (b : Block) sv :
  rpc_blocks (sv_rpc (services_ingest_block b sv)) =
    <[bh_height (header b) := b]> (rpc_blocks (sv_rpc sv)).
Proof.
  unfold services_ingest_block, ingest_with. cbn zeta.
  announced.
  simpl. f_equal. generalize (sv_rpc sv) as r.
  induction (transactions (body b)) as [|t ts IH]; intros r; [done|]. simpl. rewrite IH.
  unfold services_replay, replay_with. repeat case_match; [done..| | |]; simpl;
    by rewrite ?replay_staking_blocks.
Qed.
(** The endpoint serves blocks under their own heights. *)
Definition honest (fetch : N → option Block) : Prop :=
  ∀ h b, fetch h = Some b → bh_height (header b) = h.
Lemma poll_turn_blocks status fetch last sv h :
  honest fetch →
  let '(last', sv') := poll_turn status fetch (last, sv) in
  last ≤ last' ∧ rpc_blocks (sv_rpc sv') !! h =
    match (if bool_decide (last < h ≤ last') then fetch h else None) with
    | Some b => Some b
    | None => rpc_blocks (sv_rpc sv) !! h
    end.
Proof.
  intros Hf. unfold poll_turn. set (current := poll_height last status).
  destruct (N.leb_spec current last) as [Hle|Hlt].
  { split; [done|]. by rewrite bool_decide_false by lia. }
  split; [lia|]. rewrite (bool_decide_ext _ (h ∈ poll_range last current)) by by rewrite poll_range_spec.
  induction (poll_range last current) as [|x l IH] using rev_ind; [done|].
  rewrite foldl_app. cbn [foldl].
  destruct (decide (x = h)) as [->|Hne].
  - rewrite bool_decide_true by set_solver. destruct (fetch h) as [b|] eqn:Hb.
    + rewrite services_ingest_blocks, (Hf _ _ Hb). apply lookup_insert_eq.
    + rewrite IH. by case_bool_decide.
  - rewrite (bool_decide_ext _ (h ∈ l)) by set_solver. rewrite <-IH.
    destruct (fetch x) as [b|] eqn:Hb; [|done].
    rewrite services_ingest_blocks, (Hf _ _ Hb). by apply lookup_insert_ne.
Qed.

(** A block that cannot be fetched when its turn comes is never asked for again:
    the services' index of it stays as it was, whatever the endpoint serves
    later. *)
Lemma poll_never_retries status fetch last sv h turns :
  honest fetch → Forall (λ t, honest t.2) turns → fetch h = None →
  last < h ≤ (poll_turn status fetch (last, sv)).1 →
  rpc_blocks (sv_rpc (poll_turns turns (poll_turn status fetch (last, sv))).2) !! h =
    rpc_blocks (sv_rpc sv) !! h.
Proof.
  intros Hf Hall Hnone Hh. pose proof (poll_turn_blocks status fetch last sv h Hf) as Hturn.
  destruct (poll_turn status fetch (last, sv)) as [last' sv']. simpl in *.
  destruct Hturn as [_ Hturn]. rewrite bool_decide_true, Hnone in Hturn by done. rewrite <-Hturn.
  assert (h ≤ last') as Hle by lia. clear -Hall Hle.
  revert last' sv' Hle. induction Hall as [|[st f] turns Hf Hall IH]; intros last sv Hle; [done|].
  change (poll_turns ((st, f) :: turns) (last, sv)) with (poll_turns turns (poll_turn st f (last, sv))).
  pose proof (poll_turn_blocks st f last sv h Hf) as Hturn.
  destruct (poll_turn st f (last, sv)) as [last' sv']. destruct Hturn as [Hmono Hturn].
  rewrite bool_decide_false in Hturn by lia. rewrite <-Hturn. apply IH. lia.
Qed.
End polling.

(** ** What the services know after polling *)
(** The height one status answer reports; zero when there is none. *)
Definition status_height (status : option (option N)) : N := default 0 (mjoin status).

Section following.
Context `{Json, !ValueBytes, Hmac, HashOrder, Hex, Blake3, Dalek, Profile}.
Context `{!Serde Transaction, !Serde BlockHeader, !Serde StakingOperation}.
Context `{!Serde Account, !Serde (gmap string bytes), !Serde ValidatorRecord, !Serde Delegation}.
Implicit Types (L : Ledger) (sv : Services) (chain : list Block).

(** A turn in which every block up to the height reported is served: [chain] holds
    the validator's blocks from height one on. *)
Definition serves chain (turn : option (option N) * (N → option Block)) : Prop :=
  status_height turn.1 ≤ N.of_nat (length chain) ∧
  ∀ i, N.of_nat i < status_height turn.1 → turn.2 (N.of_nat i + 1) = chain !! i.
(** The blocks of a chain ingested in order. *)
Definition ingest_chain chain sv : Services := foldl (λ sv b, services_ingest_block b sv) sv chain.

Lemma ingest_range chain (fetch : N → option Block) a n sv :
  (∀ i, (i < n)%nat → fetch (a + 1 + N.of_nat i) = chain !! (N.to_nat a + i)%nat) →
  (N.to_nat a + n ≤ length chain)%nat →
  foldl (λ sv h, match fetch h with Some b => services_ingest_block b sv | None => sv end) sv
    ((λ i, a + 1 + N.of_nat i) <$> seq 0 n) =
  ingest_chain (take n (drop (N.to_nat a) chain)) sv.
Proof.
  induction n as [|n IH]; intros Hf Hlen; [by rewrite take_0|].
  rewrite seq_S, fmap_app, foldl_app, IH by (intros; try apply Hf; lia).
  cbn [foldl fmap list_fmap]. rewrite Nat.add_0_l.
  destruct (lookup_lt_is_Some_2 chain (N.to_nat a + n)) as [b Hb]; [lia|].
  rewrite Hf, Hb by lia. rewrite (take_S_r _ n b) by by rewrite lookup_drop.
  unfold ingest_chain. by rewrite foldl_app.
Qed.
Lemma poll_turn_follows chain turn last sv :
  serves chain turn → last ≤ N.of_nat (length chain) →
  poll_turn turn.1 turn.2 (last, ingest_chain (take (N.to_nat last) chain) sv) =
    (N.max last (status_height turn.1),
     ingest_chain (take (N.to_nat (N.max last (status_height turn.1))) chain) sv).
Proof.
  destruct turn as [status fetch]. intros [Hle Hf] Hlast. cbn [fst snd] in *. unfold poll_turn.
  assert (poll_height last status = status_height status ∨ poll_height last status = last ∧ status_height status = 0)
    as Hheight by (unfold poll_height, status_height; destruct (mjoin status); [by left|by right]).
  destruct (N.leb_spec (poll_height last status) last) as [Hstop|Hgo].
  { by replace (N.max last (status_height status)) with last by lia. }
  destruct Hheight as [Heq|[? _]]; [|lia]. rewrite Heq in *.
  replace (N.max last (status_height status)) with (status_height status) by lia. f_equal.
  unfold poll_range. rewrite (ingest_range chain) by (intros; rewrite <-?Hf; try f_equal; lia).
  unfold ingest_chain. rewrite <-foldl_app, take_take_drop. do 2 f_equal. lia.
Qed.
Lemma ingest_chain_mirrors chain sv L n :
  let ts := chain ≫= (λ b, transactions (body b)) in
  ledger_inv L → nonce_room (length ts + n) L → mirrors (sv_rpc sv) L → all_settled ts L →
  mirrors (sv_rpc (ingest_chain chain sv)) (run_txs ts L).
Proof.
  revert sv L. induction chain as [|b chain IH]; intros sv L ts Hinv Hroom Hm Hs; [done|].
  unfold ts in *. clear ts. cbn in Hroom, Hs |- *.
  rewrite length_app, <-Nat.add_assoc in Hroom.
  apply all_settled_app in Hs as [Hs1 Hs2].
  destruct (replay_mirrors services_replay _ _ (sv_rpc sv) L services_replay_transfer Hinv Hroom Hm Hs1)
    as (Hm1 & Hinv1 & Hroom1).
  unfold run_txs. rewrite foldl_app. apply IH; [done|done| |done]. by apply ingest_mirrors.
Qed.

Lemma status_heights_bound chain turns :
  Forall (serves chain) turns →
  foldl N.max 0 (status_height ∘ fst <$> turns) ≤ N.of_nat (length chain).
Proof.
  induction turns as [|turn turns IH] using rev_ind; [simpl; lia|].
  intros [Hall [Hturn _]%Forall_singleton]%Forall_app. rewrite fmap_app, foldl_app.
  specialize (IH Hall). cbn. lia.
Qed.

(** C24: The services process follows its validator.  Take any number of polls with
    arbitrary status answers, in each of which every block up to the height it
    reports is served from one chain.  Then the process has ingested the blocks of
    heights one to the largest height reported, each exactly once and in order, also
    when reports failed or went down in between.  If its account mirror started
    equal to a ledger and the transactions of these blocks are settled transfers
    (charged in full or not at all), the mirror is now the ledger that executed them
    all. *)
Theorem services_follow_validator turns chain sv last' sv' :
  Forall (serves chain) turns → poll_turns turns (0, sv) = (last', sv') →
  last' = foldl N.max 0 (status_height ∘ fst <$> turns) ∧
  sv' = ingest_chain (take (N.to_nat last') chain) sv ∧
  let ts := take (N.to_nat last') chain ≫= (λ b, transactions (body b)) in
  ∀ L, ledger_inv L → nonce_room (length ts) L → mirrors (sv_rpc sv) L → all_settled ts L →
    mirrors (sv_rpc sv') (run_txs ts L).
Proof.
  intros Hall Hrun.
  assert (last' = foldl N.max 0 (status_height ∘ fst <$> turns) ∧
    sv' = ingest_chain (take (N.to_nat last') chain) sv) as [Hlast Hsv].
  { revert last' sv' Hrun. induction turns as [|turn turns IH] using rev_ind; [by intros ? ? [= <- <-]|].
    apply Forall_app in Hall as [Hall Hturn]. rewrite Forall_singleton in Hturn. unfold poll_turns in *.
    intros last' sv'. rewrite foldl_app. destruct (foldl _ (0, sv) turns) as [last sv1] eqn:Hrun.
    destruct (IH Hall _ _ eq_refl) as [Hlast ->]. cbn [foldl].
    rewrite (poll_turn_follows chain turn last sv Hturn) by (rewrite Hlast; by apply status_heights_bound).
    intros [= <- <-]. split; [|done]. rewrite fmap_app, foldl_app. by rewrite <-Hlast. }
  split_and!; [done..|]. intros ts L Hinv Hroom Hm Hs. rewrite Hsv.
  apply (ingest_chain_mirrors _ sv L 0); [done|by rewrite Nat.add_0_r|done|done].
Qed.
End following.
