(* ===== verification/ServicesStart.v ===== *)
(** * Starting a testnet and its services

    The set-up of [testnet.rs] (one validator or a committee in one process, with
    the shared services beside them) and of [services.rs] (the services alone),
    what a committee's collector does with the blocks its validators report, and
    the RPC state each validator keeps for itself ([run_bft_validator]).  The
    listeners are the addresses they are bound to; the tasks are what they are
    started with. *)

From Stdlib Require Import Strings.Byte.
From stdpp Require Import pretty.
From S2P Require Import Prelude.
From S2P Require Import Externals.
From S2P Require Import Primitives.
From S2P Require Import Storage.
From S2P Require Import StateStore.
From S2P Require Import Crypto.
From S2P Require Import Vm.
From S2P Require Import VmTheorems.
From S2P Require Import ValidatorSet.
From S2P Require Import Protocol.
From S2P Require Import Web.
From S2P Require Import Rpc.
From S2P Require Import Explorer.
From S2P Require Import Webhooks.
From S2P Require Import Faucet.
From S2P Require Import NodeServices.
From S2P Require Import Mempool.
From S2P Require Import Bft.
From S2P Require Import BftTheorems.
From S2P Require Import BftProperties.
From S2P Require Import Network.
From S2P Require Import NodeConfig.
From S2P Require Import NodeLoops.
From S2P Require Import NodeStartup.
From S2P Require Import Testnet.
Local Open Scope N_scope.

(** ** The shared services *)

(** The servers a process starts: the addresses they listen on, and the faucet. *)
Record SharedServices := MkShared {
  sh_rpc_listen : string;
  sh_grpc_listen : option string;
  sh_explorer_listen : string;
  sh_webhooks_listen : string;
  sh_faucet : FaucetState RpcStateInner;
}.

Section shared.
Context `{Blake3, Dalek, Hex, !Serde Transaction}.

(** [spawn_shared_services] (built with the [grpc] feature): seed the faucet's
    account, then start the servers. *)
Definition spawn_shared_services (c : TestnetConfig) : M Services NodeError SharedServices :=
  let address := default Address_default (testnet_faucet_address c) in
  _ ← modify (seed_faucet c);
  keypair ← lift (map_err NodeConfigError (testnet_faucet_keypair c));
  let config := MkFaucetConfig (tc_faucet_listen c) (Address_to_string address) 10000 0
                  (testnet_rpc_internal_url c) in
  mret (MkShared (tc_rpc_listen c) (Some (tc_grpc_listen c)) (tc_explorer_listen c)
    ports.webhooks_local (MkFaucetState config keypair address (LocalSubmitter address))).

(** [run_services] up to the poll loop; [host] and [dir] are the variables
    [PEMRIX_BIND_HOST] and [PEMRIX_DATA_DIR].  A genesis file that cannot be read
    is ignored. *)
Definition run_services `{!JsonText GenesisConfig} (rpc_url : string) (host dir : option string)
    : M FileSystem NodeError (Services * SharedServices) := λ fs,
  let host := bind_host host in
  let '(loaded, fs) := genesis_load (default "/var/lib/pemrix" dir) fs in
  let genesis := match loaded with Ok g => Some g | _ => None end in
  (rpc ← run_services_seed genesis RpcState.new;
   keypair ← map_err (λ _, NodeConfigError "failed to generate faucet keypair")
               (keypair_from_seed LOCAL_FAUCET_SEED);
   let address := from_public_key_hash (hash_bytes (public_bytes (kp_public keypair))) in
   let config := MkFaucetConfig (host_port host ports.FAUCET) (Address_to_string address) 10000 0 rpc_url in
   Ok (MkServices rpc ExplorerState.new WebhookState.new,
       MkShared (host_port host ports.SERVICES_RPC) None (host_port host ports.EXPLORER)
         ports.webhooks_local (MkFaucetState config keypair address (LocalSubmitter address))), fs).
End shared.

(** ** [run_testnet] *)
Section run_testnet.
Context `{Json, !ValueBytes, Hmac, HashOrder, Profile, Hex, Blake3, Dalek}.
Context `{!Serde Account, !Serde (gmap string bytes), !Serde ValidatorRecord, !Serde Delegation}.
Context `{!Serde Transaction, !Serde StakingOperation, !Serde BlockHeader, !Serde (list Transaction)}.
Context `{SocketAddrs, !JsonText NodeConfig, !JsonText GenesisConfig}.

(** [run_solo_testnet] up to its block loop, the [for] over [solo_turn]; [env]
    is [PEMRIX_BIND_HOST] and [now] the clock. *)
Definition run_solo_testnet (data_dir : string) (env : option string) (now : N)
    : M FileSystem NodeError (TestnetState * SharedServices) :=
  testnet ← lift (testnet_local env);
  let genesis := solo_testnet_genesis testnet now in
  _ ← config_save (solo_testnet_config data_dir testnet);
  _ ← genesis_save data_dir genesis;
  st ← lift (solo_testnet_start testnet genesis);
  let '(shared, services) := spawn_shared_services testnet (tn_services st) in
  shared ← lift shared;
  mret (MkTestnetState (tn_consensus st) (tn_mempool st) services, shared).

(** The committee: what each validator task is started with, and the services. *)
Record BftTestnet := MkBftTestnet {
  bt_validators : list (NodeConfig * GenesisConfig);
  bt_services : Services;
  bt_shared : SharedServices;
}.
(** The loop that saves each validator's configuration and spawns it. *)
Fixpoint spawn_validators (data_dir : string) (c : TestnetConfig) (g : GenesisConfig)
    (set : ValidatorSet) (all : list Address) (addrs : gmap Address SocketAddr) (i : nat)
    (rest : list Address) : M FileSystem NodeError (list (NodeConfig * GenesisConfig)) :=
  match rest with
  | [] => mret []
  | a :: rest =>
      config ← lift (bft_testnet_config data_dir c set all addrs i a);
      _ ← config_save config;
      spawned ← spawn_validators data_dir c g set all addrs (Datatypes.S i) rest;
      mret ((config, g) :: spawned)
  end.
Definition run_bft_testnet (data_dir : string) (validator_count : nat) (env : option string) (now : N)
    : M FileSystem NodeError BftTestnet :=
  testnet ← lift (testnet_local env);
  let addresses := validator_addresses validator_count in
  let set := from_validators ((λ a, MkValidator a 1) <$> addresses) in
  let genesis := bft_testnet_genesis testnet addresses now in
  _ ← genesis_save data_dir genesis;
  block ← lift (genesis_block genesis);
  let services := seed_services genesis block
                    (MkServices RpcState.new ExplorerState.new WebhookState.new) in
  let '(shared, services) := spawn_shared_services testnet services in
  shared ← lift shared;
  addrs ← lift (validator_addrs 0 addresses ∅);
  validators ← spawn_validators data_dir testnet genesis set addresses addrs 0 addresses;
  mret (MkBftTestnet validators services shared).
(** The task that ingests what the validators report, as it arrives. *)
Definition collect (blocks : list Block) (s : Services) : Services :=
  foldl (λ s b, testnet_ingest_block b s) s blocks.

(** The height the RPC server reports after a list of blocks. *)
Lemma ingest_height b s :
  rpc_height (sv_rpc (testnet_ingest_block b s)) = N.max (rpc_height (sv_rpc s)) (bh_height (header b)).
Proof.
  unfold testnet_ingest_block, ingest_with, announce_transactions. cbn zeta.
  rewrite (foldl_same (λ s, rpc_height (sv_rpc s))) by done. simpl.
  rewrite (foldl_same rpc_height).
  - destruct (N.ltb_spec (rpc_height (sv_rpc s)) (bh_height (header b))); lia.
  - intros r t. unfold testnet_replay, replay_with. by repeat case_match.
Qed.
Lemma collect_height blocks s k :
  rpc_height (sv_rpc s) ≤ k → Forall (λ b, bh_height (header b) ≤ k) blocks →
  rpc_height (sv_rpc (collect blocks s)) ≤ k.
Proof.
  intros Hs Hall. revert s Hs. induction Hall as [|b blocks Hb Hall IH]; intros s Hs; [done|].
  apply IH. rewrite ingest_height. lia.
Qed.
(** A committee's services start at the genesis block. *)
Lemma run_bft_testnet_height dir count env now fs t fs' :
  run_bft_testnet dir count env now fs = (Ok t, fs') → rpc_height (sv_rpc (bt_services t)) = 0.
Proof.
  unfold run_bft_testnet. rewrite bind_lift. destruct (testnet_local env) as [c|e|]; [|done..].
  intros ([] & fs1 & _ & Hrun)%bind_Ok_inv. rewrite bind_lift in Hrun.
  destruct (genesis_block _) as [b|e|] eqn:Hb; [|done..].
  destruct (spawn_shared_services c _) as [shared services] eqn:Hsh. rewrite bind_lift in Hrun.
  destruct shared as [shared|e|]; [|done..]. rewrite bind_lift in Hrun.
  destruct (validator_addrs _ _ _) as [addrs|e|]; [|done..].
  apply bind_Ok_inv in Hrun as (tasks & fs2 & _ & [= <- _]). simpl.
  assert (rpc_height (sv_rpc services) = 0) as ->; [|done].
  assert (bh_height (header b) = 0) as Hb0.
  { unfold genesis_block in Hb. destruct (seed_allocations _ _) as [[u|e|] st]; [|done..].
    apply outcome_bind_Ok in Hb as (root & _ & [= <-]). done. }
  revert Hsh. unfold spawn_shared_services, seed_services.
  unfold mbind, M_bind, modify. destruct (map_err _ _) as [kp|e|]; [|done..]. intros [= _ <-]. simpl.
  rewrite (foldl_same (λ s, rpc_height (sv_rpc s))) by done. simpl. by rewrite Hb0.
Qed.

(** The collector ingests a block every time a validator reports it: of a list of
    reports of empty blocks, each makes a delivery to every subscriber of blocks. *)
Lemma collect_deliveries blocks s :
  Forall (λ b, transactions (body b) = []) blocks →
  delivery_log (sv_webhooks (collect blocks s)) =
    delivery_log (sv_webhooks s) ++
    concat ((λ b, omap (entry_of EvBlock (json_number "height" (bh_height (header b))))
      (WebhookState.list (sv_webhooks s))) <$> blocks) ∧
  subscriptions (sv_webhooks (collect blocks s)) = subscriptions (sv_webhooks s).
Proof.
  intros Hall. revert s. induction Hall as [|b blocks Hb Hall IH]; intros s.
  { simpl. by rewrite (right_id_L [] (++)). }
  unfold collect. cbn [foldl]. fold (collect blocks (testnet_ingest_block b s)).
  assert (sv_webhooks (testnet_ingest_block b s) =
    WebhookState.trigger EvBlock (json_number "height" (bh_height (header b))) (sv_webhooks s)) as Hw.
  { unfold testnet_ingest_block, ingest_with. by rewrite Hb. }
  destruct (IH (testnet_ingest_block b s)) as [-> ->]. rewrite Hw. unfold WebhookState.trigger.
  rewrite trigger_fold. simpl. split; [|done]. by rewrite <-(assoc_L (++)).
Qed.
(** Ingesting never changes the explorer's accounts. *)
Lemma collect_explorer_accounts blocks s :
  ex_accounts (sv_explorer (collect blocks s)) = ex_accounts (sv_explorer s).
Proof.
  revert s. induction blocks as [|b blocks IH]; intros s; [done|].
  unfold collect. cbn [foldl]. fold (collect blocks (testnet_ingest_block b s)). rewrite IH.
  unfold testnet_ingest_block, ingest_with. cbn zeta.
  by announced.
Qed.

Inductive Testnet :=
| SoloTestnet (st : TestnetState) (shared : SharedServices)
| CommitteeTestnet (t : BftTestnet).
Definition run_testnet (data_dir : string) (validator_count : nat) (env : option string) (now : N)
    : M FileSystem NodeError Testnet :=
  if (validator_count =? 0)%nat then fail (NodeConfigError "validator_count must be at least 1")
  else if (validator_count =? 1)%nat then
    solo ← run_solo_testnet data_dir env now;
    mret (SoloTestnet solo.1 solo.2)
  else
    t ← run_bft_testnet data_dir validator_count env now;
    mret (CommitteeTestnet t).
End run_testnet.

(** ** [run_bft_validator]: the validator's own RPC server *)
Section validator_rpc.
Context {S : Type} `{Store S, Profile, Blake3, Dalek, Hex, !Serde Account, !Serde (gmap string bytes)}.
Context `{!Serde ValidatorRecord, !Serde Delegation, !Serde Transaction, !Serde StakingOperation}.
Context `{!Serde BlockHeader, !Serde (list Transaction), !Serde Vote, SocketAddrs}.
Implicit Types (g : GenesisConfig) (r : RpcStateInner).

(** [PEMRIX_BLOCK_INTERVAL_MS], in milliseconds. *)
Definition block_interval_ms (env : option string) : N :=
  N.max (match parse_uint U64 <$> env with Some (Ok ms) => ms | _ => 1000 end) 50.
(** The state the server starts with. *)
Definition validator_rpc g : RpcStateInner :=
  foldl (λ r e, RpcState.set_account e.1 e.2 r) RpcState.new (btree_iter (gn_allocations g)).
(** The loop that ends the function: each block received is stored. *)
Definition rpc_update (blocks : list Block) r : RpcStateInner :=
  foldl (λ r b, RpcState.store_block b r) r blocks.

Lemma block_interval_bounds env : 50 ≤ block_interval_ms env ≤ U64.
Proof.
  unfold block_interval_ms. destruct env as [s|]; simpl; [|unfold U64; lia].
  destruct (parse_uint U64 s) as [ms|e|] eqn:Hp; [|unfold U64; lia..].
  apply parse_uint_range in Hp. unfold U64 in *. lia.
Qed.
(** The engine a validator starts with satisfies the node's invariant. *)
Lemma bft_engine_launched c g (store : S) e :
  bft_engine c g store = Ok e →
  ∃ local vs b st' e0, nc_local_validator_address c = Some local ∧ nc_validator_set c = Some vs ∧
    genesis_block g = Ok b ∧ new_with_store local vs store (block_hash b) = Ok e0 ∧
    seed_allocations (gn_allocations g) store = (Ok tt, st') ∧ e = set_state st' e0.
Proof.
  unfold bft_engine.
  destruct (nc_validator_set c) as [vs|]; [|done]. destruct (nc_local_validator_address c) as [local|]; [|done].
  simpl. intros (b & Hb & (sock & _ & Hrun)%outcome_bind_Ok)%outcome_bind_Ok.
  exists local, vs, b. destruct (new_with_store local vs store (block_hash b)) as [e0|x|] eqn:Hnew; [|done..].
  assert (state e0 = store) as Hst.
  { unfold new_with_store in Hnew. by destruct (is_validator vs local); simplify_eq. }
  unfold zoom in Hrun. rewrite Hst in Hrun.
  destruct (seed_allocations (gn_allocations g) store) as [[[]|x|] st'] eqn:Hseed; [|done..].
  injection Hrun as <-. by exists st', e0.
Qed.
Lemma bft_engine_inv c g (store : S) e :
  bft_engine c g store = Ok e → ∃ genesis, node_inv genesis [] (node_new e).
Proof.
  intros (local & vs & b & st' & e0 & _ & _ & _ & Hnew & _ & ->)%bft_engine_launched.
  exists (block_hash b). pose proof (node_new_inv _ _ _ _ _ Hnew) as Hn.
  apply (node_inv_quiet _ _ _ (set_state st' e0)) in Hn; [done| |].
  - apply (chain_set_state (block_hash b) _ st' _ (conj (ni_bft _ _ _ Hn) (continues_refl _))).
  - split; [apply (ni_complete _ _ _ Hn)|done].
Qed.

(** *** What the server knows after storing blocks *)
Lemma rpc_update_accounts blocks r : rpc_accounts (rpc_update blocks r) = rpc_accounts r.
Proof. revert r. induction blocks as [|b blocks IH]; intros r; [done|]. simpl. by rewrite IH. Qed.
Lemma validator_rpc_accounts g : rpc_accounts (validator_rpc g) = gn_allocations g.
Proof. unfold validator_rpc. rewrite set_accounts_union. apply (right_id_L ∅ (∪)). Qed.
Lemma rpc_update_blocks blocks r (P : Block → Prop) :
  (∀ b, b ∈ blocks → P b) →
  (∀ h b, rpc_blocks r !! h = Some b → bh_height (header b) = h ∧ P b) →
  (∀ x b, rpc_blocks_by_hash r !! x = Some b → block_hash b = x ∧ P b) →
  let r' := rpc_update blocks r in
  (∀ h b, rpc_blocks r' !! h = Some b → bh_height (header b) = h ∧ P b) ∧
  (∀ x b, rpc_blocks_by_hash r' !! x = Some b → block_hash b = x ∧ P b).
Proof.
  revert r. induction blocks as [|b0 blocks IH]; intros r Hall Hh Hx; [done|].
  apply IH; [set_solver|..]; simpl; intros k b; rewrite lookup_insert;
    (case_decide; [intros [= <-]; split; [done|apply Hall; by left]|by eauto]).
Qed.
Lemma rpc_update_height blocks r :
  rpc_height (rpc_update blocks r) = foldr N.max (rpc_height r) ((λ b, bh_height (header b)) <$> blocks).
Proof.
  assert (∀ hs a b, foldr N.max (N.max a b) hs = N.max a (foldr N.max b hs)) as Hmax.
  { intros hs a b. induction hs as [|h hs IH]; simpl; [done|]. rewrite IH. lia. }
  revert r. induction blocks as [|b blocks IH]; intros r; [done|]. simpl. rewrite IH. simpl.
  rewrite <-Hmax. f_equal. destruct (N.ltb_spec (rpc_height r) (bh_height (header b))); lia.
Qed.

Lemma validator_rpc_empty g :
  rpc_blocks (validator_rpc g) = ∅ ∧ rpc_blocks_by_hash (validator_rpc g) = ∅ ∧
  rpc_height (validator_rpc g) = 0.
Proof.
  unfold validator_rpc. generalize (btree_iter (gn_allocations g)) as al. intros al.
  assert (∀ r0, let r1 := foldl (λ r e, RpcState.set_account e.1 e.2 r) r0 al in
    rpc_blocks r1 = rpc_blocks r0 ∧ rpc_blocks_by_hash r1 = rpc_blocks_by_hash r0 ∧
    rpc_height r1 = rpc_height r0) as Hal; [|by apply (Hal RpcState.new)].
  induction al as [|x al IH]; intros r0; [done|]. simpl.
  by destruct (IH (RpcState.set_account x.1 x.2 r0)) as (-> & -> & ->).
Qed.
(** The highest of increasing heights is the last, in whatever order they come. *)
Lemma max_of_increasing (l received : list Block) :
  StronglySorted (λ x y, bh_height (header x) < bh_height (header y)) l → received ≡ₚ l →
  foldr N.max 0 ((λ b, bh_height (header b)) <$> received) =
    from_option (λ b, bh_height (header b)) 0 (last l).
Proof.
  intros Hs Hp. transitivity (foldr N.max 0 ((λ b, bh_height (header b)) <$> l)).
  { apply (foldr_permutation eq N.max 0); [intros; lia|by f_equiv]. }
  clear Hp. destruct l as [|t l _] using rev_ind; [done|]. rewrite last_snoc, fmap_app, foldr_app. simpl.
  apply StronglySorted_app in Hs as (Hlt & _). rewrite N.max_0_r.
  assert (∀ x, x ∈ l → bh_height (header x) < bh_height (header t)) as Hall by set_solver. clear Hlt.
  induction l as [|x l IH]; [done|]. rewrite fmap_cons; cbn [foldr]; rewrite (IH ltac:(intros y Hy; apply Hall; by right)).
  specialize (Hall x ltac:(by left)). lia.
Qed.

(** A validator's RPC server only ever serves what its engine has finalized:
    from the configuration and genesis it was started with, however its loops
    interleave, and whichever of the reported blocks have arrived in whatever
    order, each block it returns, by height or by hash, is the block final at
    that height, under its own hash; the height it states never exceeds the
    engine's, and is the engine's once every report has arrived. *)
Lemma rpc_serves_finalized (config : NodeConfig) (g : GenesisConfig) (store : S)
    (e : BftConsensus S) (n : NodeState S) (received waiting : list Block) :
  bft_engine config g store = Ok e → rtc node_step (node_new e) n →
  nd_channel n ++ nd_inflight n ≡ₚ received ++ waiting →
  let r := rpc_update received (validator_rpc g) in
  (∀ h b, RpcState.get_block_by_height h r = Some b →
     bh_height (header b) = h ∧ finalized (nd_engine n) !! h = Some b) ∧
  (∀ x b, RpcState.get_block_by_hash x r = Some b →
     block_hash b = x ∧ finalized (nd_engine n) !! bh_height (header b) = Some b) ∧
  RpcState.height r ≤ height (nd_engine n) ∧
  (waiting = [] → RpcState.height r = height (nd_engine n)).
Proof.
  intros (genesis & Hnew)%bft_engine_inv Hsteps Hreceived r.
  destruct (node_steps_inv genesis [] _ n Hsteps Hnew) as [l Hn]. simpl in Hn.
  pose proof (ni_announced _ _ _ Hn) as Hl. rewrite Hreceived in Hl.
  assert (∀ b, b ∈ received → finalized (nd_engine n) !! bh_height (header b) = Some b ∧
    bh_height (header b) ≤ height (nd_engine n)) as Hfin.
  { intros b Hb. assert (finalized (nd_engine n) !! bh_height (header b) = Some b) as Hf.
    { apply (ni_final _ _ _ Hn). rewrite <-Hl. set_solver. }
    split; [done|]. assert (is_Some (finalized (nd_engine n) !! bh_height (header b))) as Hs by by eexists.
    apply (inv_dom genesis _ (ni_bft _ _ _ Hn)) in Hs. lia. }
  destruct (validator_rpc_empty g) as (Hb0 & Hx0 & Hh0).
  destruct (rpc_update_blocks received (validator_rpc g)
    (λ b, finalized (nd_engine n) !! bh_height (header b) = Some b)) as [Hbyh Hbyx].
  { intros b Hb. by apply Hfin. }
  { intros h b. by rewrite Hb0, lookup_empty. }
  { intros x b. by rewrite Hx0, lookup_empty. }
  split_and!; [|exact Hbyx|..].
  - intros h b Hb. destruct (Hbyh h b Hb) as [<- ?]. done.
  - unfold RpcState.height, r. rewrite rpc_update_height, Hh0. clear -Hfin.
    induction received as [|b received IH]; simpl; [lia|]. apply N.max_lub; [apply Hfin; by left|].
    apply IH. intros b' Hb'. apply Hfin. by right.
  - intros ->. rewrite (right_id_L [] (++)) in Hl.
    rewrite (ni_tip _ _ _ Hn). unfold RpcState.height, r. rewrite rpc_update_height, Hh0.
    apply max_of_increasing; [apply (ni_sorted _ _ _ Hn)|by symmetry].
Qed.
End validator_rpc.
