(* ===== verification/NodeProcess.v ===== *)
(** * Crate [pemrix-node], [node.rs]: a validator process

    Opening the state store, what [run_bft_validator] sets up, and the process
    from then on: the two loops of [NodeLoops], the loop that stores finalized
    blocks in the RPC state, and the RPC server answering requests on that state,
    in any interleaving.  The theorem is about what a client of the SDK reads from
    a validator over HTTP. *)

From Stdlib Require Import Strings.Byte.
From S2P Require Import Prelude.
From S2P Require Import Externals.
From S2P Require Import Primitives.
From S2P Require Import Storage.
From S2P Require Import StateStore.
From S2P Require Import Crypto.
From S2P Require Import Vm.
From S2P Require Import ValidatorSet.
From S2P Require Import Web.
From S2P Require Import Rpc.
From S2P Require Import Sdk.
From S2P Require Import Bft.
From S2P Require Import BftTheorems.
From S2P Require Import BftProperties.
From S2P Require Import Network.
From S2P Require Import Tcp.
From S2P Require Import NodeConfig.
From S2P Require Import NodeLoops.
From S2P Require Import Http.
From S2P Require Import Servers.
From S2P Require Import ServerObjects.
From S2P Require Import NodeStartup.
From S2P Require Import ServicesStart.
Local Open Scope N_scope.

(** ** The state store of a node *)

(** [open_state_store] without the [rocksdb] feature. *)
Definition open_state_store (data_dir : string) : StateStore InMemoryBackend := new_in_memory.
(** [RocksDbBackend::open]; [open] is [rocksdb::DB::open] with [create_if_missing]. *)
Definition rk_open {DB} (open : string → outcome string DB) (path : string)
    : outcome StorageError (RocksDbBackend DB) :=
  db ← map_err (λ e, Backend ("failed to open rocksdb: " +:+ e)) (open path);
  Ok (MkRocksDb db).
(** [open_state_store] with the feature; [create_dir_all] gives the text of its
    error. *)
Definition open_state_store_rocksdb {DB} (create_dir_all : string → outcome string unit)
    (open : string → outcome string DB) (data_dir : string)
    : outcome NodeError (StateStore (RocksDbBackend DB)) :=
  let path := path_join data_dir "state" in
  _ ← map_err NodeIo (create_dir_all path);
  backend ← map_err NodeStorage (rk_open open path);
  Ok (MkStateStore backend).

Section lifecycle.
Context `{SocketAddrs}.
(** [struct Node], which nothing builds. *)
Record Node := MkNodeStruct { node_config : NodeConfig; node_genesis : GenesisConfig }.

Context `{!JsonText NodeConfig, !JsonText GenesisConfig, !JsonText ValidatorKeyFile, Hex}.
(** [keys], and [main] of the node binary. *)
Definition node_keys (data_dir : string) : M FileSystem NodeError string := keys_status data_dir.
Definition node_main : M FileSystem NodeError NodeMode := start "./pemrix-data".
End lifecycle.

(** ** [run_bft_validator] *)

(** What the tasks of a validator share: the loops' state, the transport they
    started from, the RPC state with its server, how many finalized blocks the last
    loop has received, and the production interval in milliseconds. *)
Record ValidatorProcess (S : Type) := MkValidatorProcess {
  vp_node : NodeState S;
  vp_transport : TcpTransport;
  vp_rpc : RpcServer;
  vp_received : nat;
  vp_interval : N;
}.
Arguments MkValidatorProcess {S} _ _ _ _ _.
Arguments vp_node {S} _.
Arguments vp_transport {S} _.
Arguments vp_rpc {S} _.
Arguments vp_received {S} _.
Arguments vp_interval {S} _.

Section process.
Context `{Json, !ToValue Block, !ToValue Transaction, !FromValue Block, !FromValue Transaction}.
Context `{!FromValueLaws Block, !FromValueLaws Transaction}.
Context `{HexLaws, Blake3, Dalek, !Serde Transaction, !Serde BlockHeader, !Serde (list Transaction)}.
Context `{!Serde StatusBody, !Serde Block, !Serde BlockResponse, !Serde TransactionResponse}.
Context `{!Serde BalanceResponse, !Serde NonceResponse, !Serde ValidatorResponse}.
Context `{!Serde DelegationResponse, !Serde SendTransactionRequest}.
Context `{!SerdeLaws BlockResponse, !SerdeLaws TransactionResponse, !SerdeLaws BalanceResponse}.
Context `{!SerdeLaws NonceResponse, !SerdeLaws SendTransactionRequest, AxumLaws, Profile}.
Context `{!Serde Account, !Serde (gmap string bytes), !Serde ValidatorRecord, !Serde Delegation}.
Context `{!Serde StakingOperation, !Serde Vote, SocketAddrs}.
Context {S : Type} `{Store S}.
Implicit Types (c : NodeConfig) (g : GenesisConfig) (v : ValidatorProcess S).

(** The set-up, before the tasks run: [bind] says which addresses the transport can
    listen on, [opened] is what opening the store gives, and [interval] is
    [PEMRIX_BLOCK_INTERVAL_MS].  A panic of the engine's constructor ends the
    task. *)
Definition run_bft_validator c g (bind : SocketAddr → bool) (opened : outcome NodeError S)
    (interval : option string) : outcome NodeError (ValidatorProcess S) :=
  vs ← ok_or (nc_validator_set c) (NodeConfigError "validator_set required for BFT validator");
  local ← ok_or (nc_local_validator_address c)
            (NodeConfigError "local_validator_address required for BFT validator");
  genesis ← genesis_block g;
  p2p_addr ← ok_or (parse_socket (nc_p2p_listen c)) (NodeConfigError "invalid p2p_listen address");
  transport ← (if bind p2p_addr then Ok (tcp_new (node_peer_id local)) else Err NodeNetwork);
  store ← opened;
  engine ← match new_with_store local vs store (block_hash genesis) with Ok e => Ok e | _ => Panic end;
  match zoom state set_state (seed_allocations (gn_allocations g)) engine with
  | (Ok _, engine) =>
      let rpc_state := svc_state (RpcServer_new (nc_rpc_listen c)) in
      let rpc_state := foldl (λ r e, RpcState.set_account e.1 e.2 r) rpc_state (btree_iter (gn_allocations g)) in
      Ok (MkValidatorProcess (node_new engine) transport
            (RpcServer_new_with_state (nc_rpc_listen c) rpc_state) 0 (block_interval_ms interval))
  | (Err e, _) => Err e
  | (Panic, _) => Panic
  end.
(** [spawn_bft_validator] runs it in a task, which [start_bft] waits for: a panic
    of the task is a consensus error of the node. *)
Definition start_bft c g (bind : SocketAddr → bool) (opened : outcome NodeError S) (interval : option string)
    : outcome NodeError (ValidatorProcess S) :=
  match run_bft_validator c g bind opened interval with
  | Panic => Err NodeConsensus
  | o => o
  end.

Definition with_node (n : NodeState S) v : ValidatorProcess S :=
  MkValidatorProcess n (vp_transport v) (vp_rpc v) (vp_received v) (vp_interval v).
Definition on_rpc_state (r : RpcStateInner) v : ValidatorProcess S :=
  MkValidatorProcess (vp_node v) (vp_transport v) (MkService r (svc_listen (vp_rpc v))) (vp_received v)
    (vp_interval v).
(** One turn of the loop that ends the function, when a block is waiting. *)
Definition receive_finalized v : ValidatorProcess S :=
  match nd_channel (vp_node v) !! vp_received v with
  | Some block =>
      MkValidatorProcess (vp_node v) (vp_transport v)
        (MkService (RpcState.store_block block (svc_state (vp_rpc v))) (svc_listen (vp_rpc v)))
        (Datatypes.S (vp_received v)) (vp_interval v)
  | None => v
  end.
(** The RPC server answers a request. *)
Definition answer_request (version : string) (r : HttpRequest) v : outcome string HttpResponse * ValidatorProcess S :=
  let '(response, s) := serve (rpc_routes version) r (svc_state (vp_rpc v)) in
  (response, on_rpc_state s v).

Inductive validator_step (version : string) : ValidatorProcess S → ValidatorProcess S → Prop :=
| vs_loops v n : node_step (vp_node v) n → validator_step version v (with_node n v)
| vs_receive v : validator_step version v (receive_finalized v)
| vs_request v r : validator_step version v (answer_request version r v).2.

(** *** Starting *)

(** The engine of a process that starts is the one of [bft_engine]. *)
Lemma run_bft_validator_Ok c g bind opened interval v :
  run_bft_validator c g bind opened interval = Ok v →
  ∃ store e, opened = Ok store ∧ bft_engine c g store = Ok e ∧ vp_node v = node_new e ∧
    svc_state (vp_rpc v) = validator_rpc g ∧ vp_received v = 0%nat ∧ 50 ≤ vp_interval v ≤ U64.
Proof.
  unfold run_bft_validator, bft_engine.
  destruct (nc_validator_set c) as [vs|]; [|done]. destruct (nc_local_validator_address c) as [local|]; [|done].
  cbn. destruct (genesis_block g) as [b|e|]; [|done..]. cbn.
  destruct (parse_socket (nc_p2p_listen c)) as [addr|]; [|done]. cbn.
  destruct (bind addr); [|done]. cbn. destruct opened as [store|e|]; [|done..]. cbn.
  destruct (new_with_store local vs store (block_hash b)) as [e|e|] eqn:Hnew; [|done..]. cbn.
  destruct (zoom state set_state (seed_allocations (gn_allocations g)) e) as [[u|x|] e'] eqn:Hseed; [|done..].
  intros [= <-]. exists store, e'. rewrite Hnew, Hseed. simpl. split_and!; try done;
    apply block_interval_bounds.
Qed.
(** Without a committee, an address or a usable listen address nothing starts, and
    an address outside the committee is a consensus error. *)
Lemma start_bft_errors c g bind opened interval e :
  start_bft c g bind opened interval = Err e →
  nc_validator_set c = None ∨ nc_local_validator_address c = None ∨ is_ok (genesis_block g) = false ∨
  (∀ addr, parse_socket (nc_p2p_listen c) = Some addr → bind addr = false) ∨ is_ok opened = false ∨
  (∃ vs local, nc_validator_set c = Some vs ∧ nc_local_validator_address c = Some local ∧
     is_validator vs local = false ∧ e = NodeConsensus) ∨
  ∃ store, opened = Ok store ∧ is_ok (seed_allocations (gn_allocations g) store).1 = false.
Proof.
  unfold start_bft, run_bft_validator.
  destruct (nc_validator_set c) as [vs|]; [|by left]. destruct (nc_local_validator_address c) as [local|];
    [|by right; left].
  cbn. destruct (genesis_block g) as [b|x|]; [|by do 2 right; left..]. cbn.
  destruct (parse_socket (nc_p2p_listen c)) as [addr|]; [|by do 3 right; left]. cbn.
  destruct (bind addr) eqn:Hbind; [|do 3 right; left; by intros ? [= <-]]. cbn.
  destruct opened as [store|x|]; [|by do 4 right; left..]. cbn. unfold new_with_store.
  destruct (is_validator vs local) eqn:Hv; cbn.
  - unfold zoom. cbn. destruct (seed_allocations (gn_allocations g) store) as [[u|x|] st] eqn:Hs; [done|..];
      intros _; do 6 right; exists store; by rewrite Hs.
  - intros [= <-]. do 5 right. left. by exists vs, local.
Qed.

(** *** What requests leave alone *)

(** The blocks and accounts of an RPC state. *)
Definition same_chain (r r' : RpcStateInner) : Prop :=
  rpc_blocks r' = rpc_blocks r ∧ rpc_blocks_by_hash r' = rpc_blocks_by_hash r ∧
  rpc_height r' = rpc_height r ∧ rpc_accounts r' = rpc_accounts r.
Lemma keeps_answer (I : RpcStateInner → Prop) (m : M RpcStateInner StatusCode HttpResponse) Q r :
  keeps I m Q → I r → I (answer m r).2.
Proof. intros Hm Hr. unfold answer. destruct (Hm r Hr) as [Hr' _]. by destruct (m r) as [[?|?|] ?]. Qed.
Lemma keeps_json {A} `{Serde A} (I : RpcStateInner → Prop) (m : M RpcStateInner StatusCode A) Q :
  keeps I m Q → keeps I (json m) (λ _, True).
Proof. intros Hm. unfold json. eapply keeps_bind; [exact Hm|intros ? _]. by apply keeps_ret. Qed.
(** A handler that does not write. *)
Lemma keeps_reading {A} (I : RpcStateInner → Prop) (m : M RpcStateInner StatusCode A) :
  (∀ r, (m r).2 = r) → keeps I m (λ _, True).
Proof. intros Hm r Hr. by rewrite Hm. Qed.
Ltac reads_only :=
  intros ?; unfold Rpc.status_handler, Rpc.block_raw_handler, Rpc.block_by_height_handler,
    Rpc.block_by_hash_handler, Rpc.transaction_handler, Rpc.balance_handler, Rpc.nonce_handler,
    Rpc.validator_handler, Rpc.delegation_handler, bad_request, or_not_found, mbind, M_bind, lift, gets, mret, M_ret;
  repeat case_match; simplify_eq; done.
Lemma keeps_send r0 r : keeps (same_chain r0) (Rpc.send_transaction_handler r) (λ _, True).
Proof.
  intros s Hs. rewrite send_transaction_run.
  by destruct (validate_transaction (st_transaction r) s) as [[h|e|] s'].
Qed.
Lemma serve_same_chain version r s : same_chain s (serve (rpc_routes version) r s).2.
Proof.
  unfold serve. destruct (axum_route _ _) as [[i args]|]; [|done].
  destruct (rpc_routes version !! i) as [route|] eqn:Hi; [|done]. case_bool_decide; [|done].
  destruct (rt_endpoint route args (hq_body r)) as [m|] eqn:Hm; [|done].
  assert (keeps (same_chain s) m (λ _, True)) as Hk; [|by eapply keeps_answer].
  clear -Hi Hm. unfold rpc_routes in Hi.
  do 10 (destruct i as [|i]; [injection Hi as <-; cbn in Hm;
    unfold no_args, path_u64, path_string, path_strings, json_body in Hm; repeat case_match; simplify_eq;
    try destruct (from_slice _); simplify_eq/=; eapply keeps_json;
    first [apply keeps_send|apply keeps_reading; reads_only]|]).
  done.
Qed.

(** *** The process in motion *)

(** The channels only grow. *)
Lemma node_step_channel (n n' : NodeState S) : node_step n n' → ∃ more, nd_channel n' = nd_channel n ++ more.
Proof.
  intros [n0 now _|n0 b|n0 v now _|n0 i|n0 now _|n0|n0|n0];
    unfold finalize_and_report, receive_block, receive_vote, send_inflight, produce_proposal,
      broadcast_proposal, broadcast_vote, advance_height; repeat case_match; simpl; eauto;
    exists []; by rewrite (right_id_L [] (++)).
Qed.
(** What holds of a process that started with engine [e]: its loops have run, and
    the RPC state has the blocks received so far. *)
Record process_ok g (e : BftConsensus S) v : Prop := {
  po_loops : rtc node_step (node_new e) (vp_node v);
  po_received : (vp_received v ≤ length (nd_channel (vp_node v)))%nat;
  po_rpc : same_chain (rpc_update (take (vp_received v) (nd_channel (vp_node v))) (validator_rpc g))
             (svc_state (vp_rpc v));
}.
Lemma process_started c g bind opened interval v :
  run_bft_validator c g bind opened interval = Ok v →
  ∃ store e, opened = Ok store ∧ bft_engine c g store = Ok e ∧ process_ok g e v.
Proof.
  intros (store & e & Hop & He & Hn & Hr & Hk & _)%run_bft_validator_Ok. exists store, e.
  split_and!; [done..|]. split; rewrite ?Hn, ?Hr, ?Hk; [done|simpl; lia|done].
Qed.
Lemma process_step version g e v v' : validator_step version v v' → process_ok g e v → process_ok g e v'.
Proof.
  intros [v0 n Hstep|v0|v0 r] [Hloops Hrec Hrpc].
  - destruct (node_step_channel _ _ Hstep) as [more Hmore].
    split; simpl; [by eapply rtc_r|rewrite Hmore, length_app; lia|].
    by rewrite Hmore, take_app_le.
  - unfold receive_finalized. destruct (nd_channel (vp_node v0) !! vp_received v0) as [b|] eqn:Hb; [|done].
    split; simpl; [done|by apply lookup_lt_Some in Hb|].
    rewrite (take_S_r _ _ b) by done. unfold rpc_update. rewrite foldl_app. simpl.
    fold (rpc_update (take (vp_received v0) (nd_channel (vp_node v0))) (validator_rpc g)).
    unfold same_chain, RpcState.store_block. simpl. by destruct Hrpc as (-> & -> & -> & ->).
  - unfold answer_request. pose proof (serve_same_chain version r (svc_state (vp_rpc v0))) as Hs.
    destruct (serve (rpc_routes version) r (svc_state (vp_rpc v0))) as [response s]. split; [done..|]. simpl in *.
    destruct Hrpc as (Hb & Hh & Hn & Ha), Hs as (Hb' & Hh' & Hn' & Ha'). split_and!; congruence.
Qed.

Context (url version unreachable error : string) (display : N → string).
(** The network in which the validator's server answers at the client's URL. *)
#[local] Instance validator_network : Reqwest RpcStateInner :=
  rpc_network url version unreachable error display.

(** C12: Whatever a client reads from a validator over HTTP is final.  From a
    successful set-up, however the validator's loops, the arrival of its finalized
    blocks and the requests of other clients interleave, a block that the SDK's
    client gets for a height is the block final at that height in the validator's
    engine; the height the server states never exceeds the engine's, and equals it
    once every finalized block has been received; balances are still those of the
    genesis. *)
Theorem validator_serves_finalized c g bind opened interval (v v' : ValidatorProcess S) :
  run_bft_validator c g bind opened interval = Ok v → rtc (validator_step version) v v' →
  let rpc := svc_state (vp_rpc v') in
  let engine := nd_engine (vp_node v') in
  (∀ h b, h ≤ U64 → (http_block_by_height (HttpClient_new url) h rpc).1 = Ok b →
     bh_height (header b) = h ∧ finalized engine !! h = Some b) ∧
  RpcState.height rpc ≤ height engine ∧
  (vp_received v' = length (nd_channel (vp_node v')) → nd_inflight (vp_node v') = [] →
     RpcState.height rpc = height engine) ∧
  ∀ a, (http_balance (HttpClient_new url) a rpc).1 = Ok (from_option acc_balance 0 (gn_allocations g !! a)).
Proof.
  intros (store & e & _ & He & Hok)%process_started Hsteps rpc engine.
  assert (process_ok g e v') as [Hloops Hrec (Hb & Hx & Hh & Ha)].
  { clear -Hsteps Hok. induction Hsteps; [done|]. by eauto using process_step. }
  destruct (rpc_serves_finalized c g store e (vp_node v') (take (vp_received v') (nd_channel (vp_node v')))
    (drop (vp_received v') (nd_channel (vp_node v')) ++ nd_inflight (vp_node v')) He Hloops)
    as (Hblocks & _ & Hle & Heq).
  { by rewrite (assoc_L (++)), take_drop. }
  unfold RpcState.height, RpcState.get_block_by_height in *. unfold rpc. rewrite Hh.
  split_and!; [|done| |].
  - intros h b Hhu Hget. unfold validator_network in Hget. rewrite http_block_run in Hget by done.
    unfold RpcState.get_block_by_height in Hget. rewrite Hb in Hget.
    destruct (rpc_blocks _ !! h) as [b0|] eqn:Hb0; [|done]. cbn [fst] in Hget. unfold value_or_null in Hget.
    destruct (to_value b0) as [x|] eqn:Hval.
    + simpl in Hget. rewrite (from_to_value b0 x Hval) in Hget. injection Hget as <-. by apply Hblocks.
    + simpl in Hget. destruct (from_value Null) as [b1|?|] eqn:Hn; [|done..].
      by apply from_null in Hn.
  - intros Hall Hnone. apply Heq. by rewrite Hnone, Hall, drop_all.
  - intros a. unfold validator_network. rewrite http_balance_run. cbn [fst]. unfold RpcState.get_account.
    by rewrite Ha, rpc_update_accounts, validator_rpc_accounts.
Qed.
End process.
