(* ===== verification/Topology.v ===== *)
(** * The networks the code sets up

    Which validators are connected, given the configurations [testnet.rs] and
    [bootstrap.rs] write, and what the consensus of [node.rs] does on such a
    network: each validator dials the one before it, so the validators form a
    line, and a line of three or more does not get past its first block. *)

From Stdlib Require Import Strings.Byte.
From stdpp Require Import pretty.
From S2P Require Import Prelude.
From S2P Require Import Externals.
From S2P Require Import Primitives.
From S2P Require Import Storage.
From S2P Require Import StateStore.
From S2P Require Import Crypto.
From S2P Require Import Vm.
From S2P Require Import VmTheorems.
From S2P Require Import ValidatorSet.
From S2P Require Import Web.
From S2P Require Import Rpc.
From S2P Require Import Explorer.
From S2P Require Import Webhooks.
From S2P Require Import NodeServices.
From S2P Require Import Bft.
From S2P Require Import BftTheorems.
From S2P Require Import BftProperties.
From S2P Require Import Network.
From S2P Require Import Tcp.
From S2P Require Import TcpNetwork.
From S2P Require Import TcpWire.
From S2P Require Import NodeConfig.
From S2P Require Import NodeLoops.
From S2P Require Import Cluster.
From S2P Require Import ClusterLiveness.
From S2P Require Import NodeStartup.
From S2P Require Import Testnet.
From S2P Require Import ServicesStart.
Local Open Scope N_scope.

(** ** Links *)
Section links.
Context `{Blake3, SocketAddrs}.
Implicit Types (c : NodeConfig) (cs : list NodeConfig).

(** The node configured by [c] dials the validator at [b]. *)
Definition dials c (b : Address) : Prop := is_Some (nc_bootstrap_nodes c !! node_peer_id b).
(** Connections work in both directions. *)
Definition connected cs (a b : Address) : Prop := ∃ ca cb, ca ∈ cs ∧ cb ∈ cs ∧
  nc_local_validator_address ca = Some a ∧ nc_local_validator_address cb = Some b ∧
  (dials ca b ∨ dials cb a).
(** The [i]-th configuration is that of [l !! i] and names only the previous one. *)
Definition dials_previous (l : list Address) cs : Prop := ∀ i c, cs !! i = Some c →
  ∃ a, l !! i = Some a ∧ nc_local_validator_address c = Some a ∧
    dom (nc_bootstrap_nodes c) =
      match i with O => ∅ | Datatypes.S j => from_option (λ p, {[node_peer_id p]}) ∅ (l !! j) end.

Lemma dials_previous_line l cs i j ca cb a b :
  NoDup (node_peer_id <$> l) → dials_previous l cs →
  cs !! i = Some ca → cs !! j = Some cb → nc_local_validator_address ca = Some a →
  nc_local_validator_address cb = Some b → dials ca b →
  l !! i = Some a ∧ l !! j = Some b ∧ i = Datatypes.S j.
Proof.
  intros Hnd Hcs Hi Hj Ha Hb Hdial.
  destruct (Hcs i ca Hi) as (a' & Hla & Ha' & Hdom). destruct (Hcs j cb Hj) as (b' & Hlb & Hb' & _).
  simplify_eq. split_and!; [done..|]. apply elem_of_dom in Hdial. rewrite Hdom in Hdial.
  destruct i as [|i]; [by apply elem_of_empty in Hdial|].
  destruct (l !! i) as [p|] eqn:Hp; simpl in Hdial; [|by apply elem_of_empty in Hdial].
  apply elem_of_singleton in Hdial. f_equal.
  apply (NoDup_lookup (node_peer_id <$> l) i j (node_peer_id p)); [done|by rewrite list_lookup_fmap, Hp|].
  rewrite list_lookup_fmap, Hlb. simpl. by rewrite Hdial.
Qed.
Lemma connected_line l cs a b :
  NoDup (node_peer_id <$> l) → dials_previous l cs → connected cs a b → line l a b.
Proof.
  intros Hnd Hcs (ca & cb & [i Hi]%list_elem_of_lookup & [j Hj]%list_elem_of_lookup & Ha & Hb & [Hd|Hd]).
  - destruct (dials_previous_line l cs i j ca cb a b) as (? & ? & ->); [done..|]. exists j. by right.
  - destruct (dials_previous_line l cs j i cb ca b a) as (? & ? & ->); [done..|]. exists i. by left.
Qed.

(** The bootstrap peers of the transport that runs on one of the configurations. *)
Definition bootstrap_of cs (p : PeerId) : gmap PeerId SocketAddr :=
  from_option (λ x, nc_bootstrap_nodes x.2) ∅
    (list_find (λ c, node_peer_id <$> nc_local_validator_address c = Some p) cs).
(** The TCP transports of these validators exchange messages over these
    connections only, when addresses are those of the peers they are given for. *)
Lemma tcp_links_connected cs (listens : SocketAddr → option PeerId) ca cb a b :
  (∀ p q addr, bootstrap_of cs p !! q = Some addr → listens addr = Some q) →
  (∀ c c' x y, c ∈ cs → c' ∈ cs → nc_local_validator_address c = Some x →
     nc_local_validator_address c' = Some y → node_peer_id x = node_peer_id y → x = y) →
  ca ∈ cs → cb ∈ cs → nc_local_validator_address ca = Some a → nc_local_validator_address cb = Some b →
  tcp_linked (bootstrap_of cs) listens (node_peer_id a) (node_peer_id b) → connected cs a b.
Proof.
  intros Hnamed Hinj Hca Hcb Ha Hb.
  assert (∀ x y cx, cx ∈ cs → nc_local_validator_address cx = Some x →
    is_Some (bootstrap_of cs (node_peer_id x) !! node_peer_id y) →
    ∃ c, c ∈ cs ∧ nc_local_validator_address c = Some x ∧ dials c y) as Hdial.
  { intros x y cx Hcx Hx. unfold bootstrap_of.
    destruct (list_find _ cs) as [[i c]|] eqn:Hfind; simpl; [|by intros [? ?]].
    apply list_find_Some in Hfind as (Hi & Hp & _). destruct (nc_local_validator_address c) as [x'|] eqn:Hx';
      simpl in Hp; [|done]. apply (inj Some) in Hp. intros Hy. exists c.
    assert (c ∈ cs) by (apply list_elem_of_lookup; by exists i). split_and!; [done| |done].
    rewrite Hx'. f_equal. by eapply (Hinj c cx). }
  rewrite tcp_linked_named by done. intros [Hab|Hba].
  - destruct (Hdial a b ca) as (c & ? & ? & ?); [done..|]. exists c, cb. by split_and!; [..|left].
  - destruct (Hdial b a cb) as (c & ? & ? & ?); [done..|]. exists ca, c. by split_and!; [..|right].
Qed.
End links.

(** A committee in which everyone has one vote. *)
Lemma from_validators_unit (l : list Address) :
  one_vote_each l (from_validators ((λ a, MkValidator a 1) <$> l)).
Proof.
  intros a. unfold from_validators. induction l as [|b l IH] using rev_ind; [done|].
  rewrite fmap_app, foldl_app. simpl. rewrite lookup_insert, IH. repeat case_decide; set_solver.
Qed.

(** ** Launching the validators *)
Section launch.
Context {B : Type} `{StateBackend B, Hex, Blake3, Serde Account, Serde (gmap string bytes)}.
Context `{!BackendLaws B, !Serde ValidatorRecord, !SerdeLaws ValidatorRecord}.
Context `{!Serde Delegation, !SerdeLaws Delegation}.
Context `{Profile, Dalek, !Serde Transaction, !Serde StakingOperation, !Serde BlockHeader}.
Context `{!Serde (list Transaction), !Serde Vote, !SerdeLaws Vote, SocketAddrs}.
Notation Cluster := (gmap Address (NodeState (StateStore B))).
Implicit Types (cl : Cluster) (g : GenesisConfig) (store : StateStore B).

(** The validators whose task gets past its start-up, each on a fresh store. *)
Definition launch store (tasks : list (NodeConfig * GenesisConfig)) : Cluster :=
  foldl (λ cl t, match nc_local_validator_address t.1, bft_engine t.1 t.2 store with
                 | Some a, Ok e => <[a := node_new e]> cl
                 | _, _ => cl
                 end) ∅ tasks.

Lemma launch_lookup store tasks a n :
  launch store tasks !! a = Some n → ∃ t e, t ∈ tasks ∧ nc_local_validator_address t.1 = Some a ∧
    bft_engine t.1 t.2 store = Ok e ∧ n = node_new e.
Proof.
  unfold launch. induction tasks as [|t tasks IH] using rev_ind; [done|]. rewrite foldl_app. cbn [foldl].
  destruct (nc_local_validator_address t.1) as [a'|] eqn:Ha; [|intros (x & e & ? & ?)%IH; exists x, e; set_solver].
  destruct (bft_engine t.1 t.2 store) as [e'|x|] eqn:He;
    [|intros (y & e & ? & ?)%IH; exists y, e; set_solver..].
  rewrite lookup_insert. case_decide as Haa; [|intros (y & e & ? & ?)%IH; exists y, e; set_solver].
  intros [= <-]. subst a'. exists t, e'. split_and!; [set_solver|done..].
Qed.
(** On a store without validator records the committee stays as configured. *)
Lemma genesis_steady (c : BftConsensus (StateStore B)) L :
  store_rel (state c) L → vals L = ∅ → steady c.
Proof.
  intros HR Hv. unfold steady, update_validator_set.
  rewrite (sim_validator_records (R:=store_rel) (state c) L HR).
  unfold store_validator_records. simpl. rewrite Hv. by destruct c.
Qed.
Lemma launch_launched store tasks vs g b :
  store_rel store ledger_empty → genesis_block g = Ok b →
  Forall (λ t, nc_validator_set t.1 = Some vs ∧ t.2 = g) tasks →
  launched_net vs (block_hash b) (launch store tasks).
Proof.
  intros HR Hb Hall a n (t & e & Ht & Ha & He & ->)%launch_lookup.
  rewrite Forall_forall in Hall. destruct (Hall t Ht) as [Hvs Hg]. rewrite Hg in He.
  destruct (bft_engine_Ok t.1 g store ledger_empty e HR He) as (_ & _ & _ & _ & HR').
  destruct (bft_engine_launched _ _ _ _ He)
    as (local & vs' & b' & st' & e0 & Hl & Hvs' & Hb' & Hnew & _ & ->).
  rewrite Hl in Ha. injection Ha as ->. rewrite Hvs' in Hvs. injection Hvs as ->.
  rewrite Hb' in Hb. injection Hb as ->. exists store, st', e0. split_and!; [done..|].
  by eapply genesis_steady.
Qed.

(** Fewer links, fewer steps. *)
Lemma cluster_step_links (linked linked' : Address → Address → Prop) cl cl' :
  (∀ a b, linked a b → linked' a b) → cluster_step linked cl cl' → cluster_step linked' cl cl'.
Proof.
  intros Hl [cl0 b n n' Hb Hs]. eapply cl_step; [exact Hb|].
  destruct Hs as [n n' Hs|a na m n n' Ha Hlink Hm Hr].
  - by apply sa_local.
  - exact (sa_deliver _ _ _ a na m _ _ Ha (Hl _ _ Hlink) Hm Hr).
Qed.
(** Validators that dial only the one before them. *)
Lemma chain_stalls store tasks (l : list Address) g b cl a n :
  store_rel store ledger_empty → genesis_block g = Ok b → NoDup (node_peer_id <$> l) → (3 ≤ length l)%nat →
  dials_previous l (fst <$> tasks) →
  Forall (λ t, nc_validator_set t.1 = Some (from_validators ((λ a, MkValidator a 1) <$> l)) ∧ t.2 = g) tasks →
  rtc (cluster_step (connected (fst <$> tasks))) (launch store tasks) cl → cl !! a = Some n →
  height (nd_engine n) ≤ 1.
Proof.
  intros HR Hb Hnd Hlen Hdial Hall Hsteps Ha.
  apply (line_stalls l (from_validators ((λ a, MkValidator a 1) <$> l)) (block_hash b)
    (launch store tasks) cl a n); [by eapply NoDup_fmap_1|done|apply from_validators_unit| | |done].
  { by eapply launch_launched. }
  eapply rtc_subrel; [|exact Hsteps]. intros cl1 cl2. apply cluster_step_links.
  intros x y. by apply connected_line.
Qed.
End launch.

(** ** The local testnet of [testnet.rs] *)
Section local_testnet.
Context `{Json, !ValueBytes, Hmac, HashOrder, Profile, Hex, Blake3, Dalek}.
Context `{!Serde Account, !Serde (gmap string bytes), !Serde ValidatorRecord, !SerdeLaws ValidatorRecord}.
Context `{!Serde Delegation, !SerdeLaws Delegation, !Serde Transaction, !Serde StakingOperation}.
Context `{!Serde BlockHeader, !Serde (list Transaction), !Serde Vote, !SerdeLaws Vote}.
Context `{SocketAddrs, !JsonText NodeConfig, !JsonText GenesisConfig}.

(** What the configuration of the [i]-th validator says. *)
Definition config_of (set : ValidatorSet) (all : list Address) (i : nat) (a : Address) (c : NodeConfig) : Prop :=
  nc_local_validator_address c = Some a ∧ nc_validator_set c = Some set ∧
  dom (nc_bootstrap_nodes c) =
    match i with O => ∅ | Datatypes.S j => from_option (λ p, {[node_peer_id p]}) ∅ (all !! j) end.

Lemma bft_testnet_config_Ok dir c set all addrs i a config :
  bft_testnet_config dir c set all addrs i a = Ok config → config_of set all i a config.
Proof.
  unfold bft_testnet_config. intros (port & _ & Hc)%outcome_bind_Ok. unfold config_of.
  destruct i as [|j]; [injection Hc as <-; split_and!; [done..|apply dom_empty_L]|].
  destruct (all !! j) as [p|]; [|done]. destruct (addrs !! p); [|done].
  injection Hc as <-. split_and!; [done..|apply dom_singleton_L].
Qed.
Lemma spawn_validators_lookup dir c g set all addrs i rest fs tasks fs' :
  spawn_validators dir c g set all addrs i rest fs = (Ok tasks, fs') →
  length tasks = length rest ∧
  ∀ k t, tasks !! k = Some t → ∃ a, rest !! k = Some a ∧
    bft_testnet_config dir c set all addrs (i + k) a = Ok t.1 ∧ t.2 = g.
Proof.
  revert i fs tasks. induction rest as [|a rest IH]; intros i fs tasks; cbn [spawn_validators].
  { by intros [= <- <-]. }
  rewrite bind_lift. destruct (bft_testnet_config _ _ _ _ _ _ _) as [config|e|] eqn:Hc; [|done..].
  intros ([] & fs1 & _ & (spawned & fs2 & Hrun & [= <- <-])%bind_Ok_inv)%bind_Ok_inv.
  destruct (IH (Datatypes.S i) _ _ Hrun) as [Hlen Hspawned]. split; [simpl; by rewrite Hlen|].
  intros [|k] t; simpl.
  - intros [= <-]. exists a. by rewrite Nat.add_0_r.
  - intros Hk. rewrite Nat.add_succ_r. by apply Hspawned.
Qed.
(** Every address the validators are to listen on has been parsed before. *)
Lemma validator_addrs_parse i l m addrs k :
  validator_addrs i l m = Ok addrs → (k < length l)%nat →
  ∃ port, p2p_port (i + k) = Ok port ∧ is_Some (parse_socket (host_port "127.0.0.1" port)).
Proof.
  revert i m k. induction l as [|a l IH]; intros i m k; simpl; [lia|].
  intros (port & Hport & Hrun)%outcome_bind_Ok. destruct (parse_socket _) as [addr|] eqn:Haddr; [|done].
  intros Hk. destruct k as [|k]; [exists port; by rewrite Nat.add_0_r, Haddr|].
  rewrite Nat.add_succ_r. eapply (IH (Datatypes.S i)); [exact Hrun|lia].
Qed.
Lemma bft_testnet_config_listen dir c set all addrs i a config port :
  bft_testnet_config dir c set all addrs i a = Ok config → p2p_port i = Ok port →
  nc_p2p_listen config = host_port "127.0.0.1" port.
Proof.
  unfold bft_testnet_config. intros Hc Hport. rewrite Hport in Hc. cbn [mbind outcome_bind] in Hc.
  by repeat case_match; simplify_eq.
Qed.
Lemma run_bft_testnet_Ok dir count env now fs t fs' :
  run_bft_testnet dir count env now fs = (Ok t, fs') →
  let l := validator_addresses count in
  ∃ g b, genesis_block g = Ok b ∧ gn_validators g = l ∧ dials_previous l (fst <$> bt_validators t) ∧
    Forall (λ t, nc_validator_set t.1 = Some (from_validators ((λ a, MkValidator a 1) <$> l)) ∧ t.2 = g)
      (bt_validators t) ∧
    length (bt_validators t) = length l ∧
    Forall (λ t, is_Some (parse_socket (nc_p2p_listen t.1))) (bt_validators t).
Proof.
  unfold run_bft_testnet. rewrite bind_lift. destruct (testnet_local env) as [c|e|]; [|done..].
  intros ([] & fs1 & _ & Hrun)%bind_Ok_inv. rewrite bind_lift in Hrun.
  destruct (genesis_block _) as [b|e|] eqn:Hb; [|done..].
  destruct (spawn_shared_services c _) as [shared services]. rewrite bind_lift in Hrun.
  destruct shared as [shared|e|]; [|done..]. rewrite bind_lift in Hrun.
  destruct (validator_addrs _ _ _) as [addrs|e|] eqn:Haddrs; [|done..].
  apply bind_Ok_inv in Hrun as (tasks & fs2 & Hrun & [= <- <-]).
  destruct (spawn_validators_lookup _ _ _ _ _ _ _ _ _ _ _ Hrun) as [Hlen Htasks].
  eexists _, b. split_and!; [exact Hb|done| | |exact Hlen|]; simpl.
  - intros i config. rewrite list_lookup_fmap, fmap_Some. intros (task & Hi & ->).
    destruct (Htasks i task Hi) as (a & Ha & (? & _ & ?)%bft_testnet_config_Ok & _). by exists a.
  - apply Forall_forall. intros task [i Hi]%list_elem_of_lookup.
    by destruct (Htasks i task Hi) as (a & _ & (_ & ? & _)%bft_testnet_config_Ok & ?).
  - apply Forall_forall. intros task [i Hi]%list_elem_of_lookup.
    destruct (Htasks i task Hi) as (a & _ & Hc & _).
    destruct (validator_addrs_parse _ _ _ _ i Haddrs) as (port & Hport & Hsome);
      [rewrite <-Hlen; by eapply lookup_lt_Some|].
    by rewrite (bft_testnet_config_listen _ _ _ _ _ _ _ _ port Hc Hport).
Qed.

(** The start-up of a task that is part of its committee succeeds. *)
Lemma bft_engine_starts (c : NodeConfig) (g : GenesisConfig) vs a b :
  nc_validator_set c = Some vs → nc_local_validator_address c = Some a → genesis_block g = Ok b →
  is_Some (parse_socket (nc_p2p_listen c)) → is_validator vs a = true →
  is_ok (bft_engine c g new_in_memory) = true.
Proof.
  intros Hvs Ha Hb [addr Haddr] Hv. unfold bft_engine, new_with_store. rewrite Hvs, Ha. cbn.
  rewrite Hb. cbn. rewrite Haddr. cbn. rewrite Hv. unfold zoom. cbn [state].
  destruct (sim_seed (gn_allocations g) new_in_memory ledger_empty new_in_memory_rel) as [Hr _].
  rewrite seed_ledger in Hr. cbn [fst] in Hr.
  destruct (seed_allocations (gn_allocations g) new_in_memory) as [r store]. cbn [fst] in Hr. by subst r.
Qed.
Lemma launch_dom tasks (a : Address) :
  is_Some (launch new_in_memory tasks !! a) ↔
    ∃ t, t ∈ tasks ∧ nc_local_validator_address t.1 = Some a ∧ is_ok (bft_engine t.1 t.2 new_in_memory) = true.
Proof.
  split.
  - intros [n (t & e & Ht & Ha & He & _)%launch_lookup]. exists t. by rewrite He.
  - intros (t & Ht & Ha & He). unfold launch. induction tasks as [|t' tasks IH] using rev_ind.
    { by apply elem_of_nil in Ht. }
    rewrite foldl_app. cbn [foldl]. apply elem_of_app in Ht as [Ht|Heq%list_elem_of_singleton]; [|rewrite <-Heq].
    + specialize (IH Ht). repeat case_match; [|done..]. rewrite lookup_insert. by case_decide.
    + rewrite Ha. destruct (bft_engine t.1 t.2 new_in_memory); [|done..]. by rewrite lookup_insert_eq.
Qed.
(** C28: The local testnet of two validators makes progress: the one connection its
    configurations ask for joins the whole committee, so from the set-up of
    [run_bft_testnet] some schedule brings both validators to any height, with the
    same block final at every height. *)
Theorem bft_testnet_of_two_progresses (dir : string) (env : option string) (now : N)
    (fs fs' : FileSystem) (t : BftTestnet) (K : nat) :
  run_bft_testnet dir 2 env now fs = (Ok t, fs') →
  NoDup (validator_addresses 2) → 2 * N.of_nat K + 2 ≤ U64 →
  ∃ cl (chain : gmap N Block),
    rtc (cluster_step (connected (fst <$> bt_validators t))) (launch new_in_memory (bt_validators t)) cl ∧
    ∀ a, a ∈ validator_addresses 2 → ∃ n, cl !! a = Some n ∧ height (nd_engine n) = N.of_nat K ∧
      ∀ h, 1 ≤ h ≤ N.of_nat K → ∃ b, chain !! h = Some b ∧ finalized (nd_engine n) !! h = Some b.
Proof.
  intros (g & b & Hb & _ & Hdial & Hall & Hlen & Hparse)%run_bft_testnet_Ok Hnd HK.
  set (l := validator_addresses 2) in *. set (vs := from_validators ((λ a, MkValidator a 1) <$> l)) in *.
  pose proof (from_validators_unit l : one_vote_each l vs) as Hone.
  assert (∀ a, is_validator vs a = true ↔ a ∈ l) as Hval.
  { intros a. unfold is_validator. rewrite (Hone a), bool_decide_eq_true.
    case_decide; [by split; [|eexists]|by split; [intros []|]]. }
  assert (set_power vs = 2) as Hpower by by rewrite (line_set_power l vs).
  assert (∃ t0 t1, bt_validators t = [t0; t1]) as (t0 & t1 & Ht).
  { destruct (bt_validators t) as [|t0 [|t1 [|]]]; try done. by eauto. }
  rewrite Ht in *. destruct (Hdial 0%nat t0.1 eq_refl) as (a0 & Ha0 & Hl0 & _).
  destruct (Hdial 1%nat t1.1 eq_refl) as (a1 & Ha1 & Hl1 & Hdom).
  assert (l = [a0; a1]) as Hl by by injection Ha0 as <-; injection Ha1 as <-.
  destruct (launched_progress (connected [t0; t1].*1) vs (block_hash b) (launch new_in_memory [t0; t1]) K)
    as (cl & chain & _ & Hrun & Hreach).
  - unfold power_fits. rewrite Hpower. vm_compute. discriminate.
  - rewrite Hpower. done.
  - done.
  - intros v w Hv%Hval Hw%Hval Hne. rewrite Hl in Hv, Hw. rewrite Ha0 in Hdom. simpl in Hdom.
    assert (dials t1.1 a0) as Hd by (apply elem_of_dom; rewrite Hdom; by apply elem_of_singleton).
    rewrite !elem_of_cons in Hv, Hw.
    destruct Hv as [->|[->|[]%elem_of_nil]], Hw as [->|[->|[]%elem_of_nil]]; try done.
    + exists t0.1, t1.1. simpl. split_and!; [set_solver..|done|done|by right].
    + exists t1.1, t0.1. simpl. split_and!; [set_solver..|done|done|by left].
  - rewrite Hl in Hnd. apply NoDup_cons in Hnd as [Hne%not_elem_of_cons _].
    intros v Hv%Hval. rewrite Hl, !elem_of_cons in Hv.
    destruct Hv as [->|[->|[]%elem_of_nil]]; [exists a1|exists a0]; (split; [apply Hval; rewrite Hl; set_solver|]);
      naive_solver.
  - intros a. rewrite launch_dom, Hval. split.
    + intros (t' & Ht' & Ha & _). rewrite Hl. rewrite !elem_of_cons in Ht'.
      destruct Ht' as [->|[->|[]%elem_of_nil]]; simplify_eq; set_solver.
    + intros Ha. rewrite Hl, !elem_of_cons in Ha.
      assert (∃ t', t' ∈ [t0; t1] ∧ nc_local_validator_address t'.1 = Some a) as (t' & Ht' & Hla).
      { destruct Ha as [->|[->|[]%elem_of_nil]]; [exists t0|exists t1]; split; [set_solver|done|set_solver|done]. }
      exists t'. split_and!; [done..|]. rewrite Forall_forall in Hall, Hparse.
      destruct (Hall t' Ht') as [Hvs ->]. apply (bft_engine_starts _ _ vs a b); [done..|by apply Hparse|].
      apply Hval. rewrite Hl, !elem_of_cons. done.
  - intros a n Ha. split; [|done]. eapply launch_launched; [apply new_in_memory_rel|done..].
  - exists (fst <$> cl), chain. split; [exact Hrun|]. intros a Ha%Hval. by apply Hreach.
Qed.

(** A block that a validator of the network has sent on its channels. *)
Definition reported (cl : gmap Address (NodeState (StateStore InMemoryBackend))) (b : Block) : Prop :=
  ∃ a n, cl !! a = Some n ∧ b ∈ nd_channel n.
(** A validator reports blocks up to its height. *)
Lemma reported_height vs genesis linked (cl cl' : gmap Address (NodeState (StateStore InMemoryBackend))) b k :
  launched_net vs genesis cl → rtc (cluster_step linked) cl cl' → reported cl' b →
  (∀ a n, cl' !! a = Some n → height (nd_engine n) ≤ k) → bh_height (header b) ≤ k.
Proof.
  intros Hcl Hsteps (a & n & Ha & Hb) Hk.
  assert (∃ l, node_inv genesis l n) as [l Hn].
  { revert a n Ha Hb. clear Hk. assert (∀ a n, cl !! a = Some n → ∃ l, node_inv genesis l n) as Hcl0.
    { intros a n Ha. destruct (Hcl a n Ha) as (st & st' & c & Hnew & -> & _). exists [].
      pose proof (node_new_inv _ _ _ _ _ Hnew) as [? ? ? ? ? ?]. split; simpl in *; try done.
      by apply (chain_set_state genesis c st' c (conj ni_bft (continues_refl _))). }
    clear Hcl. induction Hsteps as [cl|cl cl1 cl2 Hstep _ IH]; [eauto|]. apply IH. clear IH.
    destruct Hstep as [cl v n1 n2 Hv Hn12%steps_at_node_step]. intros a n.
    intros [[<- <-]|[_ Ha]]%lookup_insert_Some; [|eauto]. destruct (Hcl0 v n1 Hv) as [l Hl].
    destruct (node_step_inv genesis l n1 n2 Hn12 Hl) as (l1 & _ & ?). eauto. }
  assert (b ∈ l) as Hin by (rewrite <-(ni_announced _ _ _ Hn); set_solver).
  apply (ni_final _ _ _ Hn) in Hin.
  assert (is_Some (finalized (nd_engine n) !! bh_height (header b))) as Hsome by by eexists.
  apply (inv_dom _ _ (ni_bft _ _ _ Hn)) in Hsome. specialize (Hk a n Ha). lia.
Qed.

Lemma committee_stalls (dir : string) (count : nat) (env : option string) (now : N)
    (fs fs' : FileSystem) (t : BftTestnet) (cl : gmap Address (NodeState (StateStore InMemoryBackend)))
    (blocks : list Block) :
  run_bft_testnet dir count env now fs = (Ok t, fs') →
  (3 ≤ count)%nat → NoDup (node_peer_id <$> validator_addresses count) →
  rtc (cluster_step (connected (fst <$> bt_validators t)))
    (launch new_in_memory (bt_validators t)) cl →
  Forall (reported cl) blocks →
  (∀ a n, cl !! a = Some n → height (nd_engine n) ≤ 1) ∧
  RpcState.height (sv_rpc (collect blocks (bt_services t))) ≤ 1.
Proof.
  intros Hrun Hcount Hnd Hsteps Hblocks.
  pose proof (run_bft_testnet_Ok _ _ _ _ _ _ _ Hrun) as (g & b & Hb & _ & Hdial & Hall & _).
  assert (∀ a n, cl !! a = Some n → height (nd_engine n) ≤ 1) as Hle.
  { intros a n. eapply (chain_stalls new_in_memory _ (validator_addresses count) g b);
      [apply new_in_memory_rel|done..| |done|done|done].
    unfold validator_addresses. by rewrite length_fmap, length_seq. }
  split; [done|]. apply collect_height; [by rewrite (run_bft_testnet_height _ _ _ _ _ _ _ Hrun)|].
  eapply Forall_impl; [exact Hblocks|]. intros x Hx. eapply reported_height; [|exact Hsteps|done|done].
  by eapply launch_launched; [apply new_in_memory_rel| |].
Qed.
(** C27: The local testnet of three or more validators stops after its first
    block: from the set-up of [run_bft_testnet], over the connections its
    configurations ask for, no validator ever gets past height 1, whatever the
    schedule, and so neither does the RPC server that ingests the blocks they
    report, in whatever order; validators do not relay messages and dial only the
    one before them (distinct addresses must have distinct peer identifiers). *)
Theorem bft_testnet_stalls (dir : string) (count : nat) (env : option string) (now : N)
    (fs fs' : FileSystem) (t : BftTestnet) (cl : gmap Address (NodeState (StateStore InMemoryBackend)))
    (blocks : list Block) :
  run_bft_testnet dir count env now fs = (Ok t, fs') →
  (3 ≤ count)%nat → NoDup (node_peer_id <$> validator_addresses count) →
  rtc (cluster_step (connected (fst <$> bt_validators t)))
    (launch new_in_memory (bt_validators t)) cl →
  Forall (reported cl) blocks →
  (∀ a n, cl !! a = Some n → height (nd_engine n) ≤ 1) ∧
  RpcState.height (sv_rpc (collect blocks (bt_services t))) ≤ 1.
Proof. apply committee_stalls. Qed.
End local_testnet.

(** ** The networks of [bootstrap.rs] *)
Section bootstrapped.
Context {B : Type} `{StateBackend B, Hex, Blake3, Serde Account, Serde (gmap string bytes)}.
Context `{!BackendLaws B, !Serde ValidatorRecord, !SerdeLaws ValidatorRecord}.
Context `{!Serde Delegation, !SerdeLaws Delegation}.
Context `{Profile, Dalek, !Serde Transaction, !Serde StakingOperation, !Serde BlockHeader}.
Context `{!Serde (list Transaction), !Serde Vote, !SerdeLaws Vote}.
Context `{SocketAddrs, JsonTextLaws NodeConfig, JsonTextLaws GenesisConfig}.

(** So does a bootstrapped network of three or more, each validator running on
    the configuration written for it, on the shared genesis and a fresh store of
    either backend. *)
Lemma bootstrapped_network_stalls chain_id vs allocations out now fs fs' g (cs : list NodeConfig)
    (store : StateStore B) cl a n :
  bootstrap_bft_network chain_id vs allocations out now fs = (Ok tt, fs') →
  (3 ≤ length vs)%nat → NoDup (node_peer_id <$> (bv_address <$> vs)) →
  (genesis_load out fs').1 = Ok g → length cs = length vs →
  (∀ i c, cs !! i = Some c → (config_load (validator_dir out i) fs').1 = Ok c) →
  store_rel store ledger_empty →
  rtc (cluster_step (connected cs)) (launch store ((λ c, (c, g)) <$> cs)) cl →
  cl !! a = Some n → height (nd_engine n) ≤ 1.
Proof.
  intros Hboot Hlen Hnd Hg Hcs Hload HR Hsteps Ha.
  apply bootstrap_run in Hboot as (_ & _ & Hconf).
  destruct (genesis_block_root g) as (root & _ & Hb).
  assert ((fst <$> ((λ c, (c, g)) <$> cs)) = cs) as Hfst.
  { rewrite <-list_fmap_compose. apply list_fmap_id. }
  assert (∀ i c, cs !! i = Some c → ∃ v, vs !! i = Some v ∧
    nc_local_validator_address c = Some (bv_address v) ∧ nc_validator_set c = Some
      (from_validators ((λ a, MkValidator a 1) <$> (bv_address <$> vs))) ∧
    dom (nc_bootstrap_nodes c) = previous_peer vs i) as Hall.
  { intros i c Hc. destruct (lookup_lt_is_Some_2 vs i) as [v Hv].
    { rewrite <-Hcs. by eapply lookup_lt_Some. }
    destruct (Hconf i v Hv) as (c' & Hc' & _ & _ & Hset & Hloc & _ & Hdom).
    rewrite (Hload i c Hc) in Hc'. injection Hc' as <-. exists v. split_and!; [done..| |done].
    by rewrite <-list_fmap_compose. }
  eapply (chain_stalls store _ (bv_address <$> vs) g _ cl a n);
    [done|exact Hb|done|by rewrite length_fmap| | |by rewrite Hfst|done].
  - rewrite Hfst. intros i c Hc. destruct (Hall i c Hc) as (v & Hv & Hloc & _ & Hdom).
    exists (bv_address v). rewrite list_lookup_fmap, Hv. split_and!; [done..|]. rewrite Hdom.
    unfold previous_peer. destruct i as [|i]; [done|]. rewrite list_lookup_fmap. by destruct (vs !! i).
  - apply Forall_fmap, Forall_forall. intros c [i Hi]%list_elem_of_lookup.
    by destruct (Hall i c Hi) as (v & _ & _ & ? & _).
Qed.
End bootstrapped.
