(* ===== verification/Cli.v ===== *)
(** * Crate [pemrix-cli]: the commands

    [main.rs] after clap has parsed the arguments, over a file system and a
    network the HTTP client talks to ([demo.rs] is in [Demo]).  A command that goes on to run servers or loops gives what it starts
    them with. *)

From Stdlib Require Import Strings.Byte Strings.Ascii.
From stdpp Require Import pretty.
From S2P Require Import Prelude.
From S2P Require Import Externals.
From S2P Require Import Primitives.
From S2P Require Import Storage.
From S2P Require Import StateStore.
From S2P Require Import Crypto.
From S2P Require Import Vm.
From S2P Require Import VmTheorems.
From S2P Require Import VmProperties.
From S2P Require Import Web.
From S2P Require Import Rpc.
From S2P Require Import Explorer.
From S2P Require Import Webhooks.
From S2P Require Import Sdk.
From S2P Require Import Faucet.
From S2P Require Import NodeServices.
From S2P Require Import Network.
From S2P Require Import NodeConfig.
From S2P Require Import Http.
From S2P Require Import Servers.
From S2P Require Import Testnet.
From S2P Require Import ServicesStart.
Local Open Scope N_scope.

(** [anyhow::Error]: a message, an error of a crate, or a context around one. *)
Inductive CliError :=
| CliText (msg : string)
| CliNode (e : NodeError)
| CliSdk (e : SdkError)
| CliContext (msg : string) (cause : CliError).
(** [.context(..)] and [.with_context(..)] *)
Definition with_context {A} (msg : string) (o : outcome CliError A) : outcome CliError A :=
  map_err (CliContext msg) o.

(** ** [main.rs] *)

(** The two parts of [str::splitn(2, c)], when there are two. *)
Fixpoint split_once (c : ascii) (s : string) : option (string * string) :=
  match s with
  | EmptyString => None
  | String x s =>
      if Ascii.eqb x c then Some ("", s)
      else '(a, b) ← split_once c s; Some (String x a, b)
  end.
Definition validator_entry (s : string) : outcome CliError (string * string) :=
  ok_or (split_once "@"%char s)
    (CliText ("invalid validator entry: " +:+ s +:+ " (expected path@host:port)")).
Fixpoint validator_entries (l : list string) : outcome CliError (list (string * string)) :=
  match l with
  | [] => Ok []
  | s :: l => e ← validator_entry s; es ← validator_entries l; Ok (e :: es)
  end.
Definition encode_staking_op `{!Serde StakingOperation} (op : StakingOperation) : bytes := x01 :: to_vec op.

(** [enum Commands] *)
Inductive Commands :=
| CmdInit (data_dir : string) (validator : bool)
| CmdStart (data_dir : string) (validator : bool)
| CmdStatus (data_dir : string)
| CmdKeys (data_dir : string)
| CmdServices (rpc_url : string)
| CmdBootstrapNetwork (output_dir chain_id : string) (validators : list string)
| CmdTestnet (data_dir : string) (validators : nat)
| CmdDemo (rpc_url faucet_url : string)
| CmdRegisterValidator (key_file rpc_url consensus_pubkey : string) (commission_bps self_stake fee : N)
| CmdDelegate (key_file rpc_url validator : string) (amount fee : N)
| CmdUndelegate (key_file rpc_url validator : string) (amount fee : N).

Section commands.
Context {W : Type} `{Reqwest W, Json, !ValueBytes, Hmac, HashOrder, Profile, Hex, Blake3, Dalek}.
Context `{!Serde Account, !Serde (gmap string bytes), !Serde ValidatorRecord, !Serde Delegation}.
Context `{!Serde Transaction, !Serde StakingOperation, !Serde BlockHeader, !Serde (list Transaction)}.
Context `{!FromValue Block, !FromValue Transaction}.
Context `{!Serde BlockResponse, !Serde TransactionResponse, !Serde BalanceResponse}.
Context `{!Serde NonceResponse, !Serde SendTransactionRequest}.
Context `{SocketAddrs, !JsonText NodeConfig, !JsonText GenesisConfig, !JsonText ValidatorKeyFile}.

Definition wallet_from_key_file (path : string) (fs : FileSystem) : outcome CliError Wallet :=
  contents ← with_context ("failed to read key file: " +:+ path)
    (ok_or (fs !! path) (CliNode (NodeIo "No such file or directory (os error 2)")));
  key_file ← with_context ("failed to parse key file: " +:+ path)
    (map_err CliText (from_json (A:=ValidatorKeyFile) contents));
  keypair ← map_err CliNode (keyfile_to_keypair key_file);
  Ok (Wallet_from_keypair keypair).

(** The body the three staking commands share; [op] is what the command makes of
    its arguments, after the nonce was fetched. *)
Definition submit_staking (key_file rpc_url : string) (op : outcome CliError StakingOperation) (fee : N)
    (fs : FileSystem) : M W CliError Hash :=
  wallet ← lift (wallet_from_key_file key_file fs);
  let client := HttpClient_new rpc_url in
  nonce ← map_errM CliSdk (http_nonce client (wl_address wallet));
  op ← lift op;
  t ← lift (map_err CliSdk (wallet_custom_payload wallet (encode_staking_op op) nonce fee));
  map_errM CliSdk (http_send_transaction client t).
Definition register_op (consensus_pubkey : string) (commission_bps self_stake : N)
    : outcome CliError StakingOperation :=
  pubkey ← with_context "invalid consensus_pubkey hex"
    (ok_or (hex_decode consensus_pubkey) (CliText "invalid hex"));
  Ok (RegisterValidator pubkey commission_bps self_stake).
Definition validator_argument (validator : string) : outcome CliError Address :=
  map_err (λ e, CliText ("invalid validator address: " +:+ validator +:+ ": " +:+ e))
    (Address_from_str validator).

(** What a command has done when it returns, or goes on to run. *)
Inductive CliResult :=
| CliDone
| CliPrinted (text : string)
| CliRuns (mode : NodeMode)
| CliServes (services : Services * SharedServices)
| CliRunsTestnet (t : Testnet)
| CliDemo (rpc_url faucet_url : string)
| CliSubmitted (hash : Hash).

(** [main]; [now] is the clock, [random] the key generator's bytes, [host] and
    [dir] the environment variables the services read. *)
Definition run_command (cmd : Commands) (now : N) (random : array32) (host dir : option string)
    : M (FileSystem * W) CliError CliResult :=
  let node {A} (m : M FileSystem NodeError A) : M (FileSystem * W) CliError A :=
    map_errM CliNode (zoom fst (λ fs s, (fs, s.2)) m) in
  let staking key_file rpc_url op fee : M (FileSystem * W) CliError CliResult := 
    fs ← gets fst;
    hash ← zoom snd (λ w s, (s.1, w)) (submit_staking key_file rpc_url op fee fs);
    mret (CliSubmitted hash) in
  match cmd with
  | CmdInit data_dir validator =>
      _ ← node (init data_dir validator now);
      _ ← (if validator then _ ← node (generate_and_save data_dir random); mret tt else mret tt);
      mret CliDone
  | CmdStart data_dir validator =>
      mode ← node (if validator then start_validator data_dir else start data_dir);
      mret (CliRuns mode)
  | CmdStatus data_dir => s ← node (node_status data_dir); mret (CliPrinted s)
  | CmdKeys data_dir => s ← node (keys_status data_dir); mret (CliPrinted s)
  | CmdServices rpc_url => s ← node (run_services rpc_url host dir); mret (CliServes s)
  | CmdBootstrapNetwork output_dir chain_id validators =>
      entries ← lift (validator_entries validators);
      manifest ← node (manifest_from_key_files entries);
      _ ← node (bootstrap_bft_network chain_id manifest [] output_dir now);
      mret CliDone
  | CmdTestnet data_dir validators =>
      t ← node (run_testnet data_dir validators host now); mret (CliRunsTestnet t)
  | CmdDemo rpc_url faucet_url => mret (CliDemo rpc_url faucet_url)
  | CmdRegisterValidator key_file rpc_url pubkey commission_bps self_stake fee =>
      staking key_file rpc_url (register_op pubkey commission_bps self_stake) fee
  | CmdDelegate key_file rpc_url validator amount fee =>
      staking key_file rpc_url (v ← validator_argument validator; Ok (Delegate v amount)) fee
  | CmdUndelegate key_file rpc_url validator amount fee =>
      staking key_file rpc_url (v ← validator_argument validator; Ok (Undelegate v amount)) fee
  end.
End commands.

Lemma split_once_at (a b : string) :
  free_of "@"%char a → split_once "@"%char (a +:+ "@" +:+ b) = Some (a, b).
Proof.
  unfold free_of. induction a as [|x a IH]; simpl; [done|]. rewrite not_elem_of_cons. intros [Hx Ha].
  rewrite (proj2 (Ascii.eqb_neq x "@"%char)) by congruence.
  change (split_once "@"%char (a +:+ "@" +:+ b) ≫= (λ '(a, b), Some (String x a, b)) = Some (String x a, b)).
  by rewrite IH.
Qed.

(** ** Staking from the command line *)
Section staking_commands.
Context `{Json, !ToValue Block, !ToValue Transaction, !FromValue Block, !FromValue Transaction}.
Context `{!FromValueLaws Block, !FromValueLaws Transaction}.
Context `{HexLaws, Blake3, DalekLaws, !Serde Transaction, !Serde BlockHeader}.
Context `{!Serde StatusBody, !Serde Block, !Serde BlockResponse, !Serde TransactionResponse}.
Context `{!Serde BalanceResponse, !Serde NonceResponse, !Serde ValidatorResponse}.
Context `{!Serde DelegationResponse, !Serde SendTransactionRequest}.
Context `{!SerdeLaws BlockResponse, !SerdeLaws TransactionResponse, !SerdeLaws BalanceResponse}.
Context `{!SerdeLaws NonceResponse, !SerdeLaws SendTransactionRequest, AxumLaws, Profile}.
Context `{!Serde Account, !Serde (gmap string bytes), !Serde ValidatorRecord, !Serde Delegation}.
Context `{!Serde StakingOperation, !SerdeLaws StakingOperation, JsonTextLaws ValidatorKeyFile}.
Context `{!ValueBytes, Hmac, HashOrder, !Serde (list Transaction)}.
Context `{SocketAddrs, !JsonText NodeConfig, !JsonText GenesisConfig}.
Context (url version unreachable error : string) (display : N → string).
Implicit Types (s : RpcStateInner) (t : Transaction) (L : Ledger).
#[local] Instance served_rpc : Reqwest RpcStateInner := rpc_network url version unreachable error display.

(** The file [generate_and_save] writes gives the wallet of its key. *)
Lemma wallet_from_saved path (fs : FileSystem) sk :
  fs !! path = Some (to_string_pretty (keyfile_from_keypair (keypair_of sk))) →
  wallet_from_key_file path fs = Ok (Wallet_from_keypair (keypair_of sk)).
Proof.
  intros Hfs. unfold wallet_from_key_file. rewrite Hfs. simpl. rewrite from_json_to_string. simpl.
  unfold keyfile_to_keypair. simpl. by rewrite !hex_decode_encode.
Qed.
(** What the endpoint checks, from what the executors check. *)
Lemma validate_signed t s account :
  verify_signature t = Ok tt → RpcState.get_account (tx_sender t) s = Some account →
  saturating_add U128 (tx_amount t) (tx_fee t) ≤ acc_balance account → acc_nonce account = tx_nonce t →
  validate_transaction t s = (Ok (tx_hash t), s).
Proof.
  intros (pk & Hpk & Hsig & Haddr & Hvk & Hv)%verify_signature_iff Ha Hle Hn.
  unfold validate_transaction. rewrite <-Hpk in *.
  rewrite bool_decide_false by (rewrite array32_length; tauto). rewrite bool_decide_false by tauto.
  rewrite bind_lift. cbn. unfold ed_verify. simpl.
  rewrite (proj2 (array32_try_from_Some _ pk)) by done. simpl. rewrite Hvk, decide_True, Hv by done. simpl.
  unfold mbind, M_bind, gets. rewrite Ha, (proj2 (N.ltb_ge _ _)) by done.
  by rewrite Hn, N.eqb_refl.
Qed.
Lemma submit_staking_run key_file (fs : FileSystem) sk op fee s account :
  from_slice (A:=TransactionResponse) [] = None →
  fs !! key_file = Some (to_string_pretty (keyfile_from_keypair (keypair_of sk))) →
  RpcState.get_account (wl_address (Wallet_from_keypair (keypair_of sk))) s = Some account →
  fee ≤ acc_balance account →
  ∃ t, submit_staking key_file url (Ok op) fee fs s =
      (Ok (tx_hash t), RpcState.submit_transaction t (RpcState.store_transaction (tx_hash t) t s)) ∧
    verify_signature t = Ok tt ∧ tx_sender t = wl_address (Wallet_from_keypair (keypair_of sk)) ∧
    tx_amount t = 0 ∧ tx_nonce t = acc_nonce account ∧ tx_fee t = fee ∧
    tx_payload t = staking_encode op.
Proof.
  intros Hempty Hfs Ha Hfee. set (w := Wallet_from_keypair (keypair_of sk)) in *.
  unfold submit_staking. rewrite (wallet_from_saved _ _ sk) by done. fold w. rewrite bind_lift.
  erewrite bind_Ok.
  2: { unfold map_errM. unfold served_rpc. rewrite http_nonce_run, Ha. done. }
  simpl from_option. rewrite bind_lift, bind_lift. unfold wallet_custom_payload.
  unfold w at 1. cbn [wl_keypair Wallet_from_keypair]. rewrite builder_sign_run. cbn zeta. cbn [map_err].
  match goal with |- ∃ t, map_errM CliSdk (http_send_transaction _ ?t0) s = _ ∧ _ => exists t0; set (t := t0) end.
  assert (verify_signature t = Ok tt) as Hv by by eapply signed_verifies.
  split; [|done]. unfold map_errM, served_rpc. rewrite http_send_run by done.
  rewrite (validate_signed t s account); [done|done|done| |done].
  unfold t. simpl. unfold saturating_add. lia.
Qed.
(** The operation of the staking executor. *)
Definition staking_run (op : StakingOperation) (sender : Address) : M Ledger VmError ExecutionResult :=
  match op with
  | RegisterValidator pubkey commission_bps self_stake => register sender pubkey commission_bps self_stake
  | Delegate validator amount => delegate sender validator amount
  | Undelegate validator amount => undelegate sender validator amount
  end.

(** What a staking command asks for, its arguments being read as hexadecimal text
    and as an address. *)
Inductive requests (key_file : string) (fee : N) : Commands → StakingOperation → Prop :=
| requests_register text pubkey commission_bps self_stake :
    hex_decode text = Some pubkey →
    requests key_file fee (CmdRegisterValidator key_file url text commission_bps self_stake fee)
      (RegisterValidator pubkey commission_bps self_stake)
| requests_delegate text validator amount :
    Address_from_str text = Ok validator →
    requests key_file fee (CmdDelegate key_file url text amount fee) (Delegate validator amount)
| requests_undelegate text validator amount :
    Address_from_str text = Ok validator →
    requests key_file fee (CmdUndelegate key_file url text amount fee) (Undelegate validator amount).

Lemma run_command_requests key_file fee cmd op now random host dir fs s :
  requests key_file fee cmd op →
  run_command cmd now random host dir (fs, s) =
    let '(o, s') := submit_staking key_file url (Ok op) fee fs s in
    (hash ← o; Ok (CliSubmitted hash), (fs, s')).
Proof.
  intros Hreq. destruct Hreq as [text pubkey bps stake Hp|text v amount Hv|text v amount Hv];
    unfold run_command, register_op, validator_argument; [rewrite Hp|rewrite Hv..]; cbn;
    unfold mbind, M_bind, gets, zoom; cbn; by destruct (submit_staking _ _ _ _ _ _) as [[h|e|] s'].
Qed.

(** C22: The commands [register-validator], [delegate] and [undelegate] do what
    they were asked for: run with a key file that [init] wrote, a hexadecimal key
    or an address that can be read, against an RPC server whose mirror shows the
    ledger, for an account on file that can pay the fee and has nonces left, each succeeds, queues one
    transaction and changes nothing else, and reports its hash; executing that
    transaction on the ledger charges the fee and runs exactly the command's own
    operation, with its own arguments, for the key's address. *)
Theorem cli_staking_reaches_ledger cmd key_file (fs : FileSystem) sk op fee s account L now random host dir :
  requests key_file fee cmd op →
  from_slice (A:=TransactionResponse) [] = None → from_slice ([] : bytes) = (None : option StakingOperation) →
  fs !! key_file = Some (to_string_pretty (keyfile_from_keypair (keypair_of sk))) →
  let sender := wl_address (Wallet_from_keypair (keypair_of sk)) in
  RpcState.get_account sender s = Some account → fee ≤ acc_balance account →
  mirrors s L → acc_nonce account < U64 →
  ∃ t, run_command cmd now random host dir (fs, s) =
      (Ok (CliSubmitted (tx_hash t)),
       (fs, RpcState.submit_transaction t (RpcState.store_transaction (tx_hash t) t s))) ∧
    tx_sender t = sender ∧ tx_fee t = fee ∧
    execute t L = staking_run op sender (charged t L).
Proof.
  intros Hreq Hempty Hop Hfs sender Ha Hfee Hm Hn.
  destruct (submit_staking_run key_file fs sk op fee s account Hempty Hfs Ha Hfee)
    as (t & Hrun & Hv & Hs & _ & Hnon & Hf & Hpay). fold sender in Hs.
  exists t. split_and!; [by rewrite (run_command_requests _ _ _ _ _ _ _ _ _ _ Hreq), Hrun|done..|].
  assert (acct L (tx_sender t) = account) as Hacc.
  { rewrite Hs, <-Hm. unfold mirror_account. by rewrite Ha. }
  rewrite execute_accepted.
  - unfold dispatch. rewrite Hpay. unfold staking_encode. rewrite bool_decide_true by done.
    fold (staking_encode op). unfold staking_execute. rewrite Hpay.
    rewrite staking_payload_roundtrip, bind_lift by done. rewrite Hs. by destruct op.
  - by rewrite Hacc.
  - unfold accepted. rewrite Hv, Hacc, Hnon, Hf, N.eqb_refl. by apply N.leb_le.
Qed.

(** A staking command with a key or an address that cannot be read fails and
    submits nothing, whatever the key file holds. *)
Lemma cli_staking_malformed cmd key_file fee (fs : FileSystem) s now random host dir :
  (∃ text bps stake, cmd = CmdRegisterValidator key_file url text bps stake fee ∧ hex_decode text = None) ∨
  (∃ text amount, (cmd = CmdDelegate key_file url text amount fee ∨
     cmd = CmdUndelegate key_file url text amount fee) ∧ is_ok (Address_from_str text) = false) →
  is_ok (run_command cmd now random host dir (fs, s)).1 = false ∧
  (run_command cmd now random host dir (fs, s)).2 = (fs, s).
Proof.
  assert (∀ op, is_ok op = false → is_ok (submit_staking key_file url op fee fs s).1 = false ∧
    (submit_staking key_file url op fee fs s).2 = s) as Hsubmit.
  { intros op Hop. unfold submit_staking. destruct (wallet_from_key_file key_file fs) as [w|e|]; [|done..].
    rewrite bind_lift. unfold mbind, M_bind, map_errM, served_rpc. rewrite http_nonce_run.
    by destruct op. }
  assert (∀ op, is_ok op = false →
    ∀ m, m = (hash ← zoom snd (λ w (x : FileSystem * _), (x.1, w)) (submit_staking key_file url op fee fs);
              mret (CliSubmitted hash)) (fs, s) → is_ok m.1 = false ∧ m.2 = (fs, s)) as Hrun.
  { intros op Hop m ->. destruct (Hsubmit op Hop) as [Hne Heq]. unfold mbind, M_bind, zoom. cbn [snd fst].
    destruct (submit_staking _ _ _ _ _ _) as [[h|e|] s']; simpl in *; [done|by subst..]. }
  intros [(text & bps & stake & -> & Hd)|(text & amount & [-> | ->] & Hd)]; eapply Hrun; try reflexivity.
  - unfold register_op. by rewrite Hd.
  - unfold validator_argument. by destruct (Address_from_str text).
  - unfold validator_argument. by destruct (Address_from_str text).
Qed.
End staking_commands.
