(* ===== verification/Demo.v ===== *)
(** * Crate [pemrix-cli]: the wallet-to-merchant demo

    [demo.rs] over any world that has a clock and in which sleeping takes at least
    the time asked for.  The loop that waits for the payment has no bound of its
    own: it is given fuel, and the theorem says how much is always enough. *)

From Stdlib Require Import Strings.Byte Strings.Ascii.
From stdpp Require Import pretty.
From S2P Require Import Prelude.
From S2P Require Import Externals.
From S2P Require Import Primitives.
From S2P Require Import Crypto.
From S2P Require Import StateStore.
From S2P Require Import Vm.
From S2P Require Import Web.
From S2P Require Import Rpc.
From S2P Require Import Sdk.
From S2P Require Import Faucet.
From S2P Require Import NodeConfig.
From S2P Require Import Http.
From S2P Require Import Servers.
From S2P Require Import Cli.
Local Open Scope N_scope.

Definition FAUCET_AMOUNT : N := 10000.
Definition PAYMENT_AMOUNT : N := 1000.
Definition TX_FEE : N := 1.
(** Durations in nanoseconds. *)
Definition seconds (n : N) : N := n * 1000000000.
Definition SETTLE_TIMEOUT : N := seconds 30.

(** [Instant::now] and [tokio::time::sleep]. *)
Class Time (W : Type) := { clock : W → N; sleep : N → W → W }.
(** Sleeping lasts at least as long as asked, and requests take no negative time. *)
Class TimeLaws (W : Type) `{Time W, Reqwest W} : Prop := {
  clock_sleep d w : clock w + d ≤ clock (sleep d w);
  clock_send r w : clock w ≤ clock (reqwest_send r w).2;
}.

Section demo.
Context {W : Type} `{Time W, Reqwest W, Json, Profile, Hex, Blake3, Dalek, !Serde Transaction}.
Context `{!Serde TransactionResponse, !Serde BalanceResponse}.
Context `{!Serde NonceResponse, !Serde SendTransactionRequest}.
Context `{!Serde FaucetRequest, !Serde FaucetResponse}.
Notation Demo A := (M W CliError A).

(** [.await.context(..)?] *)
Definition await {A} (msg : string) (m : M W SdkError A) : Demo A :=
  map_errM (λ e, CliContext msg (CliSdk e)) m.

(** The payload of the merchant's QR code; it is only logged. *)
Definition qr_payload (merchant : Address) : string :=
  "pemrix:pay?address=" +:+ Address_to_string merchant +:+ "&amount=" +:+ pretty PAYMENT_AMOUNT
    +:+ "&memo=Tea".

(** One poll of the final loop: whether the payment has arrived. *)
Definition poll (rpc : HttpClient) (payer merchant : Address) (before : N) : Demo bool :=
  merchant_after ← await "failed to query merchant balance" (http_balance rpc merchant);
  payer_after ← await "failed to query payer balance" (http_balance rpc payer);
  target ← lift (uadd U128 before PAYMENT_AMOUNT);
  mret (target <=? merchant_after).
(** The loop, with [None] when the fuel runs out. *)
Fixpoint settle (fuel : nat) (rpc : HttpClient) (payer merchant : Address) (before start : N)
    : Demo (option unit) :=
  match fuel with
  | O => mret None
  | Datatypes.S fuel =>
      _ ← modify (sleep (seconds 2));
      arrived ← poll rpc payer merchant before;
      if arrived : bool then mret (Some tt)
      else
        now ← gets clock;
        if SETTLE_TIMEOUT <? now - start then fail (CliText "payment settlement timeout")
        else settle fuel rpc payer merchant before start
  end.

(** [run]; [random1] and [random2] are the bytes of the two new wallets. *)
Definition demo_run (fuel : nat) (rpc_url faucet_url : string) (random1 random2 : array32)
    : Demo (option unit) :=
  let rpc := HttpClient_new rpc_url in
  let faucet := FaucetClient_new faucet_url in
  payer ← lift (with_context "failed to generate payer wallet" (map_err CliSdk (Wallet_generate random1)));
  merchant ← lift (with_context "failed to generate merchant wallet" (map_err CliSdk (Wallet_generate random2)));
  response ← await "faucet request failed" (faucet_client_request faucet (wl_address payer) FAUCET_AMOUNT);
  if negb (fp_success response) then fail (CliText ("faucet request rejected: " +:+ fp_message response))
  else
    _ ← modify (sleep (seconds 3));
    payer_before ← await "failed to query payer balance" (http_balance rpc (wl_address payer));
    merchant_before ← await "failed to query merchant balance" (http_balance rpc (wl_address merchant));
    if payer_before <? PAYMENT_AMOUNT + TX_FEE then
      fail (CliText ("payer balance too low: have " +:+ pretty payer_before +:+ ", need " +:+
                     pretty (PAYMENT_AMOUNT + TX_FEE)))
    else
      nonce ← await "failed to query payer nonce" (http_nonce rpc (wl_address payer));
      t ← lift (map_err CliSdk (wallet_transfer payer (wl_address merchant) PAYMENT_AMOUNT nonce TX_FEE));
      _ ← await "failed to submit payment transaction" (http_send_transaction rpc t);
      start ← gets clock;
      settle fuel rpc (wl_address payer) (wl_address merchant) merchant_before start.

(** ** Termination *)
Context `{!TimeLaws W}.

(** A call of the client leaves the clock where it is or later. *)
Definition forward {A E} (m : M W E A) : Prop := ∀ w, clock w ≤ clock (m w).2.
Lemma forward_bind {A B E} (m : M W E A) (f : A → M W E B) :
  forward m → (∀ a, forward (f a)) → forward (m ≫= f).
Proof.
  intros Hm Hf w. unfold mbind, M_bind. specialize (Hm w). destruct (m w) as [[a|e|] w']; simpl in *;
    [|done..]. etransitivity; [exact Hm|apply Hf].
Qed.
Lemma forward_await {A} msg (m : M W SdkError A) : forward m → forward (await msg m).
Proof.
  intros Hm w. unfold await, map_errM. specialize (Hm w). by destruct (m w) as [[a|e|] w'].
Qed.
Lemma forward_balance rpc a : forward (http_balance rpc a).
Proof.
  unfold http_balance. apply forward_bind.
  - intros w. unfold http_get, http_send, map_errM. pose proof (clock_send (MkRequest GET
      (http_url rpc ("/v1/accounts/" +:+ Address_to_string a +:+ "/balance")) []) w) as Hc.
    by destruct (reqwest_send _ w) as [[x|e|] w'].
  - intros r. apply forward_bind; [|by intros ? ?]. intros w. done.
Qed.

Lemma forward_poll rpc payer merchant before : forward (poll rpc payer merchant before).
Proof.
  unfold poll. apply forward_bind; [apply forward_await, forward_balance|intros a].
  apply forward_bind; [apply forward_await, forward_balance|intros a'].
  apply forward_bind; [by intros w|intros target]. by intros w.
Qed.

(** Fuel that outlasts the timeout, at two seconds a poll, is enough. *)
Lemma settle_bound fuel rpc payer merchant before start w :
  start + SETTLE_TIMEOUT < clock w + seconds 2 * N.of_nat fuel → start ≤ clock w →
  (clock w ≤ start + SETTLE_TIMEOUT) →
  (settle fuel rpc payer merchant before start w).1 ≠ Ok None ∧
  ∀ more, settle (fuel + more) rpc payer merchant before start w =
    settle fuel rpc payer merchant before start w.
Proof.
  revert w. induction fuel as [|fuel IH]; intros w Hbound Hstart Htime; [lia|].
  cbn [settle Nat.add]. unfold mbind, M_bind, modify. cbn.
  pose proof (clock_sleep (seconds 2) w) as Hsleep.
  pose proof (forward_poll rpc payer merchant before (sleep (seconds 2) w)) as Hpoll.
  destruct (poll rpc payer merchant before (sleep (seconds 2) w)) as [[arrived|e|] w']; [|done..].
  cbn [snd] in Hpoll. destruct arrived; [done|]. cbn [gets].
  unfold gets. destruct (N.ltb_spec SETTLE_TIMEOUT (clock w' - start)); [done|].
  apply IH; unfold seconds in *; lia.
Qed.

(** Two runs that agree and return a result. *)
Definition agree (m m' : Demo (option unit)) : Prop := ∀ w, (m' w).1 ≠ Ok None ∧ m w = m' w.
Lemma agree_bind {A} (x : Demo A) f g : (∀ a, agree (f a) (g a)) → agree (x ≫= f) (x ≫= g).
Proof.
  intros Hfg w. unfold mbind, M_bind. destruct (x w) as [[a|e|] w']; [apply Hfg|done..].
Qed.
Lemma agree_fail e : agree (fail e) (fail e).
Proof. by intros w. Qed.
Lemma agree_settle fuel rpc payer merchant before :
  (16 ≤ fuel)%nat →
  agree (start ← gets clock; settle fuel rpc payer merchant before start)
    (start ← gets clock; settle 16 rpc payer merchant before start).
Proof.
  intros Hfuel w. unfold mbind, M_bind, gets.
  destruct (settle_bound 16 rpc payer merchant before (clock w) w) as [Hne Hmore];
    [unfold SETTLE_TIMEOUT, seconds; lia..|].
  split; [done|]. rewrite <-(Hmore (fuel - 16)%nat). do 2 f_equal. lia.
Qed.

(** *** Panics *)
(** From a state of [I] the call keeps [I] and does not panic, and what it returns
    satisfies [Q]. *)
Definition calm {A E} (I : W → Prop) (m : M W E A) (Q : A → Prop) : Prop :=
  ∀ w, I w → I (m w).2 ∧ match (m w).1 with Ok a => Q a | Err _ => True | Panic => False end.

Section calm.
Context (I : W → Prop).
Lemma calm_bind {A B E} (m : M W E A) (f : A → M W E B) Q R :
  calm I m Q → (∀ a, Q a → calm I (f a) R) → calm I (m ≫= f) R.
Proof.
  intros Hm Hf w Hw. unfold mbind, M_bind. specialize (Hm w Hw).
  destruct (m w) as [[a|e|] w']; simpl in *; [|tauto..]. by apply Hf; destruct Hm.
Qed.
Lemma calm_ret {A E} (a : A) (Q : A → Prop) : Q a → calm (E:=E) I (mret a) Q.
Proof. by intros Hq w Hw. Qed.
Lemma calm_fail {A E} (e : E) (Q : A → Prop) : calm I (fail e) Q.
Proof. by intros w Hw. Qed.
Lemma calm_lift {A E} (x : outcome E A) (Q : A → Prop) :
  match x with Ok a => Q a | Err _ => True | Panic => False end → calm I (lift x) Q.
Proof. by intros Hx w Hw. Qed.
Lemma calm_gets {A E} (f : W → A) : calm (E:=E) I (gets f) (λ _, True).
Proof. by intros w Hw. Qed.
Lemma calm_map_errM {A E E'} (g : E → E') (m : M W E A) Q : calm I m Q → calm I (map_errM g m) Q.
Proof.
  intros Hm w Hw. unfold map_errM. specialize (Hm w Hw). by destruct (m w) as [[a|e|] w'].
Qed.
Lemma calm_weaken {A E} (m : M W E A) (Q R : A → Prop) : calm I m Q → (∀ a, Q a → R a) → calm I m R.
Proof. intros Hm HQR w Hw. destruct (Hm w Hw) as [HI Hq]. split; [done|]. case_match; auto. Qed.

(** A world of [I] in which no request panics, and no balance that is read is so
    close to the largest amount that the payment cannot be added to it. *)
Definition calm_world (rpc_url : string) : Prop :=
  (∀ r w, I w → I (reqwest_send r w).2 ∧ (reqwest_send r w).1 ≠ Panic) ∧
  (∀ d w, I w → I (sleep d w)) ∧
  (∀ a n w, I w → (http_balance (HttpClient_new rpc_url) a w).1 = Ok n → n + PAYMENT_AMOUNT ≤ U128).

Context (rpc_url : string) (Hworld : calm_world rpc_url).
Lemma calm_sleep {E} d : calm (E:=E) I (modify (sleep d)) (λ _, True).
Proof. intros w Hw. destruct Hworld as (_ & Hsleep & _). by split; [apply Hsleep|]. Qed.
Lemma calm_send r : calm I (http_send r) (λ _, True).
Proof.
  apply calm_map_errM. intros w Hw. destruct Hworld as (Hsend & _). destruct (Hsend r w Hw) as [HI Hne].
  split; [done|]. by destruct (reqwest_send r w).1.
Qed.
Lemma calm_json {A} `{Serde A} r : calm I (http_json (A:=A) r) (λ _, True).
Proof. apply calm_lift. by destruct (from_slice _). Qed.
Lemma calm_balance a :
  calm I (http_balance (HttpClient_new rpc_url) a) (λ n, n + PAYMENT_AMOUNT ≤ U128).
Proof.
  intros w Hw. assert (calm I (http_balance (HttpClient_new rpc_url) a) (λ _, True)) as Hcalm.
  { eapply calm_bind; [apply calm_send|intros r _]. eapply calm_bind; [apply calm_json|intros b _].
    by apply calm_ret. }
  destruct (Hcalm w Hw) as [HI Hne]. split; [done|]. destruct Hworld as (_ & _ & Hsmall).
  specialize (Hsmall a). destruct (http_balance _ a w).1 as [n|e|] eqn:Hn; [|done..].
  by apply (Hsmall n w).
Qed.
Lemma calm_poll payer merchant before :
  before + PAYMENT_AMOUNT ≤ U128 →
  calm I (poll (HttpClient_new rpc_url) payer merchant before) (λ _, True).
Proof.
  intros Hbefore. eapply calm_bind; [apply calm_map_errM, calm_balance|intros m _].
  eapply calm_bind; [apply calm_map_errM, calm_balance|intros p _].
  eapply calm_bind; [|intros t _; by apply calm_ret]. apply (calm_lift _ (λ _, True)).
  by rewrite uadd_ok.
Qed.
Lemma calm_settle fuel payer merchant before start :
  before + PAYMENT_AMOUNT ≤ U128 →
  calm I (settle fuel (HttpClient_new rpc_url) payer merchant before start) (λ _, True).
Proof.
  intros Hbefore. induction fuel as [|fuel IH]; cbn [settle]; [by apply calm_ret|].
  eapply calm_bind; [apply calm_sleep|intros _ _].
  eapply calm_bind; [by apply calm_poll|intros arrived _]. destruct arrived; [by apply calm_ret|].
  eapply calm_bind; [apply calm_gets|intros now _]. case_match; [apply calm_fail|done].
Qed.
End calm.

Lemma calm_demo (I : W → Prop) fuel rpc_url faucet_url random1 random2 :
  calm_world I rpc_url → calm I (demo_run fuel rpc_url faucet_url random1 random2) (λ _, True).
Proof.
  intros Hworld. unfold demo_run. do 2 (eapply (calm_bind I _ _ (λ w, ∃ sk, w = Wallet_from_keypair (keypair_of sk)));
    [apply calm_lift; by eexists|intros ? [? ->]]).
  eapply calm_bind; [|intros response _].
  { apply calm_map_errM. eapply calm_bind; [by eapply calm_send|intros r _; apply calm_json]. }
  case_match; [apply calm_fail|].
  eapply calm_bind; [by eapply calm_sleep|intros _ _].
  do 2 (eapply calm_bind; [by apply calm_map_errM, calm_balance|intros ? ?]).
  case_match; [apply calm_fail|].
  eapply calm_bind; [|intros nonce _].
  { apply calm_map_errM. eapply calm_bind; [by eapply calm_send|intros r _].
    eapply calm_bind; [apply calm_json|intros b _]. by apply (calm_ret _ _ (λ _, True)). }
  eapply (calm_bind _ _ _ (λ _, True)); [apply calm_lift; unfold wallet_transfer; cbn; by rewrite builder_sign_run|intros t _].
  eapply calm_bind; [|intros sent _].
  { apply calm_map_errM. eapply calm_bind; [by eapply calm_send|intros r _].
    eapply calm_bind; [apply calm_json|intros b _]. by apply (calm_ret _ _ (λ _, True)). }
  eapply calm_bind; [apply calm_gets|intros start _]. by apply calm_settle.
Qed.

(** In a build with overflow checks a poll panics when the merchant's balance was
    too large for the payment to be added to it, whatever the balances are now. *)
Lemma poll_panics_on_overflow rpc payer merchant before w n n' w' w'' :
  overflow_checks = true → U128 < before + PAYMENT_AMOUNT →
  http_balance rpc merchant w = (Ok n, w') → http_balance rpc payer w' = (Ok n', w'') →
  (poll rpc payer merchant before w).1 = Panic.
Proof.
  intros Hchecks Hbig Hm Hp. unfold poll, await, mbind, M_bind, map_errM. rewrite Hm. cbn [map_err].
  rewrite Hp. cbn [map_err]. unfold lift, uadd, overflow. rewrite Hchecks.
  by rewrite (proj2 (N.leb_gt _ _)).
Qed.

(** C39: The demo ends: in a world where sleeping takes at least the time asked for
    and requests do not turn the clock back, its unbounded polling loop makes at
    most sixteen rounds, whatever the servers answer, and more fuel changes nothing.
    It ends in success or an error, and not in a panic, from every state of a set
    that requests and sleeping keep, where no request itself panics and no balance
    the server reports is so large that adding the payment to it would overflow. *)
Theorem demo_terminates (fuel : nat) (rpc_url faucet_url : string) (random1 random2 : array32) (w : W) :
  (16 ≤ fuel)%nat →
  (demo_run fuel rpc_url faucet_url random1 random2 w).1 ≠ Ok None ∧
  demo_run fuel rpc_url faucet_url random1 random2 w =
    demo_run 16 rpc_url faucet_url random1 random2 w ∧
  ∀ I : W → Prop, calm_world I rpc_url → I w →
    (demo_run fuel rpc_url faucet_url random1 random2 w).1 = Ok (Some tt) ∨
    ∃ e, (demo_run fuel rpc_url faucet_url random1 random2 w).1 = Err e.
Proof.
  intros Hfuel.
  assert (agree (demo_run fuel rpc_url faucet_url random1 random2)
    (demo_run 16 rpc_url faucet_url random1 random2)) as Hagree.
  { unfold demo_run. do 3 (apply agree_bind; intros ?). case_match; [apply agree_fail|].
    do 3 (apply agree_bind; intros ?). case_match; [apply agree_fail|].
    do 3 (apply agree_bind; intros ?). by apply agree_settle. }
  destruct (Hagree w) as [Hne Heq]. rewrite Heq. split_and!; [done..|]. intros I Hworld Hw.
  destruct (calm_demo I 16 rpc_url faucet_url random1 random2 Hworld w Hw) as [_ Hcalm].
  destruct (demo_run 16 _ _ _ _ w).1 as [[[]|]|e|]; [by left|done|right; by exists e|done].
Qed.
End demo.
