(* ===== verification/RpcProperties.v ===== *)
(** * Properties of the RPC servers

    What acceptance by the REST endpoint promises, what the transaction query
    reports, and what the gRPC conversions keep and lose. *)

From Stdlib Require Import Strings.Byte.
From S2P Require Import Prelude.
From S2P Require Import Externals.
From S2P Require Import Primitives.
From S2P Require Import Storage.
From S2P Require Import StateStore.
From S2P Require Import Crypto.
From S2P Require Import Vm.
From S2P Require Import VmTheorems.
From S2P Require Import Bft.
From S2P Require Import Web.
From S2P Require Import Rpc.
From S2P Require Import Grpc.
From S2P Require Import Webhooks.
From S2P Require Import NodeServices.
From S2P Require Import Mempool.
From S2P Require Import BftTheorems.
From S2P Require Import NodeConfig.
From S2P Require Import Testnet.
Local Open Scope N_scope.

Section rest.
Context {B : Type} `{StateBackend B, Hex, Blake3, Serde Account, Serde (gmap string bytes)}.
Context `{!BackendLaws B, !Serde ValidatorRecord, !SerdeLaws ValidatorRecord}.
Context `{!Serde Delegation, !SerdeLaws Delegation}.
Context `{Profile, Dalek, !Serde Transaction, !Serde StakingOperation, !Serde BlockHeader}.
Implicit Types (t : Transaction) (L : Ledger) (s : RpcStateInner).

(** The endpoint checks what the executors check. *)
Lemma validated_signature t s h s' :
  validate_transaction t s = (Ok h, s') → verify_signature t = Ok tt.
Proof.
  intros (_ & _ & Hpk & Hsig & Haddr & Hv & _)%validate_transaction_Ok.
  unfold verify_signature. rewrite !decide_False; [|rewrite <-Haddr; by intros Hne|by intros Hne..].
  by rewrite Hv.
Qed.

(** C20: A native transfer the REST endpoint accepts executes successfully on the
    state its account mirror shows: the block executor returns success, whatever
    the backend. *)
Theorem rpc_accepted_transfer_executes (st : StateStore B) L s s' t h :
  store_rel st L → ledger_inv L → acc_nonce (acct L (tx_sender t)) < U64 →
  mirrors s L → tx_payload t = [] → tx_amount t + tx_fee t ≤ U128 →
  validate_transaction t s = (Ok h, s') →
  (execute t st).1 = Ok (MkExecutionResult true (MkGas 21000) "ok").
Proof.
  intros HR Hinv Hn Hm Hpay Hle Hval. destruct (sim_execute t st L HR) as [-> _].
  pose proof (validated_signature t s h s' Hval) as Hv.
  apply validate_transaction_Ok in Hval as (_ & _ & _ & _ & _ & _ & x & Hx & Hbal & Hnon).
  assert (acct L (tx_sender t) = x) as Hax.
  { rewrite <-Hm. unfold mirror_account, RpcState.get_account. by rewrite Hx. }
  rewrite saturating_add_exact in Hbal by done.
  rewrite execute_accepted; [|done|].
  2: { unfold accepted. rewrite Hv, Hax, Hnon, N.eqb_refl. apply N.leb_le. lia. }
  unfold dispatch. rewrite Hpay, execute_transfer_run by by apply charged_inv.
  case_match; [done|]. rewrite (proj2 (N.ltb_ge _ _)); [done|].
  unfold charged. rewrite acct_set, decide_True by done. rewrite Hax. simpl. lia.
Qed.

(** A transaction is reported as confirmed as soon as it is submitted: right
    after an accepted request, the query for its hash answers "confirmed" while
    the transaction is pending and in no block. *)
Lemma pending_transaction_reported_confirmed `{Json, !ToValue Transaction, !HexLaws} s t h s' :
  validate_transaction t s = (Ok h, s') →
  let s1 := (send_transaction_handler (MkSendTransactionRequest t) s).2 in
  rpc_pending s1 = rpc_pending s ++ [t] ∧ rpc_blocks s1 = rpc_blocks s ∧
  (transaction_handler (Hash_to_string h) s1).1 =
    Ok (MkTransactionResponse _ h "confirmed" (value_or_null t)).
Proof.
  intros Hval. rewrite send_transaction_run. cbn [st_transaction]. rewrite Hval. cbn [snd].
  split_and!; [done|done|]. unfold transaction_handler, bad_request.
  rewrite Hash_from_to_string, bind_lift. cbn [map_err].
  unfold mbind, M_bind, gets, RpcState.get_transaction. simpl. by rewrite lookup_insert_eq.
Qed.
End rest.

Section grpc.
Context `{HexLaws, Blake3, Profile, Dalek, !Serde Transaction, !Serde BlockHeader}.
Context `{!Serde StakingOperation}.

(** The protobuf form of a transaction round-trips its sender, recipient,
    amount, nonce, fee and payload, the amounts through decimal strings; the
    public key and the signature are not in it and come back empty. *)
Lemma grpc_transaction_roundtrip (t : Transaction) :
  tx_wf t →
  ∃ t', proto_to_transaction (transaction_to_proto t) = Ok t' ∧
    tx_sender t' = tx_sender t ∧ tx_recipient t' = tx_recipient t ∧ tx_amount t' = tx_amount t ∧
    tx_nonce t' = tx_nonce t ∧ tx_fee t' = tx_fee t ∧ tx_payload t' = tx_payload t ∧
    tx_public_key t' = [] ∧ tx_signature t' = [].
Proof. intros Hwf. rewrite proto_to_transaction_to_proto by done. by eexists. Qed.

(** An accepted gRPC request queues a transaction without key and signature,
    which no store executes. *)
Lemma grpc_queues_unsigned (r : proto.SendTransactionRequest) (s s' : RpcStateInner) resp :
  GrpcService.send_transaction r s = (Ok resp, s') →
  ∃ t, rpc_pending s' = rpc_pending s ++ [t] ∧ rpc_blocks s' = rpc_blocks s ∧
    ∀ {S} `{Store S} (st : S), execute t st = (Err InvalidSignature, st).
Proof.
  unfold GrpcService.send_transaction. rewrite bind_lift.
  destruct (proto.sr_transaction r) as [p|]; [|done]. cbn [ok_or]. rewrite bind_lift.
  destruct (proto_to_transaction p) as [t|e|] eqn:Hp; [|done..].
  intros Hrun. exists t. unfold mbind, M_bind, modify in Hrun. simpl in Hrun.
  injection Hrun as _ <-. split_and!; [done..|]. intros S HS st.
  unfold execute. rewrite bind_lift. unfold verify_signature.
  destruct (proto_to_transaction_unsigned _ _ Hp) as [-> _]. by rewrite decide_True.
Qed.

(** C40: One gRPC request stops the local testnet: whatever request is accepted,
    the transaction it queues fails signature verification on every store, and as
    long as at most a hundred transactions are waiting, the next turn of the
    block loop fails, so that the loop produces no further block. *)
Theorem grpc_request_halts_testnet
    `{Json, !ValueBytes, Hmac, HashOrder, !Serde Account, !Serde (gmap string bytes)}
    `{!Serde ValidatorRecord, !Serde Delegation, !Serde (list Transaction)}
    (r : proto.SendTransactionRequest) resp (st : TestnetState) (rpc' : RpcStateInner)
    (height now : N) (turns : list (N * Action)) :
  GrpcService.send_transaction r (sv_rpc (tn_services st)) = (Ok resp, rpc') →
  (length (pool (tn_mempool st)) + length (rpc_pending (sv_rpc (tn_services st))) < 100)%nat →
  let st' := MkTestnetState (tn_consensus st) (tn_mempool st) (on_rpc (λ _, rpc') (tn_services st)) in
  (∃ t, rpc_pending rpc' = rpc_pending (sv_rpc (tn_services st)) ++ [t] ∧
     ∀ {S} `{Store S} (store : S), execute t store = (Err InvalidSignature, store)) ∧
  let '(outcome, st'') := solo_testnet_run height ((now, id) :: turns) st' in
  is_ok outcome = false ∧
  rpc_blocks (sv_rpc (tn_services st'')) = rpc_blocks (sv_rpc (tn_services st)).
Proof.
  intros Hrun Hlen st'. destruct (grpc_queues_unsigned _ _ _ _ Hrun) as (t & Hp & Hb & Hex).
  split; [by exists t|]. cbn [solo_testnet_run].
  change (MkTestnetState (tn_consensus st') (tn_mempool st') (id (tn_services st'))) with st'.
  pose proof (solo_turn_fails height now st' t InvalidSignature) as Hfail.
  erewrite bind_Ok by done. 
  pose proof (solo_turn_run height now st') as Hturn. cbn zeta in Hturn.
  unfold mbind, M_bind.
  change (MkTestnetState (tn_consensus st') (tn_mempool st') (id (tn_services st'))) with st'.
  destruct (solo_turn height now st') as [o s1] eqn:Ho. simpl in Hfail.
  assert (is_ok o = false) as Hno.
  { apply Hfail; [intros; by rewrite Hex|]. unfold st'. simpl. rewrite Hp, take_ge.
    - rewrite !elem_of_app. right. right. by apply list_elem_of_singleton.
    - rewrite !length_app. simpl. lia. }
  destruct (solo_propose _ _ _ _) as [[b|e|] c]; simplify_eq; by split.
Qed.
End grpc.
