(* ===== verification/Settlement.v ===== *)
(** * Settlement: a payment over HTTP on the solo testnet

    What a wallet's owner relies on end to end: the client of [pemrix-sdk] asks
    the RPC server for the nonce and submits the signed transfer, the block loop
    of [testnet.rs] puts it in a block and executes it, [ingest_block] replays it
    into the RPC state, and the client reads the new balances.  The loop never
    forgets a submitted transaction, so the theorem also covers every later turn,
    in which the payment is executed again and rejected. *)

From Stdlib Require Import Strings.Byte.
From stdpp Require Import pretty.
From S2P Require Import Prelude.
From S2P Require Import Externals.
From S2P Require Import Primitives.
From S2P Require Import Storage.
From S2P Require Import StateStore.
From S2P Require Import Crypto.
From S2P Require Import Vm.
From S2P Require Import VmTheorems.
From S2P Require Import Web.
From S2P Require Import Rpc.
From S2P Require Import Explorer.
From S2P Require Import Webhooks.
From S2P Require Import Sdk.
From S2P Require Import Faucet.
From S2P Require Import NodeServices.
From S2P Require Import Mempool.
From S2P Require Import Bft.
From S2P Require Import BftTheorems.
From S2P Require Import BftProperties.
From S2P Require Import NodeConfig.
From S2P Require Import Http.
From S2P Require Import Servers.
From S2P Require Import NodeStartup.
From S2P Require Import Testnet.
From S2P Require Import ServicesStart.
From S2P Require Import Cli.
Local Open Scope N_scope.

(** ** The steps of a payment *)
Section payment.
Context {W : Type} `{Reqwest W, Json, Hex, Blake3, Dalek, !Serde Transaction}.
Context `{!Serde TransactionResponse, !Serde NonceResponse, !Serde SendTransactionRequest}.

(** What [demo.rs] does to pay: ask for the nonce, sign a transfer with it and
    submit it. *)
Definition submit_payment (rpc : HttpClient) (payer : Wallet) (merchant : Address) (amount fee : N)
    : M W SdkError Hash :=
  nonce ← http_nonce rpc (wl_address payer);
  t ← lift (wallet_transfer payer merchant amount nonce fee);
  http_send_transaction rpc t.
End payment.

(** ** Blocks of transactions that execute *)
Section all_execute.
Context `{Profile, Blake3, Dalek, !Serde Transaction, !Serde StakingOperation}.

(** Each transaction gives a result, if only a rejection. *)
Fixpoint all_execute {S} `{!Store S} (ts : list Transaction) (s : S) : Prop :=
  match ts with
  | [] => True
  | t :: ts => is_ok (execute t s).1 = true ∧ all_execute ts (execute t s).2
  end.
Lemma run_block_all {S} `{!Store S} ts (s : S) :
  all_execute ts s → run_block ts s = (Ok tt, run_txs ts s).
Proof.
  unfold run_block, run_txs. revert s. induction ts as [|t ts IH]; intros s; [done|]. simpl.
  intros [Hok Hall]. erewrite bind_Ok; [by apply IH|].
  unfold mbind, M_bind, map_errM. by destruct (execute t s) as [[x|e|] s'].
Qed.
Lemma sim_all_execute {S T} `{StoreSim S T R} ts (s : S) (u : T) :
  R s u → all_execute ts u → all_execute ts s.
Proof.
  revert s u. induction ts as [|t ts IH]; intros s u HR; [done|]. simpl.
  destruct (sim_execute t s u HR) as [-> HR']. intros [Hok Hall]. split; [done|by eapply IH].
Qed.
End all_execute.

(** ** Executing transfers that settle *)
Section executing.
Context `{Profile, Blake3, Dalek, !Serde Transaction, !Serde StakingOperation}.
Context `{Hex, !Serde Account, !Serde (gmap string bytes), !Serde ValidatorRecord, !Serde Delegation}.
Implicit Types (L : Ledger) (t : Transaction).

(** A transfer whose nonce the ledger has already used. *)
Definition spent L t : Prop :=
  tx_payload t = [] ∧ verify_signature t = Ok tt ∧ tx_nonce t < acc_nonce (acct L (tx_sender t)).

Lemma spent_execute L t :
  acc_nonce (acct L (tx_sender t)) < U64 → spent L t →
  execute t L = (Ok (rejected "invalid nonce"), L).
Proof.
  intros Hn (_ & Hv & Hlt). rewrite execute_run, Hv by done.
  by rewrite (proj2 (N.eqb_neq _ _)) by lia.
Qed.
Lemma spent_replay L t r : mirrors r L → spent L t → testnet_replay r t = r.
Proof. intros Hm (_ & _ & Hlt). apply replay_skipped. left. rewrite Hm. lia. Qed.
Lemma spent_run L ts rest :
  nonce_room 0 L → Forall (spent L) ts → all_execute rest L →
  run_txs (ts ++ rest) L = run_txs rest L ∧ all_execute (ts ++ rest) L.
Proof.
  intros Hroom Hts Hrest. unfold run_txs. induction Hts as [|t ts Ht Hts [IHr IHx]]; [done|]. simpl.
  assert (acc_nonce (acct L (tx_sender t)) < U64) as Hn by (specialize (Hroom (tx_sender t)); rewrite N.add_0_r in Hroom; done).
  by rewrite (spent_execute L t).
Qed.
Lemma spent_mirrored L ts r : mirrors r L → Forall (spent L) ts → foldl testnet_replay r ts = r.
Proof.
  intros Hm. induction 1 as [|t ts Ht Hts IH]; [done|]. simpl. by rewrite (spent_replay L t) by done.
Qed.
(** Once executed, a transfer is spent; what was spent stays so. *)
Lemma execute_spends L t :
  ledger_inv L → acc_nonce (acct L (tx_sender t)) < U64 → tx_payload t = [] → accepted t L = true →
  spent (execute t L).2 t ∧ ∀ t', spent L t' → spent (execute t L).2 t'.
Proof.
  intros Hinv Hn Hpay Hacc. destruct (execute t L) as [r L'] eqn:Hrun. simpl.
  pose proof (execute_nonce t L r L') as Hnonce. pose proof Hacc as Hacc'.
  unfold accepted in Hacc'. rewrite !andb_true_iff in Hacc'. destruct Hacc' as [[Hv Hnc] _].
  apply N.eqb_eq in Hnc. split.
  - split_and!; [done|by destruct (verify_signature t) as [[]| |]|].
    rewrite Hnonce, Hacc, bool_decide_true by done. simpl. lia.
  - intros t' (Hp & Hv' & Hlt). split_and!; [done..|]. rewrite Hnonce by done. lia.
Qed.

End executing.

(** ** The allocations of the preset *)
Section preset_allocations.
Context `{Blake3, Dalek}.
Lemma dev_allocations_sum : map_sum (λ _ x, acc_balance x) dev_allocations ≤ 10000000.
Proof.
  unfold dev_allocations.
  assert (∀ l (m : gmap Address Account), map_sum (λ _ x, acc_balance x)
    (foldl (λ m (i : nat), <[named_address ("dev-" +:+ pretty i) := MkAccount 1000000 0]> m) m l) ≤
    map_sum (λ _ x, acc_balance x) m + 1000000 * N.of_nat (length l)) as Hl.
  { intros l. induction l as [|i l IH]; intros m; simpl; [lia|].
    specialize (IH (<[named_address ("dev-" +:+ pretty i) := MkAccount 1000000 0]> m)).
    pose proof (map_sum_insert (λ _ x, acc_balance x) m (named_address ("dev-" +:+ pretty i)) (MkAccount 1000000 0)) as Hi.
    cbn [acc_balance] in Hi. lia. }
  specialize (Hl (seq 0 10) ∅). rewrite map_sum_empty in Hl. exact Hl.
Qed.
Lemma dev_allocations_nonce : map_Forall (λ _ x, acc_nonce x = 0) dev_allocations.
Proof.
  unfold dev_allocations. generalize (seq 0 10). intros l.
  assert (map_Forall (λ _ x, acc_nonce x = 0) (∅ : gmap Address Account)) as Hm by apply map_Forall_empty.
  revert Hm. generalize (∅ : gmap Address Account). induction l as [|i l IH]; intros m Hm; simpl; [done|].
  apply IH. by apply map_Forall_insert_2.
Qed.
Lemma combined_allocations_bounds (c : TestnetConfig) env :
  testnet_local (E:=NodeError) env = Ok c →
  map_sum (λ _ x, acc_balance x) (combined_allocations c) ≤ U128 ∧
  map_Forall (λ _ x, acc_nonce x = 0) (combined_allocations c) ∧
  combined_allocations c !! default Address_default (testnet_faucet_address c) =
    Some (default Account_default (testnet_faucet_account c)).
Proof.
  unfold testnet_local. destruct (keypair_from_seed LOCAL_FAUCET_SEED) as [kp|e|]; [|done..]. intros [= <-].
  unfold combined_allocations, testnet_faucet_address, testnet_faucet_account. cbn [tc_allocations tc_faucet_accounts foldl fst snd].
  split_and!; [| |by rewrite lookup_insert_eq].
  - pose proof (map_sum_insert (λ _ x, acc_balance x) dev_allocations
      (from_public_key_hash (hash_bytes (public_bytes (kp_public kp)))) (MkAccount 1000000000 0)) as Hs.
    pose proof dev_allocations_sum. cbn [acc_balance] in Hs. unfold U128. lia.
  - apply map_Forall_insert_2; [done|]. apply dev_allocations_nonce.
Qed.
End preset_allocations.

(** ** The block loop *)
Section settlement.
Context `{Json, !ToValue Block, !ToValue Transaction, !FromValue Block, !FromValue Transaction}.
Context `{!FromValueLaws Block, !FromValueLaws Transaction}.
Context `{HexLaws, Blake3, DalekLaws, !Serde Transaction, !Serde BlockHeader, !Serde (list Transaction)}.
Context `{!Serde StatusBody, !Serde Block, !Serde BlockResponse, !Serde TransactionResponse}.
Context `{!Serde BalanceResponse, !Serde NonceResponse, !Serde ValidatorResponse}.
Context `{!Serde DelegationResponse, !Serde SendTransactionRequest}.
Context `{!SerdeLaws BlockResponse, !SerdeLaws TransactionResponse, !SerdeLaws BalanceResponse}.
Context `{!SerdeLaws NonceResponse, !SerdeLaws SendTransactionRequest, AxumLaws, Profile}.
Context `{!Serde Account, !Serde (gmap string bytes), !Serde ValidatorRecord, !Serde Delegation}.
Context `{!SerdeLaws ValidatorRecord, !SerdeLaws Delegation, !Serde StakingOperation}.
Context `{!ValueBytes, Hmac, HashOrder, SocketAddrs, !JsonText NodeConfig, !JsonText GenesisConfig}.
Context (url version unreachable error : string) (display : N → string).
Implicit Types (st : TestnetState) (t : Transaction) (L : Ledger).
#[local] Instance paid_rpc : Reqwest RpcStateInner := rpc_network url version unreachable error display.
Notation client := (HttpClient_new url).
Notation rpc st := (sv_rpc (tn_services st)).

(** Between two turns: the store holds the ledger, the RPC accounts mirror it, and
    the transactions that wait have all been executed before. *)
Record in_step st L : Prop := {
  is_store : store_rel (solo_state (tn_consensus st)) L;
  is_inv : ledger_inv L;
  is_mirror : mirrors (rpc st) L;
  is_pool : pool (tn_mempool st) = [];
  is_spent : Forall (spent L) (rpc_pending (rpc st));
}.

Lemma solo_propose_executes h txs now (c : SoloConsensus (StateStore InMemoryBackend)) L :
  store_rel (solo_state c) L → all_execute txs L →
  ∃ b c', solo_propose h txs now c = (Ok b, c') ∧ store_rel (solo_state c') (run_txs txs L) ∧
    bh_height (header b) = h ∧ transactions (body b) = txs.
Proof.
  intros HR Hall. assert (∃ b c', solo_propose h txs now c = (Ok b, c')) as (b & c' & Hp).
  { unfold solo_propose, zoom, mbind, M_bind.
    rewrite (run_block_all txs) by by eapply (sim_all_execute (R:=store_rel)). simpl.
    by do 2 eexists. }
  exists b, c'. split; [done|]. apply solo_propose_Ok in Hp as (-> & _ & _ & _ & Hh & Htx & _).
  split_and!; [by apply sim_run_txs|done..].
Qed.
(** A turn executes what is new and leaves the rest as it was. *)
Lemma turn_settles height now st L old new :
  store_rel (solo_state (tn_consensus st)) L → mirrors (rpc st) L → nonce_room 0 L →
  pool (tn_mempool st) = [] → rpc_pending (rpc st) = old ++ new → (length (old ++ new) ≤ 100)%nat →
  Forall (spent L) old → all_execute new L →
  ∃ st', solo_turn height now st = (Ok tt, st') ∧
    store_rel (solo_state (tn_consensus st')) (run_txs new L) ∧ pool (tn_mempool st') = [] ∧
    rpc_pending (rpc st') = old ++ new ∧
    rpc_accounts (rpc st') = rpc_accounts (foldl testnet_replay (rpc st) new) ∧
    ∃ b, rpc_blocks (rpc st') = <[height := b]> (rpc_blocks (rpc st)) ∧ transactions (body b) = old ++ new.
Proof.
  intros HR Hm Hroom Hpool Hpend Hlen Hold Hnew. destruct (spent_run L old new Hroom Hold Hnew) as [Hrun Hall].
  destruct (solo_propose_executes height (old ++ new) now (tn_consensus st) L HR Hall)
    as (b & c' & Hprop & HR' & Hh & Htx). rewrite Hrun in HR'.
  rewrite solo_turn_run, Hpool, Hpend, (left_id_L [] (++)), take_ge, drop_ge, Hprop by done.
  eexists. split; [reflexivity|]. cbn [tn_consensus tn_mempool tn_services pool].
  destruct (ingest_rpc b (tn_services st)) as [-> ->]. rewrite Hpend, Hh. split_and!; [done..| |by eexists].
  unfold testnet_ingest_block. rewrite ingest_accounts, Htx, foldl_app. by rewrite (spent_mirrored L old).
Qed.
(** An action that leaves the RPC state alone. *)
Definition reading (act : Action) : Prop := ∀ sv, sv_rpc (act sv) = sv_rpc sv.
(** A turn with nothing new. *)
Lemma idle_turn height now st L :
  in_step st L → nonce_room 0 L → (length (rpc_pending (rpc st)) ≤ 100)%nat →
  ∃ st', solo_turn height now st = (Ok tt, st') ∧ in_step st' L ∧ rpc_pending (rpc st') = rpc_pending (rpc st).
Proof.
  intros [HR Hinv Hm Hpool Hsp] Hroom Hlen.
  destruct (turn_settles height now st L (rpc_pending (rpc st)) []) as (st' & Hturn & HR' & Hp' & Hq' & Ha' & _);
    rewrite ?(right_id_L [] (++)); try done.
  rewrite (right_id_L [] (++)) in Hq'. exists st'. split_and!; [done| |done].
  split; [done..| |done|by rewrite Hq'].
  intros a. rewrite <-Hm. unfold mirror_account, RpcState.get_account. by rewrite Ha'.
Qed.
Lemma idle_run height turns st L :
  in_step st L → nonce_room 0 L → (length (rpc_pending (rpc st)) ≤ 100)%nat →
  Forall (λ x, reading x.2) turns →
  ∃ st', solo_testnet_run height turns st = (Ok tt, st') ∧ in_step st' L ∧
    rpc_pending (rpc st') = rpc_pending (rpc st).
Proof.
  intros Hin Hroom Hlen Hread. revert height st Hin Hlen.
  induction Hread as [|[now act] turns Hact Hread IH]; intros height st Hin Hlen; [by exists st|].
  cbn [solo_testnet_run]. erewrite bind_Ok by done. set (st1 := MkTestnetState _ _ _).
  assert (rpc st1 = rpc st) as Hrpc by apply Hact.
  destruct (idle_turn height now st1 L) as (st2 & Hturn & Hin2 & Hq2); rewrite ?Hrpc; [|done..|].
  { destruct Hin as [HR Hinv Hm Hpool Hsp]. split; rewrite ?Hrpc; done. }
  erewrite bind_Ok by exact Hturn. rewrite Hrpc in Hq2.
  destruct (IH (height + 1) st2) as (st' & Hrun & Hin' & Hq'); [done|by rewrite Hq2|].
  exists st'. by rewrite <-Hq2.
Qed.

(** *** Submitting *)
Lemma submit_payment_run sk merchant amount fee s account :
  let payer := Wallet_from_keypair (keypair_of sk) in
  from_slice (A:=TransactionResponse) [] = None →
  RpcState.get_account (wl_address payer) s = Some account → amount + fee ≤ acc_balance account →
  ∃ t, submit_payment client payer merchant amount fee s =
      (Ok (tx_hash t), RpcState.submit_transaction t (RpcState.store_transaction (tx_hash t) t s)) ∧
    verify_signature t = Ok tt ∧ tx_sender t = wl_address payer ∧ tx_recipient t = merchant ∧
    tx_amount t = amount ∧ tx_nonce t = acc_nonce account ∧ tx_fee t = fee ∧ tx_payload t = [].
Proof.
  intros payer Hempty Ha Hle. unfold submit_payment, paid_rpc.
  erewrite bind_Ok by apply http_nonce_run. rewrite Ha. cbn [from_option].
  destruct (wallet_transactions_verify sk merchant [] amount (acc_nonce account) fee)
    as ((t & Ht & Hv & Hs & Hr & Hamt & Hn & Hf & Hp) & _). fold payer in Ht, Hs.
  rewrite bind_lift, Ht. exists t. split; [|done].
  rewrite http_send_run, (validate_signed t s account); rewrite ?Hs, ?Hamt, ?Hf; try done.
  unfold saturating_add. lia.
Qed.
Definition with_rpc (r : RpcStateInner) st : TestnetState :=
  MkTestnetState (tn_consensus st) (tn_mempool st) (on_rpc (λ _, r) (tn_services st)).
(** A signed transfer that its sender can pay and whose turn it is. *)
Record payable L t : Prop := {
  py_payload : tx_payload t = [];
  py_signed : verify_signature t = Ok tt;
  py_nonce : acc_nonce (acct L (tx_sender t)) = tx_nonce t;
  py_funds : tx_amount t + tx_fee t ≤ acc_balance (acct L (tx_sender t));
}.
Lemma payable_accepted L t : payable L t → accepted t L = true.
Proof. intros [_ Hv Hn Hle]. unfold accepted. rewrite Hv, Hn, N.eqb_refl. apply N.leb_le. lia. Qed.
Lemma payable_wf L t : ledger_inv L → nonce_room 1 L → payable L t → tx_wf t.
Proof.
  intros [_ Hsup] Hroom [_ _ Hn Hle]. pose proof (Hroom (tx_sender t)) as Hrs.
  pose proof (balance_le_total L (tx_sender t)) as Hb. unfold supply in Hsup.
  unfold tx_wf. split_and!; lia.
Qed.
(** What such a transfer leaves to everyone. *)
Lemma payable_accounts L t a :
  ledger_inv L → nonce_room 1 L → payable L t →
  acct (execute t L).2 a =
    MkAccount
      (acc_balance (acct L a) + (if decide (tx_recipient t = a) then tx_amount t else 0) -
       (if decide (tx_sender t = a) then tx_amount t + tx_fee t else 0))
      (acc_nonce (acct L a) + (if decide (tx_sender t = a) then 1 else 0)).
Proof.
  intros Hinv Hroom Hp. pose proof (payable_wf L t Hinv Hroom Hp) as Hwf.
  pose proof (payable_accepted L t Hp) as Hacc. destruct Hp as [Hpay Hv _ Hle].
  apply settled_execute; [done| |by split_and!|done].
  specialize (Hroom (tx_sender t)). lia.
Qed.
(** The turn after an accepted transfer. *)
Lemma transfer_settles height now st L t :
  in_step st L → nonce_room 1 L → (length (rpc_pending (rpc st)) < 100)%nat → payable L t →
  ∃ st' b,
    solo_turn height now (with_rpc (RpcState.submit_transaction t
      (RpcState.store_transaction (tx_hash t) t (rpc st))) st) = (Ok tt, st') ∧
    in_step st' (execute t L).2 ∧ rpc_pending (rpc st') = rpc_pending (rpc st) ++ [t] ∧
    rpc_blocks (rpc st') !! height = Some b ∧ t ∈ transactions (body b).
Proof.
  intros [HR Hinv Hm Hpool Hsp] Hroom Hlen Hpaid. set (st1 := with_rpc _ st).
  pose proof (payable_wf L t Hinv Hroom Hpaid) as Hwf. pose proof (payable_accepted L t Hpaid) as Hacc.
  destruct Hpaid as [Hpay Hv Hn Hle].
  assert (acc_nonce (acct L (tx_sender t)) < U64) as Hn1 by (specialize (Hroom (tx_sender t)); lia).
  assert (is_ok (execute t L).1 = true) as Hok.
  { rewrite execute_accepted by done. unfold dispatch. rewrite Hpay, execute_transfer_run by by apply charged_inv.
    by repeat case_match. }
  assert (settled t L) as Hset by done.
  destruct (turn_settles height now st1 L (rpc_pending (rpc st)) [t])
    as (st' & Hturn & HR' & Hp' & Hq' & Ha' & b & Hb & Htx); try done.
  { intros a. specialize (Hroom a). lia. }
  { rewrite length_app. simpl. lia. }
  exists st', b. split; [done|]. destruct (execute_spends L t Hinv Hn1 Hpay Hacc) as [Hspt Hspo].
  split; [|split; [done|split]].
  - split; [done| | |done|].
    + destruct (execute t L) as [r L'] eqn:Hrun. by eapply execute_inv.
    + intros a. unfold mirror_account, RpcState.get_account. rewrite Ha'. cbn [foldl].
      by apply (mirror_step (rpc st1) t L).
    + rewrite Hq'. apply Forall_app. split; [by eapply Forall_impl|by apply Forall_singleton].
  - rewrite Hb. apply lookup_insert_eq.
  - rewrite Htx. apply elem_of_app. right. by apply list_elem_of_singleton.
Qed.

(** *** The testnet starts in step *)
Lemma seed_rpc_accounts g b s :
  rpc_pending (sv_rpc (seed_services g b s)) = rpc_pending (sv_rpc s) ∧
  rpc_accounts (sv_rpc (seed_services g b s)) = gn_allocations g ∪ rpc_accounts (sv_rpc s).
Proof.
  unfold seed_services.
  assert (∀ l s, let s' := foldl (λ s e, on_explorer (ExplorerState.ingest_account e.1 e.2)
      (on_rpc (RpcState.set_account e.1 e.2) s)) s l in
    sv_rpc s' = foldl (λ r e, RpcState.set_account e.1 e.2 r) (sv_rpc s) l) as Hrpc.
  { intros l. induction l as [|e l IH]; intros s0; [done|]. simpl. by rewrite IH. }
  rewrite Hrpc. simpl. split.
  - assert (∀ l r, rpc_pending (foldl (λ r e, RpcState.set_account e.1 e.2 r) r l) = rpc_pending r) as Hp; [|by rewrite Hp].
    intros l. induction l as [|e l IH]; intros r; [done|]. simpl. by rewrite IH.
  - change (rpc_accounts (sv_rpc s)) with (rpc_accounts (RpcState.store_block b (sv_rpc s))).
    by rewrite set_accounts_union.
Qed.
Definition preset_faucet_key : array32 := blake3_hash LOCAL_FAUCET_SEED.
Lemma preset_faucet (c : TestnetConfig) env :
  testnet_local (E:=NodeError) env = Ok c →
  default Address_default (testnet_faucet_address c) = derived_address preset_faucet_key ∧
  testnet_faucet_account c = Some (MkAccount 1000000000 0).
Proof. unfold testnet_local. simpl. by intros [= <-]. Qed.
(** Once [run_solo_testnet] has set everything up, the accounts of the RPC server
    are those of the ledger, every account may still send, nothing waits, and the
    faucet, which has no cooldown, owns a thousand million. *)
Lemma solo_testnet_starts_in_step data_dir env now (fs fs' : FileSystem) st shared :
  run_solo_testnet data_dir env now fs = (Ok (st, shared), fs') →
  ∃ L, in_step st L ∧ nonce_room 100 L ∧ rpc_pending (rpc st) = [] ∧
    acc_balance (acct L (derived_address preset_faucet_key)) = 1000000000 ∧
    ∃ cfg, sh_faucet shared = local_faucet cfg preset_faucet_key ∧
      fc_max_amount cfg = 10000 ∧ fc_cooldown_seconds cfg = 0.
Proof.
  unfold run_solo_testnet. rewrite bind_lift.
  destruct (testnet_local (E:=NodeError) env) as [c|e|] eqn:Hc; [|done..].
  destruct (combined_allocations_bounds c env Hc) as (Hsum & Hnonce & Hfaucet).
  set (g := solo_testnet_genesis c now). change (combined_allocations c) with (gn_allocations g) in *.
  intros (u1 & fs1 & _ & Hrun)%bind_Ok_inv. apply bind_Ok_inv in Hrun as (u2 & fs2 & _ & Hrun).
  rewrite bind_lift in Hrun. unfold solo_testnet_start in Hrun.
  destruct (genesis_block g) as [b|e|]; [|done..]. cbn [mbind outcome_bind] in Hrun.
  destruct (sim_seed (gn_allocations g) new_in_memory ledger_empty new_in_memory_rel) as [Hr HR].
  rewrite seed_ledger in Hr, HR. cbn [fst snd accts vals dels ledger_empty] in Hr, HR.
  rewrite (right_id_L ∅ (∪)) in HR.
  destruct (seed_allocations (gn_allocations g) new_in_memory) as [r store]. cbn [fst snd] in Hr, HR. subst r.
  set (sv := seed_services g b _) in Hrun. destruct (seed_rpc_accounts g b (MkServices RpcState.new
    ExplorerState.new WebhookState.new)) as [Hpend Haccs]. fold sv in Hpend, Haccs.
  cbn [sv_rpc RpcState.new rpc_accounts rpc_pending] in Hpend, Haccs. rewrite (right_id_L ∅ (∪)) in Haccs.
  unfold spawn_shared_services in Hrun. cbn [tn_services] in Hrun.
  erewrite bind_Ok in Hrun by done. rewrite bind_lift in Hrun.
  change (map_err NodeConfigError (testnet_faucet_keypair c)) with
    (Ok (E:=NodeError) (keypair_of preset_faucet_key)) in Hrun.
  injection Hrun as <- <- <-. exists (genesis_ledger g).
  assert (∀ s, rpc_accounts (sv_rpc s) = gn_allocations g →
    rpc_accounts (sv_rpc (seed_faucet c s)) = gn_allocations g) as Hseed.
  { intros s Hs. unfold seed_faucet. simpl. rewrite Hs. by apply insert_id. }
  split; [|split; [|split; [exact Hpend|split]]].
  - split; [done|by apply genesis_ledger_inv| |done|].
    2: match goal with |- Forall _ ?l => assert (l = []) as -> by exact Hpend end; done.
    intros a. unfold mirror_account, RpcState.get_account. cbn [tn_services].
    by rewrite (Hseed (seed_faucet c sv)) by by apply Hseed.
  - intros a. assert (acc_nonce (acct (genesis_ledger g) a) = 0) as ->; [|by vm_compute].
    unfold acct. change (accts (genesis_ledger g)) with (gn_allocations g).
    destruct (gn_allocations g !! a) as [x|] eqn:Hx; [|done].
    exact (map_Forall_lookup_1 _ _ _ _ Hnonce Hx).
  - unfold acct. change (accts (genesis_ledger g)) with (gn_allocations g).
    by rewrite <-(proj1 (preset_faucet c env Hc)), Hfaucet, (proj2 (preset_faucet c env Hc)).
  - rewrite (proj1 (preset_faucet c env Hc)). by eexists.
Qed.
(** C7: A payment settles, once.  On the solo testnet, with the RPC server's
    accounts in step with the ledger and only executed transactions waiting, a
    payer known to the server who can cover amount and fee asks for its nonce and
    submits a signed transfer over HTTP: the client gets its hash, every following
    turn of the block loop succeeds, the first of them puts the transfer in the
    block of its height, and however many turns follow, in each of which the loop
    executes the transfer again, the balances the client reads are those of a
    single execution.  The system is in step again for the next payment. *)
Theorem payment_settles (sk : array32) (merchant : Address) (amount fee height now : N)
    (turns : list (N * Action)) st L account :
  let payer := Wallet_from_keypair (keypair_of sk) in
  in_step st L → nonce_room 1 L → (length (rpc_pending (rpc st)) < 100)%nat →
  from_slice (A:=TransactionResponse) [] = None →
  RpcState.get_account (wl_address payer) (rpc st) = Some account →
  amount + fee ≤ acc_balance account → Forall (λ x, reading x.2) turns →
  ∃ t r st1 st' L' b,
    submit_payment client payer merchant amount fee (rpc st) = (Ok (tx_hash t), r) ∧
    solo_turn height now (with_rpc r st) = (Ok tt, st1) ∧
    RpcState.get_block_by_height height (rpc st1) = Some b ∧ t ∈ transactions (body b) ∧
    solo_testnet_run (height + 1) turns st1 = (Ok tt, st') ∧ in_step st' L' ∧
    rpc_pending (rpc st') = rpc_pending (rpc st) ++ [t] ∧
    ∀ a, http_balance client a (rpc st') =
      (Ok (acc_balance (acct L a) + (if decide (merchant = a) then amount else 0) -
           (if decide (wl_address payer = a) then amount + fee else 0)), rpc st').
Proof.
  intros payer Hin Hroom Hlen Hempty Ha Hle Hread.
  assert (acct L (wl_address payer) = account) as Hacct.
  { rewrite <-(is_mirror _ _ Hin). unfold mirror_account. by rewrite Ha. }
  destruct (submit_payment_run sk merchant amount fee (rpc st) account Hempty Ha Hle)
    as (t & Hsub & Hv & Hs & Hr & Hamt & Hn & Hf & Hp). fold payer in Hsub, Hs.
  rewrite <-Hs in Hacct. pose proof (is_inv _ _ Hin) as Hinv.
  assert (payable L t) as Hpaid by (split; rewrite ?Hacct, ?Hamt, ?Hf; done).
  destruct (transfer_settles height now st L t) as (st1 & b & Hturn & Hin1 & Hq1 & Hb & Htx); [done..|].
  assert (nonce_room 0 (execute t L).2) as Hroom'.
  { destruct (execute t L) as [r L'] eqn:Hrun. by eapply (execute_room 0). }
  destruct (idle_run (height + 1) turns st1 (execute t L).2) as (st' & Hrun & Hin' & Hq'); try done.
  { rewrite Hq1, length_app. simpl. lia. }
  eexists t, _, st1, st', _, b. split_and!; [exact Hsub|exact Hturn|exact Hb|done|exact Hrun|done|by rewrite Hq', Hq1|].
  intros a. unfold paid_rpc. rewrite http_balance_run. repeat f_equal.
  pose proof (is_mirror _ _ Hin' a) as Hma. unfold mirror_account in Hma.
  assert (from_option acc_balance 0 (RpcState.get_account a (rpc st')) = acc_balance (acct (execute t L).2 a)) as ->
    by (rewrite <-Hma; by destruct (RpcState.get_account a (rpc st'))).
  rewrite payable_accounts by done. by rewrite Hr, Hamt, Hs, Hf.
Qed.
End settlement.
