(* ===== verification/DemoSettles.v ===== *)
(** * The demo against the testnet

    The wallet-to-merchant demo of [demo.rs] and the solo testnet of [testnet.rs]
    it talks to, as one system: a process with the block loop, the RPC server and
    the faucet on one shared state, and a clock the loop sleeps on between its
    turns.  The theorem is that the demo succeeds. *)

From Stdlib Require Import Strings.Byte Strings.Ascii.
From stdpp Require Import pretty.
From S2P Require Import Prelude.
From S2P Require Import Externals.
From S2P Require Import Primitives.
From S2P Require Import Storage.
From S2P Require Import StateStore.
From S2P Require Import Crypto.
From S2P Require Import Vm.
From S2P Require Import VmTheorems.
From S2P Require Import Web.
From S2P Require Import Rpc.
From S2P Require Import Explorer.
From S2P Require Import Webhooks.
From S2P Require Import Sdk.
From S2P Require Import Faucet.
From S2P Require Import NodeServices.
From S2P Require Import Mempool.
From S2P Require Import Bft.
From S2P Require Import BftTheorems.
From S2P Require Import BftProperties.
From S2P Require Import NodeConfig.
From S2P Require Import Http.
From S2P Require Import Servers.
From S2P Require Import NodeStartup.
From S2P Require Import Testnet.
From S2P Require Import ServicesStart.
From S2P Require Import Cli.
From S2P Require Import Demo.
From S2P Require Import Settlement.
Local Open Scope N_scope.

(** ** The process *)

(** The bound of the loop [for height in 1..=100_000] and the pause that ends a
    turn of it. *)
Definition LAST_HEIGHT : N := 100000.
Definition BLOCK_PAUSE : N := seconds 2.

(** The testnet's shared state with the faucet's cooldowns, the clock, the height
    of the loop's next turn and the instant at which its pause before that turn
    ends; there is none once the loop has returned, and the process with it. *)
Record World := MkWorld {
  wd_testnet : TestnetState;
  wd_cooldowns : Cooldowns;
  wd_clock : N;
  wd_height : N;
  wd_due : option N;
}.
Definition wd_rpc (w : World) : RpcStateInner := sv_rpc (tn_services (wd_testnet w)).
Definition set_wd_rpc (r : RpcStateInner) (w : World) : World :=
  MkWorld (MkTestnetState (tn_consensus (wd_testnet w)) (tn_mempool (wd_testnet w))
    (on_rpc (λ _, r) (tn_services (wd_testnet w)))) (wd_cooldowns w) (wd_clock w) (wd_height w) (wd_due w).
(** What the faucet's handler runs on. *)
Definition wd_faucet (w : World) : RpcStateInner * Cooldowns := (wd_rpc w, wd_cooldowns w).
Definition set_wd_faucet (x : RpcStateInner * Cooldowns) (w : World) : World :=
  let w := set_wd_rpc x.1 w in
  MkWorld (wd_testnet w) x.2 (wd_clock w) (wd_height w) (wd_due w).
(** The balance the RPC server has on file. *)
Definition balance_in (st : TestnetState) (a : Address) : N :=
  from_option acc_balance 0 (RpcState.get_account a (sv_rpc (tn_services st))).

Section world.
Context `{Json, !ToValue Block, !ToValue Transaction, !FromValue Block, !FromValue Transaction}.
Context `{!FromValueLaws Block, !FromValueLaws Transaction}.
Context `{HexLaws, Blake3, DalekLaws, !Serde Transaction, !Serde BlockHeader, !Serde (list Transaction)}.
Context `{!Serde StatusBody, !Serde Block, !Serde BlockResponse, !Serde TransactionResponse}.
Context `{!Serde BalanceResponse, !Serde NonceResponse, !Serde ValidatorResponse}.
Context `{!Serde DelegationResponse, !Serde SendTransactionRequest}.
Context `{!Serde FaucetRequest, !Serde FaucetResponse}.
Context `{!SerdeLaws BlockResponse, !SerdeLaws TransactionResponse, !SerdeLaws BalanceResponse}.
Context `{!SerdeLaws NonceResponse, !SerdeLaws SendTransactionRequest}.
Context `{!SerdeLaws FaucetRequest, !SerdeLaws FaucetResponse, AxumLaws, Profile}.
Context `{!Serde Account, !Serde (gmap string bytes), !Serde ValidatorRecord, !Serde Delegation}.
Context `{!SerdeLaws ValidatorRecord, !SerdeLaws Delegation, !Serde StakingOperation}.
Context `{!ValueBytes, Hmac, HashOrder, SocketAddrs, !JsonText NodeConfig, !JsonText GenesisConfig}.
Context (rpc_url faucet_url version unreachable error : string) (display : N → string).
(** The faucet, and the time the turn of a height takes. *)
Context (faucet : FaucetState RpcStateInner) (lag : N → N).
Implicit Types (w : World) (st : TestnetState) (L : Ledger) (t : Transaction).

(** A turn of the loop at the instant [now]; an error ends the process. *)
Definition wd_turn (now : N) (w : World) : World :=
  let '(r, st) := solo_turn (wd_height w) (now / seconds 1) (wd_testnet w) in
  MkWorld st (wd_cooldowns w) (wd_clock w) (wd_height w + 1)
    (if is_ok r then Some (now + lag (wd_height w) + BLOCK_PAUSE) else None).
(** What the loop does once its pause is over, if it is over by [until]. *)
Definition wd_tick (until : N) (w : World) : World :=
  match wd_due w with
  | Some now =>
      if until <? now then w
      else if LAST_HEIGHT <? wd_height w
      then MkWorld (wd_testnet w) (wd_cooldowns w) (wd_clock w) (wd_height w) None
      else wd_turn now w
  | None => w
  end.
Definition wd_sleep (d : N) (w : World) : World :=
  let until := wd_clock w + d in
  let w := N.iter (d / BLOCK_PAUSE + 1) (wd_tick until) w in
  MkWorld (wd_testnet w) (wd_cooldowns w) until (wd_height w) (wd_due w).

(** A request goes to the server its URL names; after the process has ended there
    is none. *)
Definition wd_send (r : HttpRequest) : M World string HttpResponse := λ w,
  match wd_due w with
  | None => fail unreachable w
  | Some _ =>
      match strip_prefix (trim_end "/"%char rpc_url) (hq_target r) with
      | Some path =>
          zoom wd_rpc set_wd_rpc (serve (rpc_routes version) (MkRequest (hq_method r) path (hq_body r))) w
      | None =>
          match strip_prefix (trim_end "/"%char faucet_url) (hq_target r) with
          | Some path =>
              zoom wd_faucet set_wd_faucet (serve (faucet_routes faucet (wd_clock w) (wd_clock w))
                (MkRequest (hq_method r) path (hq_body r))) w
          | None => fail unreachable w
          end
      end
  end.
(** The loop returns after its last height, and [main] with it: the servers were
    tasks of its runtime. *)
Lemma testnet_ends w due until r :
  wd_due w = Some due → due ≤ until → LAST_HEIGHT < wd_height w →
  (wd_send r (wd_tick until w)).1 = Err unreachable.
Proof.
  intros Hdue Hle Hlast. unfold wd_tick. rewrite Hdue, (proj2 (N.ltb_ge _ _)), (proj2 (N.ltb_lt _ _)) by done.
  done.
Qed.
#[local] Instance wd_network : Reqwest World :=
  {| reqwest_send := wd_send; json_error := error; status_display := display |}.
#[local] Instance wd_time : Time World := {| clock := wd_clock; sleep := wd_sleep |}.
#[local] Instance wd_time_laws : TimeLaws World.
Proof.
  split; [intros d w; simpl; lia|]. intros r w. simpl. unfold wd_send, zoom. destruct (wd_due w); [|done].
  destruct (strip_prefix _ (hq_target r)); [by destruct (serve _ _ _)|].
  destruct (strip_prefix _ (hq_target r)); [by destruct (serve _ _ _) as [? []]|done].
Qed.
#[local] Instance wd_paid : Reqwest RpcStateInner := rpc_network rpc_url version unreachable error display.
Notation client := (HttpClient_new rpc_url).

(** *** The clients over the process *)
Definition alive w : Prop := is_Some (wd_due w).
Lemma set_wd_rpc_id w : set_wd_rpc (wd_rpc w) w = w.
Proof. by destruct w as [[c m [r e k]] ? ? ? ?]. Qed.
Lemma http_send_wd m path body w :
  alive w →
  http_send (W:=World) (MkRequest m (http_url client path) body) w =
    zoom wd_rpc set_wd_rpc (http_send (MkRequest m (http_url client path) body)) w.
Proof.
  intros [due Hdue]. unfold http_send, map_errM, zoom, http_url. simpl. unfold wd_send.
  rewrite Hdue. cbn [hq_target hq_method hq_body]. rewrite strip_prefix_app. unfold zoom.
  by destruct (serve _ _ _).
Qed.
Lemma zoom_read {A} (m : M RpcStateInner SdkError A) (m' : M World SdkError A) x w :
  m' w = zoom wd_rpc set_wd_rpc m w → m (wd_rpc w) = (x, wd_rpc w) → m' w = (x, w).
Proof. intros -> Hm. unfold zoom. rewrite Hm. by rewrite set_wd_rpc_id. Qed.
Lemma http_balance_wd a w :
  alive w →
  http_balance (W:=World) client a w = (Ok (balance_in (wd_testnet w) a), w).
Proof.
  intros Halive. eapply zoom_read; [|apply (http_balance_run rpc_url version unreachable error display)].
  unfold http_balance, http_get, mbind, M_bind. rewrite http_send_wd by done. unfold zoom.
  destruct (http_send _ (wd_rpc w)) as [[r|e|] s]; [|done..]. cbn. unfold http_json, lift. simpl.
  by destruct (from_slice (hs_body r)).
Qed.
Lemma http_nonce_wd a w :
  alive w →
  http_nonce (W:=World) client a w = (Ok (from_option acc_nonce 0 (RpcState.get_account a (wd_rpc w))), w).
Proof.
  intros Halive. eapply zoom_read; [|apply (http_nonce_run rpc_url version unreachable error display)].
  unfold http_nonce, http_get, mbind, M_bind. rewrite http_send_wd by done. unfold zoom.
  destruct (http_send _ (wd_rpc w)) as [[r|e|] s]; [|done..]. cbn. unfold http_json, lift. simpl.
  by destruct (from_slice (hs_body r)).
Qed.
Lemma http_send_transaction_wd t w :
  alive w → http_send_transaction (W:=World) client t w = zoom wd_rpc set_wd_rpc (http_send_transaction client t) w.
Proof.
  intros Halive. unfold http_send_transaction, mbind, M_bind. rewrite http_send_wd by done. unfold zoom.
  destruct (http_send _ (wd_rpc w)) as [[r|e|] s]; [|done..]. cbn. unfold http_json, lift. simpl.
  by destruct (from_slice (hs_body r)).
Qed.

(** *** The clock and the loop *)

(** The next turn is at most three seconds away. *)
Definition timely w : Prop :=
  ∃ due, wd_due w = Some due ∧ wd_clock w < due ∧ due ≤ wd_clock w + seconds 3.
Lemma timely_alive w : timely w → alive w.
Proof. intros (due & Hdue & _). by exists due. Qed.
(** Every turn succeeds and leads from [P] to [Q]. *)
Definition runs (P Q : TestnetState → Prop) : Prop :=
  ∀ height now st, P st → ∃ st', solo_turn height now st = (Ok tt, st') ∧ Q st'.
(** [w1] is [w] after [j] looks at the loop: no turn was due, or the last one led
    to [Q] and the next is beyond [until] or [j] pauses away. *)
Definition slept (Q : TestnetState → Prop) (until j : N) w w1 : Prop :=
  (w1 = w ∧ (j = 0 ∨ ∀ due, wd_due w = Some due → until < due)) ∨
  (Q (wd_testnet w1) ∧ wd_height w1 ≤ wd_height w + j ∧
   ∃ due due1, wd_due w = Some due ∧ wd_due w1 = Some due1 ∧ due1 ≤ until + seconds 3 ∧
     (until < due1 ∨ due + BLOCK_PAUSE * j ≤ due1)).
Context (quick : ∀ height, lag height ≤ seconds 1).

Lemma wd_turn_run P Q now w :
  runs P Q → P (wd_testnet w) →
  ∃ st', Q st' ∧ wd_turn now w =
    MkWorld st' (wd_cooldowns w) (wd_clock w) (wd_height w + 1) (Some (now + lag (wd_height w) + BLOCK_PAUSE)).
Proof.
  intros Hruns HP. destruct (Hruns (wd_height w) (now / seconds 1) (wd_testnet w) HP) as (st' & Hturn & HQ).
  exists st'. split; [done|]. unfold wd_turn. by rewrite Hturn.
Qed.
Lemma wd_tick_slept P Q until j w w1 :
  runs P Q → runs Q Q → alive w → P (wd_testnet w) → wd_height w + j ≤ LAST_HEIGHT →
  slept Q until j w w1 → slept Q until (j + 1) w (wd_tick until w1).
Proof.
  intros HPQ HQQ [due Hdue] HP Hroom Hs. unfold slept, wd_tick, BLOCK_PAUSE, seconds in *.
  destruct Hs as [[-> Hj]|(HQ & Hheight & due' & due1 & Hdue' & Hdue1 & Hle & Hnext)].
  - rewrite Hdue. destruct (N.ltb_spec until due) as [Hlt|Hge].
    { left. split; [done|]. right. intros ? ?. by simplify_eq. }
    destruct Hj as [->|Hj]; [|specialize (Hj due Hdue); lia].
    rewrite (proj2 (N.ltb_ge _ _)) by lia.
    destruct (wd_turn_run P Q due w HPQ HP) as (st' & HQ & ->). pose proof (quick (wd_height w)) as Hq.
    unfold BLOCK_PAUSE, seconds in *. right. simpl. split_and!; [done|lia|].
    exists due. eexists. split_and!; [done..|lia|right; lia].
  - rewrite Hdue1. assert (due' = due) as -> by congruence. destruct (N.ltb_spec until due1) as [Hlt|Hge].
    { right. split_and!; [done|lia|]. exists due, due1. split_and!; [done..|by left]. }
    rewrite (proj2 (N.ltb_ge _ _)) by lia.
    destruct (wd_turn_run Q Q due1 w1 HQQ HQ) as (st' & HQ' & ->). pose proof (quick (wd_height w1)) as Hq.
    unfold BLOCK_PAUSE, seconds in *. right. simpl. split_and!; [done|lia|].
    exists due. eexists. split_and!; [done..|lia|right; lia].
Qed.
(** Sleeping runs the turns that fall due, and all of them. *)
Lemma wd_sleep_run P Q d w :
  runs P Q → runs Q Q → timely w → P (wd_testnet w) → wd_height w + d / BLOCK_PAUSE ≤ LAST_HEIGHT →
  let w' := wd_sleep d w in
  timely w' ∧ wd_clock w' = wd_clock w + d ∧ wd_height w' ≤ wd_height w + d / BLOCK_PAUSE + 1 ∧
  (Q (wd_testnet w') ∨
   wd_testnet w' = wd_testnet w ∧ wd_due w' = wd_due w ∧ ∀ due, wd_due w = Some due → wd_clock w + d < due).
Proof.
  intros HPQ HQQ Htime HP Hroom w'. pose proof (timely_alive w Htime) as Halive.
  destruct Htime as (due & Hdue & Hlt & Hle).
  assert (∀ j, j ≤ d / BLOCK_PAUSE + 1 →
    slept Q (wd_clock w + d) j w (N.iter j (wd_tick (wd_clock w + d)) w)) as Hticks.
  { intros j. induction j as [|j IH] using N.peano_ind; intros Hj; [by left; split; [|left]|].
    rewrite N.iter_succ, <-N.add_1_r. eapply (wd_tick_slept P Q); [done..|lia|]. apply IH. lia. }
  specialize (Hticks _ (N.le_refl _)). unfold w', wd_sleep.
  set (w1 := N.iter _ _ w) in *. pose proof (N.mul_succ_div_gt d BLOCK_PAUSE ltac:(done)) as Hdiv.
  rewrite <-N.add_1_r in Hdiv. clearbody w1. generalize dependent (d / BLOCK_PAUSE). intros q Hroom Hticks Hdiv.
  unfold timely, slept, BLOCK_PAUSE, seconds in *. cbn [wd_testnet wd_clock wd_height wd_due] in *.
  destruct Hticks as [[-> [Hj|Hj]]|(HQ & Hheight & due' & due1 & Hdue' & Hdue1 & Hle1 & Hnext)]; [lia|..].
  - specialize (Hj due Hdue). split_and!; [exists due; split_and!; [done|lia..]|done|lia|].
    right. split_and!; [done..|]. intros ? ?. simplify_eq. lia.
  - assert (due' = due) as -> by congruence. split_and!; [exists due1; split_and!; [done| |lia]|done|lia|by left].
    destruct Hnext; lia.
Qed.

(** *** The states between the requests *)

(** In step with [L], with [n] transactions on file; and the same with one more
    that the loop has not seen. *)
Definition steady L (n : nat) st : Prop := in_step st L ∧ length (rpc_pending (sv_rpc (tn_services st))) = n.
Definition sent L t (n : nat) st : Prop :=
  ∃ st0, steady L n st0 ∧ st = with_rpc (queued t (sv_rpc (tn_services st0))) st0.
Lemma steady_runs L n : nonce_room 0 L → (n ≤ 100)%nat → runs (steady L n) (steady L n).
Proof.
  intros Hroom Hn height now st [Hin Hlen].
  destruct (idle_turn height now st L) as (st' & Hturn & Hin' & Hq); [done|done|by rewrite Hlen|].
  exists st'. split; [done|]. split; [done|by rewrite Hq].
Qed.
Lemma sent_runs L t n :
  nonce_room 1 L → (n < 100)%nat → payable L t → runs (sent L t n) (steady (execute t L).2 (Datatypes.S n)).
Proof.
  intros Hroom Hn Hpaid height now st (st0 & [Hin Hlen] & ->).
  destruct (transfer_settles height now st0 L t) as (st' & b & Hturn & Hin' & Hq & _); [done|done|by rewrite Hlen|done|].
  exists st'. split; [done|]. split; [done|]. rewrite Hq, length_app, Hlen. simpl. lia.
Qed.
Lemma room_step k L t : ledger_inv L → nonce_room (Datatypes.S k) L → nonce_room k (execute t L).2.
Proof. intros Hinv Hroom. destruct (execute t L) as [r L'] eqn:Hrun. by eapply (execute_room k). Qed.

Lemma steady_account L n st a :
  steady L n st → mirror_account (sv_rpc (tn_services st)) a = acct L a.
Proof. intros [Hin _]. apply (is_mirror _ _ Hin). Qed.
Lemma steady_balance L n st a : steady L n st → balance_in st a = acc_balance (acct L a).
Proof.
  intros Hst. rewrite <-(steady_account L n st a Hst). unfold balance_in, mirror_account.
  by destruct (RpcState.get_account a _).
Qed.
Lemma sent_balance L t n st a : sent L t n st → balance_in st a = acc_balance (acct L a).
Proof. intros (st0 & Hst & ->). by rewrite <-(steady_balance L n st0 a Hst). Qed.

(** *** The requests of the demo *)

(** Asking for the nonce and submitting a transfer. *)
Lemma payment_sent sk merchant amount fee L n w :
  let payer := Wallet_from_keypair (keypair_of sk) in
  from_slice (A:=TransactionResponse) [] = None → alive w → steady L n (wd_testnet w) →
  0 < amount + fee → amount + fee ≤ acc_balance (acct L (wl_address payer)) →
  ∃ t w', let nonce := acc_nonce (acct L (wl_address payer)) in
    http_nonce (W:=World) client (wl_address payer) w = (Ok nonce, w) ∧
    wallet_transfer payer merchant amount nonce fee = Ok t ∧
    http_send_transaction (W:=World) client t w = (Ok (tx_hash t), w') ∧
    sent L t n (wd_testnet w') ∧ payable L t ∧
    tx_sender t = wl_address payer ∧ tx_recipient t = merchant ∧ tx_amount t = amount ∧ tx_fee t = fee ∧
    wd_clock w' = wd_clock w ∧ wd_height w' = wd_height w ∧ wd_due w' = wd_due w.
Proof.
  intros payer Hempty Halive Hst Hpos Hle.
  pose proof (steady_account L n _ (wl_address payer) Hst) as Hacct. unfold mirror_account in Hacct.
  destruct (RpcState.get_account (wl_address payer) (sv_rpc (tn_services (wd_testnet w)))) as [x|] eqn:Hx;
    [|rewrite <-Hacct in Hle; simpl in Hle; lia].
  simpl in Hacct. subst x.
  destruct (wallet_transactions_verify sk merchant [] amount (acc_nonce (acct L (wl_address payer))) fee)
    as ((t & Ht & Hv & Hs & Hr & Hamt & Hn & Hf & Hp) & _). fold payer in Ht, Hs.
  exists t. eexists. cbv zeta. rewrite http_nonce_wd, http_send_transaction_wd by done.
  unfold zoom, wd_paid. rewrite http_send_run, (validate_signed t _ (acct L (wl_address payer)));
    rewrite ?Hs, ?Hamt, ?Hf; [|done|done| |done|done].
  2: { unfold saturating_add. lia. }
  split_and!; [by unfold wd_rpc; rewrite Hx|done|reflexivity| |by split; rewrite ?Hs, ?Hamt, ?Hf|done..].
  by exists (wd_testnet w).
Qed.

(** Asking the faucet for tokens. *)
Lemma faucet_route f now after r (x : RpcStateInner * Cooldowns) :
  serve (faucet_routes f now after) (MkRequest POST "/faucet/request" (to_vec r)) x =
    answer (json_with (request_handler f r now after)) x.
Proof.
  assert (split_on "/"%char "/faucet/request" = ["";"faucet";"request"]) as Hs by done.
  eapply (serve_route _ _ 0);
    [reflexivity|match_path Hs|auto|unfold faucet_routes; other_routes Hs|reflexivity|].
  cbn [rt_endpoint hq_body]. unfold json_body. by rewrite from_slice_to_vec.
Qed.
Definition servers_apart : Prop :=
  strip_prefix (trim_end "/"%char rpc_url) (trim_end "/"%char faucet_url +:+ "/faucet/request") = None.
Lemma faucet_sent cfg sk a amount L n w :
  faucet = local_faucet cfg sk → servers_apart → alive w → steady L n (wd_testnet w) →
  amount ≤ U128 → amount ≤ fc_max_amount cfg → on_cooldown cfg (wd_cooldowns w) (wd_clock w) a = false →
  amount ≤ acc_balance (acct L (derived_address sk)) →
  ∃ t w', faucet_client_request (W:=World) (FaucetClient_new faucet_url) a amount w =
      (Ok (MkFaucetResponse true (Hash_to_string (tx_hash t)) "tokens sent"), w') ∧
    sent L t n (wd_testnet w') ∧ payable L t ∧
    tx_sender t = derived_address sk ∧ tx_recipient t = a ∧ tx_amount t = amount ∧ tx_fee t = 0 ∧
    wd_clock w' = wd_clock w ∧ wd_height w' = wd_height w ∧ wd_due w' = wd_due w.
Proof.
  intros Hfaucet Hapart [due Hdue] Hst Hwidth Hmax Hcool Hfunds.
  assert (faucet_admit cfg (MkFaucetRequest (Address_to_string a) (pretty amount)) (wd_cooldowns w) (wd_clock w)
    = Ok (inr (a, amount))) as Hadmit.
  { apply faucet_admit_cases. split_and!; [apply Address_from_to_string|by apply parse_uint_pretty|done..]. }
  destruct (request_handler_admitted cfg sk _ _ (wd_clock w) (wd_rpc w) _ _ _ Hadmit)
    as (t & Hrun & Hv & Hs & Hr & Hamt & Hf & Hp & Hn).
  pose proof (steady_account L n _ (derived_address sk) Hst) as Hacct.
  exists t. eexists. split; [|split; [|split]].
  - unfold faucet_client_request, http_send, mbind, M_bind, map_errM. simpl. unfold wd_send.
    rewrite Hdue. cbn [hq_target hq_method hq_body]. rewrite Hapart, strip_prefix_app. unfold zoom.
    rewrite faucet_route, Hfaucet. unfold answer, json_with, wd_faucet.
    rewrite (bind_Ok _ _ _ _ _ Hrun). cbn. unfold http_json, lift. simpl. rewrite from_slice_to_vec. reflexivity.
  - by exists (wd_testnet w).
  - split; [done..| |by rewrite Hs, Hamt, Hf, N.add_0_r].
    rewrite Hs, Hn, <-Hacct. unfold mirror_account, RpcState.get_account, wd_rpc.
    by destruct (rpc_accounts _ !! _).
  - done.
Qed.

(** *** The polling loop *)
Lemma poll_wd payer merchant before w :
  alive w → before + PAYMENT_AMOUNT ≤ U128 →
  poll (W:=World) client payer merchant before w =
    (Ok (before + PAYMENT_AMOUNT <=? balance_in (wd_testnet w) merchant), w).
Proof.
  intros Halive Hroom. unfold poll, await.
  erewrite bind_Ok by (unfold map_errM; by rewrite http_balance_wd by done).
  erewrite bind_Ok by (unfold map_errM; by rewrite http_balance_wd by done).
  rewrite bind_lift. unfold uadd. rewrite (proj2 (N.leb_le _ _) Hroom). done.
Qed.
Lemma settle_wd fuel payer merchant before start w :
  alive (wd_sleep (seconds 2) w) → before + PAYMENT_AMOUNT ≤ U128 →
  let w' := wd_sleep (seconds 2) w in
  settle (W:=World) (Datatypes.S fuel) client payer merchant before start w =
    if before + PAYMENT_AMOUNT <=? balance_in (wd_testnet w') merchant then (Ok (Some tt), w')
    else if SETTLE_TIMEOUT <? wd_clock w' - start then (Err (CliText "payment settlement timeout"), w')
    else settle fuel client payer merchant before start w'.
Proof.
  intros Halive Hroom w'. cbn [settle]. erewrite (bind_Ok tt _ w w') by done.
  erewrite bind_Ok by by apply poll_wd. destruct (_ <=? _); [done|].
  unfold mbind, M_bind, gets. simpl. by destruct (_ <? _).
Qed.
(** A payment the loop has not seen: a round of two seconds ends the loop with the
    payment settled, or leaves the next turn at most a second away. *)
Section round.
Context (L : Ledger) (t : Transaction) (n : nat) (merchant : Address).
Context (Hroom : nonce_room 1 L) (Hinv : ledger_inv L) (Hn : (n < 100)%nat) (Hpaid : payable L t).
Context (Hr : tx_recipient t = merchant) (Hne : tx_sender t ≠ merchant) (Hamt : tx_amount t = PAYMENT_AMOUNT).
Notation L' := (execute t L).2.
Notation before := (acc_balance (acct L merchant)).

Lemma paid_balance : acc_balance (acct L' merchant) = before + PAYMENT_AMOUNT.
Proof.
  rewrite payable_accounts by done. cbn [acc_balance]. rewrite Hr, decide_True, decide_False, Hamt by done. lia.
Qed.
Lemma paid_width : before + PAYMENT_AMOUNT ≤ U128.
Proof.
  rewrite <-paid_balance. destruct (execute t L) as [r L1] eqn:Hrun.
  assert (ledger_inv L1) as [_ Hsup].
  { eapply execute_inv; [done| |done]. specialize (Hroom (tx_sender t)). lia. }
  pose proof (balance_le_total L1 merchant). unfold supply in Hsup. cbn [snd]. lia.
Qed.
Lemma settle_round fuel payer start w :
  timely w → sent L t n (wd_testnet w) → wd_height w + 1 ≤ LAST_HEIGHT →
  wd_clock w + seconds 2 ≤ start + SETTLE_TIMEOUT →
  let w' := wd_sleep (seconds 2) w in
  timely w' ∧ wd_clock w' = wd_clock w + seconds 2 ∧ wd_height w' ≤ wd_height w + 2 ∧
  (steady L' (Datatypes.S n) (wd_testnet w') ∧
   settle (W:=World) (Datatypes.S fuel) client payer merchant before start w = (Ok (Some tt), w') ∨
   sent L t n (wd_testnet w') ∧ (∀ due, wd_due w = Some due → wd_due w' = Some due ∧ wd_clock w' < due) ∧
   settle (W:=World) (Datatypes.S fuel) client payer merchant before start w =
     settle fuel client payer merchant before start w').
Proof.
  intros Htime Hsent Hheight Hstart w'. pose proof paid_width as Hwidth.
  destruct (wd_sleep_run _ _ (seconds 2) w (sent_runs L t n Hroom Hn Hpaid)
    (steady_runs L' (Datatypes.S n) (room_step 0 L t Hinv Hroom) Hn) Htime Hsent) as (Ht & Hc & Hh & Hcase).
  { change (seconds 2 / BLOCK_PAUSE) with 1. lia. }
  change (seconds 2 / BLOCK_PAUSE) with 1 in Hh. fold w' in Ht, Hc, Hh, Hcase.
  split_and!; [done..|lia|]. rewrite settle_wd by (done || by apply timely_alive). fold w'.
  destruct Hcase as [Hst|(Hsame & Hdue & Hlate)].
  - left. split; [done|]. rewrite (steady_balance _ _ _ merchant Hst), paid_balance.
    by rewrite (proj2 (N.leb_le _ _)) by lia.
  - assert (sent L t n (wd_testnet w')) as Hsent' by by rewrite Hsame.
    right. split_and!; [done|intros due Hw; rewrite Hdue, Hc; by auto|]. rewrite (sent_balance _ _ _ _ merchant Hsent').
    rewrite (proj2 (N.leb_gt _ _)) by (unfold PAYMENT_AMOUNT; lia).
    by rewrite (proj2 (N.ltb_ge _ _)) by lia.
Qed.
(** Two rounds are enough. *)
Lemma settle_sent fuel payer w :
  timely w → sent L t n (wd_testnet w) → wd_height w + 3 ≤ LAST_HEIGHT →
  ∃ w', settle (W:=World) (Datatypes.S (Datatypes.S fuel)) client payer merchant before (wd_clock w) w =
      (Ok (Some tt), w') ∧
    steady L' (Datatypes.S n) (wd_testnet w') ∧ timely w' ∧ wd_height w' ≤ wd_height w + 4.
Proof.
  intros Htime Hsent Hheight.
  destruct (settle_round (Datatypes.S fuel) payer (wd_clock w) w) as (Ht1 & Hc1 & Hh1 & [[Hst Hrun]|(Hs1 & Hlate1 & Hrun)]);
    [done|done|lia|by unfold SETTLE_TIMEOUT, seconds; lia|rewrite Hrun; eexists; split_and!; [done..|lia]|].
  destruct (settle_round fuel payer (wd_clock w) (wd_sleep (seconds 2) w))
    as (Ht2 & Hc2 & Hh2 & [[Hst Hrun2]|(Hs2 & Hlate2 & _)]);
    [done|done|lia|by rewrite Hc1; unfold SETTLE_TIMEOUT, seconds; lia| |].
  { rewrite Hrun, Hrun2. eexists. split_and!; [done..|lia]. }
  exfalso. destruct Htime as (due & Hdue & _ & Hle). destruct (Hlate1 due Hdue) as [Hdue1 _].
  destruct (Hlate2 due Hdue1) as [_ Hlt]. rewrite Hc2, Hc1 in Hlt. unfold seconds in *. lia.
Qed.
End round.

(** *** The demo *)
Lemma Wallet_generate_run random :
  Wallet_generate random = Ok (Wallet_from_keypair (keypair_of random)).
Proof. done. Qed.
Lemma await_Ok {A} msg (m : M World SdkError A) x w w' :
  m w = (Ok x, w') → await msg m w = (Ok x, w').
Proof. intros Hm. unfold await, map_errM. by rewrite Hm. Qed.
(** A transfer of the demo that has executed on [L]. *)
Definition executed L t (from to : Address) (amount fee : N) : Prop :=
  payable L t ∧ tx_sender t = from ∧ tx_recipient t = to ∧ tx_amount t = amount ∧ tx_fee t = fee.
Lemma executed_balance L t from to amount fee a :
  ledger_inv L → nonce_room 1 L → executed L t from to amount fee →
  amount + fee ≤ acc_balance (acct L from) ∧
  acc_balance (acct (execute t L).2 a) + (if decide (from = a) then amount + fee else 0) =
    acc_balance (acct L a) + (if decide (to = a) then amount else 0).
Proof.
  intros Hinv Hroom (Hpaid & <- & <- & <- & <-). pose proof (py_funds _ _ Hpaid) as Hle.
  split; [done|]. rewrite payable_accounts by done. cbn [acc_balance].
  destruct (decide (tx_sender t = a)) as [<-|]; lia.
Qed.
(** The tokens, and three seconds. *)
Lemma fund_phase cfg sk a amount L n w :
  faucet = local_faucet cfg sk → servers_apart →
  steady L n (wd_testnet w) → nonce_room 1 L → (n < 100)%nat → timely w → wd_height w + 1 ≤ LAST_HEIGHT →
  amount ≤ U128 → amount ≤ fc_max_amount cfg → on_cooldown cfg (wd_cooldowns w) (wd_clock w) a = false →
  amount ≤ acc_balance (acct L (derived_address sk)) →
  ∃ t w1, let w2 := wd_sleep (seconds 3) w1 in
    faucet_client_request (W:=World) (FaucetClient_new faucet_url) a amount w =
      (Ok (MkFaucetResponse true (Hash_to_string (tx_hash t)) "tokens sent"), w1) ∧
    executed L t (derived_address sk) a amount 0 ∧ steady (execute t L).2 (Datatypes.S n) (wd_testnet w2) ∧
    timely w2 ∧ wd_height w2 ≤ wd_height w + 2.
Proof.
  intros Hfaucet Hapart Hst Hroom Hn Htime Hheight Hwidth Hmax Hcool Hfunds.
  pose proof (is_inv _ _ (proj1 Hst)) as Hinv.
  destruct (faucet_sent cfg sk a amount L n w)
    as (t & w1 & Hreq & Hsent & Hpaid & Hs & Hr & Hamt & Hf & Hc & Hh & Hd); [done|done|by apply timely_alive|done..|].
  assert (timely w1) as Ht1 by (unfold timely; by rewrite Hc, Hd).
  destruct (wd_sleep_run _ _ (seconds 3) w1 (sent_runs L t n Hroom Hn Hpaid)
    (steady_runs (execute t L).2 (Datatypes.S n) (room_step 0 L t Hinv Hroom) Hn) Ht1 Hsent) as (Ht2 & Hc2 & Hh2 & Hcase).
  { change (seconds 3 / BLOCK_PAUSE) with 1. by rewrite Hh. }
  change (seconds 3 / BLOCK_PAUSE) with 1 in Hh2.
  exists t, w1. split_and!; [done..| |done|lia]. destruct Hcase as [|(_ & _ & Hlate)]; [done|].
  exfalso. destruct Ht1 as (due & Hdue & _ & Hle). specialize (Hlate due Hdue). lia.
Qed.
(** The payment, up to the end of the polling loop. *)
Lemma pay_phase sk merchant fuel L n w :
  let payer := Wallet_from_keypair (keypair_of sk) in
  from_slice (A:=TransactionResponse) [] = None →
  steady L n (wd_testnet w) → nonce_room 1 L → (n < 100)%nat → timely w → wd_height w + 3 ≤ LAST_HEIGHT →
  PAYMENT_AMOUNT + TX_FEE ≤ acc_balance (acct L (wl_address payer)) → wl_address payer ≠ merchant →
  ∃ t w1 w2, let nonce := acc_nonce (acct L (wl_address payer)) in
    http_nonce (W:=World) client (wl_address payer) w = (Ok nonce, w) ∧
    wallet_transfer payer merchant PAYMENT_AMOUNT nonce TX_FEE = Ok t ∧
    http_send_transaction (W:=World) client t w = (Ok (tx_hash t), w1) ∧
    settle (W:=World) (Datatypes.S (Datatypes.S fuel)) client (wl_address payer) merchant
      (acc_balance (acct L merchant)) (wd_clock w1) w1 = (Ok (Some tt), w2) ∧
    executed L t (wl_address payer) merchant PAYMENT_AMOUNT TX_FEE ∧
    steady (execute t L).2 (Datatypes.S n) (wd_testnet w2) ∧ timely w2.
Proof.
  intros payer Hempty Hst Hroom Hn Htime Hheight Hfunds Hne. pose proof (is_inv _ _ (proj1 Hst)) as Hinv.
  destruct (payment_sent sk merchant PAYMENT_AMOUNT TX_FEE L n w)
    as (t & w1 & Hnonce & Ht & Hsend & Hsent & Hpaid & Hs & Hr & Hamt & Hf & Hc & Hh & Hd);
    [done|by apply timely_alive|done|done|done|].
  assert (timely w1) as Ht1 by (unfold timely; by rewrite Hc, Hd).
  destruct (settle_sent L t n merchant Hroom Hinv Hn Hpaid Hr ltac:(by rewrite Hs) Hamt fuel (wl_address payer) w1)
    as (w2 & Hrun & Hst2 & Ht2 & _); [done..|by rewrite Hh|].
  exists t, w1, w2. by split_and!.
Qed.
(** From any state in step, with room for two more transactions. *)
Lemma demo_settles_in_step cfg sk random1 random2 fuel L n w :
  let payer := wl_address (Wallet_from_keypair (keypair_of random1)) in
  let merchant := wl_address (Wallet_from_keypair (keypair_of random2)) in
  faucet = local_faucet cfg sk → servers_apart → from_slice (A:=TransactionResponse) [] = None →
  steady L n (wd_testnet w) → nonce_room 2 L → (n + 2 ≤ 100)%nat → timely w → wd_height w + 5 ≤ LAST_HEIGHT →
  FAUCET_AMOUNT ≤ fc_max_amount cfg → on_cooldown cfg (wd_cooldowns w) (wd_clock w) payer = false →
  FAUCET_AMOUNT ≤ acc_balance (acct L (derived_address sk)) → payer ≠ merchant →
  ∃ w' L', demo_run (W:=World) (Datatypes.S (Datatypes.S fuel)) rpc_url faucet_url random1 random2 w = (Ok (Some tt), w') ∧
    steady L' (Datatypes.S (Datatypes.S n)) (wd_testnet w') ∧ timely w' ∧
    ∀ a, acc_balance (acct L' a) + (if decide (derived_address sk = a) then FAUCET_AMOUNT else 0) +
           (if decide (payer = a) then PAYMENT_AMOUNT + TX_FEE else 0) =
         acc_balance (acct L a) + (if decide (payer = a) then FAUCET_AMOUNT else 0) +
           (if decide (merchant = a) then PAYMENT_AMOUNT else 0).
Proof.
  intros payer merchant Hfaucet Hapart Hempty Hst Hroom Hn Htime Hheight Hmax Hcool Hfunds Hne.
  pose proof (is_inv _ _ (proj1 Hst)) as Hinv.
  assert (nonce_room 1 L) as Hroom1 by (intros a; specialize (Hroom a); lia).
  destruct (fund_phase cfg sk payer FAUCET_AMOUNT L n w)
    as (t1 & w1 & Hreq & Hexec1 & Hst2 & Ht2 & Hh2); [done|done|done|done|lia|done|lia|by vm_compute|done..|].
  set (w2 := wd_sleep (seconds 3) w1) in *. set (L1 := (execute t1 L).2) in *.
  pose proof (is_inv _ _ (proj1 Hst2)) as Hinv1.
  pose proof (room_step 1 L t1 Hinv Hroom : nonce_room 1 L1) as Hroom2.
  pose proof (λ a, proj2 (executed_balance L t1 _ _ _ _ a Hinv Hroom1 Hexec1)) as Hbal1.
  fold L1 in Hbal1.
  assert (PAYMENT_AMOUNT + TX_FEE ≤ acc_balance (acct L1 payer)) as Hrich.
  { specialize (Hbal1 payer). unfold FAUCET_AMOUNT, PAYMENT_AMOUNT, TX_FEE in *.
    destruct (decide (payer = payer)) as [_|[]]; [|done].
    destruct (decide (derived_address sk = payer)) as [Hs|]; [rewrite Hs in Hfunds|]; lia. }
  destruct (pay_phase random1 merchant fuel L1 (Datatypes.S n) w2)
    as (t2 & w3 & w4 & Hnonce & Ht & Hsend & Hsettle & Hexec2 & Hst4 & Ht4); [done|done|done|lia|done|lia|done|done|].
  exists w4, (execute t2 L1).2. split; [|split_and!; [done..|]].
  - unfold demo_run. rewrite !bind_lift, Wallet_generate_run. cbn [map_err with_context].
    rewrite bind_lift, Wallet_generate_run. cbn [map_err with_context].
    erewrite bind_Ok by exact (await_Ok _ _ _ _ _ Hreq). cbn [fp_success negb].
    erewrite (bind_Ok tt _ w1 w2) by done. pose proof (timely_alive w2 Ht2) as Halive.
    erewrite bind_Ok by exact (await_Ok _ _ _ _ _ (http_balance_wd payer w2 Halive)).
    erewrite bind_Ok by exact (await_Ok _ _ _ _ _ (http_balance_wd merchant w2 Halive)).
    rewrite !(steady_balance _ _ _ _ Hst2), (proj2 (N.ltb_ge _ _)) by exact Hrich.
    erewrite bind_Ok by exact (await_Ok _ _ _ _ _ Hnonce). rewrite bind_lift.
    fold merchant. rewrite Ht. cbn [map_err].
    erewrite bind_Ok by exact (await_Ok _ _ _ _ _ Hsend). exact Hsettle.
  - intros a. specialize (Hbal1 a).
    pose proof (proj2 (executed_balance L1 t2 _ _ _ _ a Hinv1 Hroom2 Hexec2)) as Hbal2. fold payer in Hbal2.
    unfold FAUCET_AMOUNT, PAYMENT_AMOUNT, TX_FEE in *.
    destruct (decide (payer = a)), (decide (merchant = a)), (decide (derived_address sk = a)); lia.
Qed.

(** C8: The demo succeeds.  On a solo testnet that has started, after any number
    of turns in which nobody submits anything and long before the last height of
    its loop, with the next turn at most three seconds away and turns that take at
    most a second, [pemrix demo] with two fresh wallets gets its tokens from the
    faucet, sees them, pays the merchant and sees the payment within two rounds of
    its polling loop.  The balances the RPC server has on file have then changed
    by exactly the grant and the payment with its fee, for every account. *)
Theorem demo_settles data_dir env now (fs fs' : FileSystem) st0 shared turns st
    (random1 random2 : array32) (fuel : nat) w :
  let payer := wl_address (Wallet_from_keypair (keypair_of random1)) in
  let merchant := wl_address (Wallet_from_keypair (keypair_of random2)) in
  run_solo_testnet data_dir env now fs = (Ok (st0, shared), fs') → sh_faucet shared = faucet →
  Forall (λ x, reading x.2) turns → solo_testnet_run 1 turns st0 = (Ok tt, st) →
  wd_testnet w = st → wd_height w = 1 + N.of_nat (length turns) → wd_height w + 5 ≤ LAST_HEIGHT → timely w →
  servers_apart → from_slice (A:=TransactionResponse) [] = None → payer ≠ merchant → (2 ≤ fuel)%nat →
  ∃ w', demo_run (W:=World) fuel rpc_url faucet_url random1 random2 w = (Ok (Some tt), w') ∧
    ∀ a, balance_in (wd_testnet w') a +
           (if decide (derived_address preset_faucet_key = a) then FAUCET_AMOUNT else 0) +
           (if decide (payer = a) then PAYMENT_AMOUNT + TX_FEE else 0) =
         balance_in st a + (if decide (payer = a) then FAUCET_AMOUNT else 0) +
           (if decide (merchant = a) then PAYMENT_AMOUNT else 0).
Proof.
  intros payer merchant Hstart Hfaucet Hread Hturns Hw Hheight Hlast Htime Hapart Hempty Hne Hfuel.
  destruct (solo_testnet_starts_in_step _ _ _ _ _ _ _ Hstart)
    as (L & Hin & Hroom & Hpend & Hrich & cfg & Hlocal & Hmax & Hcool).
  destruct (idle_run 1 turns st0 L) as (st' & Hturns' & Hin' & Hq);
    [done|intros a; specialize (Hroom a); lia|rewrite Hpend; simpl; lia|done|].
  rewrite Hturns in Hturns'. injection Hturns' as <-. rewrite Hpend in Hq.
  assert (steady L 0 (wd_testnet w)) as Hst by (rewrite Hw; split; [done|by rewrite Hq]).
  destruct fuel as [|[|fuel]]; [lia..|].
  destruct (demo_settles_in_step cfg preset_faucet_key random1 random2 fuel L 0 w)
    as (w' & L' & Hrun & Hst' & _ & Hbal); try done; try lia.
  { by rewrite <-Hfaucet. }
  { intros a. specialize (Hroom a). lia. }
  { by rewrite Hmax. }
  { unfold on_cooldown. rewrite Hcool. destruct (wd_cooldowns w !! _); [|done]. by apply N.ltb_ge; lia. }
  { rewrite Hrich. by vm_compute. }
  exists w'. split; [done|]. intros a. rewrite (steady_balance _ _ _ a Hst'), <-Hw, (steady_balance _ _ _ a Hst).
  apply Hbal.
Qed.
End world.
