(* ===== verification/ServiceScenario.v ===== *)
(** * Concrete runs of the services, the sandbox, the transport and the start-up

    Reference instances of the parameters the service files add, and the inputs
    at which their theorems are instantiated. *)

From Stdlib Require Import Strings.Byte.
From S2P Require Import Prelude.
From S2P Require Import Externals.
From S2P Require Import Primitives.
From S2P Require Import Storage.
From S2P Require Import StateStore.
From S2P Require Import Crypto.
From S2P Require Import Vm.
From S2P Require Import VmTheorems.
From S2P Require Import VmProperties.
From S2P Require Import ValidatorSet.
From S2P Require Import Web.
From S2P Require Import Rpc.
From S2P Require Import Grpc.
From S2P Require Import Explorer.
From S2P Require Import Webhooks.
From S2P Require Import Sdk.
From S2P Require Import Faucet.
From S2P Require Import NodeServices.
From S2P Require Import Testnet.
From S2P Require Import RpcProperties.
From S2P Require Import Mempool.
From S2P Require Import Bft.
From S2P Require Import BftProperties.
From S2P Require Import Sandbox.
From S2P Require Import Network.
From S2P Require Import Tcp.
From S2P Require Import NodeConfig.
From S2P Require Import NodeStartup.
Local Open Scope N_scope.

(** ** Reference instances *)
Module ServiceScenario.
Import Reference ReferenceDb ReferenceJson Scenario.

#[export] Instance ref_hmac : Hmac := λ k m, Ok (k ++ m).
#[export] Instance ref_value_bytes : ValueBytes := λ v, Some [x00].
#[export] Instance ref_hash_order : HashOrder :=
  {| hash_values m := (map_to_list m).*2; hash_elements := elements |}.
#[export] Instance ref_hash_order_laws : HashOrderLaws.
Proof. by split. Qed.
#[export] Instance ref_sockets : SocketAddrs := {| SocketAddr := string; parse_socket := Some |}.

(** ** RPC and the account mirror *)
Definition rpc0 : RpcStateInner := RpcState.set_account alice (MkAccount 100000 0) RpcState.new.
Definition services0 : Services := MkServices rpc0 ExplorerState.new WebhookState.new.
Lemma rpc0_mirrors : mirrors rpc0 ledger0.
Proof. done. Qed.
Lemma pay_admitted : validate_transaction pay rpc0 = (Ok (tx_hash pay), rpc0).
Proof. apply pair_run. vm_compute. reflexivity. Qed.

Lemma rpc_accepted_transfer_executes_witness :
  (execute pay store0).1 = Ok (MkExecutionResult true (MkGas 21000) "ok").
Proof.
  apply (rpc_accepted_transfer_executes store0 ledger0 rpc0 rpc0 pay (tx_hash pay)).
  - apply store0_rel.
  - apply ledger0_inv.
  - by vm_compute.
  - apply rpc0_mirrors.
  - done.
  - by vm_compute.
  - apply pay_admitted.
Defined.
Definition block1 : Block :=
  MkBlock (MkBlockHeader 1 7 Hash_default Hash_default Hash_default (address_array bob))
    (MkBlockBody [pay]).
Definition staked : Transaction :=
  signed (MkTransaction alice bob 0 0 1 [] [] (staking_encode (Delegate val 5000))).
Lemma ingest_mirrors_transfers_witness :
  mirrors (sv_rpc (testnet_ingest_block block1 services0)) (run_txs [pay] ledger0).
Proof.
  apply (ingest_mirrors_transfers services0 block1 ledger0).
  - apply ledger0_inv.
  - intros a. pose proof (ledger0_room a). simpl in *. lia.
  - apply rpc0_mirrors.
  - cbn. split; [|done]. split_and!; by vm_compute.
Defined.
Lemma mirror_lost_after_failed_transfer_witness :
  testnet_replay rpc0 overdraft = rpc0 ∧
  acc_nonce (acct (execute overdraft ledger0).2 alice) = acc_nonce (mirror_account rpc0 alice) + 1.
Proof.
  destruct (mirror_lost_after_failed_transfer rpc0 overdraft ledger0) as (Hs & Hn & _).
  - apply ledger0_inv.
  - by vm_compute.
  - apply rpc0_mirrors.
  - done.
  - by vm_compute.
  - by vm_compute.
  - by vm_compute.
  - rewrite Hs in Hn. by split.
Defined.
Lemma staked_run :
  (execute staked ledger0).1 = Ok (MkExecutionResult true (MkGas 30000) "delegated").
Proof. vm_compute. reflexivity. Qed.
Lemma services_replay_keeps_locked_stake_witness :
  acc_balance (mirror_account (services_replay rpc0 staked) alice) =
    acc_balance (acct (execute staked ledger0).2 alice) + 5000.
Proof.
  apply (services_replay_keeps_locked_stake rpc0 staked ledger0
    (MkExecutionResult true (MkGas 30000) "delegated") (execute staked ledger0).2 (Delegate val 5000) 5000).
  - apply ledger0_inv.
  - by vm_compute.
  - apply rpc0_mirrors.
  - by vm_compute.
  - done.
  - vm_compute. reflexivity.
  - done.
  - apply pair_run. exact staked_run.
Defined.

(** ** The RPC servers *)
Lemma pending_transaction_reported_confirmed_witness :
  rpc_pending (send_transaction_handler (MkSendTransactionRequest pay) rpc0).2 = [pay].
Proof.
  destruct (pending_transaction_reported_confirmed rpc0 pay (tx_hash pay) rpc0 pay_admitted)
    as [Hp _]. exact Hp.
Defined.
Definition grpc_pay : proto.SendTransactionRequest :=
  proto.MkSendTransactionRequest (Some (transaction_to_proto pay)).
Definition grpc_sent := GrpcService.send_transaction grpc_pay RpcState.new.
Definition grpc_response : proto.SendTransactionResponse :=
  match grpc_sent.1 with Ok r => r | _ => proto.MkSendTransactionResponse "" "" end.
Lemma grpc_sent_run : GrpcService.send_transaction grpc_pay RpcState.new = (Ok grpc_response, grpc_sent.2).
Proof. apply pair_run. vm_compute. reflexivity. Qed.
(** A testnet whose only account is Alice's, with nothing waiting. *)
Definition testnet0 : TestnetState :=
  MkTestnetState (solo_new store0 val Hash_default) SimpleMempool_new
    (MkServices RpcState.new ExplorerState.new WebhookState.new).
Lemma grpc_request_halts_testnet_witness :
  let st := MkTestnetState (tn_consensus testnet0) (tn_mempool testnet0)
              (on_rpc (λ _, grpc_sent.2) (tn_services testnet0)) in
  is_ok (solo_testnet_run 1 [(5, id); (6, id)] st).1 = false.
Proof.
  destruct (grpc_request_halts_testnet grpc_pay grpc_response testnet0 grpc_sent.2 1 5 [(6, id)]
    grpc_sent_run) as [_ Hhalt]; [simpl; lia|].
  intros st. fold st in Hhalt. destruct (solo_testnet_run _ _ _) as [o st']. by destruct Hhalt.
Defined.
(** The same testnet with the payment submitted over REST. *)
Definition testnet_pay : TestnetState :=
  MkTestnetState (solo_new store0 val Hash_default) SimpleMempool_new
    (on_rpc (λ _, (send_transaction_handler (MkSendTransactionRequest pay) rpc0).2) services0).
Lemma testnet_pay_runs : (solo_testnet_run 1 [(5, id); (6, id)] testnet_pay).1 = Ok tt.
Proof. vm_compute. reflexivity. Qed.
Definition testnet_after : TestnetState := (solo_testnet_run 1 [(5, id); (6, id)] testnet_pay).2.
Lemma testnet_pay_run : solo_testnet_run 1 [(5, id); (6, id)] testnet_pay = (Ok tt, testnet_after).
Proof. exact (pair_run _ _ testnet_pay_runs). Qed.
Lemma testnet_pay_pending : rpc_pending (sv_rpc (tn_services testnet_pay)) = [pay].
Proof. vm_compute. reflexivity. Qed.
Lemma quiet_turns : Forall (λ t : N * Action, quiet_action t.2) [(5, id); (6, id)].
Proof. by repeat constructor. Qed.
(** Both blocks hold the payment. *)
Lemma testnet_repeats_pending_witness :
  ∃ b c, RpcState.get_block_by_height 1 (sv_rpc (tn_services testnet_after)) = Some b ∧
    RpcState.get_block_by_height 2 (sv_rpc (tn_services testnet_after)) = Some c ∧
    transactions (body b) = [pay] ∧ transactions (body c) = [pay].
Proof.
  destruct (testnet_repeats_pending 1 [(5, id); (6, id)] testnet_pay testnet_after eq_refl
    ltac:(apply Nat.leb_le; rewrite testnet_pay_pending; reflexivity) quiet_turns testnet_pay_run)
    as [_ Hall].
  rewrite testnet_pay_pending in Hall.
  destruct (Hall 0%nat) as (b & Hb & Htx); [apply Nat.ltb_lt; reflexivity|].
  destruct (Hall 1%nat) as (c & Hc & Htx'); [apply Nat.ltb_lt; reflexivity|].
  exists b, c. split; [exact Hb|]. split; [exact Hc|]. split; [exact Htx|exact Htx'].
Defined.

(** ** Explorer, webhooks and faucet *)
Lemma explorer_agrees_with_rpc_witness :
  ExplorerState.block_by_hash (block_hash block1) (explorer_of [block1]) =
    RpcState.get_block_by_hash (block_hash block1) (rpc_of [block1]).
Proof.
  destruct (explorer_agrees_with_rpc [block1]) as (_ & _ & Hhash). apply (Hhash).
  by intros b c ->%list_elem_of_singleton ->%list_elem_of_singleton.
Defined.
Definition subscribed : list webhook_op :=
  [OpSubscribe "a" "s" (MkSubscribeRequest "http://x" [EvBlock] None)].
Lemma webhook_trigger_delivers_witness :
  subscriptions (WebhookState.trigger EvBlock (json_number "height" 1) (webhook_run subscribed)) =
    subscriptions (webhook_run subscribed).
Proof.
  destruct (webhook_trigger_delivers subscribed EvBlock (json_number "height" 1)) as [Hs _]; [done|].
  exact Hs.
Defined.
Definition ask_bob : FaucetRequest := MkFaucetRequest (Address_to_string bob) "10".
Definition ask_val : FaucetRequest := MkFaucetRequest (Address_to_string val) "20".
Lemma faucet_second_request_rejected_witness :
  let f := local_faucet FaucetConfig_default sk_alice in
  let run1 := request_handler f ask_bob 5 5 (RpcState.new, ∅) in
  is_ok (request_handler f ask_val 5 5 run1.2).1 = true.
Proof.
  destruct (faucet_second_request_rejected FaucetConfig_default sk_alice ask_bob ask_val 5 bob val 10 20
    RpcState.new ∅ ledger0) as (_ & H2 & _).
  - vm_compute. reflexivity.
  - vm_compute. reflexivity.
  - apply ledger0_inv.
  - by vm_compute.
  - exact H2.
Defined.

Lemma faucet_request_correct_witness :
  (request_handler (local_faucet FaucetConfig_default sk_alice) ask_bob 5 5 (RpcState.new, ∅)).2.2 =
    <[bob := 5]> ∅.
Proof.
  pose proof (faucet_request_correct FaucetConfig_default sk_alice ask_bob 5 5 RpcState.new ∅) as Hreq.
  assert (match (request_handler (local_faucet FaucetConfig_default sk_alice) ask_bob 5 5 (RpcState.new, ∅)).1 with
          | Ok (_, p) => fp_success p | _ => false end = true) as Hs by (vm_compute; reflexivity).
  destruct (request_handler _ _ _ _ _) as [res [s' c']]. cbn [fst snd] in *.
  destruct Hreq as [(t & a & resp & _ & _ & Ha & _ & _ & _ & _ & _ & _ & _ & _ & _ & ->)|[Hno _]].
  - assert (Ok (E:=string) bob = Ok a) as [= <-]; [|reflexivity].
    rewrite <-Ha. vm_compute. reflexivity.
  - destruct res as [[code p]|e|]; [|done..]. specialize (Hno code p eq_refl). congruence.
Defined.
Lemma wallet_transactions_verify_witness :
  ∃ t, wallet_transfer (Wallet_from_keypair (keypair_of sk_alice)) bob 100 0 1 = Ok t ∧
    verify_signature t = Ok tt.
Proof.
  destruct (wallet_transactions_verify sk_alice bob [] 100 0 1) as [(t & Ht & Hv & _) _].
  exists t. by split.
Defined.

(** ** Sandbox *)
Lemma sandbox_chain_witness :
  ∃ bs, sandbox_chain_of bs (sandbox_run (sandbox_new val) [SxFund alice 100000; SxSubmit pay; SxProduce 7]).
Proof. apply (sandbox_chain val [SxFund alice 100000; SxSubmit pay; SxProduce 7]). by vm_compute. Defined.

(** ** Transport *)
Definition peer_a : PeerId := node_peer_id alice.
Definition peer_b : PeerId := node_peer_id bob.
Lemma tcp_stream_roundtrip_witness :
  ∃ events result, read_stream peer_a (write_message Ping ++ write_message Pong ++ [x00]) =
    Some (MessageReceived peer_a Ping :: MessageReceived peer_a Pong :: events, result).
Proof.
  destruct (tcp_stream_roundtrip peer_a [Ping; Pong] [x00]) as (events & result & _ & Hread & _).
  - repeat constructor; vm_compute; discriminate.
  - exists events, result. exact Hread.
Defined.
Lemma tcp_tie_break_agreement_witness :
  slot_token (crossing_claims true peer_b 7 8 (tcp_new peer_a)) peer_b =
    slot_token (crossing_claims true peer_a 8 7 (tcp_new peer_b)) peer_a.
Proof.
  destruct (tcp_tie_break_agreement (tcp_new peer_a) (tcp_new peer_b) 7 8 true true) as (Ha & Hb & _).
  - apply (bool_decide_unpack _). vm_compute. exact I.
  - done.
  - done.
  - done.
  - exact (eq_trans Ha (eq_sym Hb)).
Defined.

(** ** Start-up *)
Definition genesis0 : GenesisConfig := MkGenesis "pemrix" 5 {[alice := MkAccount 100000 0]} [val].
Definition config0 : NodeConfig :=
  MkNodeConfig "d" "r" "p" true ∅ (Some (single_validator_set val)) (Some val).
Definition booted (st : StateStore InMemoryBackend) : BftConsensus (StateStore InMemoryBackend) :=
  match bft_engine config0 genesis0 st with
  | Ok e => e
  | _ => MkBft val (single_validator_set val) st 0 Hash_default ∅ ∅ ∅
  end.
Lemma booted_run (st : StateStore InMemoryBackend) :
  is_ok (bft_engine config0 genesis0 st) = true → bft_engine config0 genesis0 st = Ok (booted st).
Proof. unfold booted. by destruct (bft_engine config0 genesis0 st). Qed.
Lemma booted_fresh : is_ok (bft_engine config0 genesis0 new_in_memory) = true.
Proof. vm_compute. reflexivity. Qed.
(** The store after the payment. *)
Definition store_used : StateStore InMemoryBackend := (execute pay store0).2.
Lemma booted_used : is_ok (bft_engine config0 genesis0 store_used) = true.
Proof. vm_compute. reflexivity. Qed.
Lemma genesis_starts_ledger_witness :
  store_rel (state (booted new_in_memory)) (genesis_ledger genesis0).
Proof.
  destruct (genesis_starts_ledger config0 genesis0 new_in_memory (booted new_in_memory)) as [HR _].
  - apply new_in_memory_rel.
  - apply booted_run, booted_fresh.
  - vm_compute. discriminate.
  - exact HR.
Defined.
(** The payment is executed, and accepted once more after the restart. *)
Lemma restart_forgets_genesis_accounts_witness :
  accepted pay (execute pay ledger0).2 = false ∧
  ∃ L', store_rel (state (booted store_used)) L' ∧ accepted pay L' = true.
Proof.
  split; [vm_compute; reflexivity|].
  destruct (restart_forgets_genesis_accounts config0 genesis0 store_used (execute pay ledger0).2
    (booted store_used) pay (MkAccount 100000 0)) as (L' & HR & Hacc & _).
  - unfold store_used. destruct (sim_execute pay store0 ledger0 store0_rel) as [_ HR]. exact HR.
  - apply booted_run, booted_used.
  - vm_compute. reflexivity.
  - vm_compute. reflexivity.
  - done.
  - vm_compute. discriminate.
  - exists L'. split; [exact HR|exact Hacc].
Defined.

(** *** JSON texts: the hexadecimal digits of the reference encoding *)
#[export] Instance ref_text `{Serde A} : JsonText A := {|
  to_string_pretty x := hex_encode (to_vec x);
  from_json s := b ← ok_or (hex_decode s) "invalid text"; ok_or (from_slice b) "invalid value";
|}.
#[export] Instance ref_text_laws `{SerdeLaws A} : JsonTextLaws A.
Proof.
  intros x. unfold from_json, to_string_pretty, ref_text. rewrite hex_decode_encode. simpl.
  by rewrite from_slice_to_vec.
Qed.
#[export] Instance ValidatorSet_countable : Countable ValidatorSet.
Proof. refine (inj_countable' validators MkValidatorSet _). by intros []. Defined.
#[export] Instance GenesisConfig_eq_dec : EqDecision GenesisConfig.
Proof. solve_decision. Defined.
#[export] Instance GenesisConfig_countable : Countable GenesisConfig.
Proof.
  refine (inj_countable' (λ g, (gn_chain_id g, gn_timestamp g, gn_allocations g, gn_validators g))
    (λ x, MkGenesis x.1.1.1 x.1.1.2 x.1.2 x.2) _). by intros [].
Defined.
#[export] Instance NodeConfig_eq_dec : EqDecision (NodeConfig (H:=ref_sockets)).
Proof.
  intros [d r p v b s a] [d' r' p' v' b' s' a'].
  refine (cast_if (decide ((d, r, p, v, (b : gmap PeerId string), s, a) = (d', r', p', v', b', s', a')))).
  - by simplify_eq.
  - intros Heq. apply n. injection Heq. intros. by subst.
Defined.
#[export] Instance NodeConfig_countable : Countable (NodeConfig (H:=ref_sockets)).
Proof.
  refine (inj_countable'
    (λ c, (nc_data_dir c, nc_rpc_listen c, nc_p2p_listen c, nc_validator c,
           (nc_bootstrap_nodes c : gmap PeerId string), nc_validator_set c, nc_local_validator_address c))
    (λ x, MkNodeConfig x.1.1.1.1.1.1 x.1.1.1.1.1.2 x.1.1.1.1.2 x.1.1.1.2 x.1.1.2 x.1.2 x.2) _).
  by intros [].
Defined.
Definition manifest : list BootstrapValidator :=
  [MkBootstrapValidator alice "a:1" None; MkBootstrapValidator bob "b:2" None].
Definition bootstrap_run : outcome NodeError unit * gmap string string :=
  bootstrap_bft_network "pemrix" manifest [(alice, 7)] "out" 5 ∅.
Lemma bootstrap_runs : bootstrap_run.1 = Ok tt.
Proof. vm_compute. reflexivity. Qed.
Lemma bootstrap_writes_network_witness :
  (∃ g, (genesis_load "out" bootstrap_run.2).1 = Ok g ∧
     gn_allocations g !! alice = Some (MkAccount 7 0) ∧ gn_allocations g !! bob = Some (MkAccount 1000000 0)) ∧
  ∃ c, (config_load (validator_dir "out" 1) bootstrap_run.2).1 = Ok c ∧
    dom (nc_bootstrap_nodes c) = {[node_peer_id alice]}.
Proof.
  destruct (bootstrap_writes_network "pemrix" manifest [(alice, 7)] "out" 5 ∅ bootstrap_run.2
    (pair_run _ _ bootstrap_runs)) as (_ & (g & Hg & _ & _ & Halloc) & Hall).
  split.
  - exists g. split_and!; [exact Hg|rewrite Halloc; vm_compute; reflexivity..].
  - destruct (Hall 1%nat _ eq_refl) as (c & Hc & _ & _ & _ & _ & _ & Hd).
    exists c. split; [exact Hc|exact Hd].
Defined.
End ServiceScenario.
