(* ===== verification/SystemScenario.v ===== *)
(** * Concrete runs of networks, clients, commands and the demo

    Reference instances for the HTTP layer, a committee of four on a full mesh,
    the three-validator testnet of [testnet.rs] on its line, and the payment demo
    against a solo testnet. *)

From Stdlib Require Import Strings.Byte Strings.Ascii.
From stdpp Require Import pretty.
From S2P Require Import Prelude.
From S2P Require Import Externals.
From S2P Require Import Primitives.
From S2P Require Import Storage.
From S2P Require Import StateStore.
From S2P Require Import Crypto.
From S2P Require Import Vm.
From S2P Require Import VmTheorems.
From S2P Require Import VmProperties.
From S2P Require Import ValidatorSet.
From S2P Require Import Web.
From S2P Require Import Rpc.
From S2P Require Import Explorer.
From S2P Require Import Webhooks.
From S2P Require Import Sdk.
From S2P Require Import Faucet.
From S2P Require Import NodeServices.
From S2P Require Import Mempool.
From S2P Require Import Bft.
From S2P Require Import BftTheorems.
From S2P Require Import BftProperties.
From S2P Require Import Network.
From S2P Require Import Tcp.
From S2P Require Import NodeConfig.
From S2P Require Import NodeStartup.
From S2P Require Import NodeLoops.
From S2P Require Import Cluster.
From S2P Require Import ClusterLiveness.
From S2P Require Import Http.
From S2P Require Import Servers.
From S2P Require Import ServerObjects.
From S2P Require Import Testnet.
From S2P Require Import ServicesStart.
From S2P Require Import NodeProcess.
From S2P Require Import Topology.
From S2P Require Import Cli.
From S2P Require Import Demo.
From S2P Require Import Settlement.
From S2P Require Import DemoSettles.
From S2P Require Import ServiceScenario.
Local Open Scope N_scope.

(** ** A committee of four, everyone connected to everyone *)
Module MeshScenario.
Import Reference BftScenario.
Notation Node := (NodeState (StateStore InMemoryBackend)).
Notation Cluster := (gmap Address Node).

Definition mesh (a b : Address) : Prop := a ≠ b.
Definition engine_of (a : Address) : Engine := MkBft a committee new_in_memory 0 Hash_default ∅ ∅ ∅.
Definition mesh0 : Cluster := map_imap (λ a _, Some (node_new (engine_of a))) (validators committee).

Lemma mesh0_lookup a : mesh0 !! a = (λ _, node_new (engine_of a)) <$> validators committee !! a.
Proof. unfold mesh0. rewrite map_lookup_imap. by destruct (validators committee !! a). Qed.
Lemma mesh0_dom a : is_Some (mesh0 !! a) ↔ is_validator committee a = true.
Proof. rewrite mesh0_lookup, fmap_is_Some. unfold is_validator. by rewrite bool_decide_eq_true. Qed.
Lemma mesh0_launched a n :
  mesh0 !! a = Some n →
  launched committee Hash_default a n ∧ is_ok (store_state_root (state (nd_engine n))) = true.
Proof.
  rewrite mesh0_lookup. intros (p & Hp & ->)%fmap_Some. split; [|vm_compute; reflexivity].
  exists new_in_memory, new_in_memory, (engine_of a). split; [|split; [reflexivity|]].
  - unfold new_with_store. replace (is_validator committee a) with true; [reflexivity|].
    symmetry. unfold is_validator. rewrite Hp. by apply bool_decide_eq_true.
  - apply (genesis_steady _ ledger_empty); [apply new_in_memory_rel|done].
Qed.
Lemma committee_fits : power_fits committee.
Proof. vm_compute. discriminate. Qed.
Lemma committee_power : 0 < set_power committee.
Proof. vm_compute. reflexivity. Qed.
Lemma mesh_links : full_links mesh committee.
Proof. by intros v w _ _ Hne. Qed.
Lemma mesh_company : company committee.
Proof.
  intros v _. destruct (decide (v = v1)) as [->|Hne]; [exists v2|exists v1];
    (split; [vm_compute; reflexivity|done]).
Qed.
Lemma cluster_progress_witness :
  ∃ t (n : Node) (D : gset (Address * nat)), rtc (turn_step mesh) (untouched mesh0) t ∧ t !! v1 = Some (n, D) ∧ height (nd_engine n) = 5.
Proof.
  destruct (cluster_progress mesh committee Hash_default mesh0 5 committee_fits committee_power
    ltac:(vm_compute; discriminate) mesh_links mesh_company mesh0_dom mesh0_launched) as (t & chain & Hrun & Hall).
  destruct (Hall v1 ltac:(vm_compute; reflexivity)) as (n & D & Hn & Hh & _).
  exists t, n, D. split; [exact Hrun|]. split; [exact Hn|exact Hh].
Defined.
(** A run after which all four have finalized a block. *)
Lemma mesh_reaches_1 : ∃ cl, rtc (cluster_step mesh) mesh0 cl ∧ all_resting committee 1 cl.
Proof.
  destruct (rounds_progress mesh committee mesh0 1 committee_fits committee_power
    ltac:(vm_compute; discriminate) mesh_links mesh_company) as (t & Hturns & Hrest).
  { exact (launched_resting committee Hash_default mesh0 mesh0_dom mesh0_launched). }
  exists (fst <$> t). split; [|exact Hrest]. destruct (sound_cluster mesh _ _ Hturns) as [Hrun _].
  revert Hrun. unfold untouched. by rewrite <-map_fmap_compose, map_fmap_id.
Qed.
Lemma cluster_agreement_witness :
  ∃ cl na nb (b : Block), rtc (cluster_step mesh) mesh0 cl ∧ cl !! v1 = Some na ∧ cl !! v2 = Some nb ∧
    finalized (nd_engine na) !! 1 = Some b ∧ finalized (nd_engine nb) !! 1 = Some b.
Proof.
  destruct mesh_reaches_1 as (cl & Hrun & Hdom & Hrest).
  destruct (proj2 (Hdom v1) ltac:(vm_compute; reflexivity)) as [na Ha].
  destruct (proj2 (Hdom v2) ltac:(vm_compute; reflexivity)) as [nb Hb].
  destruct (Hrest v1 na Ha) as (_ & Hha & _). destruct (Hrest v2 nb Hb) as (_ & Hhb & _).
  destruct (cluster_agreement mesh committee Hash_default mesh0 cl v1 v2 na nb 1
    (λ a n Hn, proj1 (mesh0_launched a n Hn)) Hrun Ha Hb) as (b & _ & Hfa & Hfb); [lia|lia|lia|].
  exists cl, na, nb, b. by split_and!.
Defined.
End MeshScenario.

(** ** A single validator and its RPC server *)
Module SoleScenario.
Import Reference ReferenceDb ReferenceJson Scenario BftScenario ServiceScenario.
Notation Node := (NodeState (StateStore InMemoryBackend)).

Definition sole0 : Node := node_new (booted new_in_memory).
Definition sole1 : Node := (produce_proposal 7 sole0).2.
Definition sole2 : Node := finalize_and_report 8 sole1.
Lemma sole_room : finalize_room (nd_engine sole1).
Proof. apply NodeScenario.roomy_room. vm_compute. reflexivity. Qed.
Lemma sole_steps : rtc node_step sole0 sole2.
Proof.
  exact (rtc_l _ _ _ _ (nd_propose sole0 7 ltac:(vm_compute; reflexivity))
    (rtc_once _ _ (nd_finalize sole1 8 sole_room))).
Qed.
Lemma rpc_serves_finalized_witness :
  RpcState.height (rpc_update (nd_channel sole2) (validator_rpc genesis0)) = 1.
Proof.
  destruct (rpc_serves_finalized config0 genesis0 new_in_memory (booted new_in_memory) sole2
    (nd_channel sole2) [] (booted_run _ booted_fresh) sole_steps) as (_ & _ & _ & Hh).
  - assert (nd_inflight sole2 = []) as -> by (vm_compute; reflexivity). reflexivity.
  - rewrite Hh by done. vm_compute. reflexivity.
Defined.
End SoleScenario.

(** ** The local testnet of three validators *)
Module LineScenario.
Import Reference ReferenceDb ReferenceJson Scenario BftScenario ServiceScenario.
Notation Node := (NodeState (StateStore InMemoryBackend)).
Notation Cluster := (gmap Address Node).

Definition bft_run := run_bft_testnet "net" 3 None 5 ∅.
Definition bft_testnet : BftTestnet :=
  match bft_run.1 with
  | Ok t => t
  | _ => MkBftTestnet [] services0 (MkShared "" None "" "" (local_faucet FaucetConfig_default sk_alice))
  end.
Lemma bft_run_Ok : bft_run = (Ok bft_testnet, bft_run.2).
Proof.
  apply pair_run. assert (is_ok bft_run.1 = true) as Hok by (vm_compute; reflexivity).
  unfold bft_testnet. by destruct bft_run.1.
Qed.

Definition w0 : Address := named_address "validator-0".
Definition w1 : Address := named_address "validator-1".
Definition w2 : Address := named_address "validator-2".
Definition links : Address → Address → Prop := connected (fst <$> bt_validators bft_testnet).
Definition line0 : Cluster := launch new_in_memory (bt_validators bft_testnet).
(** Act on the node at [a]. *)
Definition node_at (cl : Cluster) (a : Address) : Node := default SoleScenario.sole0 (cl !! a).
Definition put (a : Address) (f : Node → Node) (cl : Cluster) : Cluster := <[a := f (node_at cl a)]> cl.
Lemma put_step a f cl :
  bool_decide (is_Some (cl !! a)) = true → steps_at links cl a (node_at cl a) (f (node_at cl a)) →
  cluster_step links cl (put a f cl).
Proof.
  intros [n Hn]%bool_decide_eq_true Hs. apply (cl_step links cl a (node_at cl a)); [|exact Hs].
  unfold node_at. by rewrite Hn.
Qed.
(** The first thing a node said. *)
Definition said (cl : Cluster) (a : Address) : Message := default Ping (head (nd_broadcast (node_at cl a))).
Lemma put_receives a b m f cl :
  bool_decide (is_Some (cl !! a)) = true → bool_decide (is_Some (cl !! b)) = true → links a b →
  bool_decide (head (nd_broadcast (node_at cl a)) = Some m) = true →
  receives m (node_at cl b) (f (node_at cl b)) → cluster_step links cl (put b f cl).
Proof.
  intros [n Hn]%bool_decide_eq_true Hb Hl Hm%bool_decide_eq_true Hr. apply put_step; [exact Hb|].
  apply (sa_deliver links cl b a (node_at cl a) m); [unfold node_at; by rewrite Hn|exact Hl| |exact Hr].
  destruct (nd_broadcast (node_at cl a)) as [|m' l]; [done|]. injection Hm as ->. by left.
Qed.
Lemma linked_by (i j : nat) ca cb a b :
  (fst <$> bt_validators bft_testnet) !! i = Some ca → (fst <$> bt_validators bft_testnet) !! j = Some cb →
  nc_local_validator_address ca = Some a → nc_local_validator_address cb = Some b →
  bool_decide (is_Some (nc_bootstrap_nodes ca !! node_peer_id b)) ||
    bool_decide (is_Some (nc_bootstrap_nodes cb !! node_peer_id a)) = true → links a b.
Proof.
  intros Hi Hj Ha Hb Hd. exists ca, cb. split_and!; [by eapply list_elem_of_lookup_2..|done|done|].
  apply orb_true_iff in Hd as [Hd|Hd]; [left|right]; by apply bool_decide_eq_true in Hd.
Qed.
Definition config_at (i : nat) : NodeConfig := default config0 ((fst <$> bt_validators bft_testnet) !! i).
Lemma config_at_lookup i :
  (i < 3)%nat → (fst <$> bt_validators bft_testnet) !! i = Some (config_at i).
Proof.
  intros Hi. unfold config_at. assert (length (fst <$> bt_validators bft_testnet) = 3%nat) as Hl
    by (vm_compute; reflexivity).
  by destruct (lookup_lt_is_Some_2 (fst <$> bt_validators bft_testnet) i ltac:(lia)) as [c ->].
Qed.
Lemma link_10 : links w1 w0.
Proof.
  apply (linked_by 1 0 (config_at 1) (config_at 0)); [apply config_at_lookup; lia..| | |];
    vm_compute; reflexivity.
Qed.
Lemma link_12 : links w1 w2.
Proof.
  apply (linked_by 1 2 (config_at 1) (config_at 2)); [apply config_at_lookup; lia..| | |];
    vm_compute; reflexivity.
Qed.
Lemma links_sym a b : links a b → links b a.
Proof. intros (ca & cb & ? & ? & ? & ? & Hd). exists cb, ca. split_and!; [done..|]. by destruct Hd; [right|left]. Qed.

(** The validator in the middle proposes, its neighbours vote, and it finalizes. *)
Definition line1 : Cluster := put w1 (λ n, (produce_proposal 7 n).2) line0.
Definition line2 : Cluster := put w1 broadcast_proposal line1.
Definition block_1 : Block := match said line2 w1 with MsgBlock b => b | _ => Block_default end.
Definition line3 : Cluster := put w0 (receive_block block_1) line2.
Definition line4 : Cluster := put w2 (receive_block block_1) line3.
Definition ballot_of (a : Address) : bytes := match said line4 a with MsgVote bs => bs | _ => [] end.
Definition vote_of (a : Address) : Vote :=
  match decode (ballot_of a) with Ok v => v | _ => MkVote Hash_default 0 0 (address_array a) end.
Definition line5 : Cluster := put w1 (receive_vote (vote_of w0) 8) line4.
Definition line6 : Cluster := put w1 (receive_vote (vote_of w2) 8) line5.
Lemma vote_of_decodes a : is_ok (decode (A:=Vote) (ballot_of a)) = true → decode (ballot_of a) = Ok (vote_of a).
Proof. unfold vote_of. by destruct (decode (ballot_of a)). Qed.
Lemma line_run : rtc (cluster_step links) line0 line6.
Proof.
  eapply (rtc_l _ _ line1).
  { apply put_step; [vm_compute; reflexivity|]. apply sa_local, (ls_propose (node_at line0 w1) 7).
    vm_compute. reflexivity. }
  eapply (rtc_l _ _ line2).
  { apply put_step; [vm_compute; reflexivity|]. apply sa_local, (ls_broadcast_proposal (node_at line1 w1)).
    vm_compute. reflexivity. }
  eapply (rtc_l _ _ line3).
  { apply (put_receives w1 w0 (MsgBlock block_1)); [vm_compute; reflexivity..|exact link_10| |apply rc_block].
    vm_compute. reflexivity. }
  eapply (rtc_l _ _ line4).
  { apply (put_receives w1 w2 (MsgBlock block_1)); [vm_compute; reflexivity..|exact link_12| |apply rc_block].
    vm_compute. reflexivity. }
  eapply (rtc_l _ _ line5).
  { apply (put_receives w0 w1 (MsgVote (ballot_of w0))); [vm_compute; reflexivity..|apply links_sym, link_10| |].
    - vm_compute. reflexivity.
    - apply rc_vote; [apply vote_of_decodes; vm_compute; reflexivity|].
      apply NodeScenario.roomy_room. vm_compute. reflexivity. }
  apply rtc_once.
  apply (put_receives w2 w1 (MsgVote (ballot_of w2))); [vm_compute; reflexivity..|apply links_sym, link_12| |].
  - vm_compute. reflexivity.
  - apply rc_vote; [apply vote_of_decodes; vm_compute; reflexivity|].
    apply NodeScenario.roomy_room. vm_compute. reflexivity.
Qed.
(** It reaches height 1, and by the theorem neither it nor the RPC server ever gets
    to the next: the test of [testnet_cluster.rs] waits for height 2. *)
Lemma bft_testnet_stalls_witness :
  ∃ n, line6 !! w1 = Some n ∧ height (nd_engine n) = 1 ∧
    ∀ cl blocks, rtc (cluster_step links) line6 cl → Forall (reported cl) blocks →
      RpcState.height (sv_rpc (collect blocks (bt_services bft_testnet))) ≤ 1.
Proof.
  exists (node_at line6 w1). split; [|split; [vm_compute; reflexivity|]].
  - unfold node_at, line6, put. by rewrite !lookup_insert_eq.
  - intros cl blocks Hrun Hblocks.
    apply (bft_testnet_stalls "net" 3 None 5 ∅ bft_run.2 bft_testnet cl blocks bft_run_Ok (le_n 3)).
    + refine (bool_decide_eq_true_1 _ _). vm_compute. reflexivity.
    + etransitivity; [exact line_run|exact Hrun].
    + exact Hblocks.
Defined.

(** Two validators, and a chain of five blocks. *)
Definition pair_run := run_bft_testnet "net" 2 None 5 ∅.
Definition pair_testnet : BftTestnet := match pair_run with (Ok t, _) => t | _ => bft_testnet end.
Lemma pair_run_Ok : pair_run = (Ok pair_testnet, pair_run.2).
Proof.
  assert (is_ok pair_run.1 = true) as Hok by (vm_compute; reflexivity). revert Hok.
  unfold pair_testnet. by destruct pair_run as [[t|e|] fs].
Qed.
Lemma bft_testnet_of_two_progresses_witness :
  ∃ cl (chain : gmap N Block),
    rtc (cluster_step (connected (fst <$> bt_validators pair_testnet)))
      (launch new_in_memory (bt_validators pair_testnet)) cl ∧
    ∀ a, a ∈ validator_addresses 2 → ∃ n, cl !! a = Some n ∧ height (nd_engine n) = 5 ∧
      ∀ h, 1 ≤ h ≤ 5 → ∃ b, chain !! h = Some b ∧ finalized (nd_engine n) !! h = Some b.
Proof.
  apply (bft_testnet_of_two_progresses "net" None 5 ∅ pair_run.2 pair_testnet 5 pair_run_Ok).
  - refine (bool_decide_eq_true_1 _ _). vm_compute. reflexivity.
  - vm_compute. discriminate.
Defined.
End LineScenario.

(** ** HTTP, the command line and the demo *)
Module ClientScenario.
Import Reference ReferenceDb ReferenceJson ReferenceHttp Scenario BftScenario ServiceScenario.

#[export] Instance value_eq_dec : EqDecision value.
Proof. solve_decision. Defined.
#[export] Instance value_countable : Countable value.
Proof.
  refine (inj_countable'
    (λ v, match v with
          | VNull => inl (inl tt) | VNumber k n => inl (inr (inl (k, n)))
          | VString k s => inl (inr (inr (k, s))) | VBlock b => inr (inl b) | VTransaction t => inr (inr t)
          end)
    (λ x, match x with
          | inl (inl _) => VNull | inl (inr (inl (k, n))) => VNumber k n
          | inl (inr (inr (k, s))) => VString k s | inr (inl b) => VBlock b | inr (inr t) => VTransaction t
          end) _).
  by intros [].
Defined.
#[export] Instance ref_from_block : FromValue Block :=
  λ v, match v with VBlock b => Ok b | _ => Err "invalid type" end.
#[export] Instance ref_from_transaction : FromValue Transaction :=
  λ v, match v with VTransaction t => Ok t | _ => Err "invalid type" end.
#[export] Instance ref_from_block_laws : FromValueLaws Block.
Proof. split; [by intros x v [= <-]|done]. Qed.
#[export] Instance ref_from_transaction_laws : FromValueLaws Transaction.
Proof. split; [by intros x v [= <-]|done]. Qed.

(** Serialization of a record through its fields. *)
Definition serde_via {A B} `{Serde B} (f : A → B) (g : B → A) : Serde A :=
  {| to_vec x := to_vec (f x); from_slice b := g <$> from_slice b |}.
Lemma serde_via_laws {A B} `{SerdeLaws B} (f : A → B) (g : B → A) :
  (∀ x, g (f x) = x) → @SerdeLaws A (serde_via f g).
Proof. intros Hgf x. simpl. rewrite from_slice_to_vec. simpl. by rewrite Hgf. Qed.
#[export] Instance serde_StatusBody : Serde StatusBody :=
  serde_via (B:=string * N * string) (λ x, (sb_status x, sb_height x, sb_version x)) (λ y, MkStatusBody y.1.1 y.1.2 y.2).
#[export] Instance serde_BlockResponse : Serde BlockResponse :=
  serde_via (B:=Hash * N * value) (λ x, (br_hash x, br_height x, br_payload x)) (λ y, MkBlockResponse _ y.1.1 y.1.2 y.2).
#[export] Instance serde_TransactionResponse : Serde TransactionResponse :=
  serde_via (B:=Hash * string * value) (λ x, (tr_hash x, tr_status x, tr_payload x)) (λ y, MkTransactionResponse _ y.1.1 y.1.2 y.2).
#[export] Instance serde_BalanceResponse : Serde BalanceResponse :=
  serde_via (B:=Address * N) (λ x, (bal_address x, bal_balance x)) (λ y, MkBalanceResponse y.1 y.2).
#[export] Instance serde_NonceResponse : Serde NonceResponse :=
  serde_via (B:=Address * N) (λ x, (non_address x, non_nonce x)) (λ y, MkNonceResponse y.1 y.2).
#[export] Instance serde_ValidatorResponse : Serde ValidatorResponse :=
  serde_via (B:=Address * ValidatorRecord) (λ x, (val_address x, val_validator x)) (λ y, MkValidatorResponse y.1 y.2).
#[export] Instance serde_DelegationResponse : Serde DelegationResponse :=
  serde_via (B:=Address * Address * Delegation) (λ x, (del_delegator x, del_validator x, del_delegation x)) (λ y, MkDelegationResponse y.1.1 y.1.2 y.2).
#[export] Instance serde_SendTransactionRequest : Serde SendTransactionRequest :=
  serde_via (B:=Transaction) (λ x, st_transaction x) (λ y, MkSendTransactionRequest y).
#[export] Instance serde_FaucetRequest : Serde FaucetRequest :=
  serde_via (B:=string * string) (λ x, (fq_address x, fq_amount x)) (λ y, MkFaucetRequest y.1 y.2).
#[export] Instance serde_FaucetResponse : Serde FaucetResponse :=
  serde_via (B:=bool * string * string) (λ x, (fp_success x, fp_tx_hash x, fp_message x)) (λ y, MkFaucetResponse y.1.1 y.1.2 y.2).
#[export] Instance serde_ValidatorKeyFile : Serde ValidatorKeyFile :=
  serde_via (B:=string * string * string) (λ x, (kf_address x, kf_public_key x, kf_secret_key x)) (λ y, MkKeyFile y.1.1 y.1.2 y.2).
#[export] Instance laws_BlockResponse : SerdeLaws BlockResponse.
Proof. by apply serde_via_laws; intros []. Qed.
#[export] Instance laws_TransactionResponse : SerdeLaws TransactionResponse.
Proof. by apply serde_via_laws; intros []. Qed.
#[export] Instance laws_BalanceResponse : SerdeLaws BalanceResponse.
Proof. by apply serde_via_laws; intros []. Qed.
#[export] Instance laws_NonceResponse : SerdeLaws NonceResponse.
Proof. by apply serde_via_laws; intros []. Qed.
#[export] Instance laws_SendTransactionRequest : SerdeLaws SendTransactionRequest.
Proof. by apply serde_via_laws; intros []. Qed.
#[export] Instance laws_FaucetRequest : SerdeLaws FaucetRequest.
Proof. by apply serde_via_laws; intros []. Qed.
#[export] Instance laws_FaucetResponse : SerdeLaws FaucetResponse.
Proof. by apply serde_via_laws; intros []. Qed.
#[export] Instance laws_ValidatorKeyFile : SerdeLaws ValidatorKeyFile.
Proof. by apply serde_via_laws; intros []. Qed.

Notation url := "http://127.0.0.1:61001/".
Notation network := (rpc_network url "0.1.0" "unreachable" "error decoding response body" pretty).
Lemma http_client_refines_rpc_witness :
  http_balance (H:=network) (HttpClient_new url) alice rpc0 = (Ok 100000, rpc0) ∧
  http_send_transaction (H:=network) (HttpClient_new url) pay rpc0 =
    (Ok (tx_hash pay), RpcState.submit_transaction pay (RpcState.store_transaction (tx_hash pay) pay rpc0)).
Proof.
  destruct (http_client_refines_rpc url "0.1.0" "unreachable" "error decoding response body" pretty rpc0)
    as (Hbal & _ & _ & _ & _ & _ & Hsend). split.
  - rewrite Hbal. vm_compute. reflexivity.
  - specialize (Hsend pay eq_refl). rewrite pay_admitted in Hsend. exact Hsend.
Defined.

Definition fresh_key (b : byte) : array32 := Array32 (replicate 32 b) eq_refl.
(** The key file of Alice, her delegation to a validator and her registration. *)
Definition key_fs : FileSystem := {["key" := to_string_pretty (keyfile_from_keypair (keypair_of sk_alice))]}.
Definition run_cli (cmd : Commands) :=
  run_command (H:=network) cmd 5 (fresh_key x07) None None (key_fs, rpc0).
Lemma cli_staking_reaches_ledger_witness :
  (∃ t, (run_cli (CmdDelegate "key" url (Address_to_string val) 5000 1)).1 = Ok (CliSubmitted (tx_hash t)) ∧
     (execute t ledger0).1 = Ok (MkExecutionResult true (MkGas 30000) "delegated")) ∧
  ∃ t, (run_cli (CmdRegisterValidator "key" url (hex_encode [x01]) 500 50000 1)).1 = Ok (CliSubmitted (tx_hash t)) ∧
     (execute t ledger0).1 = Ok (MkExecutionResult true (MkGas 50000) "validator registered").
Proof.
  split.
  - destruct (cli_staking_reaches_ledger url "0.1.0" "unreachable" "error decoding response body" pretty
      (CmdDelegate "key" url (Address_to_string val) 5000 1) "key" key_fs sk_alice (Delegate val 5000) 1
      rpc0 (MkAccount 100000 0) ledger0 5 (fresh_key x07) None None)
      as (t & Hrun & Hsender & Hfee & Hexec);
      [apply requests_delegate, Address_from_to_string|reflexivity|reflexivity|vm_compute; reflexivity
      |vm_compute; reflexivity|vm_compute; discriminate|apply rpc0_mirrors|vm_compute; reflexivity|].
    exists t. split; [exact (f_equal fst Hrun)|]. rewrite Hexec. unfold charged. rewrite Hsender, Hfee.
    vm_compute. reflexivity.
  - destruct (cli_staking_reaches_ledger url "0.1.0" "unreachable" "error decoding response body" pretty
      (CmdRegisterValidator "key" url (hex_encode [x01]) 500 50000 1) "key" key_fs sk_alice
      (RegisterValidator [x01] 500 50000) 1
      rpc0 (MkAccount 100000 0) ledger0 5 (fresh_key x07) None None)
      as (t & Hrun & Hsender & Hfee & Hexec);
      [apply requests_register, hex_decode_encode|reflexivity|reflexivity|vm_compute; reflexivity
      |vm_compute; reflexivity|vm_compute; discriminate|apply rpc0_mirrors|vm_compute; reflexivity|].
    exists t. split; [exact (f_equal fst Hrun)|]. rewrite Hexec. unfold charged. rewrite Hsender, Hfee.
    vm_compute. reflexivity.
Defined.

(** *** The demo against the solo testnet *)
Definition solo_run := run_solo_testnet "demo" None 5 ∅.
Definition solo_faucet : FaucetState RpcStateInner :=
  match solo_run.1 with
  | Ok (_, shared) => sh_faucet shared
  | _ => local_faucet FaucetConfig_default sk_alice
  end.
Definition solo_state0 : TestnetState :=
  match solo_run.1 with Ok (st, _) => st | _ => testnet0 end.
Lemma solo_run_Ok :
  ∃ shared, solo_run = (Ok (solo_state0, shared), solo_run.2) ∧ sh_faucet shared = solo_faucet.
Proof.
  unfold solo_state0, solo_faucet. assert (is_ok solo_run.1 = true) as Hok by (vm_compute; reflexivity).
  destruct solo_run as [[[st shared]|e|] fs]; [|done..]. by exists shared.
Qed.
(** Its turns take half a second; two of them are over. *)
Definition half_second (height : N) : N := 500000000.
Definition solo_turns : list (N * Action) := [(5, id); (7, id)].
Definition solo_state2 : TestnetState := (solo_testnet_run 1 solo_turns solo_state0).2.
Definition world2 : World := MkWorld solo_state2 ∅ (seconds 7) 3 (Some (seconds 8)).
Notation rpc_at := "http://127.0.0.1:61001/".
Notation faucet_at := "http://127.0.0.1:61003".
#[export] Instance world_network : Reqwest World :=
  wd_network rpc_at faucet_at "0.1.0" "unreachable" "error decoding response body" pretty solo_faucet.
#[export] Instance world_time : Time World := wd_time half_second.
#[export] Instance world_time_laws : TimeLaws World.
Proof. apply wd_time_laws. Qed.
Definition demo_on_testnet (fuel : nat) := demo_run fuel rpc_at faucet_at (fresh_key x07) (fresh_key x08) world2.
Lemma demo_succeeds : (demo_on_testnet 16).1 = Ok (Some tt).
Proof. vm_compute. reflexivity. Qed.
(** *** The demo against servers whose answers never change *)
Record ScriptedWorld := MkScriptedWorld { sw_now : N; sw_balance : N }.
Definition scripted_bodies (w : ScriptedWorld) : list bytes :=
  [to_vec (MkFaucetResponse true "00" "queued");
   to_vec (A:=TransactionResponse) (MkTransactionResponse _ Hash_default "pending" VNull);
   to_vec (MkBalanceResponse alice (sw_balance w)); to_vec (MkNonceResponse alice 0)].
Definition scripted_answer (r : HttpRequest) : nat :=
  match hq_method r, last (split_on "/"%char (hq_target r)) with
  | POST, Some "request" => 0 | POST, _ => 1 | _, Some "balance" => 2 | _, _ => 3
  end.
Definition scripted_network : Reqwest ScriptedWorld :=
  {| reqwest_send r w := (Ok (MkResponse 200 (nth (scripted_answer r) (scripted_bodies w) [])), w);
     json_error := "error decoding response body"; status_display := pretty |}.
Definition scripted_time : Time ScriptedWorld :=
  {| clock := sw_now; sleep d w := MkScriptedWorld (sw_now w + d) (sw_balance w) |}.
Lemma scripted_time_laws : @TimeLaws _ scripted_time scripted_network.
Proof. split; [intros d w; simpl; lia|done]. Qed.
Definition scripted_demo (fuel : nat) (balance : N) :=
  demo_run (H:=scripted_time) (H0:=scripted_network) fuel rpc_at faucet_at
    (fresh_key x07) (fresh_key x08) (MkScriptedWorld 0 balance).
Lemma scripted_calm : calm_world (H:=scripted_time) (H0:=scripted_network) (λ w, sw_balance w = 5000) rpc_at.
Proof.
  split_and!; [by intros r w Hw|by intros d w Hw|]. intros a n [now balance] Hw. cbn in Hw. subst balance.
  set (r := MkRequest GET (http_url (HttpClient_new rpc_at) ("/v1/accounts/" +:+ Address_to_string a +:+ "/balance")) []).
  assert (scripted_answer r = 2%nat ∨ scripted_answer r = 3%nat) as Hi.
  { unfold scripted_answer. cbn [hq_method r]. destruct (last _) as [q|]; [|by right].
    repeat (case_match; try by (left + right)). }
  unfold http_balance, http_get, mbind, M_bind, http_send, map_errM. fold r.
  cbn [reqwest_send scripted_network]. clearbody r. cbn [sw_balance].
  destruct Hi as [-> | ->]; intros Hn; vm_compute in Hn; injection Hn as <-; by vm_compute.
Qed.
Lemma scripted_times_out : (scripted_demo 16 5000).1 = Err (CliText "payment settlement timeout").
Proof. vm_compute. reflexivity. Qed.
(** With overflow checks a balance within the payment of the largest amount stops
    the demo with a panic at its first poll. *)
Lemma demo_panics_on_overflow : (scripted_demo 16 U128).1 = Panic.
Proof. vm_compute. reflexivity. Qed.

Lemma demo_terminates_witness :
  (demo_on_testnet 1000).1 = Ok (Some tt) ∧
  (scripted_demo 1000 5000 = scripted_demo 16 5000) ∧ ∃ e, (scripted_demo 1000 5000).1 = Err e.
Proof.
  assert (16 ≤ 1000)%nat as Hfuel by (by apply Nat.leb_le).
  destruct (demo_terminates 1000 rpc_at faucet_at (fresh_key x07) (fresh_key x08) world2 Hfuel) as (_ & Heq & _).
  destruct (demo_terminates (H:=scripted_time) (H0:=scripted_network) (TimeLaws0:=scripted_time_laws)
    1000 rpc_at faucet_at (fresh_key x07) (fresh_key x08) (MkScriptedWorld 0 5000) Hfuel) as (_ & Hsame & Hcalm).
  split_and!.
  - exact (eq_trans (f_equal fst Heq) demo_succeeds).
  - exact Hsame.
  - destruct (Hcalm _ scripted_calm eq_refl) as [Hdone|Herr]; [|exact Herr].
    pose proof (eq_trans (eq_sym scripted_times_out) (eq_trans (eq_sym (f_equal fst Hsame)) Hdone)) as [=].
Defined.

(** The faucet's key pays a fresh merchant on the testnet just started. *)
Definition faucet_sk : array32 := blake3_hash LOCAL_FAUCET_SEED.
Definition merchant : Address := wl_address (Wallet_from_keypair (keypair_of (fresh_key x08))).
Lemma payment_settles_witness :
  ∃ h r st1 st',
    submit_payment (H:=network) (HttpClient_new url) (Wallet_from_keypair (keypair_of faucet_sk)) merchant 1000 1
      (sv_rpc (tn_services solo_state0)) = (Ok h, r) ∧
    solo_turn 1 6 (with_rpc r solo_state0) = (Ok tt, st1) ∧
    solo_testnet_run 2 [(7, id); (8, id)] st1 = (Ok tt, st') ∧
    (http_balance (H:=network) (HttpClient_new url) merchant (sv_rpc (tn_services st'))).1 = Ok 1000.
Proof.
  destruct solo_run_Ok as (shared & Hstart & _).
  destruct (solo_testnet_starts_in_step _ _ _ _ _ _ _ Hstart) as (L & Hin & Hroom & Hpend & _).
  destruct (payment_settles url "0.1.0" "unreachable" "error decoding response body" pretty faucet_sk merchant
    1000 1 1 6 [(7, id); (8, id)] solo_state0 L (MkAccount 1000000000 0))
    as (t & r & st1 & st' & L' & b & Hsub & Hturn & _ & _ & Hrun & _ & _ & Hbal).
  - exact Hin.
  - intros a. specialize (Hroom a). lia.
  - rewrite Hpend. simpl. lia.
  - reflexivity.
  - vm_compute. reflexivity.
  - vm_compute. discriminate.
  - repeat constructor.
  - exists (tx_hash t), r, st1, st'. split; [exact Hsub|]. split; [exact Hturn|]. split; [exact Hrun|].
    rewrite Hbal. cbn [fst].
    assert (acct L merchant = MkAccount 0 0) as ->.
    { rewrite <-(is_mirror _ _ Hin merchant). vm_compute. reflexivity. }
    vm_compute. reflexivity.
Defined.
Lemma solo_turns_ok : (solo_testnet_run 1 solo_turns solo_state0).1 = Ok tt.
Proof. vm_compute. reflexivity. Qed.
Lemma solo_turns_run : solo_testnet_run 1 solo_turns solo_state0 = (Ok tt, solo_state2).
Proof. exact (pair_run _ _ solo_turns_ok). Qed.
Lemma demo_settles_witness :
  ∃ w', demo_on_testnet 2 = (Ok (Some tt), w') ∧ balance_in (wd_testnet w') merchant = 1000.
Proof.
  destruct solo_run_Ok as (shared & Hstart & Hfaucet).
  assert (∀ height, half_second height ≤ seconds 1) as Hquick by by intros height; vm_compute.
  destruct (demo_settles rpc_at faucet_at "0.1.0" "unreachable" "error decoding response body" pretty
    solo_faucet half_second Hquick "demo" None 5 ∅ solo_run.2 solo_state0 shared solo_turns solo_state2
    (fresh_key x07) (fresh_key x08) 2 world2 Hstart Hfaucet) as (w' & Hrun & Hbal).
  - repeat constructor.
  - exact solo_turns_run.
  - reflexivity.
  - reflexivity.
  - unfold world2, LAST_HEIGHT. cbn [wd_height]. lia.
  - exists (seconds 8). unfold world2, seconds. cbn [wd_due wd_clock]. split; [reflexivity|lia].
  - reflexivity.
  - reflexivity.
  - vm_compute. discriminate.
  - lia.
  - exists w'. split; [exact Hrun|]. specialize (Hbal merchant).
    assert (balance_in solo_state2 merchant = 0) as Hzero by (vm_compute; reflexivity).
    rewrite Hzero in Hbal. unfold PAYMENT_AMOUNT in Hbal.
    assert (derived_address preset_faucet_key ≠ merchant) as Hfm by (vm_compute; discriminate).
    assert (wl_address (Wallet_from_keypair (keypair_of (fresh_key x07))) ≠ merchant) as Hpm by (vm_compute; discriminate).
    rewrite (decide_False _ _ Hfm), !(decide_False _ _ Hpm), (decide_True _ _ (eq_refl merchant)) in Hbal. lia.
Defined.
End ClientScenario.

(** ** A validator process and a client *)
Module ProcessScenario.
Import Reference ReferenceDb ReferenceJson ReferenceHttp Scenario BftScenario ServiceScenario ClientScenario.
Notation Process := (ValidatorProcess (StateStore InMemoryBackend)).

Definition process_run : outcome NodeError Process :=
  run_bft_validator config0 genesis0 (λ _, true) (Ok (open_state_store "data")) (Some "250").
Definition process0 : Process :=
  match process_run with Ok v => v | _ => MkValidatorProcess SoleScenario.sole0 (tcp_new PeerId_default)
    (RpcServer_new "") 0 0 end.
Lemma process_run_Ok : process_run = Ok process0.
Proof.
  unfold process0. assert (is_ok process_run = true) as Hok by (vm_compute; reflexivity).
  by destruct process_run.
Qed.
Definition process1 : Process := with_node (produce_proposal 7 (vp_node process0)).2 process0.
Definition process2 : Process := with_node (finalize_and_report 8 (vp_node process1)) process1.
Definition process3 : Process := (answer_request "0.1.0" (MkRequest GET "/v1/status" []) process2).2.
Definition process4 : Process := receive_finalized process3.
Lemma process_room : finalize_room (nd_engine (vp_node process1)).
Proof. apply NodeScenario.roomy_room. vm_compute. reflexivity. Qed.
Lemma process_steps : rtc (validator_step "0.1.0") process0 process4.
Proof.
  refine (rtc_l _ _ _ _ (vs_loops _ process0 _ (nd_propose _ 7 _)) _); [vm_compute; reflexivity|].
  refine (rtc_l _ _ _ _ (vs_loops _ process1 _ (nd_finalize _ 8 process_room)) _).
  refine (rtc_l _ _ _ _ (vs_request _ process2 _) _).
  exact (rtc_once _ _ (vs_receive _ process3)).
Qed.
Lemma validator_serves_finalized_witness :
  ∃ b, (http_block_by_height (H:=network) (HttpClient_new url) 1 (svc_state (vp_rpc process4))).1 = Ok b ∧
    finalized (nd_engine (vp_node process4)) !! 1 = Some b ∧ RpcState.height (svc_state (vp_rpc process4)) = 1.
Proof.
  destruct (validator_serves_finalized url "0.1.0" "unreachable" "error decoding response body" pretty
    config0 genesis0 (λ _, true) (Ok (open_state_store "data")) (Some "250") process0 process4)
    as (Hblocks & _ & Hheight & _); [exact process_run_Ok|exact process_steps|].
  assert (is_ok (http_block_by_height (H:=network) (HttpClient_new url) 1 (svc_state (vp_rpc process4))).1 = true)
    as Hok by (vm_compute; reflexivity).
  destruct (http_block_by_height (H:=network) (HttpClient_new url) 1 (svc_state (vp_rpc process4))).1
    as [b|e|] eqn:Hget; [|done..].
  exists b. split; [reflexivity|]. split.
  - by apply (Hblocks 1 b ltac:(vm_compute; discriminate) Hget).
  - rewrite Hheight; vm_compute; reflexivity.
Defined.
End ProcessScenario.

(** ** The services process behind a validator of three blocks *)
Module FollowScenario.
Import Reference ReferenceDb ReferenceJson Scenario BftScenario ServiceScenario.

Definition pay_again : Transaction := signed (MkTransaction alice bob 500 1 1 [] [] []).
Definition block_of (h : N) (ts : list Transaction) : Block :=
  MkBlock (MkBlockHeader h 7 Hash_default Hash_default Hash_default (address_array bob)) (MkBlockBody ts).
Definition validator_chain : list Block := [block1; block_of 2 []; block_of 3 [pay_again]].
Definition raw_block (h : N) : option Block := validator_chain !! (N.to_nat h - 1)%nat.
(** A report of one block, a failed request, a report that goes down, and one that
    is two blocks further. *)
Definition polls : list (option (option N) * (N → option Block)) :=
  [(Some (Some 1), raw_block); (None, raw_block); (Some (Some 0), raw_block); (Some (Some 3), raw_block)].
Lemma polls_served : Forall (serves validator_chain) polls.
Proof.
  apply Forall_forall. intros t Ht. split.
  - revert t Ht. apply Forall_forall. by repeat constructor.
  - intros i _. assert (t.2 = raw_block) as ->.
    { revert t Ht. apply Forall_forall. by repeat constructor. }
    unfold raw_block. f_equal. lia.
Qed.
Definition polled := poll_turns polls (0, services0).
Lemma services_follow_validator_witness :
  polled.1 = 3 ∧ rpc_blocks (sv_rpc polled.2) !! 3 = Some (block_of 3 [pay_again]) ∧
  mirrors (sv_rpc polled.2) (run_txs [pay; pay_again] ledger0).
Proof.
  destruct (services_follow_validator polls validator_chain services0 polled.1 polled.2 polls_served
    (surjective_pairing _)) as (Hlast & Hsv & Hmirror).
  assert (polled.1 = 3) as Heq by (rewrite Hlast; vm_compute; reflexivity).
  rewrite Heq in Hsv, Hmirror. split_and!.
  - exact Heq.
  - rewrite Hsv. vm_compute. reflexivity.
  - apply Hmirror.
    + apply ledger0_inv.
    + intros a. pose proof (ledger0_room a) as Hroom. simpl in Hroom.
      change (acc_nonce (acct ledger0 a) + 2 < U64). lia.
    + apply rpc0_mirrors.
    + cbn. split; [|split; [|done]]; split_and!; by vm_compute.
Defined.
End FollowScenario.
