(* ===== verification/NetworkScenario.v ===== *)
(** * Concrete runs over TCP

    Two transports, of which one dials the other, and two validators on them. *)

From Stdlib Require Import Strings.Byte.
From S2P Require Import Prelude.
From S2P Require Import Externals.
From S2P Require Import Primitives.
From S2P Require Import Storage.
From S2P Require Import StateStore.
From S2P Require Import Crypto.
From S2P Require Import Vm.
From S2P Require Import VmTheorems.
From S2P Require Import ValidatorSet.
From S2P Require Import Bft.
From S2P Require Import BftTheorems.
From S2P Require Import BftProperties.
From S2P Require Import Network.
From S2P Require Import Tcp.
From S2P Require Import TcpNetwork.
From S2P Require Import TcpWire.
From S2P Require Import NodeConfig.
From S2P Require Import NodeLoops.
From S2P Require Import Cluster.
From S2P Require Import TcpCluster.
From S2P Require Import ServiceScenario.
From S2P Require Import SystemScenario.
Local Open Scope N_scope.

(** ** Two transports: one dials the other and sends it a ping *)
Module TcpScenario.
Import Reference BftScenario.
Notation Net := (TcpNet N).

(** An identifier with the proof of its length in normal form. *)
Definition canonical (p : PeerId) : PeerId := default PeerId_default (countable.decode (countable.encode p)).
Lemma canonical_eq p : canonical p = p.
Proof. unfold canonical. by rewrite countable.decode_encode. Qed.
Definition low : PeerId := canonical (node_peer_id v1).
Definition high : PeerId := canonical (node_peer_id v2).
(** [high] was given the address 9000 of [low]. *)
Definition boot (p : PeerId) : gmap PeerId N := if bool_decide (p = high) then {[low := 9000]} else ∅.
Definition listening (addr : N) : option PeerId := if addr =? 9000 then Some low else None.

Definition node_at (p : PeerId) (net : Net) : TcpNode N := default (tcp_node_new p) (nt_nodes net !! p).
Definition conn_at (x : N) (net : Net) : Connection := default (new_conn low None x) (nt_conns net !! x).
Definition greeted (x : N) (net : Net) : Net :=
  on_conns (alter (received (peer_bytes (cn_owner (conn_at x net)))) (cn_other (conn_at x net))
    (<[x := staged Greeting (conn_at x net)]> (nt_conns net))) net.
Definition shaken (x : N) (r : PeerId) (net : Net) : Net :=
  handshake x (conn_at x net) (node_at (cn_owner (conn_at x net)) net) r [] net.

Definition net0 : Net := tcp_net_new [low; high].
Definition net1 : Net := on_node high (retry_turn boot high (node_at high net0)) net0.
Definition net2 : Net := on_node high (spawn_dial low 9000 [] (node_at high net1)) net1.
Definition net3 : Net := on_node high (dial_connected low (node_at high net2)) (on_conns
  (<[1 := new_conn high (Some low) 2]> (<[2 := new_conn low None 1]> (nt_conns net2))) net2).
Definition net4 : Net := greeted 2 (greeted 1 net3).
Definition net5 : Net := shaken 2 high (shaken 1 low net4).
Definition net6 : Net := MkNet (<[high := set_tcp (broadcast Ping (tn_tcp (node_at high net5))).2 (node_at high net5)]>
  (nt_nodes net5)) (nt_conns net5) (nt_sent net5 ++ [(high, Ping)]).
Definition tcp7 : TcpTransport := match take_message low 1 (tn_tcp (node_at high net6)) (conn_at 1 net6) with
  | Some (_, s, _) => s | None => tcp_new high end.
Definition net7 : Net := on_node high (set_tcp tcp7 (node_at high net6)) (on_conns
  (alter (received (write_message Ping)) 2 (<[1 := conn_at 1 net6]> (nt_conns net6))) net6).
Definition net8 : Net := on_node low (set_tcp (emit (MessageReceived high Ping) (tn_tcp (node_at low net7)))
  (node_at low net7)) (on_conns (<[2 := left_to_read [] (conn_at 2 net7)]> (nt_conns net7)) net7).

Ltac computed := vm_compute; reflexivity.
Lemma steps5 : rtc (tcp_step boot listening) net0 net5.
Proof.
  eapply rtc_l; [apply (st_retry _ _ net0 high (node_at high net0)); computed|].
  eapply rtc_l; [apply (st_spawn _ _ net1 high (node_at high net1) low 9000 []); computed|].
  eapply rtc_l.
  { apply (st_connected _ _ net2 high (node_at high net2) low 9000 low 1 2); [computed..| | | |discriminate];
      [by eexists; computed|computed..]. }
  eapply rtc_l; [apply (st_greet _ _ net3 1 (conn_at 1 net3)); computed|].
  eapply rtc_l; [apply (st_greet _ _ (greeted 1 net3) 2 (conn_at 2 (greeted 1 net3))); computed|].
  eapply rtc_l.
  { apply (st_handshake _ _ net4 1 (conn_at 1 net4) (node_at high net4) (peer_bytes low) [] (peer_array low));
      computed. }
  eapply rtc_l.
  { apply (st_handshake _ _ (shaken 1 low net4) 2 (conn_at 2 (shaken 1 low net4))
      (node_at low (shaken 1 low net4)) (peer_bytes high) [] (peer_array high)); computed. }
  apply rtc_refl.
Qed.
Lemma steps8 : rtc (tcp_step boot listening) net0 net8.
Proof.
  etransitivity; [exact steps5|].
  eapply rtc_l; [apply (st_broadcast _ _ net5 high (node_at high net5) Ping); [computed|by vm_compute]|].
  eapply rtc_l.
  { apply (st_write _ _ net6 1 (conn_at 1 net6) (node_at high net6) low Ping tcp7 (conn_at 1 net6)); computed. }
  eapply rtc_l; [apply (st_read _ _ net7 2 (conn_at 2 net7) (node_at low net7) high Ping []); computed|].
  apply rtc_refl.
Qed.
Lemma ping_fits : fits Ping.
Proof. vm_compute. discriminate. Qed.
Lemma tcp_network_faithful_witness :
  MessageReceived high Ping ∈ tcp_events (tn_tcp (node_at low net8)) ∧ tcp_linked boot listening low high.
Proof.
  assert (MessageReceived high Ping ∈ tcp_events (tn_tcp (node_at low net8))) as Hin.
  { assert (tcp_events (tn_tcp (node_at low net8)) = [PeerConnected high; MessageReceived high Ping]) as -> by computed.
    by do 2 constructor. }
  split; [exact Hin|].
  destruct (tcp_network_faithful boot listening ping_fits [low; high] net8 low (node_at low net8))
    as [Hev _]; [exact steps8|computed|]. exact (proj1 (Hev high Ping Hin)).
Defined.
Lemma tcp_books_exact_witness :
  ∃ c, nt_conns net8 !! 2 = Some c ∧ cn_owner c = low ∧ (cn_stage c = Reading high ∨ cn_stage c = Closing high).
Proof.
  destruct (tcp_books_exact boot listening [low; high] net8 low (node_at low net8)) as [Hslots _];
    [exact steps8|computed|].
  assert (tcp_peers (tn_tcp (node_at low net8)) !! high = Some (MkConnection [] true 2)) as Hslot by computed.
  exact (Hslots high (MkConnection [] true 2) Hslot).
Defined.
End TcpScenario.

(** ** Two validators of a committee of four: a proposal reaches the other one *)
Module CommitteeScenario.
Import Reference BftScenario NodeScenario MeshScenario TcpScenario.
Notation Node := (NodeState (StateStore InMemoryBackend)).
Notation System := (TcpSystem (S:=StateStore InMemoryBackend) (Addr:=N)).

Definition proposer0 : Node := node_new (engine_of v2).
Definition proposer1 : Node := (produce_proposal 5 proposer0).2.
Definition proposer2 : Node := broadcast_proposal proposer1.
Definition proposal : Block := default BftScenario.block_a (own_proposal 1 (nd_engine proposer1)).
Definition follower0 : Node := node_new (engine_of v1).
Definition follower1 : Node := receive_block proposal follower0.

Definition vote1 : Vote := default (vote_at proposal v1) (own_vote 1 (nd_engine follower1)).

Definition nodes1 : gmap Address Node := <[v2 := proposer1]> mesh0.
Definition nodes2 : gmap Address Node := <[v2 := proposer2]> nodes1.
Definition nodes3 : gmap Address Node := <[v1 := follower1]> nodes2.
Definition wire5 : Net := announce v2 proposer0 proposer1 net5.
Definition wire6 : Net := announce v2 proposer1 proposer2 wire5.
Definition tcp_written : TcpTransport :=
  match take_message low 1 (tn_tcp (node_at high wire6)) (conn_at 1 wire6) with
  | Some (_, s, _) => s | None => tcp_new high end.
Definition wire7 : Net := on_node high (set_tcp tcp_written (node_at high wire6)) (on_conns
  (alter (received (write_message (MsgBlock proposal))) 2 (<[1 := conn_at 1 wire6]> (nt_conns wire6))) wire6).
Definition wire8 : Net := on_node low (set_tcp (emit (MessageReceived high (MsgBlock proposal)) (tn_tcp (node_at low wire7)))
  (node_at low wire7)) (on_conns (<[2 := left_to_read [] (conn_at 2 wire7)]> (nt_conns wire7)) wire7).
(** The loop ignores the event of the connection, then takes the block. *)
Definition wire9 : Net := on_node low (set_tcp (next_event (tn_tcp (node_at low wire8))).2 (node_at low wire8)) wire8.
Definition wire10 : Net := announce v1 follower0 follower1
  (on_node (node_peer_id v1) (set_tcp (next_event (tn_tcp (node_at low wire9))).2 (node_at low wire9)) wire9).

Notation step := (system_step (S:=StateStore InMemoryBackend) boot listening).
Lemma transports_run (nodes : gmap Address Node) net net' :
  rtc (tcp_step boot listening) net net' → nt_sent net' = [] →
  rtc step (MkSystem nodes net) (MkSystem nodes net').
Proof.
  intros Hrun Hend. revert Hend.
  assert (∀ net net' : Net, tcp_step boot listening net net' → nt_sent net `prefix_of` nt_sent net') as Hgrow.
  { intros ? ? []; simpl; try done; try (by eexists).
    match goal with |- context [handshake ?x ?c ?nd ?r ?rest ?net] =>
      by destruct (handshake_cases x c nd r rest net) as [(? & _ & _ & ->)| ->] end. }
  induction Hrun as [|net net1 net2 Hstep Hrest IH]; intros Hend; [done|].
  assert (∀ net net' : Net, rtc (tcp_step boot listening) net net' → nt_sent net `prefix_of` nt_sent net') as Hgrows.
  { intros ? ?. induction 1 as [|? ? ? ?%Hgrow _ ?]; [done|by etransitivity]. }
  pose proof (Hgrows _ _ Hrest) as [l Hl]. pose proof (Hgrow _ _ Hstep) as [l' Hl']. rewrite Hend in Hl.
  symmetry in Hl. apply app_nil in Hl as [H1 _]. rewrite H1 in Hl'. symmetry in Hl'. apply app_nil in Hl' as [H0 _].
  eapply rtc_l; [apply sy_transport; simpl; [done|congruence]|by apply IH].
Qed.
Lemma steps_committee : rtc step (MkSystem mesh0 net0) (MkSystem nodes3 wire10).
Proof.
  etransitivity; [apply (transports_run mesh0 net0 net5); [exact steps5|computed]|].
  eapply rtc_l.
  { apply (sy_local _ _ (MkSystem mesh0 net5) v2 proposer0 proposer1); [computed|by apply ls_propose; computed|].
    unfold short. replace (said_between proposer0 proposer1) with (@nil Message) by computed. constructor. }
  eapply rtc_l.
  { apply (sy_local _ _ (MkSystem nodes1 wire5) v2 proposer1 proposer2); [computed|by apply ls_broadcast_proposal; computed|].
    unfold short. replace (said_between proposer1 proposer2) with [MsgBlock proposal] by computed.
    repeat constructor; vm_compute; discriminate. }
  eapply rtc_l; [apply (sy_transport _ _ (MkSystem nodes2 wire6) wire7); [|computed]|].
  { apply (st_write _ _ wire6 1 (conn_at 1 wire6) (node_at high wire6) low (MsgBlock proposal) tcp_written (conn_at 1 wire6));
      computed. }
  eapply rtc_l; [apply (sy_transport _ _ (MkSystem nodes2 wire7) wire8); [|computed]|].
  { apply (st_read _ _ wire7 2 (conn_at 2 wire7) (node_at low wire7) high (MsgBlock proposal) []); [computed..|].
    replace (cn_stream (conn_at 2 wire7)) with (write_message (MsgBlock proposal) ++ []) by computed.
    rewrite read_message_frame by (vm_compute; discriminate). computed. }
  eapply rtc_l; [apply (sy_transport _ _ (MkSystem nodes2 wire8) wire9); [|computed]|].
  { apply (st_next_event _ _ wire8 low (node_at low wire8)); computed. }
  eapply rtc_l; [|apply rtc_refl].
  apply (sy_deliver _ _ (MkSystem nodes2 wire9) v1 follower0 follower1 (node_at low wire9) high (MsgBlock proposal) []);
    [computed..|apply rc_block|].
  unfold short. replace (said_between follower0 follower1) with [MsgVote (encode vote1)] by computed.
  repeat constructor; vm_compute; discriminate.
Qed.
Lemma tcp_committee_refines_cluster_witness :
  rtc (cluster_step (tcp_links boot listening)) mesh0 nodes3 ∧ own_vote 1 (nd_engine follower1) ≠ None.
Proof.
  destruct (tcp_committee_refines_cluster boot listening ping_fits [low; high] mesh0 nodes3 wire10) as [Hrun _];
    [exact steps_committee|].
  split; [exact Hrun|vm_compute; discriminate].
Defined.
End CommitteeScenario.
