(* ===== verification/CoreTests.v ===== *)
(** * The unit tests of the core crates, run on the model

    Each [#[test]] of the crates below is translated as a program that panics where
    the test would, and run on the reference instances; a test that draws a random
    key takes the bytes it draws.  The runs check the definitions against what the
    authors of the code expect of it; the lemmas that say they pass are about these
    inputs only, except where a test is proved for all instances. *)

From Stdlib Require Import Strings.Byte.
From stdpp Require Import pretty.
From S2P Require Import Prelude.
From S2P Require Import Externals.
From S2P Require Import Primitives.
From S2P Require Import Storage.
From S2P Require Import StateStore.
From S2P Require Import Crypto.
From S2P Require Import Vm.
From S2P Require Import VmTheorems.
From S2P Require Import VmProperties.
From S2P Require Import ValidatorSet.
From S2P Require Import Tokenomics.
From S2P Require Import Protocol.
From S2P Require Import Mempool.
From S2P Require Import Rewards.
From S2P Require Import Bft.
From S2P Require Import BftTheorems.
From S2P Require Import BftProperties.
From S2P Require Import Engines.
From S2P Require Import Sandbox.
From S2P Require Import NodeProcess.
Local Open Scope N_scope.

(** ** Tests as programs *)
Definition Test := outcome string unit.
Definition assert_true (b : bool) : Test := if b then Ok tt else Panic.
Definition assert_eq {A} `{EqDecision A} (x y : A) : Test := assert_true (bool_decide (x = y)).
Definition assert_ne {A} `{EqDecision A} (x y : A) : Test := assert_true (bool_decide (x ≠ y)).
Definition unwrap {E A} (o : outcome E A) : outcome string A :=
  match o with Ok a => Ok a | _ => Panic end.
Definition unwrap_some {A} (o : option A) : outcome string A := default Panic (Ok <$> o).
Definition is_err {E A} (o : outcome E A) : bool := match o with Err _ => true | _ => false end.
(** A call on the test's mutable state, unwrapped or looked at; and the run of a
    test from the state it creates. *)
Definition call {S E A} (m : M S E A) : M S string A := λ s,
  let '(o, s) := m s in (unwrap o, s).
Definition result_of {S E A} (m : M S E A) : M S string (outcome E A) := λ s,
  let '(o, s) := m s in (Ok o, s).
Definition check {S} (f : S → Test) : M S string unit := reads f.
Definition starting {S} (s : S) (m : M S string unit) : Test := (m s).1.
Definition passes (t : Test) : Prop := t = Ok tt.
Definition all_pass (ts : list Test) : bool := forallb is_ok ts.

Section helpers.
Context `{Blake3, Dalek, !Serde Transaction}.
(** The helpers the test modules repeat. *)
Definition addr (seed : string) : Address :=
  from_public_key_hash (hash_bytes (String.list_byte_of_string seed)).
Definition random_keypair (random : array32) : outcome string (KeyPair * Address) :=
  kp ← unwrap (generate_keypair Ed25519Scheme random);
  Ok (kp, from_public_key_hash (hash_bytes (public_bytes (kp_public kp)))).
Definition sign_tx (t : Transaction) (kp : KeyPair) : outcome string Transaction :=
  let public := public_bytes (kp_public kp) in
  let t := MkTransaction (from_public_key_hash (hash_bytes public)) (tx_recipient t) (tx_amount t)
             (tx_nonce t) (tx_fee t) public (tx_signature t) (tx_payload t) in
  sig ← unwrap (sign Ed25519Scheme (kp_secret kp) (hash_as_bytes (signing_hash t)));
  Ok (MkTransaction (tx_sender t) (tx_recipient t) (tx_amount t) (tx_nonce t) (tx_fee t) (tx_public_key t)
        (signature_bytes sig) (tx_payload t)).
End helpers.

(** ** [pemrix-primitives] *)
Module primitives_tests.
Section tests.
Context `{Hex, Blake3, !Serde Account, !Serde Transaction, !Serde Block}.

Definition hash_round_trip : Test :=
  let h := hash_bytes (String.list_byte_of_string "pemrix") in
  parsed ← unwrap (Hash_from_str (Hash_to_string h)); assert_eq h parsed.
Definition address_round_trip : Test :=
  let a := addr "key" in
  parsed ← unwrap (Address_from_str (Address_to_string a)); assert_eq a parsed.
Definition round_trip_transaction : Test :=
  let t := transfer_tx Address_default Address_default 100 0 1 in
  decoded ← unwrap (decode (encode t)); assert_eq t decoded.
Definition round_trip_account : Test :=
  let account := MkAccount 1000 5 in
  decoded ← unwrap (decode (encode account)); assert_eq account decoded.

(** The property tests; a strategy is the set of values it draws from. *)
Definition any_account (x : Account) : Prop := acc_balance x ≤ U128 ∧ acc_nonce x ≤ U64.
Definition any_transaction (t : Transaction) : Prop :=
  tx_amount t ≤ U128 ∧ tx_nonce t ≤ U64 ∧ tx_fee t ≤ U128 ∧ tx_public_key t = [] ∧ tx_signature t = [].
Definition any_block (b : Block) : Prop :=
  bh_height (header b) ≤ U64 ∧ bh_timestamp (header b) ≤ U64 ∧
  (length (transactions (body b)) < 10)%nat ∧ Forall any_transaction (transactions (body b)).
Definition hash_string_round_trip (h : Hash) : Test :=
  parsed ← unwrap (Hash_from_str (Hash_to_string h)); assert_eq h parsed.
Definition address_string_round_trip (a : Address) : Test :=
  parsed ← unwrap (Address_from_str (Address_to_string a)); assert_eq a parsed.
Definition account_encoding_round_trip (x : Account) : Test :=
  decoded ← unwrap (decode (encode x)); assert_eq x decoded.
Definition transaction_encoding_round_trip (t : Transaction) : Test :=
  decoded ← unwrap (decode (encode t)); assert_eq t decoded.
Definition block_encoding_round_trip (b : Block) : Test :=
  decoded ← unwrap (decode (encode b)); assert_eq b decoded.
Definition transaction_hash_is_stable (t : Transaction) : Test := assert_eq (tx_hash t) (tx_hash t).

Lemma assert_eq_refl {A} `{EqDecision A} (x : A) : assert_eq x x = Ok tt.
Proof. unfold assert_eq. by rewrite bool_decide_true. Qed.
(** The property tests hold of every value, not only of those a run draws. *)
Lemma property_tests_hold
    `{!HexLaws, !SerdeLaws Account, !SerdeLaws Transaction, !SerdeLaws Block} :
  (∀ h, passes (hash_string_round_trip h)) ∧ (∀ a, passes (address_string_round_trip a)) ∧
  (∀ x, any_account x → passes (account_encoding_round_trip x)) ∧
  (∀ t, any_transaction t → passes (transaction_encoding_round_trip t)) ∧
  (∀ b, any_block b → passes (block_encoding_round_trip b)) ∧
  ∀ t, any_transaction t → passes (transaction_hash_is_stable t).
Proof.
  unfold passes, hash_string_round_trip, address_string_round_trip, account_encoding_round_trip,
    transaction_encoding_round_trip, block_encoding_round_trip.
  split_and!; intros; rewrite ?Hash_from_to_string, ?Address_from_to_string, ?decode_encode;
    apply assert_eq_refl.
Qed.
End tests.

(** [tokenomics.rs] *)
Section tokenomics.
Context `{Profile}.
Definition genesis_produces_no_reward : Test :=
  r ← block_reward mainnet 0; assert_eq r 0.
Definition reward_decays_over_intervals : Test :=
  let config := fast_test in
  r1 ← block_reward config 1;
  r10 ← block_reward config 10;
  r11 ← block_reward config 11;
  _ ← assert_eq r1 (initial_block_reward config);
  _ ← assert_eq r10 (initial_block_reward config);
  scaled ← umul U128 (initial_block_reward config) 9;
  expected ← udiv scaled 10;
  assert_eq r11 expected.
Definition reward_reaches_floor : Test :=
  let config := fast_test in
  floor_height ← umul U64 (decay_interval config) 100;
  reward ← block_reward config floor_height;
  assert_eq reward (min_block_reward config).
(** [None] when the fuel of the loop does not suffice. *)
Definition issued_by (config : TokenomicsConfig) (h : N) : outcome string N :=
  default Panic (total_issued_by_height config h).
Definition cumulative_issuance_grows : Test :=
  issued_10 ← issued_by fast_test 10;
  issued_20 ← issued_by fast_test 20;
  assert_true (issued_10 <? issued_20).
Definition asymptotic_max_is_finite : Test :=
  let max_supply := asymptotic_max_supply fast_test in
  issued ← issued_by fast_test 1000000;
  _ ← assert_true (issued <? max_supply);
  assert_true (initial_supply fast_test <? max_supply).
Definition default_mainnet_has_reasonable_values : Test :=
  _ ← assert_eq (initial_supply mainnet) 1000000000000000000;
  _ ← assert_eq (initial_block_reward mainnet) 10000000000;
  assert_true (decay_numerator mainnet <? decay_denominator mainnet).
End tokenomics.
End primitives_tests.

(** ** [pemrix-protocol], [pemrix-ports], [pemrix-crypto] *)
Module protocol_tests.
Import protocol.
Section tests.
Context `{Profile}.
Definition supply_invariant_enforced : Test :=
  _ ← assert_true (is_ok (check_supply_invariant MAX_SUPPLY));
  assert_true (is_err (check_supply_invariant (MAX_SUPPLY + 1))).
Definition default_parameters_validate : Test := assert_true (is_ok (validate ProtocolParameters_new)).
Definition priority_fee_overflow_detected : Test :=
  let d := ProtocolParameters_new in
  let params := MkProtocolParameters (block_time_seconds d) (max_active_validators d) (min_active_stake d)
    (base_fee_per_gas d) (min_base_fee_per_gas d) (max_base_fee_change_bps d) (target_utilization_bps d)
    9500 1000 (normal_quorum_bps d) (normal_threshold_bps d) (normal_voting_period_blocks d)
    (normal_timelock_blocks d) in
  assert_true (is_err (validate params)).
Definition ports_are_five_digits_starting_with_six : Test :=
  assert_true (forallb (λ p, 61000 <=? p)
    [ports.RPC; ports.GRPC; ports.FAUCET; ports.EXPLORER; ports.WEBHOOKS; ports.SERVICES_RPC; ports.P2P_BASE]).
Definition p2p_offsets_stay_in_range : Test :=
  a ← ports.p2p_local_offset 0; _ ← assert_eq a "127.0.0.1:61100";
  b ← ports.p2p_local_offset 3; assert_eq b "127.0.0.1:61103".
End tests.
End protocol_tests.

Module crypto_tests.
Section tests.
Context `{Blake3, Dalek, !Serde HybridSignature} (random : array32).
Definition pemrix : bytes := String.list_byte_of_string "pemrix".
Definition ed25519_sign_verify : Test :=
  keypair ← unwrap (generate_keypair Ed25519Scheme random);
  signature ← unwrap (sign Ed25519Scheme (kp_secret keypair) pemrix);
  unwrap (verify Ed25519Scheme (kp_public keypair) pemrix signature).
Definition ed25519_verify_wrong_message_fails : Test :=
  keypair ← unwrap (generate_keypair Ed25519Scheme random);
  signature ← unwrap (sign Ed25519Scheme (kp_secret keypair) pemrix);
  assert_true (is_err (verify Ed25519Scheme (kp_public keypair) (String.list_byte_of_string "wrong") signature)).
Definition hybrid_classical_only_round_trip : Test :=
  let scheme := HybridScheme Ed25519Scheme None in
  keypair ← unwrap (generate_keypair scheme random);
  signature ← unwrap (sign scheme (kp_secret keypair) pemrix);
  unwrap (verify scheme (kp_public keypair) pemrix signature).
End tests.
End crypto_tests.

(** ** [pemrix-storage] *)
Module storage_tests.
Section tests.
Context `{Profile, Hex, Blake3, !Serde Account, !Serde (gmap string bytes)}.
Context `{!Serde ValidatorRecord, !Serde Delegation}.
(** [StateStore::validator_count], for tests. *)
Definition validator_count {S} `{Store S} (s : S) : outcome StorageError nat :=
  records ← store_validator_records s; Ok (length records).
Definition val_test : bytes := String.list_byte_of_string "val:test".
Definition record : bytes := String.list_byte_of_string "record".

(** The two determinism tests differ in the backend they create. *)
Definition state_root_is_deterministic {B} `{StateBackend B} : M B string unit :=
  let a := Address_default in
  _ ← call (put_account a (MkAccount 100 0));
  root1 ← call (reads state_root);
  root2 ← call (reads state_root);
  lift (assert_eq root1 root2).
Definition in_memory_state_root_is_deterministic : Test := starting InMemory_new state_root_is_deterministic.
Definition in_memory_raw_key_round_trip : Test :=
  starting InMemory_new (
    _ ← call (put_raw val_test record);
    stored ← call (reads (λ b, get_raw b val_test));
    _ ← lift (assert_eq stored (Some record));
    _ ← call (delete_raw val_test);
    stored ← call (reads (λ b, get_raw b val_test));
    lift (assert_eq stored None)).
Definition in_memory_raw_keys_affect_state_root : Test :=
  starting InMemory_new (
    root1 ← call (reads state_root);
    _ ← call (put_raw val_test record);
    root2 ← call (reads state_root);
    lift (assert_ne root1 root2)).

(** The tests of the [rocksdb] feature open a database in a fresh directory; [disk]
    says what a directory holds once the database last opened there is closed. *)
Context {DB : Type} `{!RocksDB DB} (fresh : string → outcome string DB) (disk : DB → string → outcome string DB).
Context (dir : string).
Definition rocksdb_backend_round_trip : Test :=
  backend ← unwrap (rk_open fresh dir);
  starting backend (
    _ ← call (put_account Address_default (MkAccount 100 7));
    o ← call (reads (λ b, get_account b Address_default));
    account ← lift (unwrap_some o);
    _ ← lift (assert_eq (acc_balance account) 100);
    lift (assert_eq (acc_nonce account) 7)).
Definition rocksdb_backend_state_root_is_deterministic : Test :=
  backend ← unwrap (rk_open fresh dir); starting backend state_root_is_deterministic.
Definition rocksdb_backend_survives_reopen : Test :=
  backend ← unwrap (rk_open fresh dir);
  let '(o, closed) := call (put_account Address_default (MkAccount 999 1)) backend in
  _ ← o;
  backend ← unwrap (rk_open (disk (rk_db closed)) dir);
  o ← unwrap (get_account backend Address_default);
  account ← unwrap_some o;
  _ ← assert_eq (acc_balance account) 999;
  assert_eq (acc_nonce account) 1.

Definition transfer_updates_balances : Test :=
  let alice := Address_default in
  let bob := addr "bob" in
  starting new_in_memory (
    _ ← call (store_set_account alice (MkAccount 1000 0));
    _ ← call (transfer alice bob 100 1);
    a ← call (reads (λ s, store_balance s alice));
    _ ← lift (assert_eq a 899);
    b ← call (reads (λ s, store_balance s bob));
    lift (assert_eq b 100)).
End tests.
End storage_tests.

(** ** [pemrix-vm] *)
Module vm_tests.
Section tests.
Context `{Profile, Hex, Blake3, Dalek, !Serde Account, !Serde (gmap string bytes)}.
Context `{!Serde ValidatorRecord, !Serde Delegation, !Serde Transaction, !Serde StakingOperation}.
Context `{!Wasmtime} (print : Z → string).
Implicit Types random : array32.

(** What [state.balance(a).unwrap()] and [state.nonce(a).unwrap()] are compared
    with. *)
Definition balance_is {S} `{Store S} (a : Address) (n : N) : M S string unit :=
  b ← call (reads (λ s, store_balance s a)); lift (assert_eq b n).
Definition nonce_is {S} `{Store S} (a : Address) (n : N) : M S string unit :=
  b ← call (reads (λ s, store_nonce s a)); lift (assert_eq b n).
Definition the_record {S} `{Store S} (a : Address) : M S string ValidatorRecord :=
  o ← call (reads (λ s, store_validator_record s a)); lift (unwrap_some o).

Definition native_transfer random : Test :=
  '(alice_kp, alice) ← random_keypair random;
  let bob := addr "bob" in
  tx ← sign_tx (transfer_tx alice bob 100 0 1) alice_kp;
  starting new_in_memory (
    _ ← call (store_set_account alice (MkAccount 1000 0));
    result ← call (vm_execute MkNativeExecutor tx);
    _ ← lift (assert_true (success result));
    _ ← balance_is alice 899;
    balance_is bob 100).

(** [wasm.rs]: the module, and the test of each build. *)
Definition simple_run_contract_wasm : bytes :=
  [x00; x61; x73; x6d; x01; x00; x00; x00; x01; x05; x01; x60; x00; x01; x7f; x03; x02; x01; x00; x07; x07;
   x01; x03; x72; x75; x6e; x00; x00; x0a; x06; x01; x04; x00; x41; x00; x0b].
Definition wasm_tx (payload : bytes) : Transaction :=
  let t := transfer_tx Address_default Address_default 0 0 0 in
  MkTransaction (tx_sender t) (tx_recipient t) (tx_amount t) (tx_nonce t) (tx_fee t) (tx_public_key t)
    (tx_signature t) payload.
Definition wasm_contract_runs_and_returns_zero : Test :=
  let vm := WasmVm_Vm wasm_run_contract print in
  starting new_in_memory (
    result ← call (vm_execute (Vm:=vm) MkWasmVm (wasm_tx simple_run_contract_wasm));
    lift (assert_true (success result))).
Definition wasm_contract_disabled_without_feature : Test :=
  let vm := WasmVm_Vm run_contract_disabled print in
  starting new_in_memory (
    o ← result_of (vm_execute (Vm:=vm) MkWasmVm (wasm_tx [x00; x61; x73; x6d]));
    lift (assert_true (is_err o))).

Definition block_executor_transfer random : Test :=
  '(alice_kp, alice) ← random_keypair random;
  let bob := addr "bob" in
  tx ← sign_tx (transfer_tx alice bob 100 0 1) alice_kp;
  starting new_in_memory (
    _ ← call (store_set_account alice (MkAccount 1000 0));
    result ← call (vm_execute MkBlockExecutor tx);
    _ ← lift (assert_true (success result));
    _ ← balance_is alice 899;
    _ ← balance_is bob 100;
    nonce_is alice 1).
(** The transactions the tests of the stakers write out, unsigned. *)
Definition staking_tx (sender : Address) (nonce fee : N) (op : StakingOperation) : Transaction :=
  MkTransaction sender Address_default 0 nonce fee [] [] (x01 :: to_vec op).
Definition block_executor_register_validator random : Test :=
  '(kp, sender) ← random_keypair random;
  tx ← sign_tx (staking_tx sender 0 1 (RegisterValidator (replicate 32 x01) 500 10000)) kp;
  starting new_in_memory (
    _ ← call (store_set_account sender (MkAccount 100000 0));
    result ← call (vm_execute MkBlockExecutor tx);
    _ ← lift (assert_true (success result));
    _ ← balance_is sender 89999;
    record ← the_record sender;
    _ ← lift (assert_eq (vr_self_stake record) 10000);
    nonce_is sender 1).

(** [staking.rs]: the executor is run alone, so nothing is signed. *)
Definition register_validator_locks_self_stake random : Test :=
  '(_, sender) ← random_keypair random;
  let tx := staking_tx sender 0 0 (RegisterValidator (replicate 32 x01) 500 10000) in
  starting new_in_memory (
    _ ← call (store_set_account sender (MkAccount 100000 0));
    result ← call (vm_execute MkStakingExecutor tx);
    _ ← lift (assert_true (success result));
    _ ← balance_is sender 90000;
    record ← the_record sender;
    lift (assert_eq (vr_self_stake record) 10000)).
Definition delegate_and_undelegate random1 random2 : Test :=
  '(_, validator) ← random_keypair random1;
  '(_, delegator) ← random_keypair random2;
  starting new_in_memory (
    _ ← call (store_set_account validator (MkAccount 100000 0));
    _ ← call (store_set_account delegator (MkAccount 50000 0));
    _ ← call (vm_execute MkStakingExecutor
          (staking_tx validator 0 0 (RegisterValidator (replicate 32 x02) 500 10000)));
    _ ← call (vm_execute MkStakingExecutor (staking_tx delegator 0 0 (Delegate validator 5000)));
    _ ← balance_is delegator 45000;
    record ← the_record validator;
    _ ← lift (assert_eq (vr_delegated_stake record) 5000);
    _ ← call (vm_execute MkStakingExecutor (staking_tx delegator 1 0 (Undelegate validator 2000)));
    _ ← balance_is delegator 47000;
    record ← the_record validator;
    lift (assert_eq (vr_delegated_stake record) 3000)).
End tests.
End vm_tests.

(** ** [pemrix-consensus] *)
Module consensus_tests.
Section tests.
Context `{Profile, Hex, Blake3, Dalek, !Serde Account, !Serde (gmap string bytes)}.
Context `{!Serde ValidatorRecord, !Serde Delegation, !Serde Transaction, !Serde StakingOperation}.
Context `{!Serde BlockHeader, !Serde (list Transaction)}.
Implicit Types (random : array32) (now : N).

(** [validator_set.rs] *)
Definition validators_named (n : nat) : ValidatorSet :=
  foldl (λ set i, vs_add (addr ("v" +:+ pretty (N.of_nat i))) 1 set) ValidatorSet_new (seq 0 n).
Definition empty_set_has_no_quorum : Test :=
  threshold ← quorum_threshold ValidatorSet_new;
  _ ← assert_eq threshold 1;
  o ← proposer ValidatorSet_new 1 0;
  assert_eq o None.
Definition quorum_is_two_thirds_plus_one : Test :=
  let set := validators_named 4 in
  power ← total_power set;
  _ ← assert_eq power 4;
  threshold ← quorum_threshold set;
  assert_eq threshold 3.
Definition proposer_rotates_deterministically : Test :=
  let set := validators_named 3 in
  let proposed round := o ← proposer set 1 round; unwrap_some o in
  p0 ← proposed 0; p1 ← proposed 1; p2 ← proposed 2;
  _ ← assert_ne p0 p1; _ ← assert_ne p1 p2; _ ← assert_ne p0 p2;
  p3 ← proposed 3; assert_eq p0 p3.
Definition membership_check : Test :=
  let set := vs_add (addr "v1") 1 ValidatorSet_new in
  _ ← assert_true (is_validator set (addr "v1"));
  assert_true (negb (is_validator set (addr "v2"))).

(** [slashing.rs] *)
Definition test_validator : ValidatorRecord :=
  ValidatorRecord_new (addr "val") [x01; x02; x03] 1000000 500.
Definition double_sign_slash_and_jail : Test :=
  '(slashed, record) ← apply_slash test_validator (DoubleSign 100 0) 100 SlashingPolicy_default;
  _ ← assert_eq slashed 50000;
  _ ← assert_true (is_jailed record 101);
  assert_true (negb (is_jailed record U64)).
Definition downtime_slash_is_smaller : Test :=
  '(slashed, _) ← apply_slash test_validator (Downtime 6 10) 100 SlashingPolicy_default;
  assert_eq slashed 1000.
Definition release_validators_after_jail_time : Test :=
  let records := {[addr "val" := with_status test_validator Jailed 100]} in
  record ← unwrap_some (release_validators records 100 !! addr "val");
  assert_eq (vr_status record) Active.

(** [rewards.rs] *)
Definition reward_is_split_among_validators : Test :=
  let v1 := addr "v1" in
  let v2 := addr "v2" in
  payouts ← distribute_block_reward [v1; v2] ∅ 100 v1;
  _ ← assert_eq (default 0 (payouts !! v1)) 55;
  assert_eq (default 0 (payouts !! v2)) 45.
Definition empty_validator_set_returns_empty_payouts : Test :=
  payouts ← distribute_block_reward [] ∅ 100 Address_default;
  assert_true (bool_decide (payouts = ∅)).

(** [mempool.rs] *)
Definition mempool_drain_respects_max : Test :=
  starting SimpleMempool_new (
    _ ← forM (λ t, call (mp_add t)) (replicate 10 Transaction_default);
    drained ← call (mp_drain 3);
    _ ← lift (assert_eq (length drained) 3%nat);
    check (λ m, assert_eq (mp_len m) 7)).

(** [solo.rs] *)
Definition solo_consensus_produces_block random now : Test :=
  '(sender_kp, sender) ← random_keypair random;
  tx ← sign_tx (transfer_tx sender (addr "recipient") 100 0 1) sender_kp;
  starting (SoloConsensus_new Address_default) (
    _ ← call (solo_fund sender 1000);
    block ← call (ce_propose 1 [tx] now);
    lift (assert_eq (bh_height (header block)) 1)).

(** [bft.rs] *)
Definition validator_set_of (addresses : list Address) : ValidatorSet :=
  from_validators ((λ a, MkValidator a 1) <$> addresses).
Definition proposer_of (set : ValidatorSet) : outcome string Address := o ← proposer set 1 0; unwrap_some o.
Definition is_error (e : ConsensusError) {A} (o : outcome ConsensusError A) : bool :=
  match o, e with
  | Err NotProposer, NotProposer | Err InvalidProposal, InvalidProposal => true
  | _, _ => false
  end.
Definition non_proposer_cannot_propose now : Test :=
  let v1 := addr "v1" in
  let v2 := addr "v2" in
  let set := validator_set_of [v1; v2] in
  proposer ← proposer_of set;
  let non_proposer := if bool_decide (proposer = v1) then v2 else v1 in
  engine ← unwrap (bft_new non_proposer set);
  starting engine (
    result ← result_of (ce_propose 1 [] now);
    lift (assert_true (is_error NotProposer result))).
Definition proposer_auto_votes_for_own_block now : Test :=
  let set := validator_set_of [addr "v1"; addr "v2"; addr "v3"] in
  proposer_addr ← proposer_of set;
  engine ← unwrap (bft_new proposer_addr set);
  starting engine (
    block ← call (ce_propose 1 [] now);
    lift (assert_eq (bh_height (header block)) 1)).
(** The body of the loop over the other validators: the voter's own engine takes
    the proposal, the proposer's takes the vote. *)
Definition vote_for_proposal (set : ValidatorSet) (block : Block) (voter : Address)
    : M (BftConsensus (StateStore InMemoryBackend)) string unit :=
  engine ← lift (unwrap (bft_new voter set));
  _ ← lift (starting engine (call (ce_handle_proposal (proposal_of_block block))));
  call (ce_handle_vote (MkVote (block_hash block) 1 0 (address_array voter))).
Definition proposal_reaches_finality_with_quorum now1 now2 : Test :=
  let set := validator_set_of [addr "v1"; addr "v2"; addr "v3"; addr "v4"] in
  proposer_addr ← proposer_of set;
  engine ← unwrap (bft_new proposer_addr set);
  starting engine (
    block ← call (ce_propose 1 [] now1);
    let others := take 2 (filter (λ a, a ≠ proposer_addr) (v_address <$> vs_validators set)) in
    _ ← forM (vote_for_proposal set block) others;
    _ ← check (λ s, assert_eq (vote_count 1 s) 3%nat);
    finality ← call (ce_finalize (block_hash block) now2);
    _ ← lift (assert_eq (block_hash (fin_block finality)) (block_hash block));
    check (λ s, assert_eq (ce_height s) 1)).
Definition invalid_proposer_rejected : Test :=
  let v1 := addr "v1" in
  let v2 := addr "v2" in
  let set := validator_set_of [v1; v2] in
  proposer ← proposer_of set;
  let non_proposer := if bool_decide (proposer = v1) then v2 else v1 in
  engine ← unwrap (bft_new proposer set);
  starting engine (
    result ← result_of (ce_handle_proposal (MkProposal Hash_default 1 0 (address_array non_proposer)));
    lift (assert_true (is_error InvalidProposal result))).
Definition staking_register_updates_validator_set random now : Test :=
  let proposer := addr "proposer" in
  engine ← unwrap (bft_new proposer (from_validators [MkValidator proposer 1]));
  '(keypair, new_validator) ← random_keypair random;
  let self_stake := 100000 * protocol.ONE_PMX in
  tx ← sign_tx (MkTransaction new_validator Address_default 0 0 1 [] []
         (staking_encode (RegisterValidator (replicate 32 x01) 500 self_stake))) keypair;
  starting engine (
    _ ← call (bft_fund new_validator (200000 * protocol.ONE_PMX));
    block ← call (ce_propose 1 [tx] now);
    _ ← lift (assert_eq (bh_height (header block)) 1);
    _ ← check (λ s, assert_true (is_validator (validator_set s) new_validator));
    check (λ s, assert_eq (vs_power (validator_set s) new_validator) (Some (as_uint U64 self_stake)))).
End tests.
End consensus_tests.

(** ** [pemrix-sandbox] *)
Module sandbox_tests.
Section tests.
Context `{Profile, Hex, Blake3, Dalek, !Serde Account, !Serde (gmap string bytes)}.
Context `{!Serde ValidatorRecord, !Serde Delegation, !Serde Transaction, !Serde StakingOperation}.
Context `{!Serde BlockHeader, !Serde (list Transaction)}.
Implicit Types (random : array32) (now : N).

Definition sandbox_has (a : Address) (n : N) : M Sandbox string unit :=
  b ← call (reads (λ s, sandbox_balance s a)); lift (assert_eq b n).
Definition sandbox_funds_and_transfers random now : Test :=
  '(alice_kp, alice) ← random_keypair random;
  let bob := addr "bob" in
  tx ← sign_tx (transfer_tx alice bob 100 0 1) alice_kp;
  starting sandbox_default (
    _ ← call (fund alice 1000);
    _ ← sandbox_has alice 1000;
    _ ← call (sandbox_submit tx);
    block ← call (produce_block now);
    _ ← lift (assert_eq (bh_height (header block)) 1);
    _ ← check (λ s, assert_eq (sx_height s) 1);
    _ ← sandbox_has alice 899;
    sandbox_has bob 100).
Definition sandbox_queries_block_and_transaction random now : Test :=
  '(alice_kp, alice) ← random_keypair random;
  let bob := addr "bob" in
  tx ← sign_tx (transfer_tx alice bob 50 0 1) alice_kp;
  starting sandbox_default (
    _ ← call (fund alice 1000);
    _ ← call (sandbox_submit tx);
    block ← call (produce_block now);
    by_height ← call (reads (λ s, sandbox_block_by_height s 1));
    _ ← lift (assert_eq (block_hash by_height) (block_hash block));
    by_hash ← call (reads (λ s, sandbox_block_by_hash s (block_hash block)));
    _ ← lift (assert_eq (bh_height (header by_hash)) 1);
    found ← call (reads (λ s, sandbox_transaction s (tx_hash tx)));
    lift (assert_eq (tx_amount found) 50)).
Definition sandbox_resets now : Test :=
  let alice := addr "alice" in
  starting sandbox_default (
    _ ← call (fund alice 1000);
    _ ← call (produce_block now);
    _ ← modify reset;
    _ ← check (λ s, assert_eq (sx_height s) 0);
    _ ← sandbox_has alice 0;
    o ← result_of (reads (λ s, sandbox_block_by_height s 1));
    lift (assert_true (is_err o))).
End tests.
End sandbox_tests.

(** ** The runs *)
Module CoreTestRuns.
Import Reference ReferenceDb.
Import primitives_tests protocol_tests crypto_tests storage_tests vm_tests consensus_tests sandbox_tests.
#[local] Existing Instance dev.

Definition random1 : array32 := Array32 (replicate 32 x11) eq_refl.
Definition random2 : array32 := Array32 (replicate 32 x22) eq_refl.
(** Databases that open empty, and a disk that keeps what was closed. *)
Definition fresh (dir : string) : outcome string (gmap bytes bytes) := Ok ∅.
Definition disk (closed : gmap bytes bytes) (dir : string) : outcome string (gmap bytes bytes) := Ok closed.
(** What [wasmtime] makes of the module of the test; it knows no other. *)
#[local] Instance ref_wasmtime : Wasmtime := {|
  WtModule := unit; WtInstance := unit; WtFunc := unit;
  wt_module wasm := if bool_decide (wasm = simple_run_contract_wasm) then Some tt else None;
  wt_instantiate := Some; wt_get_run := Some; wt_call _ := Some 0%Z;
|}.

Lemma library_tests_pass :
  all_pass [hash_round_trip; address_round_trip; round_trip_transaction; round_trip_account;
    genesis_produces_no_reward; reward_decays_over_intervals; reward_reaches_floor; cumulative_issuance_grows;
    asymptotic_max_is_finite; default_mainnet_has_reasonable_values;
    supply_invariant_enforced; default_parameters_validate; priority_fee_overflow_detected;
    ports_are_five_digits_starting_with_six; p2p_offsets_stay_in_range;
    ed25519_sign_verify random1; ed25519_verify_wrong_message_fails random1;
    hybrid_classical_only_round_trip random1;
    in_memory_state_root_is_deterministic; in_memory_raw_key_round_trip;
    in_memory_raw_keys_affect_state_root;
    rocksdb_backend_round_trip fresh "db"; rocksdb_backend_state_root_is_deterministic fresh "db";
    rocksdb_backend_survives_reopen fresh disk "db"; transfer_updates_balances] = true.
Proof. vm_compute. reflexivity. Qed.
Lemma execution_tests_pass :
  all_pass [native_transfer random1; wasm_contract_runs_and_returns_zero (λ _, "0");
    wasm_contract_disabled_without_feature (λ _, "0");
    block_executor_transfer random1; block_executor_register_validator random1;
    register_validator_locks_self_stake random1; delegate_and_undelegate random1 random2] = true.
Proof. vm_compute. reflexivity. Qed.
Lemma consensus_tests_pass :
  all_pass [empty_set_has_no_quorum; quorum_is_two_thirds_plus_one; proposer_rotates_deterministically;
    membership_check; double_sign_slash_and_jail; downtime_slash_is_smaller;
    release_validators_after_jail_time; reward_is_split_among_validators;
    empty_validator_set_returns_empty_payouts; mempool_drain_respects_max;
    solo_consensus_produces_block random1 5; non_proposer_cannot_propose 5;
    proposer_auto_votes_for_own_block 5; proposal_reaches_finality_with_quorum 5 9; invalid_proposer_rejected;
    staking_register_updates_validator_set random1 5;
    sandbox_funds_and_transfers random1 5; sandbox_queries_block_and_transaction random1 5;
    sandbox_resets 5] = true.
Proof. vm_compute. reflexivity. Qed.
End CoreTestRuns.
