(* ===== verification/ServiceTests.v ===== *)
(** * The unit tests of the services, the SDK and the node, run on the model

    The [#[test]]s of [pemrix-rpc], [pemrix-explorer], [pemrix-webhooks],
    [pemrix-faucet], [pemrix-network] (the mock transport), [pemrix-sdk],
    [pemrix-testnet] and [pemrix-node] as programs, like those of [CoreTests].  A
    request to a router goes through [serve]; the bytes of a JSON body written out
    in a test are an argument. *)

From Stdlib Require Import Strings.Byte.
From stdpp Require Import pretty.
From S2P Require Import Prelude.
From S2P Require Import Externals.
From S2P Require Import Primitives.
From S2P Require Import Storage.
From S2P Require Import StateStore.
From S2P Require Import Crypto.
From S2P Require Import Vm.
From S2P Require Import ValidatorSet.
From S2P Require Import Protocol.
From S2P Require Import Web.
From S2P Require Import Rpc.
From S2P Require Import Grpc.
From S2P Require Import Explorer.
From S2P Require Import Webhooks.
From S2P Require Import Sdk.
From S2P Require Import Faucet.
From S2P Require Import Bft.
From S2P Require Import BftProperties.
From S2P Require Import Network.
From S2P Require Import NodeConfig.
From S2P Require Import Http.
From S2P Require Import Servers.
From S2P Require Import ServerObjects.
From S2P Require Import Testnet.
From S2P Require Import ServicesStart.
From S2P Require Import NodeLoops.
From S2P Require Import Cluster.
From S2P Require Import Topology.
From S2P Require Import NodeServices.
From S2P Require Import ServiceScenario.
From S2P Require Import SystemScenario.
From S2P Require Import CoreTests.
Local Open Scope N_scope.

(** [app.oneshot(request).await.unwrap()] *)
Definition oneshot {W} `{Axum} (routes : list (Route W)) (m : Method) (path : string) (body : bytes)
    : M W string HttpResponse := call (serve routes (MkRequest m path body)).
Definition status_is (response : HttpResponse) (c : StatusCode) : Test :=
  assert_eq (hs_status response) (status_u16 c).

(** ** [pemrix-rpc] *)
Module rpc_tests.
Section tests.
Context `{Axum, Json, !ToValue Block, !ToValue Transaction}.
Context `{Hex, Blake3, Dalek, !Serde Transaction, !Serde BlockHeader}.
Context `{!Serde StatusBody, !Serde Block, !Serde BlockResponse, !Serde TransactionResponse}.
Context `{!Serde BalanceResponse, !Serde NonceResponse, !Serde ValidatorResponse}.
Context `{!Serde DelegationResponse, !Serde SendTransactionRequest} (version : string).
Implicit Types random : array32.

(** [server.rs] *)
Definition server : RpcServer := RpcServer_new "127.0.0.1:0".
Definition status_endpoint : Test :=
  starting (svc_state server) (
    response ← oneshot (rpc_routes version) GET "/v1/status" [];
    lift (status_is response STATUS_OK)).
Definition signed_transfer random (recipient : Address) (amount nonce fee : N)
    : outcome string (Transaction * Account) :=
  '(keypair, sender) ← random_keypair random;
  tx ← sign_tx (transfer_tx sender recipient amount nonce fee) keypair;
  Ok (tx, MkAccount 1000000 nonce).
(** The four tests of the endpoint set an account, post a transaction and look at
    the status. *)
Definition posting (tx : Transaction) (account : Account) (expected : StatusCode) : Test :=
  starting (svc_state server) (
    _ ← modify (RpcState.set_account (tx_sender tx) account);
    response ← oneshot (rpc_routes version) POST "/v1/transactions" (to_vec (MkSendTransactionRequest tx));
    lift (status_is response expected)).
Definition valid_transaction_is_accepted random : Test :=
  '(tx, account) ← signed_transfer random Address_default 100 0 1;
  posting tx account STATUS_OK.
Definition unsigned_transaction_is_rejected random : Test :=
  '(keypair, sender) ← random_keypair random;
  let tx := with_public_key (public_bytes (kp_public keypair)) (transfer_tx sender Address_default 100 0 1) in
  posting tx (MkAccount 1000000 0) BAD_REQUEST.
Definition transaction_with_wrong_nonce_is_rejected random : Test :=
  '(tx, _) ← signed_transfer random Address_default 100 5 1;
  posting tx (MkAccount 1000000 0) CONFLICT.
Definition transaction_with_insufficient_balance_is_rejected random : Test :=
  '(tx, account) ← signed_transfer random Address_default 2000000 0 1;
  posting tx account PAYMENT_REQUIRED.

(** [grpc.rs] *)
Definition grpc_status_returns_height : Test :=
  starting RpcState.new (
    response ← call (GrpcService.status version);
    _ ← lift (assert_eq (proto.st_status response) "ok");
    lift (assert_eq (proto.st_height response) 0)).
Definition grpc_get_balance_for_known_account : Test :=
  let address := addr "alice" in
  starting RpcState.new (
    _ ← modify (RpcState.set_account address (MkAccount 5000 0));
    response ← call (GrpcService.get_balance (Address_to_string address));
    _ ← lift (assert_eq (proto.ba_address response) (Address_to_string address));
    lift (assert_eq (proto.ba_balance response) "5000")).
Definition hash_of (text : string) : Hash := hash_bytes (String.list_byte_of_string text).
Definition grpc_get_block_by_height : Test :=
  let block := MkBlock
    (MkBlockHeader 7 1 (hash_of "prev") (hash_of "state") (hash_of "txs") array32_zero)
    (MkBlockBody [transfer_tx (addr "a") (addr "b") 100 0 1]) in
  starting RpcState.new (
    _ ← modify (RpcState.store_block block);
    response ← call (GrpcService.get_block_by_height 7);
    _ ← lift (assert_eq (proto.br_height response) 7);
    lift (assert_ne (proto.br_hash response) "")).
Definition grpc_send_transaction_stores_tx : Test :=
  let tx := transfer_tx (addr "alice") (addr "bob") 250 1 5 in
  starting RpcState.new (
    response ← call (GrpcService.send_transaction
                 (proto.MkSendTransactionRequest (Some (transaction_to_proto tx))));
    _ ← lift (assert_eq (proto.se_hash response) (Hash_to_string (tx_hash tx)));
    _ ← lift (assert_eq (proto.se_status response) "pending");
    o ← gets (RpcState.get_transaction (tx_hash tx));
    stored ← lift (unwrap_some o);
    lift (assert_eq (tx_amount stored) 250)).

(** [handlers.rs] *)
Definition simple_handler_balance : Test :=
  balance ← unwrap (rh_get_balance (MkSimpleRpcHandler 1000) Address_default);
  assert_eq (bal_balance balance) 1000.
End tests.
End rpc_tests.

(** ** [pemrix-explorer], [pemrix-webhooks], [pemrix-faucet] *)
Module service_tests.
Section tests.
Context `{Axum, Json, !ValueBytes, Hex, Hmac, HashOrder, Blake3, Dalek}.
Context `{!Serde Transaction, !Serde BlockHeader, !Serde ExplorerStatus, !Serde (list Block), !Serde Block}.
Context `{!Serde AccountInfo, !Serde FaucetRequest, !Serde FaucetResponse}.
Context `{!Serde Webhooks.SubscribeRequest, !Serde Webhooks.SubscriptionResponse}.
Context `{!Serde (list Webhooks.SubscriptionResponse)}.

Definition explorer_status_empty : Test :=
  starting (svc_state (ExplorerService_new "127.0.0.1:0")) (
    response ← oneshot explorer_routes GET "/explorer/status" [];
    lift (status_is response STATUS_OK)).
Definition explorer_ingests_block : Test :=
  starting ExplorerState.new (
    _ ← modify (ExplorerState.ingest_block Block_default);
    check (λ s, assert_true (bool_decide (is_Some (ExplorerState.block_by_height 0 s))))).
(** The identifiers are those [uuid] draws. *)
Definition subscribe_and_list (fresh_id fresh_secret : string) (body : bytes) : Test :=
  starting (svc_state (WebhookService_new "127.0.0.1:0")) (
    response ← oneshot (webhook_routes fresh_id fresh_secret) POST "/webhooks/subscribe" body;
    lift (status_is response CREATED)).
(** [json!({"block": 1})] is an argument. *)
Definition signature_is_deterministic (payload : Value) : Test :=
  sig1 ← unwrap (compute_signature "secret" payload);
  sig2 ← unwrap (compute_signature "secret" payload);
  assert_eq sig1 sig2.
Definition faucet_rejects_excessive_amount (random : array32) (now after : N) (body : bytes) : Test :=
  keypair ← unwrap (faucet_generate_keypair random);
  let service := FaucetService_new FaucetConfig_default keypair Address_default (LocalSubmitter Address_default) in
  starting (RpcState.new, fsv_cooldowns service) (
    response ← oneshot (faucet_routes (clone_state service) now after) POST "/faucet/request" body;
    lift (status_is response BAD_REQUEST)).
End tests.
End service_tests.

(** ** [pemrix-network], [pemrix-sdk], [pemrix-testnet] *)
Module client_tests.
Section tests.
Context `{Hex, Blake3, Dalek, PeerOrder, Profile} (env : option string).

Definition mock_transport_peer_connects : Test :=
  let peer := PeerId_default in
  starting mock_new (
    _ ← modify (mock_add_peer peer);
    o ← call next_event;
    event ← lift (unwrap_some o);
    lift (assert_eq event (PeerConnected peer))).
Definition wallet_generates_address (random : array32) : Test :=
  wallet ← unwrap (Wallet_generate random); assert_ne (wl_address wallet) Address_default.
Definition faucet_request_url_is_formatted : Test :=
  let client := FaucetClient_new "http://localhost:61003" in
  _ ← assert_eq (fcl_base_url client) "http://localhost:61003";
  assert_eq (fcl_base_url client +:+ "/faucet/request") "http://localhost:61003/faucet/request".
Definition local_testnet_has_faucet : Test :=
  config ← testnet_local env;
  _ ← assert_true (bool_decide (tc_faucet_accounts config ≠ []));
  assert_true (bool_decide (is_Some (testnet_faucet_address config))).
Definition allocations_include_faucet : Test :=
  config ← testnet_local env;
  faucet ← unwrap_some (testnet_faucet_address config);
  assert_true (bool_decide (is_Some (combined_allocations config !! faucet))).
End tests.
End client_tests.

(** ** [pemrix-node] *)
Module node_tests.
Section tests.
Context `{Profile, Hex, Blake3, Dalek, !Serde Account, !Serde (gmap string bytes)}.
Context `{!Serde ValidatorRecord, !Serde Delegation, !Serde Transaction, !Serde StakingOperation}.
Context `{!Serde BlockHeader, !Serde (list Transaction), SocketAddrs, !EqDecision SocketAddr}.
Context `{!JsonText NodeConfig}.
Implicit Types (random : array32) (now : N).

(** [genesis.rs] *)
Definition genesis_block_has_height_zero now : Test :=
  block ← unwrap (genesis_block (local_development [(addr "alice", 1000)] now));
  _ ← assert_eq (bh_height (header block)) 0;
  _ ← assert_true (bool_decide (transactions (body block) = []));
  assert_ne (Hash_to_string (block_hash block)) "".
Definition genesis_block_state_root_reflects_allocations now : Test :=
  block ← unwrap (genesis_block (local_development [(addr "bob", 5000)] now));
  assert_ne (bh_state_root (header block)) Hash_default.
Definition genesis_block_previous_hash_is_zero now : Test :=
  block ← unwrap (genesis_block (local_development [] now));
  assert_eq (bh_previous_hash (header block)) Hash_default.

(** [keys.rs] *)
Definition keypair_round_trip random : Test :=
  kp ← unwrap (node_generate_keypair random);
  restored ← unwrap (keyfile_to_keypair (keyfile_from_keypair kp));
  _ ← assert_eq (public_bytes (kp_public kp)) (public_bytes (kp_public restored));
  assert_eq (secret_bytes (kp_secret kp)) (secret_bytes (kp_secret restored)).
Definition address_matches_public_key random : Test :=
  kp ← unwrap (node_generate_keypair random);
  let expected := from_public_key_hash (hash_bytes (public_bytes (kp_public kp))) in
  assert_eq (kf_address (keyfile_from_keypair kp)) (Address_to_string expected).

(** [tests/config_round_trip.rs] *)
Definition bft_node_config_round_trip : Test :=
  let v1 := addr "v1" in
  let v2 := addr "v2" in
  let set := from_validators [MkValidator v1 1; MkValidator v2 1] in
  let peer := peer_from_public_key_hash (hash_bytes (String.list_byte_of_string "peer")) in
  listen ← ports.p2p_local_offset 3;
  socket ← unwrap_some (parse_socket listen);
  let config := MkNodeConfig "./test-data" ports.rpc_local ports.p2p_default true {[peer := socket]}
                  (Some set) (Some v1) in
  loaded ← unwrap (from_json (to_string_pretty config));
  _ ← assert_eq (nc_data_dir loaded) (nc_data_dir config);
  _ ← assert_eq (nc_rpc_listen loaded) (nc_rpc_listen config);
  _ ← assert_eq (nc_p2p_listen loaded) (nc_p2p_listen config);
  _ ← assert_true (nc_validator loaded);
  _ ← assert_true (bool_decide (nc_bootstrap_nodes loaded = {[peer := socket]}));
  _ ← assert_true (bool_decide (validators <$> nc_validator_set loaded = Some (validators set)));
  assert_eq (nc_local_validator_address loaded) (Some v1).
End tests.
End node_tests.

(** ** [tests/testnet_cluster.rs] *)
Module testnet_cluster.
(** The heights the test reads from the status endpoint, [None] where a poll gives
    none; it stops polling at height 2. *)
Fixpoint highest_height (polls : nat) (answers : list (option N)) (highest : N) : N :=
  match polls, answers with
  | Datatypes.S polls, answer :: answers =>
      let highest := N.max highest (default 0 answer) in
      if 2 <=? highest then highest else highest_height polls answers highest
  | _, _ => highest
  end.
Definition four_validator_testnet_produces_blocks (answers : list (option N)) : Test :=
  assert_true (2 <=? highest_height 240 answers 0).

Section fails.
Context `{Json, !ValueBytes, Hmac, HashOrder, Profile, Hex, Blake3, Dalek}.
Context `{!Serde Account, !Serde (gmap string bytes), !Serde ValidatorRecord, !SerdeLaws ValidatorRecord}.
Context `{!Serde Delegation, !SerdeLaws Delegation, !Serde Transaction, !Serde StakingOperation}.
Context `{!Serde BlockHeader, !Serde (list Transaction), !Serde Vote, !SerdeLaws Vote}.
Context `{SocketAddrs, !JsonText NodeConfig, !JsonText GenesisConfig}.
(** A height the RPC server of the testnet reports at some moment. *)
Definition stated (t : BftTestnet) (h : N) : Prop := ∃ cl blocks,
  rtc (cluster_step (connected (fst <$> bt_validators t))) (launch new_in_memory (bt_validators t)) cl ∧
  Forall (reported cl) blocks ∧ h = RpcState.height (sv_rpc (collect blocks (bt_services t))).
(** The test, ignored by default, cannot pass: the testnet of four stops before. *)
Lemma cluster_test_fails dir env now fs fs' t answers :
  run_bft_testnet dir 4 env now fs = (Ok t, fs') → NoDup (node_peer_id <$> validator_addresses 4) →
  (∀ h, Some h ∈ answers → stated t h) → four_validator_testnet_produces_blocks answers = Panic.
Proof.
  intros Hrun Hnd Hall.
  assert (∀ h, Some h ∈ answers → h ≤ 1) as Hle.
  { intros h (cl & blocks & Hsteps & Hblocks & ->)%Hall.
    by apply (committee_stalls dir 4 env now fs fs' t cl blocks Hrun ltac:(lia) Hnd). }
  assert (∀ polls highest, highest ≤ 1 → highest_height polls answers highest ≤ 1) as Hh.
  { clear -Hle. induction answers as [|o answers IH]; intros [|polls] highest Hh; simpl; try done.
    assert (default 0 o ≤ 1) as Ho by (destruct o as [h|]; simpl; [apply Hle; by left|lia]).
    destruct (N.leb_spec 2 (N.max highest (default 0 o))); [lia|].
    apply IH; [|lia]. intros h Hin. apply Hle. by right. }
  unfold four_validator_testnet_produces_blocks.
  specialize (Hh 240%nat 0 ltac:(lia)). by rewrite (proj2 (N.leb_gt _ _)) by lia.
Qed.
End fails.
End testnet_cluster.

(** ** The runs *)
Module ServiceTestRuns.
Import Reference ReferenceDb ReferenceJson ReferenceHttp BftScenario ServiceScenario ClientScenario CoreTestRuns.
Import rpc_tests service_tests client_tests node_tests.
#[local] Existing Instance dev.

#[local] Instance serde_ExplorerStatus : Serde ExplorerStatus :=
  serde_via (B:=N * N * N) (λ x, (es_height x, es_transaction_count x, es_account_count x))
    (λ y, MkExplorerStatus y.1.1 y.1.2 y.2).
#[local] Instance serde_AccountInfo : Serde AccountInfo :=
  serde_via (B:=Address * N * N) (λ x, (ai_address x, ai_balance x, ai_nonce x)) (λ y, MkAccountInfo y.1.1 y.1.2 y.2).
#[local] Instance serde_SubscribeRequest : Serde Webhooks.SubscribeRequest :=
  serde_via (B:=string * list EventType * option string) (λ x, (sq_url x, sq_events x, sq_secret x))
    (λ y, MkSubscribeRequest y.1.1 y.1.2 y.2).
Definition subscription_of (y : string * string * list EventType * string) : Webhooks.SubscriptionResponse :=
  Webhooks.MkSubscriptionResponse y.1.1.1 y.1.1.2 y.1.2 y.2.
Definition subscription_parts (x : Webhooks.SubscriptionResponse) : string * string * list EventType * string :=
  (sp_id x, sp_url x, sp_events x, sp_secret x).
#[local] Instance serde_SubscriptionResponse : Serde Webhooks.SubscriptionResponse :=
  serde_via subscription_parts subscription_of.
#[local] Instance serde_SubscriptionResponses : Serde (list Webhooks.SubscriptionResponse) :=
  serde_via (fmap subscription_parts) (fmap subscription_of).
#[local] Instance ref_peer_order : PeerOrder := λ m, (map_to_list m).*1.
#[local] Instance socket_eq_dec : EqDecision (@SocketAddr ref_sockets) := String.eq_dec.

(** What [serde_json] reads in the texts of the two bodies. *)
Definition hook_body : bytes := to_vec (MkSubscribeRequest "https://example.com/hook" [EvBlock] None).
Definition excessive_body : bytes :=
  to_vec (MkFaucetRequest "px0000000000000000000000000000000000000000000000000000000000000000" "999999999").

Lemma rpc_tests_pass :
  all_pass [status_endpoint "0.1.0"; valid_transaction_is_accepted "0.1.0" random1;
    unsigned_transaction_is_rejected "0.1.0" random1; transaction_with_wrong_nonce_is_rejected "0.1.0" random1;
    transaction_with_insufficient_balance_is_rejected "0.1.0" random1;
    grpc_status_returns_height "0.1.0"; grpc_get_balance_for_known_account; grpc_get_block_by_height;
    grpc_send_transaction_stores_tx; simple_handler_balance] = true.
Proof. vm_compute. reflexivity. Qed.
Lemma service_tests_pass :
  all_pass [explorer_status_empty; explorer_ingests_block; subscribe_and_list "id" "secret" hook_body;
    signature_is_deterministic VNull; faucet_rejects_excessive_amount random1 5 6 excessive_body;
    mock_transport_peer_connects; wallet_generates_address random1; faucet_request_url_is_formatted;
    local_testnet_has_faucet None; allocations_include_faucet None] = true.
Proof. vm_compute. reflexivity. Qed.
Lemma node_tests_pass :
  all_pass [genesis_block_has_height_zero 5; genesis_block_state_root_reflects_allocations 5;
    genesis_block_previous_hash_is_zero 5; keypair_round_trip random1; address_matches_public_key random1;
    bft_node_config_round_trip] = true.
Proof. vm_compute. reflexivity. Qed.
End ServiceTestRuns.
