(* ===== verification/TcpRun.v ===== *)
(** * Crate [pemrix-network], [tcp.rs]: schedules and the tests of the transport

    The step relation of [TcpNetwork] as a function: an action names a step, and
    [tcp_act] performs it.  Every step is an action and every action a step, so a
    list of actions is a schedule of the tasks.  The integration tests of [tcp.rs]
    and [bft_over_tcp.rs] are programs over a network whose tasks work, between
    two calls of the test, as a schedule says. *)

From Stdlib Require Import Strings.Byte.
From stdpp Require Import pretty.
From S2P Require Import Prelude.
From S2P Require Import Externals.
From S2P Require Import Primitives.
From S2P Require Import Storage.
From S2P Require Import StateStore.
From S2P Require Import Crypto.
From S2P Require Import Vm.
From S2P Require Import ValidatorSet.
From S2P Require Import Bft.
From S2P Require Import Network.
From S2P Require Import Tcp.
From S2P Require Import TcpNetwork.
From S2P Require Import Engines.
From S2P Require Import CoreTests.
Local Open Scope N_scope.

(** ** Actions *)
Inductive TcpAction :=
| Retry (a : PeerId) | Spawn (a : PeerId) | DialFails (a p : PeerId) | Connects (a p : PeerId) (x y : N)
| Greets (x : N) | Shakes (x : N) | ShakeFails (x : N)
| Writes (x : N) | WriteBreaks (x : N) (k : nat) | Reads (x : N) | ReadFails (x : N)
| Releases (x : N) | Forgets (x : N)
| Broadcasts (a : PeerId) (m : Message) | Sends (a p : PeerId) (m : Message) | TakesEvent (a : PeerId).

Section actions.
Context {Addr : Type} `{!Serde Message}.
Context (bootstrap : PeerId → gmap PeerId Addr) (listens : Addr → option PeerId).
Notation Net := (TcpNet Addr).
Implicit Types (net : Net).

(** A task with the transport it belongs to; the peer whose messages it reads. *)
Definition task_of (x : N) net : option (Connection * TcpNode Addr) :=
  c ← nt_conns net !! x; nd ← nt_nodes net !! cn_owner c; Some (c, nd).
Definition reading (c : Connection) : option PeerId :=
  match cn_stage c with Reading r => Some r | _ => None end.
Definition closing (c : Connection) : option PeerId :=
  match cn_stage c with Closing r => Some r | _ => None end.
Definition is_stage (c : Connection) (fresh greeting returned : bool) : bool :=
  match cn_stage c with
  | Fresh => fresh | Greeting => greeting | Returned => returned | _ => false
  end.
Definition when {A} (b : bool) (x : A) : option A := if b then Some x else None.
(** The next message of a writing task. *)
Definition to_write (x : N) net : option (Connection * TcpNode Addr * PeerId * Message * TcpTransport * Connection) :=
  '(c, nd) ← task_of x net; r ← reading c;
  '(m, tcp, c') ← take_message r x (tn_tcp nd) c;
  when (cn_writing c) (c, nd, r, m, tcp, c').

Definition tcp_act (act : TcpAction) net : option Net :=
  match act with
  | Retry a =>
      nd ← nt_nodes net !! a;
      match tn_pending nd with [] => Some (on_node a (retry_turn bootstrap a nd) net) | _ => None end
  | Spawn a =>
      nd ← nt_nodes net !! a;
      match tn_pending nd with
      | (p, addr) :: rest => Some (on_node a (spawn_dial p addr rest nd) net)
      | [] => None
      end
  | DialFails a p =>
      nd ← nt_nodes net !! a; _ ← tn_connecting nd !! p; Some (on_node a (dial_failed p nd) net)
  | Connects a p x y =>
      nd ← nt_nodes net !! a; addr ← tn_connecting nd !! p; b ← listens addr; _ ← nt_nodes net !! b;
      when (bool_decide (nt_conns net !! x = None ∧ nt_conns net !! y = None ∧ x ≠ y))
        (on_node a (dial_connected p nd) (on_conns
          (<[x := new_conn a (Some p) y]> (<[y := new_conn b None x]> (nt_conns net))) net))
  | Greets x =>
      c ← nt_conns net !! x;
      when (is_stage c true false false)
        (on_conns (alter (received (peer_bytes (cn_owner c))) (cn_other c)
          (<[x := staged Greeting c]> (nt_conns net))) net)
  | Shakes x =>
      '(c, nd) ← task_of x net;
      '(b, rest) ← read_exact 32 (cn_stream c); r ← array32_try_from b;
      when (is_stage c false true false) (handshake x c nd (MkPeerId r) rest net)
  | ShakeFails x =>
      c ← nt_conns net !! x;
      when (is_stage c true true false) (on_conns (<[x := staged Returned c]> (nt_conns net)) net)
  | Writes x =>
      '(c, nd, r, m, tcp, c') ← to_write x net;
      Some (on_node (cn_owner c) (set_tcp tcp nd) (on_conns
        (alter (received (write_message m)) (cn_other c) (<[x := c']> (nt_conns net))) net))
  | WriteBreaks x k =>
      '(c, nd, r, m, tcp, c') ← to_write x net;
      when (bool_decide (k < length (write_message m))%nat)
        (on_node (cn_owner c) (set_tcp (abort_outbound r x tcp) nd) (on_conns
          (alter (received (take k (write_message m))) (cn_other c) (<[x := stop_writer c']> (nt_conns net))) net))
  | Reads x =>
      '(c, nd) ← task_of x net; r ← reading c;
      match read_message (cn_stream c) with
      | Ok (m, rest) =>
          Some (on_node (cn_owner c) (set_tcp (emit (MessageReceived r m) (tn_tcp nd)) nd) (on_conns
            (<[x := left_to_read rest c]> (nt_conns net)) net))
      | _ => None
      end
  | ReadFails x =>
      '(c, nd) ← task_of x net; r ← reading c;
      Some (on_node (cn_owner c) (set_tcp (abort_outbound r x (tn_tcp nd)) nd) (on_conns
        (<[x := stop_writer (staged (Closing r) c)]> (nt_conns net)) net))
  | Releases x =>
      '(c, nd) ← task_of x net; r ← closing c;
      Some (on_node (cn_owner c) (set_tcp (release_slot r x (tn_tcp nd)) nd) (on_conns
        (<[x := staged Returned c]> (nt_conns net)) net))
  | Forgets x =>
      '(c, nd) ← task_of x net;
      when (is_stage c false false true)
        (on_node (cn_owner c) (forget_dial (cn_known c) nd) (on_conns
          (<[x := staged Over c]> (nt_conns net)) net))
  | Broadcasts a m =>
      nd ← nt_nodes net !! a;
      when (N.of_nat (length (encode m)) <=? U32)
        (MkNet (<[a := set_tcp (broadcast m (tn_tcp nd)).2 nd]> (nt_nodes net)) (nt_conns net)
           (nt_sent net ++ [(a, m)]))
  | Sends a p m =>
      nd ← nt_nodes net !! a;
      when (N.of_nat (length (encode m)) <=? U32)
        (MkNet (<[a := set_tcp (send_to p m (tn_tcp nd)).2 nd]> (nt_nodes net)) (nt_conns net)
           (nt_sent net ++ [(a, m)]))
  | TakesEvent a =>
      nd ← nt_nodes net !! a; Some (on_node a (set_tcp (next_event (tn_tcp nd)).2 nd) net)
  end.
Fixpoint tcp_acts (acts : list TcpAction) net : option Net :=
  match acts with
  | [] => Some net
  | act :: acts => net ← tcp_act act net; tcp_acts acts net
  end.

(** *** An action is a step, and a step an action *)
Lemma when_Some {A} (b : bool) (x y : A) : when b x = Some y ↔ b = true ∧ x = y.
Proof. unfold when. destruct b; split; [by intros [= ->]|by intros [_ ->]|done|by intros [? _]]. Qed.
Lemma task_of_Some x net c nd :
  task_of x net = Some (c, nd) ↔ nt_conns net !! x = Some c ∧ nt_nodes net !! cn_owner c = Some nd.
Proof.
  unfold task_of. split.
  - intros (c0 & Hc & (nd0 & Hnd & [= <- <-])%bind_Some)%bind_Some. done.
  - intros [-> Hnd]. simpl. by rewrite Hnd.
Qed.
Lemma reading_Some c r : reading c = Some r ↔ cn_stage c = Reading r.
Proof. unfold reading. destruct (cn_stage c); split; intros; simplify_eq; done. Qed.
Lemma closing_Some c r : closing c = Some r ↔ cn_stage c = Closing r.
Proof. unfold closing. destruct (cn_stage c); split; intros; simplify_eq; done. Qed.
Lemma to_write_Some x net c nd r m tcp c' :
  to_write x net = Some (c, nd, r, m, tcp, c') ↔
    nt_conns net !! x = Some c ∧ nt_nodes net !! cn_owner c = Some nd ∧ cn_stage c = Reading r ∧
    cn_writing c = true ∧ take_message r x (tn_tcp nd) c = Some (m, tcp, c').
Proof.
  unfold to_write. split.
  - intros ([c0 nd0] & [Hc Hnd]%task_of_Some & Hrest)%bind_Some.
    apply bind_Some in Hrest as (r0 & Hr%reading_Some & Hrest).
    apply bind_Some in Hrest as ([[m0 tcp0] c0'] & Ht & Hw). apply when_Some in Hw as [Hw [= -> -> -> -> -> ->]].
    done.
  - intros (Hc & Hnd & Hr & Hw & Ht). assert (task_of x net = Some (c, nd)) as -> by by apply task_of_Some.
    simpl. apply reading_Some in Hr as ->. simpl. rewrite Ht. simpl. by rewrite Hw.
Qed.

Ltac act_inv :=
  repeat match goal with
    | H : _ ≫= _ = Some _ |- _ => apply bind_Some in H as (? & ? & ?)
    | H : task_of _ _ = Some (_, _) |- _ => apply task_of_Some in H as [? ?]
    | H : to_write _ _ = Some _ |- _ => apply to_write_Some in H as (? & ? & ? & ? & ?)
    | H : reading _ = Some _ |- _ => apply reading_Some in H
    | H : closing _ = Some _ |- _ => apply closing_Some in H
    | H : when _ _ = Some _ |- _ => apply when_Some in H as [? ?]
    | H : bool_decide _ = true |- _ => apply bool_decide_eq_true_1 in H
    | x : (_ * _)%type |- _ => destruct x
    | H : _ ∧ _ |- _ => destruct H
    end; simplify_eq/=.
Lemma is_stage_inv c f g r : is_stage c f g r = true →
  (f = true ∧ cn_stage c = Fresh) ∨ (g = true ∧ cn_stage c = Greeting) ∨ (r = true ∧ cn_stage c = Returned).
Proof. unfold is_stage. destruct (cn_stage c); intros; simplify_eq; auto. Qed.
Lemma tcp_act_sound act net net' :
  tcp_act act net = Some net' → tcp_step bootstrap listens net net'.
Proof.
  destruct act; simpl; intros Hact; act_inv.
  - destruct (tn_pending _) eqn:?; act_inv. by apply st_retry.
  - destruct (tn_pending _) as [|[p addr] rest] eqn:?; act_inv. by apply st_spawn.
  - by eapply st_dial_failed.
  - eapply st_connected; done || by eexists.
  - apply st_greet; [done|]. by destruct (is_stage_inv _ _ _ _ H0) as [[]|[[]|[]]].
  - eapply st_handshake; [done..| |done|done]. by destruct (is_stage_inv _ _ _ _ H3) as [[]|[[]|[]]].
  - apply st_handshake_failed; [done|]. destruct (is_stage_inv _ _ _ _ H0) as [[]|[[]|[]]]; auto; done.
  - by eapply st_write.
  - by eapply st_write_failed.
  - destruct (read_message _) as [[m rest]|e|] eqn:?; act_inv. by eapply st_read.
  - by eapply st_read_failed.
  - by eapply st_release.
  - apply st_forget; [done..|]. by destruct (is_stage_inv _ _ _ _ H0) as [[]|[[]|[]]].
  - apply st_broadcast; [done|]. by apply N.leb_le.
  - apply st_send_to; [done|]. by apply N.leb_le.
  - by apply st_next_event.
Qed.
Lemma tcp_acts_sound acts net net' :
  tcp_acts acts net = Some net' → rtc (tcp_step bootstrap listens) net net'.
Proof.
  revert net. induction acts as [|act acts IH]; intros net; simpl; [by intros [= ->]|].
  intros (net1 & Hact & Hrest)%bind_Some. eapply rtc_l; [by eapply tcp_act_sound|by apply IH].
Qed.

Lemma task_of_eq x net c nd :
  nt_conns net !! x = Some c → nt_nodes net !! cn_owner c = Some nd → task_of x net = Some (c, nd).
Proof. intros. by apply task_of_Some. Qed.
Lemma tcp_act_complete net net' :
  tcp_step bootstrap listens net net' → ∃ act, tcp_act act net = Some net'.
Proof.
  intros Hstep. destruct Hstep as [net a nd Ha Hp|net a nd p addr rest Ha Hp|net a nd p addr Ha Hc
    |net a nd p addr b x y Ha Hc Hl [nb Hb] Hx Hy Hne|net x c Hx Hs|net x c nd b rest r Hx Hn Hs Hread Harr
    |net x c Hx Hs|net x c nd r m tcp c' Hx Hn Hs Hw Ht|net x c nd r m tcp c' k Hx Hn Hs Hw Ht Hk
    |net x c nd r m rest Hx Hn Hs Hread|net x c nd r Hx Hn Hs|net x c nd r Hx Hn Hs|net x c nd Hx Hn Hs
    |net a nd m Ha Hlen|net a nd p m Ha Hlen|net a nd Ha].
  - exists (Retry a). simpl. rewrite Ha. simpl. by rewrite Hp.
  - exists (Spawn a). simpl. rewrite Ha. simpl. by rewrite Hp.
  - exists (DialFails a p). simpl. rewrite Ha. simpl. by rewrite Hc.
  - exists (Connects a p x y). simpl. rewrite Ha. simpl. rewrite Hc. simpl. rewrite Hl. simpl. rewrite Hb. simpl.
    by rewrite bool_decide_true.
  - exists (Greets x). simpl. rewrite Hx. simpl. unfold is_stage. by rewrite Hs.
  - exists (Shakes x). simpl. erewrite task_of_eq by done. simpl. rewrite Hread. simpl. rewrite Harr. simpl.
    unfold is_stage. by rewrite Hs.
  - exists (ShakeFails x). simpl. rewrite Hx. simpl. unfold is_stage. by destruct Hs as [-> | ->].
  - exists (Writes x). simpl. by rewrite (proj2 (to_write_Some x net c nd r m tcp c')).
  - exists (WriteBreaks x k). simpl. rewrite (proj2 (to_write_Some x net c nd r m tcp c')) by done. simpl.
    by rewrite bool_decide_true.
  - exists (Reads x). simpl. erewrite task_of_eq by done. simpl. unfold reading. rewrite Hs. simpl. by rewrite Hread.
  - exists (ReadFails x). simpl. erewrite task_of_eq by done. simpl. unfold reading. by rewrite Hs.
  - exists (Releases x). simpl. erewrite task_of_eq by done. simpl. unfold closing. by rewrite Hs.
  - exists (Forgets x). simpl. erewrite task_of_eq by done. simpl. unfold is_stage. by rewrite Hs.
  - exists (Broadcasts a m). simpl. rewrite Ha. simpl. by rewrite (proj2 (N.leb_le _ _)).
  - exists (Sends a p m). simpl. rewrite Ha. simpl. by rewrite (proj2 (N.leb_le _ _)).
  - exists (TakesEvent a). simpl. by rewrite Ha.
Qed.
(** What the tasks can reach is what schedules reach. *)
Lemma tcp_reachable net net' :
  rtc (tcp_step bootstrap listens) net net' ↔ ∃ acts, tcp_acts acts net = Some net'.
Proof.
  split.
  - induction 1 as [net|net net1 net2 [act Hact]%tcp_act_complete _ [acts Hacts]]; [by exists []|].
    exists (act :: acts). simpl. by rewrite Hact.
  - intros [acts Hacts]. by eapply tcp_acts_sound.
Qed.

(** ** A test on a network

    [work] lets the tasks follow a schedule, which must be possible; the calls of a
    test are steps too, and a call on a transport that is not there panics. *)
Notation NT := (M Net string).
Definition work (acts : list TcpAction) : NT unit := λ net,
  match tcp_acts acts net with Some net' => (Ok tt, net') | None => (Panic, net) end.
(** A method of the transport [a], as the action [act]. *)
Definition api {A} (a : PeerId) (act : TcpAction) (m : M TcpTransport string A) : NT A := λ net,
  match nt_nodes net !! a, tcp_act act net with
  | Some nd, Some net' => ((m (tn_tcp nd)).1, net')
  | _, _ => (Panic, net)
  end.
Definition test_broadcast (a : PeerId) (m : Message) : NT unit := call (api a (Broadcasts a m) (broadcast m)).
Definition test_send_to (a p : PeerId) (m : Message) : NT unit := call (api a (Sends a p m) (send_to p m)).
(** [timeout(.., next_event())]: [None] when the time runs out. *)
Definition poll_event (a : PeerId) : NT (option NetworkEvent) := api a (TakesEvent a) next_event.
Definition expect_event (a : PeerId) : NT NetworkEvent := o ← poll_event a; lift (unwrap_some o).
Definition test_peer_count (a : PeerId) : NT nat :=
  nd ← reads (λ net, unwrap_some (nt_nodes net !! a)); mret (peer_count (tn_tcp nd)).

(** Whatever a test does is a run of the tasks. *)
Definition runs_tasks {A} (m : NT A) : Prop := ∀ net, rtc (tcp_step bootstrap listens) net (m net).2.
Lemma runs_work acts : runs_tasks (work acts).
Proof.
  intros net. unfold work. destruct (tcp_acts acts net) as [net'|] eqn:Hacts; [|done].
  by eapply tcp_acts_sound.
Qed.
Lemma runs_api {A} a act (m : M TcpTransport string A) : runs_tasks (api a act m).
Proof.
  intros net. unfold api. destruct (nt_nodes net !! a); [|done].
  destruct (tcp_act act net) as [net'|] eqn:Hact; [|done]. by eapply rtc_once, tcp_act_sound.
Qed.
Lemma runs_call {A} (m : NT A) : runs_tasks m → runs_tasks (call m).
Proof. intros Hm net. unfold call. specialize (Hm net). by destruct (m net). Qed.
Lemma runs_bind {A B} (m : NT A) (f : A → NT B) :
  runs_tasks m → (∀ x, runs_tasks (f x)) → runs_tasks (m ≫= f).
Proof.
  intros Hm Hf net. unfold mbind, M_bind. specialize (Hm net). destruct (m net) as [[x|e|] net1]; [|done..].
  etransitivity; [done|apply Hf].
Qed.
Lemma runs_lift {A} (o : outcome string A) : runs_tasks (lift o).
Proof. by intros net. Qed.
Lemma runs_reads {A} (f : Net → outcome string A) : runs_tasks (reads f).
Proof. by intros net. Qed.
End actions.
Create HintDb runs.
#[export] Hint Resolve runs_work runs_api runs_call runs_bind runs_lift runs_reads : runs.

(** ** The tests of [tcp.rs] *)
Module tcp_tests.
Section tests.
Context `{!Serde Message, Blake3}.
Definition peer_id (seed : string) : PeerId :=
  peer_from_public_key_hash (hash_bytes (String.list_byte_of_string seed)).
Definition id_a : PeerId := peer_id "a".
Definition id_b : PeerId := peer_id "b".
(** The peers of a test by port, and who was given whom. *)
Definition listening_at (port_a port_b : N) (port : N) : option PeerId :=
  if port =? port_a then Some id_a else if port =? port_b then Some id_b else None.
Definition given (to_a to_b : gmap PeerId N) (p : PeerId) : gmap PeerId N :=
  if decide (p = id_a) then to_a else if decide (p = id_b) then to_b else ∅.
Definition pair_net : TcpNet N := tcp_net_new [id_a; id_b].

(** [before] is the work up to the first event, [after] that after the message. *)
Definition two_peers_exchange_messages (before after : list TcpAction) : Test :=
  let boot := given ∅ {[id_a := 60010]} in
  let at_ := listening_at 60010 60011 in
  starting pair_net (
    _ ← work boot at_ before;
    event ← expect_event boot at_ id_b;
    _ ← lift (assert_eq event (PeerConnected id_a));
    _ ← test_send_to boot at_ id_a id_b Ping;
    _ ← work boot at_ after;
    event ← expect_event boot at_ id_b;
    lift (assert_eq event (MessageReceived id_a Ping))).
Definition broadcast_reaches_connected_peer (before after : list TcpAction) : Test :=
  let boot := given ∅ {[id_a := 60020]} in
  let at_ := listening_at 60020 60021 in
  starting pair_net (
    _ ← work boot at_ before;
    event ← expect_event boot at_ id_b;
    _ ← lift (assert_eq event (PeerConnected id_a));
    _ ← test_broadcast boot at_ id_a Pong;
    _ ← work boot at_ after;
    event ← expect_event boot at_ id_b;
    lift (assert_eq event (MessageReceived id_a Pong))).

(** The loop that drains duplicate events, which may be of connections only. *)
Fixpoint drain (boot : PeerId → gmap PeerId N) (at_ : N → option PeerId) (fuel : nat) (a : PeerId)
    : M (TcpNet N) string unit :=
  match fuel with
  | O => mret tt
  | S fuel =>
      o ← poll_event boot at_ a;
      match o with
      | Some (PeerConnected _) => drain boot at_ fuel a
      | Some _ => lift Panic
      | None => mret tt
      end
  end.
Definition boot_both : PeerId → gmap PeerId N := given {[id_b := 60032]} {[id_a := 60031]}.
Definition at_both : N → option PeerId := listening_at 60031 60032.
Definition bidirectional_bootstrap_forms_single_connection (before settling to_b to_a : list TcpAction) : Test :=
  starting pair_net (
    _ ← work boot_both at_both before;
    event_a ← expect_event boot_both at_both id_a;
    _ ← lift (assert_eq event_a (PeerConnected id_b));
    event_b ← expect_event boot_both at_both id_b;
    _ ← lift (assert_eq event_b (PeerConnected id_a));
    _ ← work boot_both at_both settling;
    _ ← drain boot_both at_both 100 id_a;
    _ ← drain boot_both at_both 100 id_b;
    count_a ← test_peer_count id_a;
    _ ← lift (assert_true (0 <? count_a)%nat);
    count_b ← test_peer_count id_b;
    _ ← lift (assert_true (0 <? count_b)%nat);
    _ ← test_send_to boot_both at_both id_a id_b Ping;
    _ ← work boot_both at_both to_b;
    event ← expect_event boot_both at_both id_b;
    _ ← lift (assert_eq event (MessageReceived id_a Ping));
    _ ← test_send_to boot_both at_both id_b id_a Pong;
    _ ← work boot_both at_both to_a;
    event ← expect_event boot_both at_both id_a;
    lift (assert_eq event (MessageReceived id_b Pong))).
End tests.
End tcp_tests.

(** ** [tests/bft_over_tcp.rs] *)
Module bft_over_tcp.
Section tests.
Context `{Profile, Hex, Blake3, Dalek, !Serde Account, !Serde (gmap string bytes)}.
Context `{!Serde ValidatorRecord, !Serde Delegation, !Serde Transaction, !Serde StakingOperation}.
Context `{!Serde BlockHeader, !Serde (list Transaction), !Serde Message, !Serde Vote}.
Notation Engine := (BftConsensus (StateStore InMemoryBackend)).
Implicit Types (i : nat).

(** The test owns an engine for each validator, and the network of their
    transports. *)
Record Lab := MkLab { lab_engines : gmap nat Engine; lab_net : TcpNet N }.
Definition set_net (net : TcpNet N) (l : Lab) : Lab := MkLab (lab_engines l) net.
Definition on_net {A} (m : M (TcpNet N) string A) : M Lab string A := zoom lab_net set_net m.
(** A call on [consensus_engines[i]], which panics out of range. *)
Definition on_engine {E A} (i : nat) (m : M Engine E A) : M Lab string A := λ l,
  match lab_engines l !! i with
  | Some engine =>
      let '(o, engine) := m engine in (unwrap o, MkLab (<[i := engine]> (lab_engines l)) (lab_net l))
  | None => (Panic, l)
  end.

Definition validators : list Address := [addr "v0"; addr "v1"; addr "v2"; addr "v3"].
Definition validator_set : ValidatorSet := from_validators ((λ a, MkValidator a 1) <$> validators).
Definition validator_peer i : PeerId := tcp_tests.peer_id ("v" +:+ pretty (N.of_nat i)).
Definition port i : N := 61101 + N.of_nat i.
(** Each validator dials those after it. *)
Definition bootstrap (p : PeerId) : gmap PeerId N :=
  match list_find (λ i, validator_peer i = p) (seq 0 4) with
  | Some (_, i) => list_to_map ((λ j, (validator_peer j, port j)) <$> seq (S i) (3 - i))
  | None => ∅
  end.
Definition listens (n : N) : option PeerId :=
  '(_, i) ← list_find (λ i, port i = n) (seq 0 4); Some (validator_peer i).
Notation poll i := (on_net (poll_event bootstrap listens (validator_peer i))).
Notation tasks acts := (on_net (work bootstrap listens acts)).

(** [wait_for_all_peers]: two hundred polls. *)
Fixpoint wait_for_all_peers (polls : nat) i (expected connected : gset PeerId) : M Lab string unit :=
  match polls with
  | O => lift Panic
  | S polls =>
      if bool_decide (connected = expected) then mret tt
      else
        o ← poll i;
        match o with
        | Some (PeerConnected p) => wait_for_all_peers polls i expected ({[p]} ∪ connected)
        | _ => wait_for_all_peers polls i expected connected
        end
  end.
(** [expect_block] and [expect_vote]: a hundred polls. *)
Fixpoint expect_block (polls : nat) i : M Lab string Block :=
  match polls with
  | O => lift Panic
  | S polls =>
      o ← poll i;
      match o with
      | Some (MessageReceived _ (MsgBlock b)) => mret b
      | _ => expect_block polls i
      end
  end.
Fixpoint expect_vote (polls : nat) i : M Lab string Vote :=
  match polls with
  | O => lift Panic
  | S polls =>
      o ← poll i;
      match o with
      | Some (MessageReceived _ (MsgVote b)) => lift (unwrap (decode b))
      | _ => expect_vote polls i
      end
  end.

(** The other validators' turn: the block arrives, the vote is sent back. *)
Definition vote_back (proposer_index : nat) (block : Block) i : M Lab string unit :=
  received ← expect_block 100 i;
  _ ← lift (assert_eq (block_hash received) (block_hash block));
  _ ← on_engine i (ce_handle_proposal (proposal_of_block received));
  o ← on_engine (E:=string) i (gets (own_vote 1));
  vote ← lift (unwrap_some o);
  on_net (test_send_to bootstrap listens (validator_peer i) (validator_peer proposer_index)
            (MsgVote (encode vote))).
Definition collect_vote (proposer_index : nat) (_ : nat) : M Lab string unit :=
  vote ← expect_vote 100 proposer_index; on_engine proposer_index (ce_handle_vote vote).
Definition lab_new : outcome string Lab :=
  engines ← foldr (λ i acc, es ← acc; a ← unwrap_some (validators !! i);
                     e ← unwrap (bft_new a validator_set); Ok (<[i := e]> es)) (Ok ∅) (seq 0 4);
  Ok (MkLab engines (tcp_net_new (validator_peer <$> seq 0 4))).
(** The work of the tasks while the validators connect, while the block travels
    and while the votes do; [now] and [later] are the clock. *)
Definition four_validators_finalize_block_over_tcp (connecting block_travels votes_travel : list TcpAction)
    (now later : N) : Test :=
  lab ← lab_new;
  starting lab (
    _ ← tasks connecting;
    _ ← forM (λ i, wait_for_all_peers 200 i
          (list_to_set (validator_peer <$> filter (λ j, j ≠ i) (seq 0 4))) ∅) (seq 0 4);
    o ← lift (proposer validator_set 1 0);
    proposer_addr ← lift (unwrap_some o);
    '(proposer_index, _) ← lift (unwrap_some (list_find (λ a, a = proposer_addr) validators));
    block ← on_engine proposer_index (ce_propose 1 [] now);
    _ ← on_net (test_broadcast bootstrap listens (validator_peer proposer_index) (MsgBlock block));
    _ ← tasks block_travels;
    _ ← forM (vote_back proposer_index block) (filter (λ i, i ≠ proposer_index) (seq 0 4));
    _ ← tasks votes_travel;
    _ ← forM (collect_vote proposer_index) (seq 0 3);
    finality ← on_engine proposer_index (ce_finalize (block_hash block) later);
    _ ← lift (assert_eq (block_hash (fin_block finality)) (block_hash block));
    h ← on_engine (E:=string) proposer_index (gets ce_height);
    lift (assert_eq h 1)).
End tests.
End bft_over_tcp.

(** ** The runs *)
Module TcpTestRuns.
Import Reference tcp_tests.
#[local] Existing Instance dev.

(** [b] dials [a]: 1 is the dialling task, 2 the accepting one. *)
Definition b_dials : list TcpAction :=
  [Retry id_b; Spawn id_b; Connects id_b id_a 1 2; Greets 1; Greets 2; Shakes 1; Shakes 2].
(** Both dial: 1 and 2 are the ends of the socket [a] opens, 3 and 4 those of
    [b]'s, which takes both slots. *)
Definition both_dial : list TcpAction :=
  [Retry id_a; Spawn id_a; Connects id_a id_b 1 2; Retry id_b; Spawn id_b; Connects id_b id_a 3 4;
   Greets 1; Greets 2; Greets 3; Greets 4; Shakes 1; Shakes 2; Shakes 3; Shakes 4].
Definition old_socket_closes : list TcpAction :=
  [ReadFails 1; ReadFails 2; Releases 1; Releases 2; Forgets 1; Forgets 2].
Lemma tcp_tests_pass :
  all_pass [two_peers_exchange_messages b_dials [Writes 2; Reads 1];
    broadcast_reaches_connected_peer b_dials [Writes 2; Reads 1];
    bidirectional_bootstrap_forms_single_connection both_dial old_socket_closes
      [Writes 4; Reads 3] [Writes 3; Reads 4]] = true.
Proof. vm_compute. reflexivity. Qed.

(** The ping that tells the handler of a replaced socket is no notice to it: its
    writer sends it to the other end, where the application gets a message that
    nobody sent.  With that schedule the test of two peers dialling each other
    fails, since it expects connection events only. *)
Definition ping_escapes : list TcpAction := both_dial ++ [Writes 1; Reads 2].
Definition ping_net : TcpNet N := default pair_net (tcp_acts boot_both at_both ping_escapes pair_net).
Definition events_at (p : PeerId) (net : TcpNet N) : list NetworkEvent :=
  from_option (λ nd, tcp_events (tn_tcp nd)) [] (nt_nodes net !! p).
Lemma replaced_socket_delivers_ping :
  rtc (tcp_step boot_both at_both) pair_net ping_net ∧
  MessageReceived id_a Ping ∈ events_at id_b ping_net ∧ nt_sent ping_net = [].
Proof.
  split_and!; [|refine (bool_decide_eq_true_1 _ _); vm_compute; reflexivity|vm_compute; reflexivity].
  apply tcp_reachable. exists ping_escapes. unfold ping_net.
  assert (bool_decide (is_Some (tcp_acts boot_both at_both ping_escapes pair_net)) = true) as Hok
    by (vm_compute; reflexivity).
  by apply bool_decide_eq_true_1 in Hok as [net ->].
Qed.
Lemma bidirectional_test_can_fail to_b to_a :
  bidirectional_bootstrap_forms_single_connection both_dial [Writes 1; Reads 2] to_b to_a = Panic.
Proof. vm_compute. reflexivity. Qed.

(** The four validators: the task [10 i + j] is the end at [i] of the socket
    between [i] and [j]. *)
Section committee.
Import bft_over_tcp.
Definition link (i j : nat) : N := N.of_nat (10 * i + j).
Definition socket (i j : nat) : list TcpAction :=
  [Connects (validator_peer i) (validator_peer j) (link i j) (link j i);
   Greets (link i j); Greets (link j i); Shakes (link i j); Shakes (link j i)].
Definition all_connect : list TcpAction :=
  concat ((λ i, Retry (validator_peer i) :: replicate (3 - i) (Spawn (validator_peer i))) <$> seq 0 4) ++
  concat ((λ i, concat (socket i <$> seq (S i) (3 - i))) <$> seq 0 4).
(** The proposer of height 1 is the second validator. *)
Definition block_travels : list TcpAction := concat ((λ i, [Writes (link 1 i); Reads (link i 1)]) <$> [0; 2; 3]%nat).
Definition votes_travel : list TcpAction := concat ((λ i, [Writes (link i 1); Reads (link 1 i)]) <$> [0; 2; 3]%nat).
Lemma bft_over_tcp_passes :
  passes (four_validators_finalize_block_over_tcp all_connect block_travels votes_travel 5 9).
Proof. vm_compute. reflexivity. Qed.
End committee.
End TcpTestRuns.
